(** * Memory-management core of the whu-oslab teaching kernel

    A shallow embedding of the physical frame allocator (pmem.c), the
    Sv39 page-table walker and mapping engine (vmem.c / kvm.c) and the
    user address-space code (uvm.c), in the lab variants the repository
    carries side by side:

    - [Week3]   : week3/whu-oslab-lab1/kernel/mem/{pmem.c,vmem.c}
    - [Syscall] : 系统调用/kernel/mem/{pmem.c,kvm.c,uvm.c}
    - [Lab6]    : 系统调用（lab6)/kernel/mem/{kvm.c,uvm.c} on top of
                  文件系统（lab7)/whu-oslab-lab6/kernel/mem/pmem.c
    - [Mmap]    : 系统调用/kernel/mem/mmap.c, with [uvm_mmap] and
                  [uvm_munmap] of 系统调用/kernel/mem/uvm.c

    Physical memory is a total map from byte addresses to bytes; a
    [uint64] is a [Z] whose wrap-around is written out; [panic] (and a
    failed [assert], which calls it) is the [Panic] outcome. *)

From Stdlib Require Import String ZArith List Lia Bool Permutation.
Import ListNotations.
Open Scope Z_scope.

(* ================================================================== *)
(** * Machine integers *)

Definition wrap64 (z : Z) : Z := z mod 2 ^ 64.
Definition wrap32 (z : Z) : Z := z mod 2 ^ 32.

(* ================================================================== *)
(** * Outcomes *)

(** [panic] prints and spins forever: the core never continues, so the
    computation has no resulting state.  [NullDeref] is a load or store
    through a NULL pointer. *)
Inductive result (A : Type) : Type :=
| Ok (a : A)
| Panic (msg : string)
| NullDeref.
Arguments Ok {A} a.
Arguments Panic {A} msg.
Arguments NullDeref {A}.

Definition bind {A B : Type} (r : result A) (k : A -> result B) : result B :=
  match r with
  | Ok a => k a
  | Panic s => Panic s
  | NullDeref => NullDeref
  end.

Notation "x <- r ;; k" := (bind r (fun x => k))
  (at level 61, r at next level, right associativity).
Notation "' pat <- r ;; k" := (bind r (fun x => match x with pat => k end))
  (at level 61, pat pattern, r at next level, right associativity).

Definition is_panic {A : Type} (r : result A) : bool :=
  match r with Panic _ => true | _ => false end.

Definition is_ok {A : Type} (r : result A) : bool :=
  match r with Ok _ => true | _ => false end.

(** [assert(cond, msg)] of lib/print.c. *)
Definition assert (condition : bool) (warning : string) : result unit :=
  if condition then Ok tt else Panic warning.

(** One [printf] call: its format string and its arguments. *)
Inductive event : Type :=
| Print (fmt : string) (args : list Z).

(* ================================================================== *)
(** * Physical memory *)

Definition memory : Type := Z -> Z.

Definition PGSIZE : Z := 4096.

Definition load8 (m : memory) (a : Z) : Z := m a mod 256.

Definition store8 (m : memory) (a v : Z) : memory :=
  fun x => if x =? a then v mod 256 else m x.

(** Little-endian load of [n] bytes. *)
Fixpoint load_le (m : memory) (a : Z) (n : nat) : Z :=
  match n with
  | O => 0
  | S k => load8 m a + 256 * load_le m (a + 1) k
  end.

Definition load64 (m : memory) (a : Z) : Z := load_le m a 8.

Definition store64 (m : memory) (a v : Z) : memory :=
  fun x => if (a <=? x) && (x <? a + 8)
           then (v / 256 ^ (x - a)) mod 256
           else m x.

(** [memset(dst, c, n)] *)
Definition memset (m : memory) (dst c n : Z) : memory :=
  fun x => if (dst <=? x) && (x <? dst + n) then c mod 256 else m x.

(** [memmove(dst, src, n)]: the bytes are read before any is written. *)
Definition memmove (m : memory) (dst src n : Z) : memory :=
  fun x => if (dst <=? x) && (x <? dst + n) then m (src + (x - dst)) else m x.

(* ================================================================== *)
(** * Sv39 encoding shared by the variants (memlayout.h / riscv.h) *)

Definition PTE_V : Z := 1.
Definition PTE_R : Z := 2.
Definition PTE_W : Z := 4.
Definition PTE_X : Z := 8.
Definition PTE_U : Z := 16.
Definition PTE_G : Z := 32.
Definition PTE_A : Z := 64.
Definition PTE_D : Z := 128.

(** [#define VA_SHIFT(level) (12 + 9 * (level))] *)
Definition VA_SHIFT (level : Z) : Z := 12 + 9 * level.

(** [#define VA_TO_VPN(va,level) ((((uint64)(va)) >> VA_SHIFT(level)) & 0x1FF)] *)
Definition VA_TO_VPN (va level : Z) : Z :=
  Z.land (Z.shiftr va (VA_SHIFT level)) 511.

(** [#define PA_TO_PTE(pa) ((((uint64)(pa)) >> 12) << 10)] *)
Definition PA_TO_PTE (pa : Z) : Z := wrap64 (Z.shiftl (Z.shiftr pa 12) 10).

(** [#define PTE_TO_PA(pte) (((pte) >> 10) << 12)] *)
Definition PTE_TO_PA (pte : Z) : Z := wrap64 (Z.shiftl (Z.shiftr pte 10) 12).

(** [#define PTE_FLAGS(pte) ((pte) & 0x3FF)] *)
Definition PTE_FLAGS (pte : Z) : Z := Z.land pte 1023.

(** [#define PTE_CHECK(pte) (((pte) & (PTE_R | PTE_W | PTE_X)) == 0)] *)
Definition PTE_CHECK (pte : Z) : bool := Z.land pte 14 =? 0.

(** [#define PTE_IS_TABLE(pte) (((pte) & (PTE_V|PTE_R|PTE_W|PTE_X)) == PTE_V)] *)
Definition PTE_IS_TABLE (pte : Z) : bool := Z.land pte 15 =? PTE_V.

(** [pte & PTE_V] and [pte & PTE_U] used as conditions. *)
Definition pte_valid (pte : Z) : bool := negb (Z.land pte PTE_V =? 0).
Definition pte_user (pte : Z) : bool := negb (Z.land pte PTE_U =? 0).

(** [#define PG_ROUND_UP(sz) (((sz)+PGSIZE-1) & ~(PGSIZE-1))] *)
Definition PG_ROUND_UP (sz : Z) : Z := Z.land (wrap64 (sz + PGSIZE - 1)) (wrap64 (Z.lnot (PGSIZE - 1))).

(** [#define PG_ROUND_DOWN(a) (((a)) & ~(PGSIZE-1))] *)
Definition PG_ROUND_DOWN (a : Z) : Z := Z.land a (wrap64 (Z.lnot (PGSIZE - 1))).

(** Conversion of an [int] operand to [uint64] (sign extension). *)
Definition int_to_u64 (i : Z) : Z := wrap64 i.


(* ================================================================== *)
(** * Vocabulary of the statements *)

(** A frame: a page-aligned physical address that fits a [uint64]. *)
Definition is_frameb (f : Z) : bool := (0 <=? f) && (f <? 2 ^ 64) && (f mod PGSIZE =? 0).
Fixpoint distinctb (l : list Z) : bool :=
  match l with
  | [] => true
  | x :: r => negb (existsb (Z.eqb x) r) && distinctb r
  end.
Definition frames_ok (l : list Z) : bool := forallb is_frameb l && distinctb l.

(** The leaf entry [vm_mappages] writes: [PA_TO_PTE(pa) | perm | PTE_V]. *)
Definition leaf_pte (pa perm : Z) : Z :=
  Z.lor (Z.lor (PA_TO_PTE pa) (int_to_u64 perm)) PTE_V.

(** Bytes of the three entries the walk of [va] reads. *)
Definition on_path (root t1 t0 va x : Z) : Prop :=
  root + 8 * VA_TO_VPN va 2 <= x < root + 8 * VA_TO_VPN va 2 + 8 \/
  t1 + 8 * VA_TO_VPN va 1 <= x < t1 + 8 * VA_TO_VPN va 1 + 8 \/
  t0 + 8 * VA_TO_VPN va 0 <= x < t0 + 8 * VA_TO_VPN va 0 + 8.

(** The state of an [Ok] outcome ([d] otherwise). *)
Definition get_ok {A : Type} (r : result A) (d : A) : A :=
  match r with Ok a => a | _ => d end.

(** The free list as it lies in memory: [h] is the first frame, the
    first word of each frame holds the address of the next one, and 0
    ends the list. *)
Fixpoint flist (m : memory) (h : Z) (l : list Z) : Prop :=
  match l with
  | [] => h = 0
  | f :: l' => h = f /\ f <> 0 /\ flist m (load64 m f) l'
  end.

(** [f] is a frame of the region [b, e). *)
Definition frame_in (b e f : Z) : Prop :=
  0 <= f < 2 ^ 64 /\ f mod PGSIZE = 0 /\ b <= f < e.

(** A page-table or data frame: non-null, page-aligned, within [uint64]. *)
Definition good_frame (f : Z) : Prop :=
  f <> 0 /\ 0 <= f < 2 ^ 64 /\ f mod PGSIZE = 0.

(** The byte address [x] lies in none of the frames of [l]. *)
Definition off_frames (l : list Z) (x : Z) : Prop :=
  forall f, In f l -> x < f \/ f + PGSIZE <= x.

(** The tables of the tree under [root]: every valid entry of the root
    points to a frame of [N1] and every valid entry of a table of [N1]
    to a frame of [N0]. *)
Definition tables_closed (m : memory) (root : Z) (N1 N0 : list Z) : Prop :=
  (forall i, 0 <= i < 512 ->
     pte_valid (load64 m (root + 8 * i)) = true ->
     In (PTE_TO_PA (load64 m (root + 8 * i))) N1) /\
  (forall t i, In t N1 -> 0 <= i < 512 ->
     pte_valid (load64 m (t + 8 * i)) = true ->
     In (PTE_TO_PA (load64 m (t + 8 * i))) N0).

(** The free list as it reads from memory, at most [n] frames of it. *)
Fixpoint free_frames (n : nat) (m : memory) (h : Z) : list Z :=
  match n with
  | O => []
  | S n' => if h =? 0 then [] else h :: free_frames n' m (load64 m h)
  end.

(** Boolean versions of [flist], [frame_in], [good_frame] and
    [tables_closed], for concrete states. *)
Fixpoint flistb (m : memory) (h : Z) (l : list Z) : bool :=
  match l with
  | [] => h =? 0
  | f :: l' => (h =? f) && negb (f =? 0) && flistb m (load64 m f) l'
  end.

Definition frame_inb (b e f : Z) : bool :=
  is_frameb f && (b <=? f) && (f <? e).

Definition good_frameb (f : Z) : bool := negb (f =? 0) && is_frameb f.

Definition entries_inb (m : memory) (t : Z) (N : list Z) : bool :=
  forallb (fun i => implb (pte_valid (load64 m (t + 8 * i)))
                          (existsb (Z.eqb (PTE_TO_PA (load64 m (t + 8 * i)))) N))
          (map Z.of_nat (seq 0 512)).

Definition tables_closedb (m : memory) (root : Z) (N1 N0 : list Z) : bool :=
  entries_inb m root N1 && forallb (fun t => entries_inb m t N0) N1.

(** An entry [destroy_pgtbl] takes for a table: valid, without R, W
    and X. *)
Definition is_table_entry (e : Z) : Prop :=
  pte_valid e = true /\ Z.land e (Z.lor (Z.lor PTE_R PTE_W) PTE_X) = 0.

(* ================================================================== *)
(** * week3/whu-oslab-lab1: pmem.c and vmem.c *)

Module Week3.

(** memlayout.h *)
Definition KERNEL_PAGES : Z := 1024.
Definition VA_MAX : Z := 0x7FFFFFFFFF.
Definition PHYS_BASE : Z := 0x80000000.
Definition PHYS_SIZE : Z := 128 * 1024 * 1024.
Definition PHYS_TOP : Z := PHYS_BASE + PHYS_SIZE.

(** The anonymous [kmem] struct of pmem.c (the lock is not modelled). *)
Record kmem_t : Type := mk_kmem {
  freelist_kernel : Z;
  freelist_user : Z;
  kernel_pages_used : Z;
  user_pages_used : Z
}.

(** Machine state: physical memory, the allocator, the linker symbol
    [end] (never written) and what [printf] has output so far. *)
Record state : Type := mk_state {
  mem : memory;
  kmem : kmem_t;
  end_ : Z;
  console : list event
}.

Definition set_mem (st : state) (m : memory) : state :=
  mk_state m (kmem st) (end_ st) (console st).

Definition set_kmem (st : state) (k : kmem_t) : state :=
  mk_state (mem st) k (end_ st) (console st).

Definition printf (st : state) (fmt : string) (args : list Z) : state :=
  mk_state (mem st) (kmem st) (end_ st) (console st ++ [Print fmt args]).

(** [void *pmem_alloc(bool in_kernel)] *)
Definition pmem_alloc (st : state) (in_kernel : bool) : state * Z :=
  let k := kmem st in
  let r := if in_kernel then freelist_kernel k else freelist_user k in
  let st1 :=
    if in_kernel then
      if r =? 0 then st
      else set_kmem st (mk_kmem (load64 (mem st) r) (freelist_user k)
                                (wrap64 (kernel_pages_used k + 1)) (user_pages_used k))
    else
      if r =? 0 then st
      else set_kmem st (mk_kmem (freelist_kernel k) (load64 (mem st) r)
                                (kernel_pages_used k) (wrap64 (user_pages_used k + 1))) in
  let st2 :=
    if in_kernel && (r =? 0)
    then printf st1 "pmem_alloc: kernel out of memory\n" []
    else st1 in
  (st2, r).

(** [void pmem_free(void *pa, bool in_kernel)].  The three checks only
    print (their panics are commented out), so every [pa] reaches the
    [memset] and the store of [r->next]; for a NULL [pa] these go
    through NULL. *)
Definition pmem_free (st : state) (pa : Z) (in_kernel : bool) : result state :=
  let st1 :=
    if negb (pa mod PGSIZE =? 0) || (pa <? PG_ROUND_UP (end_ st)) || (PHYS_TOP <=? pa)
    then printf st "pmem_free: invalid physical address %p" [pa]
    else st in
  let kernel_mem_end := PG_ROUND_UP (end_ st) + KERNEL_PAGES * PGSIZE in
  let st2 :=
    if in_kernel && (kernel_mem_end <=? pa)
    then printf st1 "pmem_free: trying to free user page as kernel page %p" [pa]
    else st1 in
  let st3 :=
    if negb in_kernel && (pa <? kernel_mem_end)
    then printf st2 "pmem_free: trying to free kernel page as user page %p" [pa]
    else st2 in
  if pa =? 0 then NullDeref
  else
    let m1 := memset (mem st3) pa 0xaa PGSIZE in
    let k := kmem st3 in
    if in_kernel then
      Ok (set_kmem (set_mem st3 (store64 m1 pa (freelist_kernel k)))
                   (mk_kmem pa (freelist_user k)
                            (wrap64 (kernel_pages_used k - 1)) (user_pages_used k)))
    else
      Ok (set_kmem (set_mem st3 (store64 m1 pa (freelist_user k)))
                   (mk_kmem (freelist_kernel k) pa
                            (kernel_pages_used k) (wrap64 (user_pages_used k - 1)))).

(** The loop of [vm_getpte]: [level] counts down from 2 while [> 0];
    [pte] is the address of the entry under inspection.  The result is
    the address of the level-0 entry, or 0 for NULL. *)
Fixpoint vm_getpte_loop (level : nat) (st : state) (pte va : Z) (alloc : bool)
  : state * Z :=
  match level with
  | O => (st, pte)
  | S level' =>
    if negb (pte_valid (load64 (mem st) pte)) then
      if negb alloc then
        (printf st "  Level %d: pte not valid and not allocating\n" [Z.of_nat level], 0)
      else
        let '(st1, pa) := pmem_alloc st true in
        if pa =? 0 then
          (printf st1 "  Level %d: failed to allocate page table\n" [Z.of_nat level], 0)
        else
          let m1 := memset (mem st1) pa 0 PGSIZE in
          let m2 := store64 m1 pte (Z.lor (Z.lor (PA_TO_PTE pa) PTE_V) PTE_G) in
          let st2 := printf (set_mem st1 m2)
                       "  Level %d: created new kernel page table at 0x%lx, pte=0x%lx\n"
                       [Z.of_nat level; pa; load64 m2 pte] in
          let next_pgtbl := PTE_TO_PA (load64 (mem st2) pte) in
          vm_getpte_loop level' st2 (next_pgtbl + 8 * VA_TO_VPN va (Z.of_nat level')) va alloc
    else
      let next_pgtbl := PTE_TO_PA (load64 (mem st) pte) in
      vm_getpte_loop level' st (next_pgtbl + 8 * VA_TO_VPN va (Z.of_nat level')) va alloc
  end.

(** [pte_t *vm_getpte(pgtbl_t pgtbl, uint64 va, bool alloc)] *)
Definition vm_getpte (st : state) (pgtbl va : Z) (alloc : bool) : state * Z :=
  vm_getpte_loop 2 st (pgtbl + 8 * VA_TO_VPN va 2) va alloc.

(** The [for (i = 0; i < len; i += PGSIZE)] loop of [vm_mappages];
    [len] is a multiple of [PGSIZE] there, so it runs [len / PGSIZE]
    times. *)
Fixpoint vm_mappages_loop (n : nat) (st : state) (pgtbl va pa i perm : Z)
  : result state :=
  match n with
  | O => Ok st
  | S n' =>
    let '(st1, pte) := vm_getpte st pgtbl (wrap64 (va + i)) true in
    if pte =? 0 then Panic "vm_mappages: vm_getpte failed"
    else
      let st2 :=
        if pte_valid (load64 (mem st1) pte)
        then printf st1 "vm_mappages: va 0x%lx already mapped, overwriting\n"
                    [wrap64 (va + i)]
        else st1 in
      let v := Z.lor (Z.lor (PA_TO_PTE (wrap64 (pa + i))) (int_to_u64 perm)) PTE_V in
      vm_mappages_loop n' (set_mem st2 (store64 (mem st2) pte v))
                       pgtbl va pa (i + PGSIZE) perm
  end.

(** [void vm_mappages(pgtbl_t pgtbl, uint64 va, uint64 pa, uint64 len, int perm)] *)
Definition vm_mappages (st : state) (pgtbl va pa len perm : Z) : result state :=
  if negb (va mod PGSIZE =? 0) || negb (pa mod PGSIZE =? 0) || negb (len mod PGSIZE =? 0)
  then Panic "vm_mappages: addresses or length not page-aligned"
  else if negb (Z.land perm (Z.lnot (Z.lor (Z.lor (Z.lor (Z.lor PTE_R PTE_W) PTE_X) PTE_U) PTE_G)) =? 0)
  then Panic "vm_mappages: invalid permissions"
  else vm_mappages_loop (Z.to_nat (len / PGSIZE)) st pgtbl va pa 0 perm.

(** The loop of [vm_unmappages].  The panic on a missing entry is
    commented out in the source, so a NULL [pte] is dereferenced; a
    leaf whose frame number is 0 hands NULL to [pmem_free]. *)
Fixpoint vm_unmappages_loop (n : nat) (st : state) (pgtbl va i : Z) (freeit : bool)
  : result state :=
  match n with
  | O => Ok st
  | S n' =>
    let '(st1, pte) := vm_getpte st pgtbl (wrap64 (va + i)) false in
    if pte =? 0 then NullDeref
    else
      st2 <- (if freeit then
                let kernel_mem_end := PG_ROUND_DOWN (end_ st1) + KERNEL_PAGES * PGSIZE in
                let pa := PTE_TO_PA (load64 (mem st1) pte) in
                let in_kernel := pa <? kernel_mem_end in
                pmem_free st1 pa in_kernel
              else Ok st1) ;;
      vm_unmappages_loop n' (set_mem st2 (store64 (mem st2) pte 0))
                         pgtbl va (i + PGSIZE) freeit
  end.

(** [void vm_unmappages(pgtbl_t pgtbl, uint64 va, uint64 len, bool freeit)] *)
Definition vm_unmappages (st : state) (pgtbl va len : Z) (freeit : bool)
  : result state :=
  if negb (va mod PGSIZE =? 0) || negb (len mod PGSIZE =? 0)
  then Panic "vm_unmappages: addresses or length not page-aligned"
  else vm_unmappages_loop (Z.to_nat (len / PGSIZE)) st pgtbl va 0 freeit.

(** [uint64 vm_walkaddr(pgtbl_t pgtbl, uint64 va)] *)
Definition vm_walkaddr (st : state) (pgtbl va : Z) : state * Z :=
  if VA_MAX <? va then (st, 0)
  else
    let '(st1, pte) := vm_getpte st pgtbl va false in
    if (pte =? 0) || negb (pte_valid (load64 (mem st1) pte)) then (st1, 0)
    else if PTE_IS_TABLE (load64 (mem st1) pte) then (st1, 0)
    else (st1, wrap64 (PTE_TO_PA (load64 (mem st1) pte) + Z.land va (PGSIZE - 1))).

(** [pgtbl_t vm_create()] *)
Definition vm_create (st : state) : state * Z :=
  let '(st1, pgtbl) := pmem_alloc st true in
  if pgtbl =? 0 then (st1, 0)
  else (set_mem st1 (memset (mem st1) pgtbl 0 PGSIZE), pgtbl).


(** ** Vocabulary of the statements about week3 *)

(** The three page-table frames the creating walk of [va] goes through,
    read off the state before the walk: a table that exists is taken
    from its parent entry, one that does not is the next frame of the
    kernel free list. *)
Definition walk_t1 (st : state) (root va : Z) : Z :=
  let e2 := load64 (mem st) (root + 8 * VA_TO_VPN va 2) in
  if pte_valid e2 then PTE_TO_PA e2 else freelist_kernel (kmem st).

Definition walk_t0 (st : state) (root va : Z) : Z :=
  let e2 := load64 (mem st) (root + 8 * VA_TO_VPN va 2) in
  if pte_valid e2 then
    let e1 := load64 (mem st) (PTE_TO_PA e2 + 8 * VA_TO_VPN va 1) in
    if pte_valid e1 then PTE_TO_PA e1 else freelist_kernel (kmem st)
  else load64 (mem st) (freelist_kernel (kmem st)).

Definition walk_frames (st : state) (root va : Z) : list Z :=
  [root; walk_t1 st root va; walk_t0 st root va].

(** Whether the non-creating walk of [va] ends at a valid leaf entry:
    the three entries on the way are valid. *)
Definition leaf_valid (st : state) (root va : Z) : bool :=
  let e2 := load64 (mem st) (root + 8 * VA_TO_VPN va 2) in
  let e1 := load64 (mem st) (PTE_TO_PA e2 + 8 * VA_TO_VPN va 1) in
  let e0 := load64 (mem st) (PTE_TO_PA e1 + 8 * VA_TO_VPN va 0) in
  pte_valid e2 && pte_valid e1 && pte_valid e0.

(** A small machine for the examples: [end] at 0x80200000 and the four
    frames above it handed to the kernel free list by [pmem_free], the
    way [pmem_init] fills it. *)
Definition boot : state :=
  let s0 := mk_state (fun _ => 0) (mk_kmem 0 0 0 0) 0x80200000 [] in
  get_ok (s1 <- pmem_free s0 0x80204000 true ;;
          s2 <- pmem_free s1 0x80203000 true ;;
          s3 <- pmem_free s2 0x80202000 true ;;
          pmem_free s3 0x80201000 true) s0.

(** [boot] after [vm_create]: the root table is the frame 0x80201000. *)
Definition boot_root : Z := snd (vm_create boot).
Definition booted : state := fst (vm_create boot).

(** [booted] with the page 0x1000 mapped to the frame 0x80300000,
    readable and writable. *)
Definition mapped : state :=
  get_ok (vm_mappages booted boot_root 0x1000 0x80300000 PGSIZE (Z.lor PTE_R PTE_W)) booted.

End Week3.

(* ================================================================== *)
(** * 系统调用: pmem.c, kvm.c and uvm.c *)

Module Syscall.

(** riscv.h: [#define VA_MAX (1ul << 38)]; pmem.c: [#define KERN_PAGES 1024] *)
Definition VA_MAX : Z := 2 ^ 38.
Definition KERN_PAGES : Z := 1024.

(** memlayout.h of this variant is not in the tree; these are the
    definitions of its sibling 系统调用（lab6)/include/memlayout.h:
    [#define TRAMPOLINE (VA_MAX - PGSIZE)] and
    [#define TRAPFRAME (TRAMPOLINE - PGSIZE)]. *)
Definition TRAMPOLINE : Z := VA_MAX - PGSIZE.
Definition TRAPFRAME : Z := TRAMPOLINE - PGSIZE.

(** [alloc_region_t] (the lock is not modelled); [list_head] is
    [list_head.next], the first free frame or 0. *)
Record alloc_region : Type := mk_region {
  begin : Z;
  end_ : Z;
  allocable : Z;
  list_head : Z
}.

Record state : Type := mk_state {
  mem : memory;
  kern_region : alloc_region;
  user_region : alloc_region
}.

Definition region (st : state) (in_kernel : bool) : alloc_region :=
  if in_kernel then kern_region st else user_region st.

Definition set_region (st : state) (in_kernel : bool) (r : alloc_region) : state :=
  if in_kernel then mk_state (mem st) r (user_region st)
  else mk_state (mem st) (kern_region st) r.

Definition set_mem (st : state) (m : memory) : state :=
  mk_state m (kern_region st) (user_region st).

(** One of the two list-building loops of [pmem_init]: head insertion
    of every frame from [phy_addr] upwards, [n] frames in all. *)
Fixpoint pmem_init_loop (n : nat) (m : memory) (r : alloc_region) (phy_addr : Z)
  : memory * alloc_region :=
  match n with
  | O => (m, r)
  | S n' =>
    pmem_init_loop n'
      (store64 m phy_addr (list_head r))
      (mk_region (begin r) (end_ r) (wrap32 (allocable r + 1)) phy_addr)
      (wrap64 (phy_addr + PGSIZE))
  end.

(** Number of turns of [for (a = b; a < e; a += PGSIZE)]. *)
Definition frames_between (b e : Z) : nat :=
  Z.to_nat ((e - b + PGSIZE - 1) / PGSIZE).

(** [void pmem_init(void)], with the linker symbols as arguments. *)
Definition pmem_init (m : memory) (ALLOC_BEGIN ALLOC_END : Z) : state :=
  let kb := ALLOC_BEGIN in
  let ke := wrap64 (kb + KERN_PAGES * PGSIZE) in
  let '(m1, kr) := pmem_init_loop (frames_between kb ke) m (mk_region kb ke 0 0) kb in
  let ub := ke in
  let ue := ALLOC_END in
  let '(m2, ur) := pmem_init_loop (frames_between ub ue) m1 (mk_region ub ue 0 0) ub in
  mk_state m2 kr ur.

(** [void* pmem_alloc(bool in_kernel)] *)
Definition pmem_alloc (st : state) (in_kernel : bool) : result (state * Z) :=
  let target_region := region st in_kernel in
  if (allocable target_region =? 0) || (list_head target_region =? 0)
  then Panic "pmem_alloc: no available physical pages "
  else
    let alloc_page := list_head target_region in
    let r' := mk_region (begin target_region) (end_ target_region)
                        (wrap32 (allocable target_region - 1))
                        (load64 (mem st) alloc_page) in
    let st1 := set_region st in_kernel r' in
    Ok (set_mem st1 (memset (mem st1) alloc_page 0 PGSIZE), alloc_page).

(** [void pmem_free(uint64 page, bool in_kernel)] *)
Definition pmem_free (st : state) (page : Z) (in_kernel : bool) : result state :=
  if negb (page mod PGSIZE =? 0)
  then Panic "pmem_free: physical address not page-aligned"
  else
    let target_region := region st in_kernel in
    if (page <? begin target_region) || (end_ target_region <=? page)
    then Panic "pmem_free: physical address out of region range "
    else
      let m1 := memset (mem st) page 0 PGSIZE in
      let m2 := store64 m1 page (list_head target_region) in
      let r' := mk_region (begin target_region) (end_ target_region)
                          (wrap32 (allocable target_region + 1)) page in
      Ok (set_region (set_mem st m2) in_kernel r').

(** The loop of [vm_getpte] ([level] from 2 while [> 0]) followed by
    its [return &pgtbl[VA_TO_VPN(va, 0)]]; 0 is NULL. *)
Fixpoint vm_getpte_loop (level : nat) (st : state) (pgtbl va : Z) (alloc : bool)
  : result (state * Z) :=
  match level with
  | O => Ok (st, pgtbl + 8 * VA_TO_VPN va 0)
  | S level' =>
    let pte_entry := pgtbl + 8 * VA_TO_VPN va (Z.of_nat level) in
    if pte_valid (load64 (mem st) pte_entry) then
      vm_getpte_loop level' st (PTE_TO_PA (load64 (mem st) pte_entry)) va alloc
    else if negb alloc then Ok (st, 0)
    else
      '(st1, new_pgtbl) <- pmem_alloc st true ;;
      if new_pgtbl =? 0 then Ok (st1, 0)
      else
        let m1 := memset (mem st1) new_pgtbl 0 PGSIZE in
        let m2 := store64 m1 pte_entry (Z.lor (PA_TO_PTE new_pgtbl) PTE_V) in
        vm_getpte_loop level' (set_mem st1 m2) new_pgtbl va alloc
  end.

(** [pte_t* vm_getpte(pgtbl_t pgtbl, uint64 va, bool alloc)] *)
Definition vm_getpte (st : state) (pgtbl va : Z) (alloc : bool) : result (state * Z) :=
  vm_getpte_loop 2 st pgtbl va alloc.

(** The [for (;;)] loop of [vm_mappages]: [n] is the number of pages
    still to map after the current one, that is
    [(map_end - map_start) / PGSIZE]; the loop leaves at
    [map_start == map_end], when [n] is 0. *)
Fixpoint vm_mappages_loop (n : nat) (st : state) (pgtbl map_start pa perm : Z)
  : result state :=
  '(st1, target_pte) <- vm_getpte st pgtbl map_start true ;;
  if target_pte =? 0 then Panic "vm_mappages: fail to get valid pte"
  else if pte_valid (load64 (mem st1) target_pte)
  then Panic "vm_mappages: virtual address already mapped"
  else
    let v := Z.lor (Z.lor (PA_TO_PTE pa) (int_to_u64 perm)) PTE_V in
    let st2 := set_mem st1 (store64 (mem st1) target_pte v) in
    match n with
    | O => Ok st2
    | S n' => vm_mappages_loop n' st2 pgtbl (wrap64 (map_start + PGSIZE))
                               (wrap64 (pa + PGSIZE)) perm
    end.

(** [void vm_mappages(pgtbl_t pgtbl, uint64 va, uint64 pa, uint64 len, int perm)] *)
Definition vm_mappages (st : state) (pgtbl va pa len perm : Z) : result state :=
  if len <=? 0 then Panic "vm_mappages: invalid len (len <= 0)"
  else if negb (va mod PGSIZE =? 0) || negb (pa mod PGSIZE =? 0)
  then Panic "vm_mappages: va or pa not page-aligned"
  else if VA_MAX <? wrap64 (va + len)
  then Panic "vm_mappages: va + len exceed VA_MAX"
  else
    let map_start := PG_ROUND_DOWN va in
    let map_end := PG_ROUND_DOWN (wrap64 (va + len - 1)) in
    vm_mappages_loop (Z.to_nat (wrap64 (map_end - map_start) / PGSIZE))
                     st pgtbl map_start pa perm.

(** [static uint64 uvm_get_phys_addr(pgtbl_t pgtbl, uint64 va)] *)
Definition uvm_get_phys_addr (st : state) (pgtbl va : Z) : result Z :=
  if (pgtbl =? 0) || (TRAMPOLINE <=? va) then Ok 0
  else
    '(st1, pte) <- vm_getpte st pgtbl va false ;;
    if (pte =? 0) || negb (pte_valid (load64 (mem st1) pte))
       || negb (pte_user (load64 (mem st1) pte))
    then Ok 0
    else
      let pa_frame := PTE_TO_PA (load64 (mem st1) pte) in
      let page_offset := va mod PGSIZE in
      Ok (wrap64 (pa_frame + page_offset)).

(** The [for (i = 0; i < PGSIZE / sizeof(pte_t); i++)] loop of
    [destroy_pgtbl]; [rec] is [destroy_pgtbl] one level down and [n]
    the number of entries still to visit. *)
Fixpoint destroy_pgtbl_loop (rec : state -> Z -> result state)
  (n : nat) (st : state) (pgtbl i : Z) : result state :=
  match n with
  | O => Ok st
  | S n' =>
    let pte := pgtbl + 8 * i in
    if negb (pte_valid (load64 (mem st) pte)) then
      destroy_pgtbl_loop rec n' st pgtbl (i + 1)
    else if Z.land (load64 (mem st) pte) (Z.lor (Z.lor PTE_R PTE_W) PTE_X) =? 0 then
      let child_pa := PTE_TO_PA (load64 (mem st) pte) in
      st1 <- rec st child_pa ;;
      st2 <- pmem_free st1 child_pa true ;;
      destroy_pgtbl_loop rec n' st2 pgtbl (i + 1)
    else
      st1 <- (if pte_user (load64 (mem st) pte)
              then pmem_free st (PTE_TO_PA (load64 (mem st) pte)) false
              else Ok st) ;;
      let e := Z.land (load64 (mem st1) pte) (int_to_u64 (Z.lnot PTE_V)) in
      destroy_pgtbl_loop rec n' (set_mem st1 (store64 (mem st1) pte e)) pgtbl (i + 1)
  end.

(** [static void destroy_pgtbl(pgtbl_t pgtbl, uint32 level)] *)
Fixpoint destroy_pgtbl (level : nat) (st : state) (pgtbl : Z) : result state :=
  match level with
  | O => Ok st
  | S level' =>
    if pgtbl =? 0 then Ok st
    else destroy_pgtbl_loop (destroy_pgtbl level') 512 st pgtbl 0
  end.

(** [void uvm_destroy_pgtbl(pgtbl_t pgtbl)] *)
Definition uvm_destroy_pgtbl (st : state) (pgtbl : Z) : result state :=
  if pgtbl =? 0 then Ok st
  else
    st1 <- destroy_pgtbl 3 st pgtbl ;;
    pmem_free (set_mem st1 (memset (mem st1) pgtbl 0 PGSIZE)) pgtbl false.

(** The [for (va = begin; va < end; va += PGSIZE)] loop of [copy_range]. *)
Fixpoint copy_range_loop (n : nat) (st : state) (old new va end_va : Z)
  : result state :=
  match n with
  | O => Ok st
  | S n' =>
    if negb (va <? end_va) then Ok st
    else
      '(st1, pte) <- vm_getpte st old va false ;;
      _ <- assert (negb (pte =? 0)) "uvm_copy_pgtbl: pte == NULL" ;;
      _ <- assert (pte_valid (load64 (mem st1) pte)) "uvm_copy_pgtbl: pte not valid" ;;
      let pa := PTE_TO_PA (load64 (mem st1) pte) in
      let flags := PTE_FLAGS (load64 (mem st1) pte) in
      '(st2, page) <- pmem_alloc st1 false ;;
      _ <- assert (negb (page =? 0)) "copy_range: failed to alloc physical page" ;;
      let st3 := set_mem st2 (memmove (mem st2) page pa PGSIZE) in
      st4 <- vm_mappages st3 new va page PGSIZE flags ;;
      copy_range_loop n' st4 old new (wrap64 (va + PGSIZE)) end_va
  end.

(** [static void copy_range(pgtbl_t old, pgtbl_t new, uint64 begin, uint64 end)].
    Every caller passes [end <= TRAPFRAME], so [va] never wraps and the
    loop runs at most [frames_between begin end] times. *)
Definition copy_range (st : state) (old new begin_va end_va : Z) : result state :=
  copy_range_loop (frames_between begin_va end_va) st old new begin_va end_va.

(** [mmap_region_t]; the [next] links make the Rocq list. *)
Record mmap_region_t : Type := mk_mmap {
  mmap_begin : Z;
  npages : Z
}.

(** The [while (tmp_mmap != NULL)] loop of [uvm_copy_pgtbl]. *)
Fixpoint copy_mmap_loop (st : state) (old new heap_top : Z) (mmap : list mmap_region_t)
  : result state :=
  match mmap with
  | [] => Ok st
  | tmp_mmap :: rest =>
    let mmap_begin := mmap_begin tmp_mmap in
    let mmap_end := wrap64 (mmap_begin + wrap32 (npages tmp_mmap * PGSIZE)) in
    _ <- assert ((heap_top <=? mmap_begin) && (mmap_end <? TRAPFRAME))
                "uvm_copy_pgtbl: invalid mmap region" ;;
    st1 <- copy_range st old new mmap_begin mmap_end ;;
    copy_mmap_loop st1 old new heap_top rest
  end.

(** [void uvm_copy_pgtbl(pgtbl_t old, pgtbl_t new, uint64 heap_top,
                         uint32 ustack_pages, mmap_region_t* mmap)] *)
Definition uvm_copy_pgtbl (st : state) (old new heap_top ustack_pages : Z)
  (mmap : list mmap_region_t) : result state :=
  _ <- assert (negb (old =? 0) && negb (new =? 0)) "uvm_copy_pgtbl: invalid pagetable" ;;
  _ <- assert (heap_top mod PGSIZE =? 0) "uvm_copy_pgtbl: heap_top not aligned" ;;
  let USER_BASE := PGSIZE in
  st1 <- (if USER_BASE <? heap_top then copy_range st old new USER_BASE heap_top
          else Ok st) ;;
  let USTACK_BASE := TRAPFRAME - PGSIZE in
  let ustack_bottom := wrap64 (USTACK_BASE - wrap32 (ustack_pages * PGSIZE)) in
  st2 <- (if (0 <? ustack_pages) && (ustack_bottom <? USTACK_BASE)
          then copy_range st1 old new ustack_bottom USTACK_BASE
          else Ok st1) ;;
  copy_mmap_loop st2 old new heap_top mmap.

(** The [while (remaining > 0)] loop of [uvm_copyin]; every turn copies
    at least one byte, so [Z.to_nat len] turns are enough. *)
Fixpoint uvm_copyin_loop (n : nat) (st : state) (pgtbl remaining curr_dst curr_src : Z)
  : result state :=
  match n with
  | O => Ok st
  | S n' =>
    if negb (0 <? remaining) then Ok st
    else
      pa <- uvm_get_phys_addr st pgtbl curr_src ;;
      _ <- assert (negb (pa =? 0)) "uvm_copyin: invalid user virtual address" ;;
      let page_offset := curr_src mod PGSIZE in
      let copy_len := if remaining <? PGSIZE - page_offset
                      then remaining else PGSIZE - page_offset in
      let st1 := set_mem st (memmove (mem st) curr_dst (wrap64 (pa + page_offset)) copy_len) in
      uvm_copyin_loop n' st1 pgtbl (remaining - copy_len)
                      (wrap64 (curr_dst + copy_len)) (wrap64 (curr_src + copy_len))
  end.

(** [void uvm_copyin(pgtbl_t pgtbl, uint64 dst, uint64 src, uint32 len)] *)
Definition uvm_copyin (st : state) (pgtbl dst src len : Z) : result state :=
  if (len =? 0) || (pgtbl =? 0) || (dst =? 0) || (TRAMPOLINE <=? src) then Ok st
  else uvm_copyin_loop (Z.to_nat len) st pgtbl len dst src.

(** The [while (remaining > 0)] loop of [uvm_copyout]. *)
Fixpoint uvm_copyout_loop (n : nat) (st : state) (pgtbl remaining curr_dst curr_src : Z)
  : result state :=
  match n with
  | O => Ok st
  | S n' =>
    if negb (0 <? remaining) then Ok st
    else
      pa <- uvm_get_phys_addr st pgtbl curr_dst ;;
      _ <- assert (negb (pa =? 0)) "uvm_copyout: invalid user virtual address" ;;
      let page_offset := curr_dst mod PGSIZE in
      let copy_len := if remaining <? PGSIZE - page_offset
                      then remaining else PGSIZE - page_offset in
      let st1 := set_mem st (memmove (mem st) (wrap64 (pa + page_offset)) curr_src copy_len) in
      uvm_copyout_loop n' st1 pgtbl (remaining - copy_len)
                       (wrap64 (curr_dst + copy_len)) (wrap64 (curr_src + copy_len))
  end.

(** [void uvm_copyout(pgtbl_t pgtbl, uint64 dst, uint64 src, uint32 len)] *)
Definition uvm_copyout (st : state) (pgtbl dst src len : Z) : result state :=
  if (len =? 0) || (pgtbl =? 0) || (src =? 0) || (TRAMPOLINE <=? dst) then Ok st
  else uvm_copyout_loop (Z.to_nat len) st pgtbl len dst src.

(** The byte loop of [uvm_copyin_str]: copies from [src_buf + i] to
    [dst_buf + i] until a zero byte was copied or [n] bytes are done;
    returns the memory and [found_null]. *)
Fixpoint copy_str_bytes (n : nat) (m : memory) (dst_buf src_buf i : Z) : memory * bool :=
  match n with
  | O => (m, false)
  | S n' =>
    let m1 := store8 m (dst_buf + i) (load8 m (src_buf + i)) in
    if load8 m1 (dst_buf + i) =? 0 then (m1, true)
    else copy_str_bytes n' m1 dst_buf src_buf (i + 1)
  end.

(** [strlen], which ran over at most [n] bytes here. *)
Fixpoint strlen (n : nat) (m : memory) (s : Z) : Z :=
  match n with
  | O => 0
  | S n' => if load8 m s =? 0 then 0 else 1 + strlen n' m (s + 1)
  end.

(** The [while (remaining > 0 && !found_null)] loop of [uvm_copyin_str];
    returns the state and [found_null]. *)
Fixpoint uvm_copyin_str_loop (n : nat) (st : state)
  (pgtbl remaining curr_dst curr_src : Z) (found_null : bool) : result (state * bool) :=
  match n with
  | O => Ok (st, found_null)
  | S n' =>
    if negb ((0 <? remaining) && negb found_null) then Ok (st, found_null)
    else
      pa <- uvm_get_phys_addr st pgtbl curr_src ;;
      _ <- assert (negb (pa =? 0)) "uvm_copyin_str: invalid user virtual address" ;;
      let page_offset := curr_src mod PGSIZE in
      let copy_len := if remaining <? PGSIZE - page_offset
                      then remaining else PGSIZE - page_offset in
      let dst_buf := curr_dst in
      let src_buf := wrap64 (pa + page_offset) in
      let '(m1, found) := copy_str_bytes (Z.to_nat copy_len) (mem st) dst_buf src_buf 0 in
      let actual_copy0 := if found then strlen (Z.to_nat copy_len) m1 dst_buf + 1
                          else copy_len in
      let actual_copy := if remaining <? actual_copy0 then remaining else actual_copy0 in
      uvm_copyin_str_loop n' (set_mem st m1) pgtbl (remaining - actual_copy)
                          (wrap64 (curr_dst + actual_copy))
                          (wrap64 (curr_src + actual_copy)) found
  end.

(** [void uvm_copyin_str(pgtbl_t pgtbl, uint64 dst, uint64 src, uint32 maxlen)] *)
Definition uvm_copyin_str (st : state) (pgtbl dst src maxlen : Z) : result state :=
  if (maxlen =? 0) || (pgtbl =? 0) || (dst =? 0) || (TRAMPOLINE <=? src) then Ok st
  else
    '(st1, found_null) <- uvm_copyin_str_loop (Z.to_nat maxlen) st pgtbl maxlen dst src false ;;
    if negb found_null && (0 <? maxlen)
    then Ok (set_mem st1 (store8 (mem st1) (dst + (maxlen - 1)) 0))
    else Ok st1.


(** The [while (unmap_addr < va + unmap_len)] loop of [vm_unmappages];
    [unmap_end] is [va + unmap_len] and [n] bounds the number of
    turns, which is [unmap_len / PGSIZE] at most. *)
Fixpoint vm_unmappages_loop (n : nat) (st : state) (pgtbl unmap_addr unmap_end : Z)
  (freeit : bool) : result state :=
  match n with
  | O => Ok st
  | S n' =>
    if negb (unmap_addr <? unmap_end) then Ok st
    else
      '(st1, target_pte) <- vm_getpte st pgtbl unmap_addr false ;;
      if target_pte =? 0 then Panic "vm_unmappages: fail to get valid pte"
      else if negb (pte_valid (load64 (mem st1) target_pte))
      then Panic "vm_unmappages: virtual address not mapped"
      else if PTE_CHECK (load64 (mem st1) target_pte)
      then Panic "vm_unmappages: pte is not a leaf node (page table entry)"
      else
        st2 <- (if freeit
                then pmem_free st1 (PTE_TO_PA (load64 (mem st1) target_pte)) false
                else Ok st1) ;;
        vm_unmappages_loop n' (set_mem st2 (store64 (mem st2) target_pte 0))
                           pgtbl (wrap64 (unmap_addr + PGSIZE)) unmap_end freeit
  end.

(** [void vm_unmappages(pgtbl_t pgtbl, uint64 va, uint64 len, bool freeit)] *)
Definition vm_unmappages (st : state) (pgtbl va len : Z) (freeit : bool)
  : result state :=
  if negb (va mod PGSIZE =? 0) then Panic "vm_unmappages: va not page-aligned"
  else if len <=? 0 then Panic "vm_unmappages: invalid len (len <= 0)"
  else
    let unmap_len := PG_ROUND_UP len in
    vm_unmappages_loop (Z.to_nat (unmap_len / PGSIZE)) st pgtbl va
                       (wrap64 (va + unmap_len)) freeit.

(** The [for (va = aligned_heap; va < aligned_new_heap; va += PGSIZE)]
    loop of [uvm_heap_grow]. *)
Fixpoint uvm_heap_grow_loop (n : nat) (st : state) (pgtbl va aligned_new_heap : Z)
  : result state :=
  match n with
  | O => Ok st
  | S n' =>
    if negb (va <? aligned_new_heap) then Ok st
    else
      '(st1, pa) <- pmem_alloc st false ;;
      _ <- assert (negb (pa =? 0)) "uvm_heap_grow: failed to alloc physical page" ;;
      let st2 := set_mem st1 (memset (mem st1) pa 0 PGSIZE) in
      st3 <- vm_mappages st2 pgtbl va pa PGSIZE
               (Z.lor (Z.lor (Z.lor PTE_U PTE_R) PTE_W) PTE_V) ;;
      uvm_heap_grow_loop n' st3 pgtbl (wrap64 (va + PGSIZE)) aligned_new_heap
  end.

(** [uint64 uvm_heap_grow(pgtbl_t pgtbl, uint64 heap_top, uint32 len)];
    the result is the state with the new heap top. *)
Definition uvm_heap_grow (st : state) (pgtbl heap_top len : Z) : result (state * Z) :=
  if (len =? 0) || (pgtbl =? 0) then Ok (st, heap_top)
  else
    let new_heap_top := wrap64 (heap_top + len) in
    let MAX_HEAP_TOP := TRAPFRAME - 2 * PGSIZE in
    _ <- assert (new_heap_top <=? MAX_HEAP_TOP) "uvm_heap_grow: heap exceeds maximum limit" ;;
    let aligned_heap := wrap64 (wrap64 (heap_top + PGSIZE - 1) / PGSIZE * PGSIZE) in
    let aligned_new_heap := wrap64 (new_heap_top / PGSIZE * PGSIZE) in
    st1 <- uvm_heap_grow_loop (frames_between aligned_heap aligned_new_heap)
             st pgtbl aligned_heap aligned_new_heap ;;
    Ok (st1, new_heap_top).

(** The [for (va = aligned_new_heap; va < aligned_heap; va += PGSIZE)]
    loop of [uvm_heap_ungrow]. *)
Fixpoint uvm_heap_ungrow_loop (n : nat) (st : state) (pgtbl va aligned_heap : Z)
  : result state :=
  match n with
  | O => Ok st
  | S n' =>
    if negb (va <? aligned_heap) then Ok st
    else
      '(st1, pte) <- vm_getpte st pgtbl va false ;;
      st3 <- (if negb (pte =? 0) && pte_valid (load64 (mem st1) pte) then
                st2 <- pmem_free st1 (PTE_TO_PA (load64 (mem st1) pte)) false ;;
                let e := Z.land (load64 (mem st2) pte) (int_to_u64 (Z.lnot PTE_V)) in
                Ok (set_mem st2 (store64 (mem st2) pte e))
              else Ok st1) ;;
      uvm_heap_ungrow_loop n' st3 pgtbl (wrap64 (va + PGSIZE)) aligned_heap
  end.

(** [uint64 uvm_heap_ungrow(pgtbl_t pgtbl, uint64 heap_top, uint32 len)] *)
Definition uvm_heap_ungrow (st : state) (pgtbl heap_top len : Z) : result (state * Z) :=
  if (len =? 0) || (pgtbl =? 0) then Ok (st, heap_top)
  else
    let new_heap_top := wrap64 (heap_top - len) in
    let MIN_HEAP_TOP := 2 * PGSIZE in
    _ <- assert (MIN_HEAP_TOP <=? new_heap_top) "uvm_heap_ungrow: heap below minimum limit" ;;
    let aligned_heap := wrap64 (heap_top / PGSIZE * PGSIZE) in
    let aligned_new_heap := wrap64 (wrap64 (new_heap_top + PGSIZE - 1) / PGSIZE * PGSIZE) in
    st1 <- uvm_heap_ungrow_loop (frames_between aligned_new_heap aligned_heap)
             st pgtbl aligned_new_heap aligned_heap ;;
    Ok (st1, new_heap_top).

(** [pgtbl_t proc_pgtbl_init(uint64 trapframe)] of proc.c, with the
    address of the [trampoline] symbol as an argument; the result is 0
    when [pmem_alloc] returned NULL. *)
Definition proc_pgtbl_init (st : state) (trampoline trapframe : Z) : result (state * Z) :=
  '(st1, pagetable) <- pmem_alloc st false ;;
  if pagetable =? 0 then Ok (st1, 0)
  else
    let st2 := set_mem st1 (memset (mem st1) pagetable 0 PGSIZE) in
    st3 <- vm_mappages st2 pagetable TRAMPOLINE trampoline PGSIZE (Z.lor PTE_R PTE_X) ;;
    st4 <- vm_mappages st3 pagetable TRAPFRAME trapframe PGSIZE (Z.lor PTE_R PTE_W) ;;
    Ok (st4, pagetable).

(** ** Vocabulary of the statements about 系统调用 *)

(** Whether the non-creating walk of [va] ends at a valid leaf entry. *)
Definition leaf_valid (st : state) (root va : Z) : bool :=
  let e2 := load64 (mem st) (root + 8 * VA_TO_VPN va 2) in
  let e1 := load64 (mem st) (PTE_TO_PA e2 + 8 * VA_TO_VPN va 1) in
  let e0 := load64 (mem st) (PTE_TO_PA e1 + 8 * VA_TO_VPN va 0) in
  pte_valid e2 && pte_valid e1 && pte_valid e0.

(** A small machine for the examples: [ALLOC_BEGIN] at 0x80400000, the
    1024 kernel frames, and 8 user frames after them. *)
Definition boot : state :=
  pmem_init (fun _ => 0) 0x80400000 (0x80400000 + KERN_PAGES * PGSIZE + 8 * PGSIZE).

(** A user address space built on [boot] the way proc.c does: a
    trap-frame page, a root table and a data page from the user region,
    the trap frame mapped at [TRAPFRAME] without [PTE_U] and the data
    page at 0x1000 with [PTE_R | PTE_W | PTE_U].  The result is the
    state with the root, the data frame and the trap-frame frame. *)
Definition demo_space : result (state * (Z * Z * Z)) :=
  '(st1, tf) <- pmem_alloc boot false ;;
  '(st2, page) <- pmem_alloc st1 false ;;
  '(st3, root) <- pmem_alloc st2 false ;;
  st4 <- vm_mappages st3 root TRAPFRAME tf PGSIZE (Z.lor PTE_R PTE_W) ;;
  st5 <- vm_mappages st4 root 0x1000 page PGSIZE (Z.lor (Z.lor PTE_R PTE_W) PTE_U) ;;
  Ok (st5, (root, page, tf)).

Definition demo_state : state := fst (get_ok demo_space (boot, (0, 0, 0))).
Definition demo_root : Z := fst (fst (snd (get_ok demo_space (boot, (0, 0, 0))))).
Definition demo_page : Z := snd (fst (snd (get_ok demo_space (boot, (0, 0, 0))))).
Definition demo_tf : Z := snd (snd (get_ok demo_space (boot, (0, 0, 0)))).

(** The address of the leaf entry of [va] as the non-creating walk
    finds it, 0 when an upper level is missing. *)
Definition lookup (st : state) (root va : Z) : Z :=
  let e2 := load64 (mem st) (root + 8 * VA_TO_VPN va 2) in
  if pte_valid e2 then
    let e1 := load64 (mem st) (PTE_TO_PA e2 + 8 * VA_TO_VPN va 1) in
    if pte_valid e1 then PTE_TO_PA e1 + 8 * VA_TO_VPN va 0 else 0
  else 0.

(** Whether [va] has a leaf entry that is valid and user-accessible. *)
Definition user_leaf (st : state) (root va : Z) : bool :=
  negb (lookup st root va =? 0)
  && pte_valid (load64 (mem st) (lookup st root va))
  && pte_user (load64 (mem st) (lookup st root va)).

(** [demo_state] with the eight bytes 0x1122334455667788 in a kernel
    buffer at 0x80000000. *)
Definition demo_marked : state :=
  set_mem demo_state (store64 (mem demo_state) 0x80000000 0x1122334455667788).

(** [pmem_init] with [ALLOC_END] right after the kernel frames: the
    user region has no frame. *)
Definition boot_no_user : state :=
  pmem_init (fun _ => 0) 0x80400000 (0x80400000 + KERN_PAGES * PGSIZE).

(** The region [r] is in order in memory [m]: its free list is the
    list [fl] of distinct frames of the region and [allocable] counts
    them. *)
Definition region_inv (m : memory) (r : alloc_region) (fl : list Z) : Prop :=
  flist m (list_head r) fl /\
  allocable r = Z.of_nat (length fl) /\
  Z.of_nat (length fl) < 2 ^ 32 /\
  NoDup fl /\
  Forall (frame_in (begin r) (end_ r)) fl.

(** States reached from [st0] by calls of [pmem_alloc] and [pmem_free]
    on the region [in_kernel], with the list of the frames allocated
    and not yet freed; [pmem_free] is only given such a frame. *)
Inductive reach (in_kernel : bool) (st0 : state) : state -> list Z -> Prop :=
| reach_start : reach in_kernel st0 st0 []
| reach_alloc : forall st A st' p,
    reach in_kernel st0 st A ->
    pmem_alloc st in_kernel = Ok (st', p) ->
    reach in_kernel st0 st' (p :: A)
| reach_free : forall st A1 p A2 st',
    reach in_kernel st0 st (A1 ++ p :: A2) ->
    pmem_free st p in_kernel = Ok st' ->
    reach in_kernel st0 st' (A1 ++ A2).

(** [boot] after one allocation from the user region, and after that
    frame was then freed twice in a row. *)
Definition one_alloc : state * Z := get_ok (pmem_alloc boot false) (boot, 0).
Definition double_free : state :=
  get_ok (st1 <- pmem_free (fst one_alloc) (snd one_alloc) false ;;
          pmem_free st1 (snd one_alloc) false) boot.

(** What the reachable states keep in order. *)
Definition acct_inv (k : bool) (total : nat) (st : state) (A : list Z) : Prop :=
  exists fl,
    region_inv (mem st) (region st k) fl /\
    NoDup (fl ++ A) /\
    Forall (fun p => p <> 0 /\ frame_in (begin (region st k)) (end_ (region st k)) p) A /\
    (length fl + length A = total)%nat /\
    Z.of_nat total < 2 ^ 32.

(** The tree under [root] is in order: its level-1 tables are the
    frames [N1], its level-0 tables the frames [N0], the kernel free
    list is [KL], and all these frames are distinct. *)
Definition tree_inv (st : state) (root : Z) (N1 N0 KL : list Z) : Prop :=
  region_inv (mem st) (kern_region st) KL /\
  tables_closed (mem st) root N1 N0 /\
  NoDup (root :: N1 ++ N0 ++ KL) /\
  Forall good_frame (root :: N1 ++ N0).

(** What a mapping step may do to a tree in order: it moves frames from
    the kernel free list to the tables, leaves the user region record
    and every byte off the tree and the kernel free list alone, and
    keeps every valid entry of the tables as it is. *)
Definition grows (root : Z) (st : state) (N1 N0 KL : list Z)
                 (st' : state) (N1' N0' KL' : list Z) : Prop :=
  tree_inv st' root N1' N0' KL' /\
  Permutation (N1' ++ N0' ++ KL') (N1 ++ N0 ++ KL) /\
  incl N1 N1' /\ incl N0 N0' /\
  user_region st' = user_region st /\
  (forall x, off_frames (root :: N1 ++ N0 ++ KL) x -> mem st' x = mem st x) /\
  (forall t i, In t (root :: N1 ++ N0) -> 0 <= i < 512 ->
     pte_valid (load64 (mem st) (t + 8 * i)) = true ->
     load64 (mem st') (t + 8 * i) = load64 (mem st) (t + 8 * i)).

(** ** Vocabulary of the statement about [uvm_copy_pgtbl] *)

(** The frames [copy_range] reads for the page [va] of [old]: the root,
    the two tables of the walk and the data frame. *)
Definition src_frames (st : state) (old va : Z) : list Z :=
  let e2 := load64 (mem st) (old + 8 * VA_TO_VPN va 2) in
  let e1 := load64 (mem st) (PTE_TO_PA e2 + 8 * VA_TO_VPN va 1) in
  let e0 := load64 (mem st) (PTE_TO_PA e1 + 8 * VA_TO_VPN va 0) in
  [old; PTE_TO_PA e2; PTE_TO_PA e1; PTE_TO_PA e0].

(** The page [va], validly mapped under [old] in [st0], has its
    duplicate under [new] in [st]: a valid leaf with the same flags,
    whose frame is one of [C] and holds the bytes the source frame
    held in [st0]. *)
Definition copied_at (st0 : state) (old : Z) (st : state) (new : Z)
  (C : list Z) (va : Z) : Prop :=
  let src := load64 (mem st0) (lookup st0 old va) in
  let dst := load64 (mem st) (lookup st new va) in
  lookup st0 old va <> 0 /\ pte_valid src = true /\
  lookup st new va <> 0 /\ pte_valid dst = true /\
  PTE_FLAGS dst = PTE_FLAGS src /\
  In (PTE_TO_PA dst) C /\
  forall off, 0 <= off < PGSIZE ->
    mem st (PTE_TO_PA dst + off) = mem st0 (PTE_TO_PA src + off).

(** The pages the loop of [copy_range] visits, with the same count of
    turns and the same wrap-around as the loop. *)
Fixpoint range_pages (n : nat) (va end_va : Z) : list Z :=
  match n with
  | O => []
  | S n' => if va <? end_va then va :: range_pages n' (wrap64 (va + PGSIZE)) end_va
            else []
  end.

(** [va] is the start of a page of the extent from [b] to [e]. *)
Definition in_range (b e va : Z) : Prop :=
  b <= va < e /\ (va - b) mod PGSIZE = 0.

(** [va] is the start of a page of the extents [uvm_copy_pgtbl]
    duplicates: the heap from [USER_BASE] to [heap_top], the stack of
    [ustack_pages] pages below [USTACK_BASE], every region of [mmap]. *)
Definition in_extents (heap_top ustack_pages : Z) (mmap : list mmap_region_t)
  (va : Z) : Prop :=
  in_range PGSIZE heap_top va \/
  (0 < ustack_pages /\
   in_range (wrap64 (TRAPFRAME - PGSIZE - wrap32 (ustack_pages * PGSIZE)))
            (TRAPFRAME - PGSIZE) va) \/
  (exists r, In r mmap /\
     in_range (mmap_begin r)
              (wrap64 (mmap_begin r + wrap32 (npages r * PGSIZE))) va).

(** What holds between two pages of a duplication that started in
    [st0] with the frames [P0] (the destination tree, the kernel and
    the user free list, the latter being [UL0]): the destination tree
    and the two free lists are in order, [C] are the frames handed out
    so far, memory off [P0] is as it was, and the pages [done] have
    their duplicates. *)
Definition dup_inv (st0 : state) (old new : Z) (P0 UL0 : list Z)
  (st : state) (N1 N0 KL UL C done : list Z) : Prop :=
  tree_inv st new N1 N0 KL /\
  region_inv (mem st) (user_region st) UL /\
  Permutation ((new :: N1 ++ N0 ++ KL) ++ UL ++ C) P0 /\
  incl UL UL0 /\ incl C UL0 /\
  (forall x, off_frames P0 x -> mem st x = mem st0 x) /\
  (forall va, In va done -> copied_at st0 old st new C va).

(** The page [va] of [old] in [st] is duplicated under [new] in [st']:
    same flags, same bytes, in a frame of the user free list [UL] of
    [st] that is not the source frame. *)
Definition page_duplicated (st : state) (old : Z) (st' : state) (new : Z)
  (UL : list Z) (va : Z) : Prop :=
  copied_at st old st' new UL va /\
  PTE_TO_PA (load64 (mem st') (lookup st' new va))
  <> PTE_TO_PA (load64 (mem st) (lookup st old va)).

(** Boolean versions of [region_inv] and [tree_inv]. *)
Definition region_invb (m : memory) (r : alloc_region) (fl : list Z) : bool :=
  flistb m (list_head r) fl
  && (allocable r =? Z.of_nat (length fl))
  && (Z.of_nat (length fl) <? 2 ^ 32)
  && distinctb fl
  && forallb (frame_inb (begin r) (end_ r)) fl.

Definition tree_invb (st : state) (root : Z) (N1 N0 KL : list Z) : bool :=
  region_invb (mem st) (kern_region st) KL
  && tables_closedb (mem st) root N1 N0
  && distinctb (root :: N1 ++ N0 ++ KL)
  && forallb good_frameb (root :: N1 ++ N0).

(** A machine with few frames for the examples: 8 kernel frames from
    0x80400000 and 8 user frames after them, linked by the loops of
    [pmem_init]. *)
Definition small_boot : state :=
  let kb := 0x80400000 in
  let ke := kb + 8 * PGSIZE in
  let '(m1, kr) := pmem_init_loop 8 (fun _ => 0) (mk_region kb ke 0 0) kb in
  let ue := ke + 8 * PGSIZE in
  let '(m2, ur) := pmem_init_loop 8 m1 (mk_region ke ue 0 0) ke in
  mk_state m2 kr ur.

(** A user address space on [small_boot]: a data page and a root from
    the user region, the data page mapped at 0x1000 with
    [PTE_R | PTE_W | PTE_U] and eight marked bytes at its start. *)
Definition small_space : result (state * (Z * Z)) :=
  '(st1, page) <- pmem_alloc small_boot false ;;
  '(st2, root) <- pmem_alloc st1 false ;;
  st3 <- vm_mappages st2 root 0x1000 page PGSIZE (Z.lor (Z.lor PTE_R PTE_W) PTE_U) ;;
  Ok (set_mem st3 (store64 (mem st3) page 0x1122334455667788), (root, page)).

Definition small_state : state := fst (get_ok small_space (small_boot, (0, 0))).
Definition small_root : Z := fst (snd (get_ok small_space (small_boot, (0, 0)))).
Definition small_page : Z := snd (snd (get_ok small_space (small_boot, (0, 0)))).

(** [small_state] and then a fresh root for the duplicate, taken from
    the user region the way proc.c does. *)
Definition dup_start : state := fst (get_ok (pmem_alloc small_state false) (small_state, 0)).
Definition dup_root : Z := snd (get_ok (pmem_alloc small_state false) (small_state, 0)).

(** The kernel and the user free list of [dup_start]. *)
Definition dup_KL : list Z :=
  free_frames 16 (mem dup_start) (list_head (kern_region dup_start)).
Definition dup_UL : list Z :=
  free_frames 16 (mem dup_start) (list_head (user_region dup_start)).

(** The duplication of the heap page of [small_root]. *)
Definition dup_end : state :=
  get_ok (uvm_copy_pgtbl dup_start small_root dup_root 0x2000 0 []) dup_start.

(** ** Vocabulary of the statements about the user heap *)

(** The page [va] is mapped under [root] in [st] with the flags [fl],
    to a frame of [C] whose 4096 bytes are zero. *)
Definition zero_page_at (st : state) (root : Z) (C : list Z) (fl va : Z) : Prop :=
  let e := load64 (mem st) (lookup st root va) in
  lookup st root va <> 0 /\ pte_valid e = true /\ PTE_FLAGS e = fl /\
  In (PTE_TO_PA e) C /\
  forall off, 0 <= off < PGSIZE -> mem st (PTE_TO_PA e + off) = 0.

(** Every page with a valid leaf under [root] in [st0] has the same
    leaf entry, at the same place, in [st]. *)
Definition leaves_kept (st0 st : state) (root : Z) : Prop :=
  forall va, lookup st0 root va <> 0 ->
    pte_valid (load64 (mem st0) (lookup st0 root va)) = true ->
    lookup st root va = lookup st0 root va /\
    load64 (mem st) (lookup st root va) = load64 (mem st0) (lookup st0 root va).

(** The page [va] is mapped under [root] in [st] with the flags [fl]
    to the frame [c]. *)
Definition page_at (st : state) (root fl va c : Z) : Prop :=
  let e := load64 (mem st) (lookup st root va) in
  lookup st root va <> 0 /\ pte_valid e = true /\ PTE_FLAGS e = fl /\ PTE_TO_PA e = c.

(** What holds between two pages of a heap growth that started in
    [st0] with the frames [P0] (the tree, the kernel and the user free
    list [UL0]); [M] are the pages mapped so far with their frames,
    the last one first. *)
Definition grow_inv (st0 : state) (root : Z) (P0 UL0 : list Z)
  (st : state) (N1 N0 KL UL : list Z) (M : list (Z * Z)) : Prop :=
  tree_inv st root N1 N0 KL /\
  region_inv (mem st) (user_region st) UL /\
  Permutation ((root :: N1 ++ N0 ++ KL) ++ UL ++ map snd M) P0 /\
  UL0 = rev (map snd M) ++ UL /\
  begin (user_region st) = begin (user_region st0) /\
  end_ (user_region st) = end_ (user_region st0) /\
  (forall x, off_frames P0 x -> mem st x = mem st0 x) /\
  leaves_kept st0 st root /\
  (forall va c, In (va, c) M ->
     page_at st root (Z.lor (Z.lor (Z.lor PTE_U PTE_R) PTE_W) PTE_V) va c /\
     forall off, 0 <= off < PGSIZE -> mem st (c + off) = 0).

(** The frames [uvm_heap_ungrow] frees for the pages [pages], in the
    order of the pages: those of the pages with a valid leaf. *)
Definition ungrow_frees (st : state) (root : Z) (pages : list Z) : list Z :=
  flat_map (fun va =>
              if negb (lookup st root va =? 0)
                 && pte_valid (load64 (mem st) (lookup st root va))
              then [PTE_TO_PA (load64 (mem st) (lookup st root va))]
              else []) pages.

(** The heap of [small_root] grown from 0x2000 by a page and a half. *)
Definition grow_start : state := small_state.
Definition grow_KL : list Z :=
  free_frames 16 (mem grow_start) (list_head (kern_region grow_start)).
Definition grow_UL : list Z :=
  free_frames 16 (mem grow_start) (list_head (user_region grow_start)).
Definition grow_N1 : list Z :=
  [PTE_TO_PA (load64 (mem grow_start) (small_root + 8 * VA_TO_VPN 0x1000 2))].
Definition grow_N0 : list Z :=
  [PTE_TO_PA (load64 (mem grow_start)
     (PTE_TO_PA (load64 (mem grow_start) (small_root + 8 * VA_TO_VPN 0x1000 2))
      + 8 * VA_TO_VPN 0x1000 1))].

(** The pages the loop of [uvm_heap_ungrow] visits. *)
Definition ungrow_pages (heap_top len : Z) : list Z :=
  let new_heap_top := wrap64 (heap_top - len) in
  let aligned_heap := wrap64 (heap_top / PGSIZE * PGSIZE) in
  let aligned_new_heap := wrap64 (wrap64 (new_heap_top + PGSIZE - 1) / PGSIZE * PGSIZE) in
  range_pages (frames_between aligned_new_heap aligned_heap) aligned_new_heap aligned_heap.

(** [grow_start] after that growth, and its user free list. *)
Definition grow_end : state :=
  fst (get_ok (uvm_heap_grow grow_start small_root 0x2000 0x1800) (grow_start, 0)).
Definition grow_end_UL : list Z :=
  free_frames 16 (mem grow_end) (list_head (user_region grow_end)).

(** ** Vocabulary of the statement about [uvm_destroy_pgtbl] *)

(** The frames [destroy_pgtbl] gives to the kernel region, in the order
    it frees them, as the tables read in [m]: for every valid entry
    without R, W and X, what the call one level down frees and then
    the frame the entry points to. *)
Fixpoint kfrees_loop (rec : Z -> list Z) (n : nat) (m : memory) (pgtbl i : Z) : list Z :=
  match n with
  | O => []
  | S n' =>
    let e := load64 m (pgtbl + 8 * i) in
    (if negb (pte_valid e) then []
     else if Z.land e (Z.lor (Z.lor PTE_R PTE_W) PTE_X) =? 0
          then rec (PTE_TO_PA e) ++ [PTE_TO_PA e]
          else [])
    ++ kfrees_loop rec n' m pgtbl (i + 1)
  end.

Fixpoint kfrees (level : nat) (m : memory) (pgtbl : Z) : list Z :=
  match level with
  | O => []
  | S level' =>
    if pgtbl =? 0 then [] else kfrees_loop (kfrees level' m) 512 m pgtbl 0
  end.

(** The frames [destroy_pgtbl] gives to the user region: those of the
    valid entries with R, W or X that have [PTE_U]. *)
Fixpoint ufrees_loop (rec : Z -> list Z) (n : nat) (m : memory) (pgtbl i : Z) : list Z :=
  match n with
  | O => []
  | S n' =>
    let e := load64 m (pgtbl + 8 * i) in
    (if negb (pte_valid e) then []
     else if Z.land e (Z.lor (Z.lor PTE_R PTE_W) PTE_X) =? 0
          then rec (PTE_TO_PA e)
          else if pte_user e then [PTE_TO_PA e] else [])
    ++ ufrees_loop rec n' m pgtbl (i + 1)
  end.

Fixpoint ufrees (level : nat) (m : memory) (pgtbl : Z) : list Z :=
  match level with
  | O => []
  | S level' =>
    if pgtbl =? 0 then [] else ufrees_loop (ufrees level' m) 512 m pgtbl 0
  end.

(** A frame that [pmem_free] accepts for the region [r]. *)
Definition freeable (r : alloc_region) (c : Z) : Prop :=
  c <> 0 /\ begin r <= c < end_ r.

(** The two regions of [st'] cover the addresses they cover in [st]. *)
Definition same_bounds (st st' : state) : Prop :=
  begin (kern_region st') = begin (kern_region st) /\
  end_ (kern_region st') = end_ (kern_region st) /\
  begin (user_region st') = begin (user_region st) /\
  end_ (user_region st') = end_ (user_region st).

(** What freeing the frames [K] to the kernel region and [U] to the
    user region, out of the table [T], asks of the state: the free
    lists [KL] and [UL] are in order, [T] and the frames of the four
    lists are pairwise different, each frame to free belongs to its
    region and the counters have room. *)
Definition frees_pre (st : state) (T : Z) (K U KL UL : list Z) : Prop :=
  region_inv (mem st) (kern_region st) KL /\
  region_inv (mem st) (user_region st) UL /\
  T mod PGSIZE = 0 /\
  NoDup ((T :: K) ++ U ++ KL ++ UL) /\
  Forall (freeable (kern_region st)) K /\
  Forall (freeable (user_region st)) U /\
  Z.of_nat (length K) + Z.of_nat (length KL) < 2 ^ 32 /\
  Z.of_nat (length U) + Z.of_nat (length UL) < 2 ^ 32.

(** What it leaves: the frames pushed on the two lists in the order of
    the visit. *)
Definition frees_post (st st' : state) (K U KL UL : list Z) : Prop :=
  region_inv (mem st') (kern_region st') (rev K ++ KL) /\
  region_inv (mem st') (user_region st') (rev U ++ UL) /\
  same_bounds st st'.

Definition freeableb (r : alloc_region) (c : Z) : bool :=
  negb (c =? 0) && (begin r <=? c) && (c <? end_ r).

(** [small_boot] after the allocation of a trap frame, as in
    [proc_make_first], and the address space that [proc_pgtbl_init]
    then builds with the trampoline code at 0x80001000. *)
Definition create_start : state := fst (get_ok (pmem_alloc small_boot false) (small_boot, 0)).
Definition create_tf : Z := snd (get_ok (pmem_alloc small_boot false) (small_boot, 0)).
Definition create_KL : list Z :=
  free_frames 16 (mem create_start) (list_head (kern_region create_start)).
Definition create_UL : list Z :=
  free_frames 16 (mem create_start) (list_head (user_region create_start)).
Definition create_end : state :=
  fst (get_ok (proc_pgtbl_init create_start 0x80001000 create_tf) (create_start, 0)).
Definition create_root : Z :=
  snd (get_ok (proc_pgtbl_init create_start 0x80001000 create_tf) (create_start, 0)).

(** The byte of physical memory that the user address [va] names under
    [root]: the frame of its leaf plus its page offset. *)
Definition phys (st : state) (root va : Z) : Z :=
  PTE_TO_PA (load64 (mem st) (lookup st root va)) + va mod PGSIZE.

(** [small_state] after sixteen bytes were copied in from its data page
    to a kernel buffer at 0x80000000, as bytes and as a string. *)
Definition copyin_end : state :=
  get_ok (uvm_copyin small_state small_root 0x80000000 0x1000 16) small_state.
Definition copyin_str_end : state :=
  get_ok (uvm_copyin_str small_state small_root 0x80000000 0x1000 16) small_state.

End Syscall.

(* ================================================================== *)
(** * 文件系统（lab7)/whu-oslab-lab6 pmem.c with 系统调用（lab6) kvm.c and uvm.c *)

Module Lab6.

(** memlayout.h of 系统调用（lab6) *)
Definition VA_MAX : Z := 2 ^ 38.
Definition TRAMPOLINE : Z := VA_MAX - PGSIZE.
Definition TRAPFRAME : Z := TRAMPOLINE - PGSIZE.

(** [mem_control_zone_t] (the lock is not modelled); [free_list] is
    [free_list.next_page], the first free frame or 0. *)
Record mem_control_zone : Type := mk_zone {
  zone_start : Z;
  zone_end : Z;
  free_page_count : Z;
  free_list : Z
}.

Record state : Type := mk_state {
  mem : memory;
  kernel_mem_zone : mem_control_zone;
  user_mem_zone : mem_control_zone
}.

Definition zone (st : state) (in_kernel : bool) : mem_control_zone :=
  if in_kernel then kernel_mem_zone st else user_mem_zone st.

Definition set_zone (st : state) (in_kernel : bool) (z : mem_control_zone) : state :=
  if in_kernel then mk_state (mem st) z (user_mem_zone st)
  else mk_state (mem st) (kernel_mem_zone st) z.

Definition set_mem (st : state) (m : memory) : state :=
  mk_state m (kernel_mem_zone st) (user_mem_zone st).

(** The loop of [mem_zone_initialize]:
    [for (; curr_page_ptr + PGSIZE <= end; curr_page_ptr += PGSIZE)]. *)
Fixpoint mem_zone_initialize_loop (n : nat) (m : memory) (z : mem_control_zone)
  (curr_page_ptr : Z) : memory * mem_control_zone :=
  match n with
  | O => (m, z)
  | S n' =>
    if negb (curr_page_ptr + PGSIZE <=? zone_end z) then (m, z)
    else
      mem_zone_initialize_loop n'
        (store64 m curr_page_ptr (free_list z))
        (mk_zone (zone_start z) (zone_end z) (wrap32 (free_page_count z + 1)) curr_page_ptr)
        (curr_page_ptr + PGSIZE)
  end.

(** [static void mem_zone_initialize(zone, zone_name, start, end)] *)
Definition mem_zone_initialize (m : memory) (start end_ : Z) : memory * mem_control_zone :=
  let curr_page_ptr := PG_ROUND_UP start in
  mem_zone_initialize_loop (Z.to_nat ((end_ - curr_page_ptr) / PGSIZE))
                           m (mk_zone start end_ 0 0) curr_page_ptr.

(** [void pmem_init(void)]; the linker symbols and the constant
    [KERNEL_PAGES], whose header is not in the tree, are arguments. *)
Definition pmem_init (m : memory) (ALLOC_BEGIN ALLOC_END KERNEL_PAGES : Z) : state :=
  let kernel_zone_end0 := wrap64 (ALLOC_BEGIN + KERNEL_PAGES * PGSIZE) in
  let kernel_zone_end := if ALLOC_END <? kernel_zone_end0 then ALLOC_END
                         else kernel_zone_end0 in
  let '(m1, kz) := mem_zone_initialize m ALLOC_BEGIN kernel_zone_end in
  let '(m2, uz) := mem_zone_initialize m1 kernel_zone_end ALLOC_END in
  mk_state m2 kz uz.

(** [void* pmem_alloc(bool in_kernel)] *)
Definition pmem_alloc (st : state) (in_kernel : bool) : state * Z :=
  let target_zone := zone st in_kernel in
  let alloc_page_node := free_list target_zone in
  if alloc_page_node =? 0 then (st, 0)
  else
    let z' := mk_zone (zone_start target_zone) (zone_end target_zone)
                      (wrap32 (free_page_count target_zone - 1))
                      (load64 (mem st) alloc_page_node) in
    let st1 := set_zone st in_kernel z' in
    (set_mem st1 (memset (mem st1) alloc_page_node 0 PGSIZE), alloc_page_node).

(** [void pmem_free(uint64 page, bool in_kernel)] *)
Definition pmem_free (st : state) (page : Z) (in_kernel : bool) : result state :=
  let target_zone := zone st in_kernel in
  if negb (page mod PGSIZE =? 0)
  then Panic "pmem_free: invalid page address, not aligned to 4KB boundary"
  else if (page <? zone_start target_zone) || (zone_end target_zone <=? page)
  then Panic "pmem_free: invalid page address, out of target zone bounds"
  else
    let m1 := memset (mem st) page 1 PGSIZE in
    let m2 := store64 m1 page (free_list target_zone) in
    let z' := mk_zone (zone_start target_zone) (zone_end target_zone)
                      (wrap32 (free_page_count target_zone + 1)) page in
    Ok (set_zone (set_mem st m2) in_kernel z').

(** The loop of [vm_getpte] of 系统调用（lab6)/kernel/mem/kvm.c. *)
Fixpoint vm_getpte_loop (level : nat) (st : state) (pgtbl va : Z) (alloc : bool)
  : state * Z :=
  match level with
  | O => (st, pgtbl + 8 * VA_TO_VPN va 0)
  | S level' =>
    let pte := pgtbl + 8 * VA_TO_VPN va (Z.of_nat level) in
    if pte_valid (load64 (mem st) pte) then
      vm_getpte_loop level' st (PTE_TO_PA (load64 (mem st) pte)) va alloc
    else if negb alloc then (st, 0)
    else
      let '(st1, new_table) := pmem_alloc st false in
      if new_table =? 0 then (st1, 0)
      else
        let m1 := memset (mem st1) new_table 0 PGSIZE in
        let m2 := store64 m1 pte (Z.lor (PA_TO_PTE new_table) PTE_V) in
        vm_getpte_loop level' (set_mem st1 m2) new_table va alloc
  end.

(** [pte_t* vm_getpte(pgtbl_t pgtbl, uint64 va, bool alloc)] *)
Definition vm_getpte (st : state) (pgtbl va : Z) (alloc : bool) : result (state * Z) :=
  if VA_MAX <=? va then Panic "vm_getpte: virtual address too large"
  else Ok (vm_getpte_loop 2 st pgtbl va alloc).

(** The [for (;;)] loop of [vm_mappages]; [n] pages remain after the
    current one. *)
Fixpoint vm_mappages_loop (n : nat) (st : state) (pgtbl current_va pa perm : Z)
  : result state :=
  '(st1, pte) <- vm_getpte st pgtbl current_va true ;;
  if pte =? 0 then Panic "vm_mappages: failed to get PTE"
  else
    let v := Z.lor (Z.lor (PA_TO_PTE pa) (int_to_u64 perm)) PTE_V in
    let st2 := set_mem st1 (store64 (mem st1) pte v) in
    match n with
    | O => Ok st2
    | S n' => vm_mappages_loop n' st2 pgtbl (wrap64 (current_va + PGSIZE))
                               (wrap64 (pa + PGSIZE)) perm
    end.

(** [void vm_mappages(pgtbl_t pgtbl, uint64 va, uint64 pa, uint64 len, int perm)] *)
Definition vm_mappages (st : state) (pgtbl va pa len perm : Z) : result state :=
  if len =? 0 then Panic "vm_mappages: size cannot be zero"
  else
    let current_va := PG_ROUND_DOWN va in
    let end_va := PG_ROUND_DOWN (wrap64 (va + len - 1)) in
    vm_mappages_loop (Z.to_nat (wrap64 (end_va - current_va) / PGSIZE))
                     st pgtbl current_va pa perm.

(** The loop of [vm_unmappages]:
    [for (current_va = va; current_va < va + npages * PGSIZE; current_va += PGSIZE)]. *)
Fixpoint vm_unmappages_loop (n : nat) (st : state) (pgtbl current_va limit : Z)
  (freeit : bool) : result state :=
  match n with
  | O => Ok st
  | S n' =>
    if negb (current_va <? limit) then Ok st
    else
      '(st1, pte) <- vm_getpte st pgtbl current_va false ;;
      if pte =? 0 then Panic "vm_unmappages: walk failed"
      else if negb (pte_valid (load64 (mem st1) pte))
      then Panic "vm_unmappages: page not mapped"
      else if PTE_FLAGS (load64 (mem st1) pte) =? PTE_V
      then Panic "vm_unmappages: not a leaf page"
      else
        st2 <- (if freeit then pmem_free st1 (PTE_TO_PA (load64 (mem st1) pte)) false
                else Ok st1) ;;
        vm_unmappages_loop n' (set_mem st2 (store64 (mem st2) pte 0))
                           pgtbl (wrap64 (current_va + PGSIZE)) limit freeit
  end.

(** [void vm_unmappages(pgtbl_t pgtbl, uint64 va, uint64 len, bool freeit)] *)
Definition vm_unmappages (st : state) (pgtbl va len : Z) (freeit : bool)
  : result state :=
  if negb (va mod PGSIZE =? 0) then Panic "vm_unmappages: address not page aligned"
  else
    let npages0 := PG_ROUND_UP len / PGSIZE in
    let npages := if npages0 =? 0 then 1 else npages0 in
    vm_unmappages_loop (Z.to_nat npages) st pgtbl va
                       (wrap64 (va + wrap64 (npages * PGSIZE))) freeit.

(** The [for (int i = 0; i < 512; i++)] loop of
    [vm_recursive_destroy_pgtbl]; [level0] is [level == 0] and [rec]
    the function one level down. *)
Fixpoint vm_recursive_destroy_loop (level0 : bool) (rec : state -> Z -> result state)
  (n : nat) (st : state) (pgtbl i : Z) : result state :=
  match n with
  | O => Ok st
  | S n' =>
    let pte_entry := load64 (mem st) (pgtbl + 8 * i) in
    if negb (pte_valid pte_entry) then
      vm_recursive_destroy_loop level0 rec n' st pgtbl (i + 1)
    else if level0 then
      st1 <- pmem_free st (PTE_TO_PA pte_entry) false ;;
      vm_recursive_destroy_loop level0 rec n' st1 pgtbl (i + 1)
    else if PTE_CHECK pte_entry then
      st1 <- rec st (PTE_TO_PA pte_entry) ;;
      vm_recursive_destroy_loop level0 rec n' st1 pgtbl (i + 1)
    else
      st1 <- pmem_free st (PTE_TO_PA pte_entry) false ;;
      vm_recursive_destroy_loop level0 rec n' st1 pgtbl (i + 1)
  end.

(** [static void vm_recursive_destroy_pgtbl(pgtbl_t pgtbl, uint32 level)] *)
Fixpoint vm_recursive_destroy_pgtbl (level : nat) (st : state) (pgtbl : Z)
  : result state :=
  match level with
  | O =>
    st1 <- vm_recursive_destroy_loop true (fun s _ => Ok s) 512 st pgtbl 0 ;;
    pmem_free st1 pgtbl false
  | S level' =>
    st1 <- vm_recursive_destroy_loop false (vm_recursive_destroy_pgtbl level')
                                     512 st pgtbl 0 ;;
    pmem_free st1 pgtbl false
  end.

(** [void uvm_destroy_pgtbl(pgtbl_t pgtbl)] *)
Definition uvm_destroy_pgtbl (st : state) (pgtbl : Z) : result state :=
  st1 <- vm_unmappages st pgtbl TRAMPOLINE PGSIZE false ;;
  st2 <- vm_unmappages st1 pgtbl TRAPFRAME PGSIZE true ;;
  vm_recursive_destroy_pgtbl 2 st2 pgtbl.


(** ** Vocabulary of the statements about lab6 *)

(** The zone [z] is in order in memory [m]. *)
Definition zone_inv (m : memory) (z : mem_control_zone) (fl : list Z) : Prop :=
  flist m (free_list z) fl /\
  free_page_count z = Z.of_nat (length fl) /\
  Z.of_nat (length fl) < 2 ^ 32 /\
  NoDup fl /\
  Forall (frame_in (zone_start z) (zone_end z)) fl.

(** States reached from [st0] by calls of [pmem_alloc] that return a
    frame and of [pmem_free] on the zone [in_kernel], with the list of
    the frames allocated and not yet freed. *)
Inductive reach (in_kernel : bool) (st0 : state) : state -> list Z -> Prop :=
| reach_start : reach in_kernel st0 st0 []
| reach_alloc : forall st A st' p,
    reach in_kernel st0 st A ->
    pmem_alloc st in_kernel = (st', p) -> p <> 0 ->
    reach in_kernel st0 st' (p :: A)
| reach_free : forall st A1 p A2 st',
    reach in_kernel st0 st (A1 ++ p :: A2) ->
    pmem_free st p in_kernel = Ok st' ->
    reach in_kernel st0 st' (A1 ++ A2).

(** What the reachable states keep in order. *)
Definition zacct_inv (k : bool) (total : nat) (st : state) (A : list Z) : Prop :=
  exists fl,
    zone_inv (mem st) (zone st k) fl /\
    NoDup (fl ++ A) /\
    Forall (fun p => p <> 0 /\ frame_in (zone_start (zone st k)) (zone_end (zone st k)) p) A /\
    (length fl + length A = total)%nat /\
    Z.of_nat total < 2 ^ 32.

End Lab6.

(* ================================================================== *)
(** * 系统调用: mmap.c, and [uvm_mmap] and [uvm_munmap] of uvm.c *)

Module Mmap.

(** [#define N_MMAP 256] *)
Definition N_MMAP : Z := 256.

(** [mmap_region_t] with the members uvm.c uses (mmap.h is not in the
    tree).  A pointer to a node of [list_mmap_region_node] is the index
    of the node, and so is a pointer to its first member [mmap];
    [None] is NULL. *)
Record mmap_region_t : Type := mk_mmap {
  begin : Z;
  npages : Z;
  next : option Z
}.

(** What [memset(&node.mmap, 0, sizeof(mmap_region_t))] leaves. *)
Definition mmap_zero : mmap_region_t := mk_mmap 0 0 None.

(** The three static objects of mmap.c (the lock is not modelled):
    [node_mmap i] is [list_mmap_region_node[i].mmap] and [node_next i]
    is [list_mmap_region_node[i].next]. *)
Record pool : Type := mk_pool {
  node_mmap : Z -> mmap_region_t;
  node_next : Z -> option Z;
  list_head : option Z
}.

Definition upd {A : Type} (f : Z -> A) (i : Z) (v : A) : Z -> A :=
  fun j => if j =? i then v else f j.

(** The [for (int i = 0; i < N_MMAP - 1; i++)] loop of [mmap_init]. *)
Fixpoint mmap_init_loop (n : nat) (p : pool) (i : Z) : pool :=
  match n with
  | O => p
  | S n' =>
    let nx := upd (node_next p) i (Some (i + 1)) in
    let mm := upd (node_mmap p) i mmap_zero in
    mmap_init_loop n' (mk_pool mm nx (list_head p)) (i + 1)
  end.

(** [void mmap_init()] *)
Definition mmap_init (p : pool) : pool :=
  let p1 := mmap_init_loop (Z.to_nat (N_MMAP - 1)) p 0 in
  let nx := upd (node_next p1) (N_MMAP - 1) None in
  let mm := upd (node_mmap p1) (N_MMAP - 1) mmap_zero in
  mk_pool mm nx (Some 0).

(** [mmap_region_t* mmap_region_alloc()] *)
Definition mmap_region_alloc (p : pool) : result (pool * option Z) :=
  match list_head p with
  | None => Panic "mmap_region_alloc: no available mmap region nodes (pool exhausted)"
  | Some h =>
    match node_next p h with
    | None => Panic "mmap_region_alloc: no available mmap region nodes (pool exhausted)"
    | Some alloc_node =>
      let nx1 := upd (node_next p) h (node_next p alloc_node) in
      let nx2 := upd nx1 alloc_node None in
      let mm := upd (node_mmap p) alloc_node mmap_zero in
      Ok (mk_pool mm nx2 (list_head p), Some alloc_node)
    end
  end.

(** [void mmap_region_free(mmap_region_t* mmap)] *)
Definition mmap_region_free (p : pool) (mmap : option Z) : result pool :=
  match mmap with
  | None => Panic "mmap_region_free: invalid NULL mmap pointer"
  | Some free_node =>
    if (free_node <? 0) || (N_MMAP <=? free_node)
    then Panic "mmap_region_free: invalid mmap node (not in preallocated pool)"
    else
      let mm := upd (node_mmap p) free_node mmap_zero in
      match list_head p with
      | None => NullDeref
      | Some h =>
        let nx1 := upd (node_next p) free_node (node_next p h) in
        let nx2 := upd nx1 h (Some free_node) in
        Ok (mk_pool mm nx2 (list_head p))
      end
  end.

Definition set_mmap (p : pool) (i : Z) (r : mmap_region_t) : pool :=
  mk_pool (upd (node_mmap p) i r) (node_next p) (list_head p).

(** [static void mmap_merge(mmap_region_t* mmap_1, mmap_region_t* mmap_2,
    bool keep_mmap_1)] of uvm.c; [npages] is a [uint32] and
    [npages * PGSIZE] a 32-bit product. *)
Definition mmap_merge (p : pool) (mmap_1 mmap_2 : option Z) (keep_mmap_1 : bool)
  : result pool :=
  match mmap_1, mmap_2 with
  | Some m1, Some m2 =>
    let r1 := node_mmap p m1 in
    let r2 := node_mmap p m2 in
    _ <- assert (wrap64 (begin r1 + wrap32 (npages r1 * PGSIZE)) =? begin r2)
           "mmap_merge: check fail" ;;
    if keep_mmap_1 then
      let p1 := set_mmap p m1 (mk_mmap (begin r1) (wrap32 (npages r1 + npages r2)) (next r1)) in
      mmap_region_free p1 mmap_2
    else
      let b2 := wrap64 (begin r2 - wrap32 (npages r1 * PGSIZE)) in
      let p1 := set_mmap p m2 (mk_mmap b2 (npages r2) (next r2)) in
      let p2 := set_mmap p1 m2 (mk_mmap b2 (wrap32 (npages (node_mmap p1 m2) + npages (node_mmap p1 m1)))
                                        (next r2)) in
      mmap_region_free p2 mmap_1
  | _, _ => Panic "mmap_merge: NULL"
  end.

(** The [for (uint32 i = 0; i < npages; i++)] loop of [uvm_mmap]; [n]
    is the number of turns left.  [i * PGSIZE] is a 32-bit product. *)
Fixpoint uvm_mmap_loop (n : nat) (st : Syscall.state) (pgtbl begin_ i perm : Z)
  : result Syscall.state :=
  match n with
  | O => Ok st
  | S n' =>
    let va := wrap64 (begin_ + wrap32 (i * PGSIZE)) in
    '(st1, pa) <- Syscall.pmem_alloc st false ;;
    _ <- assert (negb (pa =? 0)) "uvm_mmap: failed to alloc physical page" ;;
    let st2 := Syscall.set_mem st1 (memset (Syscall.mem st1) pa 0 PGSIZE) in
    st3 <- Syscall.vm_mappages st2 pgtbl va pa PGSIZE perm ;;
    uvm_mmap_loop n' st3 pgtbl begin_ (i + 1) perm
  end.

(** [void uvm_mmap(uint64 begin, uint32 npages, int perm)]; the current
    process, which [myproc()] returns, is given by its members [pgtbl]
    and [heap_top]. *)
Definition uvm_mmap (st : Syscall.state) (p : pool) (pgtbl heap_top : Z)
  (begin_ npages_ perm : Z) : result (Syscall.state * pool) :=
  if npages_ =? 0 then Ok (st, p)
  else
    _ <- assert (begin_ mod PGSIZE =? 0) "uvm_mmap: begin not aligned" ;;
    _ <- assert (negb (pgtbl =? 0)) "uvm_mmap: invalid current process" ;;
    let mmap_end := wrap64 (begin_ + wrap32 (npages_ * PGSIZE)) in
    _ <- assert ((heap_top <=? begin_) && (mmap_end <? Syscall.TRAPFRAME - PGSIZE))
           "uvm_mmap: invalid mmap address range" ;;
    let perm1 := Z.lor perm (Z.lor PTE_U PTE_V) in
    '(p1, new_mmap) <- mmap_region_alloc p ;;
    match new_mmap with
    | None => Panic "uvm_mmap: failed to alloc mmap region"
    | Some nm =>
      let p2 := set_mmap p1 nm (mk_mmap begin_ npages_ None) in
      st1 <- uvm_mmap_loop (Z.to_nat npages_) st pgtbl begin_ 0 perm1 ;;
      Ok (st1, p2)
    end.

(** The [for (uint32 i = 0; i < npages; i++)] loop of [uvm_munmap]. *)
Fixpoint uvm_munmap_loop (n : nat) (st : Syscall.state) (pgtbl begin_ i : Z)
  : result Syscall.state :=
  match n with
  | O => Ok st
  | S n' =>
    let va := wrap64 (begin_ + wrap32 (i * PGSIZE)) in
    '(st1, pte) <- Syscall.vm_getpte st pgtbl va false ;;
    st3 <- (if negb (pte =? 0) && pte_valid (load64 (Syscall.mem st1) pte) then
              st2 <- Syscall.pmem_free st1 (PTE_TO_PA (load64 (Syscall.mem st1) pte)) false ;;
              let e := Z.land (load64 (Syscall.mem st2) pte) (int_to_u64 (Z.lnot PTE_V)) in
              Ok (Syscall.set_mem st2 (store64 (Syscall.mem st2) pte e))
            else Ok st1) ;;
    uvm_munmap_loop n' st3 pgtbl begin_ (i + 1)
  end.

(** [void uvm_munmap(uint64 begin, uint32 npages)], with the current
    process as in [uvm_mmap]. *)
Definition uvm_munmap (st : Syscall.state) (p : pool) (pgtbl : Z)
  (begin_ npages_ : Z) : result (Syscall.state * pool) :=
  if npages_ =? 0 then Ok (st, p)
  else
    _ <- assert (begin_ mod PGSIZE =? 0) "uvm_munmap: begin not aligned" ;;
    _ <- assert (negb (pgtbl =? 0)) "uvm_munmap: invalid current process" ;;
    let munmap_end := wrap64 (begin_ + wrap32 (npages_ * PGSIZE)) in
    _ <- assert (munmap_end <=? Syscall.TRAPFRAME - PGSIZE)
           "uvm_munmap: invalid address range" ;;
    let prev : option Z := None in
    '(p1, curr) <- mmap_region_alloc p ;;
    match curr with
    | None => Panic "uvm_munmap: failed to find mmap region"
    | Some c =>
      let p2 := set_mmap p1 c (mk_mmap begin_ npages_ None) in
      '(p3, c1) <-
        match prev with
        | Some pr =>
          if wrap64 (begin (node_mmap p2 pr) + wrap32 (npages (node_mmap p2 pr) * PGSIZE))
             =? begin (node_mmap p2 c)
          then p' <- mmap_merge p2 prev curr true ;; Ok (p', pr)
          else Ok (p2, c)
        | None => Ok (p2, c)
        end ;;
      p4 <-
        match next (node_mmap p3 c1) with
        | Some nx =>
          if wrap64 (begin (node_mmap p3 c1) + wrap32 (npages (node_mmap p3 c1) * PGSIZE))
             =? begin (node_mmap p3 nx)
          then mmap_merge p3 (Some c1) (Some nx) true
          else Ok p3
        | None => Ok p3
        end ;;
      st1 <- uvm_munmap_loop (Z.to_nat npages_) st pgtbl begin_ 0 ;;
      p5 <- mmap_region_free p4 (Some c1) ;;
      Ok (st1, p5)
    end.

(** ** Vocabulary of the statements about the node pool *)

(** The nodes reached from the pointer [h] by [next], in order. *)
Fixpoint chain (nx : Z -> option Z) (h : option Z) (l : list Z) : Prop :=
  match l with
  | [] => h = None
  | a :: l' => h = Some a /\ chain nx (nx a) l'
  end.

(** The pool is in order: the head is node 0, as [mmap_init] leaves it,
    and the free nodes [fl], each a node of the array other than the
    head, follow it without repetition. *)
Definition pool_inv (p : pool) (fl : list Z) : Prop :=
  list_head p = Some 0 /\
  chain (node_next p) (node_next p 0) fl /\
  NoDup fl /\
  Forall (fun a => 0 < a < N_MMAP) fl.

(** The nodes [i], [i + 1], ... ([n] of them). *)
Fixpoint nodes_from (n : nat) (i : Z) : list Z :=
  match n with
  | O => []
  | S n' => i :: nodes_from n' (i + 1)
  end.

(** [n] calls of [mmap_region_alloc] in a row, with the pointers they
    return. *)
Fixpoint alloc_many (n : nat) (p : pool) : result (pool * list (option Z)) :=
  match n with
  | O => Ok (p, [])
  | S n' =>
    '(p1, a) <- mmap_region_alloc p ;;
    '(p2, l) <- alloc_many n' p1 ;;
    Ok (p2, a :: l)
  end.

(** A pool with arbitrary contents, and the pool after [mmap_init] with
    its first three nodes handed out. *)
Definition pool0 : pool := mk_pool (fun _ => mk_mmap 7 7 (Some 7)) (fun _ => Some 9) None.
Definition pool3 : pool := fst (get_ok (alloc_many 3 (mmap_init pool0)) (pool0, [])).

(** [small_state] with the region of two pages at 0x4000 mapped by
    [uvm_mmap] with R and W, on a fresh pool, and then unmapped. *)
Definition mm_mapped : Syscall.state * pool :=
  get_ok (uvm_mmap Syscall.small_state (mmap_init pool0) Syscall.small_root 0x2000 0x4000 2 6)
         (Syscall.small_state, pool0).
Definition mm_unmapped : Syscall.state * pool :=
  get_ok (uvm_munmap (fst mm_mapped) (snd mm_mapped) Syscall.small_root 0x4000 2)
         (Syscall.small_state, pool0).
Definition mm_KL : list Z :=
  free_frames 16 (Syscall.mem (fst mm_mapped))
              (Syscall.list_head (Syscall.kern_region (fst mm_mapped))).
Definition mm_UL : list Z :=
  free_frames 16 (Syscall.mem (fst mm_mapped))
              (Syscall.list_head (Syscall.user_region (fst mm_mapped))).

End Mmap.


(* ================================================================== *)
(** * Proofs *)

(** ** Loads, stores and block operations *)

Lemma load_le_ext : forall n m m' a,
  (forall i, 0 <= i < Z.of_nat n -> m (a + i) = m' (a + i)) ->
  load_le m a n = load_le m' a n.
Proof.
  induction n as [|n IH]; intros m m' a H; cbn [load_le]; [reflexivity|].
  unfold load8. pose proof (H 0) as H0. rewrite Z.add_0_r in H0.
  rewrite H0 by lia.
  f_equal. f_equal. apply IH. intros i Hi.
  replace (a + 1 + i) with (a + (1 + i)) by lia. apply H. lia.
Qed.

Lemma load64_ext : forall m m' a,
  (forall x, a <= x < a + 8 -> m x = m' x) -> load64 m a = load64 m' a.
Proof.
  intros m m' a H. unfold load64. apply load_le_ext.
  intros i Hi. apply H. simpl in Hi. lia.
Qed.

Lemma load_le_range : forall n m a, 0 <= load_le m a n < 256 ^ Z.of_nat n.
Proof.
  induction n as [|n IH]; intros m a.
  - simpl. lia.
  - cbn [load_le]. specialize (IH m (a + 1)).
    assert (Hb : 0 <= load8 m a < 256) by (unfold load8; apply Z.mod_pos_bound; lia).
    rewrite Nat2Z.inj_succ, Z.pow_succ_r by lia. lia.
Qed.

Lemma load64_range : forall m a, 0 <= load64 m a < 2 ^ 64.
Proof. intros m a. unfold load64. pose proof (load_le_range 8 m a) as H. simpl Z.of_nat in H. change (256 ^ 8) with (2 ^ 64) in H. exact H. Qed.

Lemma load_le_bytes : forall n m a v j,
  0 <= j -> 0 <= v ->
  (forall i, 0 <= i < Z.of_nat n -> m (a + i) mod 256 = (v / 256 ^ (j + i)) mod 256) ->
  load_le m a n = (v / 256 ^ j) mod 256 ^ Z.of_nat n.
Proof.
  induction n as [|n IH]; intros m a v j Hj Hv H.
  - simpl. rewrite Z.mod_1_r. reflexivity.
  - cbn [load_le]. unfold load8.
    pose proof (H 0) as H0. rewrite !Z.add_0_r in H0. rewrite H0 by lia.
    rewrite (IH m (a + 1) v (j + 1)); try lia.
    + rewrite Nat2Z.inj_succ, Z.pow_succ_r by lia.
      rewrite Z.pow_add_r by lia. rewrite <- Z.div_div by (try apply Z.pow_pos_nonneg; lia).
      change (256 ^ 1) with 256.
      set (w := v / 256 ^ j).
      rewrite (Z.rem_mul_r w 256 (256 ^ Z.of_nat n)) by (try apply Z.pow_pos_nonneg; lia).
      reflexivity.
    + intros i Hi. replace (a + 1 + i) with (a + (1 + i)) by lia.
      rewrite H by lia. f_equal. f_equal. f_equal. lia.
Qed.

Lemma load64_store64_same : forall m a v,
  0 <= v < 2 ^ 64 -> load64 (store64 m a v) a = v.
Proof.
  intros m a v Hv. unfold load64.
  rewrite (load_le_bytes 8 _ a v 0); try lia.
  - simpl Z.of_nat. rewrite Z.pow_0_r, Z.div_1_r. change (256 ^ 8) with (2 ^ 64).
    apply Z.mod_small. exact Hv.
  - intros i Hi. simpl Z.of_nat in Hi. unfold store64.
    replace ((a <=? a + i) && (a + i <? a + 8)) with true
      by (symmetry; apply andb_true_iff; split; [apply Z.leb_le | apply Z.ltb_lt]; lia).
    replace (a + i - a) with i by lia. rewrite Z.mod_mod by lia. reflexivity.
Qed.

Lemma store64_other : forall m a v x, x < a \/ a + 8 <= x -> store64 m a v x = m x.
Proof.
  intros m a v x H. unfold store64.
  destruct (Z.leb_spec a x); destruct (Z.ltb_spec x (a + 8)); simpl; try reflexivity; lia.
Qed.

Lemma memset_other : forall m d c n x, x < d \/ d + n <= x -> memset m d c n x = m x.
Proof.
  intros m d c n x H. unfold memset.
  destruct (Z.leb_spec d x); destruct (Z.ltb_spec x (d + n)); simpl; try reflexivity; lia.
Qed.

Lemma memset_in : forall m d c n x, d <= x < d + n -> memset m d c n x = c mod 256.
Proof.
  intros m d c n x H. unfold memset.
  destruct (Z.leb_spec d x); destruct (Z.ltb_spec x (d + n)); simpl; try reflexivity; lia.
Qed.

Lemma memmove_other : forall m d s n x, x < d \/ d + n <= x -> memmove m d s n x = m x.
Proof.
  intros m d s n x H. unfold memmove.
  destruct (Z.leb_spec d x); destruct (Z.ltb_spec x (d + n)); simpl; try reflexivity; lia.
Qed.

Lemma memmove_in : forall m d s n x, d <= x < d + n -> memmove m d s n x = m (s + (x - d)).
Proof.
  intros m d s n x H. unfold memmove.
  destruct (Z.leb_spec d x); destruct (Z.ltb_spec x (d + n)); simpl; try reflexivity; lia.
Qed.

Lemma load64_store64_other : forall m a v b,
  b + 8 <= a \/ a + 8 <= b -> load64 (store64 m a v) b = load64 m b.
Proof.
  intros m a v b H. apply load64_ext. intros x Hx. apply store64_other. lia.
Qed.

Lemma load64_memset_other : forall m d c n b,
  b + 8 <= d \/ d + n <= b -> load64 (memset m d c n) b = load64 m b.
Proof.
  intros m d c n b H. apply load64_ext. intros x Hx. apply memset_other. lia.
Qed.

Lemma load_le_zero : forall n m a,
  (forall i, 0 <= i < Z.of_nat n -> m (a + i) = 0) -> load_le m a n = 0.
Proof.
  induction n as [|n IH]; intros m a H; cbn [load_le]; [reflexivity|].
  unfold load8. pose proof (H 0) as H0. rewrite Z.add_0_r in H0. rewrite H0 by lia.
  rewrite IH; [reflexivity|].
  intros i Hi. replace (a + 1 + i) with (a + (1 + i)) by lia. apply H. lia.
Qed.

Lemma load64_memset_zero : forall m d n b,
  d <= b -> b + 8 <= d + n -> load64 (memset m d 0 n) b = 0.
Proof.
  intros m d n b H1 H2. unfold load64. apply load_le_zero.
  intros i Hi. simpl Z.of_nat in Hi. rewrite memset_in by lia. reflexivity.
Qed.

(** ** Page-table entry encoding *)


Lemma wrap64_small : forall z, 0 <= z < 2 ^ 64 -> wrap64 z = z.
Proof. intros z H. unfold wrap64. apply Z.mod_small. exact H. Qed.

Lemma aligned_shift : forall a, a mod PGSIZE = 0 -> Z.shiftl (Z.shiftr a 12) 12 = a.
Proof.
  intros a H. rewrite Z.shiftr_div_pow2, Z.shiftl_mul_pow2 by lia.
  change (2 ^ 12) with PGSIZE. unfold PGSIZE in *.
  pose proof (Z.div_mod a 4096 ltac:(lia)). lia.
Qed.

Lemma PA_TO_PTE_eq : forall pa, 0 <= pa < 2 ^ 64 -> PA_TO_PTE pa = Z.shiftl (Z.shiftr pa 12) 10.
Proof.
  intros pa H. unfold PA_TO_PTE. apply wrap64_small.
  rewrite Z.shiftr_div_pow2, Z.shiftl_mul_pow2 by lia.
  assert (0 <= pa / 2 ^ 12 < 2 ^ 52).
  { split. apply Z.div_pos; lia. apply Z.div_lt_upper_bound; lia. }
  lia.
Qed.

Lemma shiftr_small : forall p n, 0 <= n -> 0 <= p < 2 ^ n -> Z.shiftr p n = 0.
Proof. intros p n Hn H. rewrite Z.shiftr_div_pow2 by lia. apply Z.div_small. exact H. Qed.

(** Decoding the frame of an entry built from [pa] and low flag bits. *)
Lemma PTE_TO_PA_encode : forall pa fl,
  0 <= pa < 2 ^ 64 -> pa mod PGSIZE = 0 -> 0 <= fl < 1024 ->
  PTE_TO_PA (Z.lor (PA_TO_PTE pa) fl) = pa.
Proof.
  intros pa fl Hpa Hal Hfl. unfold PTE_TO_PA.
  rewrite PA_TO_PTE_eq by exact Hpa.
  rewrite Z.shiftr_lor, Z.shiftr_shiftl_l by lia. simpl (10 - 10).
  rewrite Z.shiftl_0_r. rewrite (shiftr_small fl 10) by lia.
  rewrite Z.lor_0_r. rewrite aligned_shift by exact Hal.
  apply wrap64_small. exact Hpa.
Qed.


Lemma lor_range : forall a b n, 0 <= n -> 0 <= a < 2 ^ n -> 0 <= b < 2 ^ n -> 0 <= Z.lor a b < 2 ^ n.
Proof.
  intros a b n Hn Ha Hb.
  assert (Hnn : 0 <= Z.lor a b) by (apply Z.lor_nonneg; lia).
  split; [exact Hnn|].
  - assert (Hp : 0 < 2 ^ n) by (apply Z.pow_pos_nonneg; lia).
    destruct (Z.eq_dec (Z.lor a b) 0) as [E|E]; [rewrite E; exact Hp|].
    assert (Hn0 : 0 < n).
    { destruct (Z.eq_dec n 0) as [->|]; [|lia].
      exfalso. apply E. replace a with 0 by lia. replace b with 0 by lia. reflexivity. }
    apply Z.log2_lt_pow2; [lia|].
    rewrite Z.log2_lor by lia.
    apply Z.max_lub_lt.
    + destruct (Z.eq_dec a 0) as [->|]; [simpl; lia|]. apply Z.log2_lt_pow2; lia.
    + destruct (Z.eq_dec b 0) as [->|]; [simpl; lia|]. apply Z.log2_lt_pow2; lia.
Qed.

Lemma PA_TO_PTE_range : forall pa, 0 <= PA_TO_PTE pa < 2 ^ 64.
Proof. intros. unfold PA_TO_PTE, wrap64. apply Z.mod_pos_bound. lia. Qed.

Lemma PTE_TO_PA_range : forall e, 0 <= PTE_TO_PA e < 2 ^ 64.
Proof. intros. unfold PTE_TO_PA, wrap64. apply Z.mod_pos_bound. lia. Qed.

Lemma PTE_TO_PA_aligned : forall e, PTE_TO_PA e mod PGSIZE = 0.
Proof.
  intros e. unfold PTE_TO_PA, wrap64, PGSIZE.
  rewrite Z.shiftl_mul_pow2 by lia.
  rewrite Z.mod_mod_divide by (exists (2 ^ 52); reflexivity).
  change (2 ^ 12) with 4096. apply Z.mod_mul. lia.
Qed.

Lemma flags_of_lor : forall x fl, 0 <= fl < 1024 ->
  Z.land (Z.lor (PA_TO_PTE x) fl) 1023 = fl.
Proof.
  intros x fl Hfl. unfold PA_TO_PTE, wrap64.
  change 1023 with (Z.ones 10). rewrite Z.land_lor_distr_l.
  rewrite !Z.land_ones by lia.
  rewrite Z.mod_mod_divide by (exists (2 ^ 54); reflexivity).
  rewrite Z.shiftl_mul_pow2 by lia.
  rewrite Z.mod_mul by lia. rewrite Z.lor_0_l. apply Z.mod_small. lia.
Qed.

Lemma land_low : forall e k, 0 <= k < 1024 -> Z.land e k = Z.land (Z.land e 1023) k.
Proof.
  intros e k Hk. rewrite <- Z.land_assoc. f_equal.
  change 1023 with (Z.ones 10). rewrite Z.land_comm, Z.land_ones by lia.
  symmetry. apply Z.mod_small. lia.
Qed.

Lemma VPN_range : forall va l, 0 <= VA_TO_VPN va l < 512.
Proof.
  intros. unfold VA_TO_VPN. change 511 with (Z.ones 9). rewrite Z.land_ones by lia.
  apply Z.mod_pos_bound. lia.
Qed.

Lemma VPN_offset : forall va off l, 0 <= l -> va mod PGSIZE = 0 -> 0 <= off < PGSIZE ->
  VA_TO_VPN (va + off) l = VA_TO_VPN va l.
Proof.
  intros va off l Hl Hva Hoff. unfold VA_TO_VPN, VA_SHIFT. f_equal.
  rewrite <- !Z.shiftr_shiftr by lia. f_equal.
  rewrite !Z.shiftr_div_pow2 by lia. change (2 ^ 12) with 4096. unfold PGSIZE in *.
  pose proof (Z.div_mod va 4096 ltac:(lia)) as E. rewrite Hva, Z.add_0_r in E.
  rewrite E at 1. rewrite Z.mul_comm, Z.div_add_l by lia.
  rewrite (Z.div_small off) by lia. lia.
Qed.

(** ** week3: the walker *)

Import Week3.



Lemma is_frameb_true : forall f, is_frameb f = true -> 0 <= f < 2 ^ 64 /\ f mod PGSIZE = 0.
Proof.
  unfold is_frameb. intros f H. apply andb_true_iff in H. destruct H as [H H3].
  apply andb_true_iff in H. destruct H as [H1 H2].
  apply Z.leb_le in H1. apply Z.ltb_lt in H2. apply Z.eqb_eq in H3. lia.
Qed.

Lemma distinctb_NoDup : forall l, distinctb l = true -> NoDup l.
Proof.
  induction l as [|x r IH]; intros H; [constructor|].
  cbn [distinctb] in H. apply andb_true_iff in H. destruct H as [H1 H2].
  constructor; [|apply IH; exact H2].
  intros Hin. apply negb_true_iff in H1.
  assert (existsb (Z.eqb x) r = true); [|congruence].
  apply existsb_exists. exists x. split; [exact Hin | apply Z.eqb_refl].
Qed.

Lemma frames_ok_spec : forall l, frames_ok l = true ->
  (forall f, In f l -> 0 <= f < 2 ^ 64 /\ f mod PGSIZE = 0) /\ NoDup l.
Proof.
  unfold frames_ok. intros l H. apply andb_true_iff in H. destruct H as [H1 H2].
  split; [|apply distinctb_NoDup; exact H2].
  intros f Hin. apply is_frameb_true. rewrite forallb_forall in H1. apply H1. exact Hin.
Qed.


Lemma aligned_apart : forall a b,
  a mod PGSIZE = 0 -> b mod PGSIZE = 0 -> a <> b -> a + PGSIZE <= b \/ b + PGSIZE <= a.
Proof.
  unfold PGSIZE. intros a b Ha Hb Hne.
  pose proof (Z.div_mod a 4096 ltac:(lia)). pose proof (Z.div_mod b 4096 ltac:(lia)). lia.
Qed.

Lemma ent_apart : forall a b i j,
  a mod PGSIZE = 0 -> b mod PGSIZE = 0 -> a <> b -> 0 <= i < 512 -> 0 <= j < 512 ->
  a + 8 * i + 8 <= b + 8 * j \/ b + 8 * j + 8 <= a + 8 * i.
Proof.
  intros a b i j Ha Hb Hne Hi Hj. destruct (aligned_apart a b Ha Hb Hne); unfold PGSIZE in *; lia.
Qed.


Lemma w3_getpte_hit : forall st root va alloc t1 t0,
  pte_valid (load64 (mem st) (root + 8 * VA_TO_VPN va 2)) = true ->
  PTE_TO_PA (load64 (mem st) (root + 8 * VA_TO_VPN va 2)) = t1 ->
  pte_valid (load64 (mem st) (t1 + 8 * VA_TO_VPN va 1)) = true ->
  PTE_TO_PA (load64 (mem st) (t1 + 8 * VA_TO_VPN va 1)) = t0 ->
  vm_getpte st root va alloc = (st, t0 + 8 * VA_TO_VPN va 0).
Proof.
  intros st root va alloc t1 t0 V2 E2 V1 E1.
  unfold vm_getpte. cbn [vm_getpte_loop].
  rewrite V2. cbn [negb]. change (Z.of_nat 1) with 1. rewrite E2, V1. cbn [negb].
  rewrite E1. reflexivity.
Qed.

Lemma pte_valid_lor_V : forall x, pte_valid (Z.lor x PTE_V) = true.
Proof.
  intros x. unfold pte_valid, PTE_V. rewrite Z.land_lor_distr_l. 
  change (Z.land 1 1) with 1.
  destruct (Z.eqb_spec (Z.lor (Z.land x 1) 1) 0) as [E|E]; [|reflexivity].
  apply Z.lor_eq_0_iff in E. lia.
Qed.

Lemma pte_valid_table : forall pa, pte_valid (Z.lor (Z.lor (PA_TO_PTE pa) PTE_V) PTE_G) = true.
Proof.
  intros pa. rewrite <- Z.lor_assoc, (Z.lor_comm PTE_V), Z.lor_assoc. apply pte_valid_lor_V.
Qed.

Lemma table_pte_range : forall pa, 0 <= Z.lor (Z.lor (PA_TO_PTE pa) PTE_V) PTE_G < 2 ^ 64.
Proof.
  intros pa. apply lor_range; [lia| |unfold PTE_G; lia].
  apply lor_range; [lia| apply PA_TO_PTE_range | unfold PTE_V; lia].
Qed.

Lemma table_pte_pa : forall pa, 0 <= pa < 2 ^ 64 -> pa mod PGSIZE = 0 ->
  PTE_TO_PA (Z.lor (Z.lor (PA_TO_PTE pa) PTE_V) PTE_G) = pa.
Proof.
  intros pa H1 H2. rewrite <- Z.lor_assoc. apply PTE_TO_PA_encode; try assumption.
  vm_compute. split; congruence.
Qed.


Lemma w3_loop_valid : forall l st pte va alloc,
  pte_valid (load64 (mem st) pte) = true ->
  vm_getpte_loop (S l) st pte va alloc =
  vm_getpte_loop l st (PTE_TO_PA (load64 (mem st) pte) + 8 * VA_TO_VPN va (Z.of_nat l)) va alloc.
Proof. intros l st pte va alloc H. cbn [vm_getpte_loop]. rewrite H. reflexivity. Qed.

Lemma w3_loop_miss : forall l st pte va,
  pte_valid (load64 (mem st) pte) = false ->
  snd (vm_getpte_loop (S l) st pte va false) = 0.
Proof. intros l st pte va H. cbn [vm_getpte_loop]. rewrite H. reflexivity. Qed.

Lemma w3_loop_oom : forall l st pte va,
  pte_valid (load64 (mem st) pte) = false ->
  freelist_kernel (kmem st) = 0 ->
  snd (vm_getpte_loop (S l) st pte va true) = 0.
Proof.
  intros l st pte va H Hf. cbn [vm_getpte_loop]. rewrite H. cbn [negb].
  unfold pmem_alloc. rewrite Hf. reflexivity.
Qed.

Lemma w3_loop_create : forall l st pte va f,
  pte_valid (load64 (mem st) pte) = false ->
  freelist_kernel (kmem st) = f -> f <> 0 ->
  0 <= f < 2 ^ 64 -> f mod PGSIZE = 0 ->
  exists st',
    vm_getpte_loop (S l) st pte va true =
    vm_getpte_loop l st' (f + 8 * VA_TO_VPN va (Z.of_nat l)) va true /\
    mem st' = store64 (memset (mem st) f 0 PGSIZE) pte
                      (Z.lor (Z.lor (PA_TO_PTE f) PTE_V) PTE_G) /\
    freelist_kernel (kmem st') = load64 (mem st) f /\
    end_ st' = end_ st.
Proof.
  intros l st pte va f Hv Hf Hnz Hr Ha.
  cbn [vm_getpte_loop]. rewrite Hv. cbn [negb].
  unfold pmem_alloc. rewrite Hf. cbn [andb].
  replace (f =? 0) with false by (symmetry; apply Z.eqb_neq; exact Hnz).
  cbn [mem set_kmem set_mem printf kmem end_].
  replace (f =? 0) with false by (symmetry; apply Z.eqb_neq; exact Hnz).
  rewrite load64_store64_same by apply table_pte_range.
  rewrite table_pte_pa by assumption.
  eexists. split; [reflexivity|]. cbn [mem kmem end_ freelist_kernel]. auto.
Qed.

Lemma w3_getpte_create : forall st root va st1 pte,
  frames_ok (walk_frames st root va) = true ->
  vm_getpte st root va true = (st1, pte) ->
  pte <> 0 ->
  pte = walk_t0 st root va + 8 * VA_TO_VPN va 0 /\
  pte_valid (load64 (mem st1) (root + 8 * VA_TO_VPN va 2)) = true /\
  PTE_TO_PA (load64 (mem st1) (root + 8 * VA_TO_VPN va 2)) = walk_t1 st root va /\
  pte_valid (load64 (mem st1) (walk_t1 st root va + 8 * VA_TO_VPN va 1)) = true /\
  PTE_TO_PA (load64 (mem st1) (walk_t1 st root va + 8 * VA_TO_VPN va 1)) = walk_t0 st root va /\
  end_ st1 = end_ st.
Proof.
  intros st root va st1 pte Hok Hget Hnz.
  pose proof (VPN_range va 2) as R2. pose proof (VPN_range va 1) as R1.
  pose proof (VPN_range va 0) as R0.
  apply frames_ok_spec in Hok. destruct Hok as [Hfr Hnd].
  unfold walk_frames in Hfr, Hnd.
  destruct (Hfr root ltac:(simpl; auto)) as [Rr Ar].
  destruct (Hfr (walk_t1 st root va) ltac:(simpl; auto)) as [Rt1 At1].
  destruct (Hfr (walk_t0 st root va) ltac:(simpl; auto)) as [Rt0 At0].
  assert (N : root <> walk_t1 st root va /\ root <> walk_t0 st root va
              /\ walk_t1 st root va <> walk_t0 st root va).
  { inversion Hnd as [|? ? Hn1 Hnd']; subst. inversion Hnd' as [|? ? Hn2 _]; subst.
    simpl in Hn1, Hn2. intuition. }
  destruct N as (N1 & N0 & N10).
  pose proof (aligned_apart _ _ Ar At1 N1) as D1.
  pose proof (aligned_apart _ _ Ar At0 N0) as D0.
  pose proof (aligned_apart _ _ At1 At0 N10) as D10.
  clear Hfr Hnd.
  revert Rt1 At1 Rt0 At0 N1 N0 N10 D1 D0 D10. unfold walk_t1, walk_t0.
  unfold vm_getpte in Hget. revert Hget.
  set (a2 := root + 8 * VA_TO_VPN va 2).
  destruct (pte_valid (load64 (mem st) a2)) eqn:V2.
  - cbv beta iota zeta. rewrite w3_loop_valid by exact V2. change (Z.of_nat 1) with 1.
    set (t1 := PTE_TO_PA (load64 (mem st) a2)).
    set (a1 := t1 + 8 * VA_TO_VPN va 1).
    destruct (pte_valid (load64 (mem st) a1)) eqn:V1.
    + cbv beta iota zeta. rewrite w3_loop_valid by exact V1. cbn [vm_getpte_loop]. change (Z.of_nat 0) with 0.
      intros Hget. inversion Hget; subst. intros. repeat split; auto.
    + cbv beta iota zeta. set (f := freelist_kernel (kmem st)). intros Hget Rt1 At1 Rt0 At0 N1 N0 N10 D1 D0 D10.
      destruct (Z.eq_dec f 0) as [Ef|Ef].
      { pose proof (w3_loop_oom 0 st a1 va V1 Ef) as E. rewrite Hget in E. simpl in E. congruence. }
      destruct (w3_loop_create 0 st a1 va f V1 eq_refl Ef Rt0 At0) as (st' & E & Em & Ek & Ee).
      rewrite E in Hget. cbn [vm_getpte_loop] in Hget. change (Z.of_nat 0) with 0 in Hget.
      inversion Hget; subst st1 pte. clear Hget E.
      unfold PGSIZE in *.
      assert (L2 : load64 (mem st') a2 = load64 (mem st) a2).
      { rewrite Em. rewrite load64_store64_other by (subst a2 a1; lia).
        apply load64_memset_other. subst a2. unfold PGSIZE. lia. }
      assert (L1 : load64 (mem st') a1 = Z.lor (Z.lor (PA_TO_PTE f) PTE_V) PTE_G).
      { rewrite Em. apply load64_store64_same. apply table_pte_range. }
      rewrite L2, L1, V2. fold t1. rewrite pte_valid_table, table_pte_pa by assumption.
      repeat split; auto.
  - cbv beta iota zeta.
    set (f1 := freelist_kernel (kmem st)). set (f0 := load64 (mem st) f1).
    intros Hget Rt1 At1 Rt0 At0 N1 N0 N10 D1 D0 D10.
    destruct (Z.eq_dec f1 0) as [Ef|Ef].
    { pose proof (w3_loop_oom 1 st a2 va V2 Ef) as E. rewrite Hget in E. simpl in E. congruence. }
    destruct (w3_loop_create 1 st a2 va f1 V2 eq_refl Ef Rt1 At1) as (st' & E & Em & Ek & Ee).
    rewrite E in Hget. clear E. change (Z.of_nat 1) with 1 in Hget.
    set (a1 := f1 + 8 * VA_TO_VPN va 1) in *.
    unfold PGSIZE in *.
    assert (Z1 : load64 (mem st') a1 = 0).
    { rewrite Em. rewrite load64_store64_other by (subst a2 a1; lia).
      apply load64_memset_zero; subst a1; lia. }
    assert (V1 : pte_valid (load64 (mem st') a1) = false) by (rewrite Z1; reflexivity).
    fold f0 in Ek.
    destruct (Z.eq_dec f0 0) as [Ef0|Ef0].
    { rewrite <- Ek in Ef0.
      pose proof (w3_loop_oom 0 st' a1 va V1 Ef0) as E. rewrite Hget in E. simpl in E. congruence. }
    destruct (w3_loop_create 0 st' a1 va f0 V1 Ek Ef0 Rt0 At0) as (st'' & E & Em' & Ek' & Ee').
    rewrite E in Hget. cbn [vm_getpte_loop] in Hget. change (Z.of_nat 0) with 0 in Hget.
    inversion Hget; subst st1 pte. clear Hget E.
    assert (L2 : load64 (mem st'') a2 = Z.lor (Z.lor (PA_TO_PTE f1) PTE_V) PTE_G).
    { rewrite Em'. rewrite load64_store64_other by (subst a2 a1; lia).
      rewrite load64_memset_other by (subst a2; unfold PGSIZE; lia).
      rewrite Em. apply load64_store64_same. apply table_pte_range. }
    assert (L1 : load64 (mem st'') a1 = Z.lor (Z.lor (PA_TO_PTE f0) PTE_V) PTE_G).
    { rewrite Em'. apply load64_store64_same. apply table_pte_range. }
    rewrite L2, !pte_valid_table, !table_pte_pa by assumption.
    fold a1. rewrite L1, !pte_valid_table, !table_pte_pa by assumption.
    repeat split; auto. congruence.
Qed.

Lemma range_check : forall (P : Z -> bool) (n : nat),
  forallb P (map Z.of_nat (seq 0 n)) = true ->
  forall z, 0 <= z < Z.of_nat n -> P z = true.
Proof.
  intros P n H z Hz. rewrite forallb_forall in H. apply H.
  apply in_map_iff. exists (Z.to_nat z). split; [lia|].
  apply in_seq. lia.
Qed.

Lemma perm_check_range : forall perm,
  Z.land perm (Z.lnot 62) = 0 -> 0 <= perm < 64.
Proof.
  intros perm H.
  assert (E : perm = Z.land perm 62).
  { rewrite <- (Z.land_m1_r perm) at 1. rewrite <- (Z.lor_lnot_diag 62).
    rewrite Z.land_lor_distr_r, H, Z.lor_0_r. reflexivity. }
  assert (E2 : Z.land perm 62 = Z.land (Z.land perm 62) (Z.ones 6)).
  { rewrite <- Z.land_assoc. reflexivity. }
  rewrite Z.land_ones in E2 by lia.
  rewrite E, E2. apply Z.mod_pos_bound. lia.
Qed.

Lemma leaf_not_table : forall perm, 0 <= perm < 64 -> Z.land perm 14 <> 0 ->
  (Z.land (Z.lor perm 1) 15 =? 1) = false.
Proof.
  intros perm Hr Hn.
  pose proof (range_check
    (fun p => (Z.land p 14 =? 0) || negb (Z.land (Z.lor p 1) 15 =? 1)) 64 eq_refl perm Hr) as H.
  cbv beta in H. apply orb_true_iff in H. destruct H as [H|H].
  - apply Z.eqb_eq in H. contradiction.
  - apply negb_true_iff in H. exact H.
Qed.


Lemma leaf_pte_facts : forall pa perm,
  0 <= pa < 2 ^ 64 -> pa mod PGSIZE = 0 -> 0 <= perm < 64 ->
  0 <= leaf_pte pa perm < 2 ^ 64 /\
  pte_valid (leaf_pte pa perm) = true /\
  PTE_TO_PA (leaf_pte pa perm) = pa /\
  PTE_FLAGS (leaf_pte pa perm) = Z.lor perm PTE_V /\
  (Z.land perm 14 <> 0 -> PTE_IS_TABLE (leaf_pte pa perm) = false).
Proof.
  intros pa perm Hpa Hal Hp. unfold leaf_pte.
  assert (Ei : int_to_u64 perm = perm) by (apply wrap64_small; lia).
  rewrite Ei.
  assert (Hfl : 0 <= Z.lor perm PTE_V < 1024).
  { change 1024 with (2 ^ 10). apply lor_range; unfold PTE_V; lia. }
  split; [|split; [|split; [|split]]].
  - apply lor_range; [lia| |unfold PTE_V; lia].
    apply lor_range; [lia|apply PA_TO_PTE_range|lia].
  - apply pte_valid_lor_V.
  - rewrite <- Z.lor_assoc. apply PTE_TO_PA_encode; assumption.
  - rewrite <- Z.lor_assoc. unfold PTE_FLAGS. apply flags_of_lor. exact Hfl.
  - intros Hn. unfold PTE_IS_TABLE. rewrite <- Z.lor_assoc.
    rewrite (land_low _ 15) by lia. rewrite flags_of_lor by exact Hfl.
    apply leaf_not_table; assumption.
Qed.

Lemma w3_map_one : forall st root va pa perm st3,
  0 <= va < 2 ^ 64 -> 0 <= pa < 2 ^ 64 ->
  vm_mappages st root va pa PGSIZE perm = Ok st3 ->
  exists st1 pte,
    vm_getpte st root va true = (st1, pte) /\ pte <> 0 /\
    mem st3 = store64 (mem st1) pte (leaf_pte pa perm) /\
    end_ st3 = end_ st1 /\ kmem st3 = kmem st1 /\
    console st3 =
      (if pte_valid (load64 (mem st1) pte)
       then console st1 ++ [Print "vm_mappages: va 0x%lx already mapped, overwriting\n" [va]]
       else console st1) /\
    va mod PGSIZE = 0 /\ pa mod PGSIZE = 0 /\ 0 <= perm < 64.
Proof.
  intros st root va pa perm st3 Hva Hpa H. unfold vm_mappages in H.
  destruct (negb (va mod PGSIZE =? 0) || negb (pa mod PGSIZE =? 0)
            || negb (PGSIZE mod PGSIZE =? 0)) eqn:C1; [discriminate|].
  apply orb_false_iff in C1. destruct C1 as [C1 _].
  apply orb_false_iff in C1. destruct C1 as [Cva Cpa].
  apply negb_false_iff, Z.eqb_eq in Cva. apply negb_false_iff, Z.eqb_eq in Cpa.
  match type of H with (if negb (?c =? 0) then _ else _) = _ =>
    destruct (Z.eqb_spec c 0) as [Cp|Cp]; cbn [negb] in H; [|discriminate] end.
  change (Z.lnot (Z.lor (Z.lor (Z.lor (Z.lor PTE_R PTE_W) PTE_X) PTE_U) PTE_G))
    with (Z.lnot 62) in Cp.
  apply perm_check_range in Cp.
  change (Z.to_nat (PGSIZE / PGSIZE)) with 1%nat in H. cbn [vm_mappages_loop] in H.
  rewrite !Z.add_0_r in H. rewrite !wrap64_small in H by assumption.
  destruct (vm_getpte st root va true) as [st1 pte] eqn:G.
  destruct (Z.eqb_spec pte 0) as [E0|E0]; [discriminate|].
  exists st1, pte. inversion H; subst st3; clear H.
  destruct (pte_valid (load64 (mem st1) pte)); cbn; repeat split; auto; lia.
Qed.

Lemma land_offset : forall va off, va mod PGSIZE = 0 -> 0 <= off < PGSIZE ->
  Z.land (va + off) (PGSIZE - 1) = off.
Proof.
  intros va off Hva Hoff. change (PGSIZE - 1) with (Z.ones 12).
  rewrite Z.land_ones by lia. change (2 ^ 12) with PGSIZE.
  rewrite Z.add_mod, Hva, Z.add_0_l, Z.mod_mod by (unfold PGSIZE; lia).
  apply Z.mod_small. exact Hoff.
Qed.

(** What [vm_walkaddr] returns once the two upper levels of the walk
    of [va] are in place. *)
Lemma w3_walkaddr_hit : forall st root va off t1 t0,
  va mod PGSIZE = 0 -> 0 <= va <= VA_MAX -> 0 <= off < PGSIZE ->
  pte_valid (load64 (mem st) (root + 8 * VA_TO_VPN va 2)) = true ->
  PTE_TO_PA (load64 (mem st) (root + 8 * VA_TO_VPN va 2)) = t1 ->
  pte_valid (load64 (mem st) (t1 + 8 * VA_TO_VPN va 1)) = true ->
  PTE_TO_PA (load64 (mem st) (t1 + 8 * VA_TO_VPN va 1)) = t0 ->
  t0 + 8 * VA_TO_VPN va 0 <> 0 ->
  snd (vm_walkaddr st root (va + off)) =
    let e := load64 (mem st) (t0 + 8 * VA_TO_VPN va 0) in
    if pte_valid e && negb (PTE_IS_TABLE e) then wrap64 (PTE_TO_PA e + off) else 0.
Proof.
  intros st root va off t1 t0 Hal Hva Hoff V2 E2 V1 E1 Hnz.
  unfold vm_walkaddr.
  assert (Hle : va + off <= VA_MAX).
  { unfold VA_MAX, PGSIZE in *. pose proof (Z.div_mod va 4096 ltac:(lia)). lia. }
  replace (VA_MAX <? va + off) with false by (symmetry; apply Z.ltb_ge; exact Hle).
  rewrite (w3_getpte_hit st root (va + off) false t1 t0);
    rewrite ?VPN_offset by (assumption || lia); try assumption.
  replace (t0 + 8 * VA_TO_VPN va 0 =? 0) with false by (symmetry; apply Z.eqb_neq; exact Hnz).
  cbn [orb fst snd]. rewrite land_offset by assumption.
  cbv zeta. destruct (pte_valid (load64 (mem st) (t0 + 8 * VA_TO_VPN va 0))); cbn [negb andb];
    [|reflexivity].
  destruct (PTE_IS_TABLE (load64 (mem st) (t0 + 8 * VA_TO_VPN va 0))); reflexivity.
Qed.

Lemma w3_pmem_free_null : forall st k, pmem_free st 0 k = NullDeref.
Proof. intros st k. unfold pmem_free. reflexivity. Qed.

Lemma w3_pmem_free_ok : forall st pa k,
  pa <> 0 ->
  exists st1,
    pmem_free st pa k = Ok st1 /\
    mem st1 = store64 (memset (mem st) pa 0xaa PGSIZE) pa
                (if k then freelist_kernel (kmem st) else freelist_user (kmem st)) /\
    (if k then freelist_kernel (kmem st1) else freelist_user (kmem st1)) = pa /\
    end_ st1 = end_ st.
Proof.
  intros st pa k Hnz. unfold pmem_free.
  replace (pa =? 0) with false by (symmetry; apply Z.eqb_neq; exact Hnz).
  destruct (negb (pa mod PGSIZE =? 0) || (pa <? PG_ROUND_UP (end_ st)) || (PHYS_TOP <=? pa));
  destruct k; cbn [andb negb];
  repeat match goal with |- context [if ?c then _ else _] => destruct c end;
  eexists; (split; [reflexivity|]);
  cbn [mem set_kmem set_mem printf kmem end_ freelist_kernel freelist_user]; auto.
Qed.

Lemma w3_pmem_free_outside : forall st pa k st1 x,
  pmem_free st pa k = Ok st1 ->
  x < pa \/ pa + PGSIZE <= x -> mem st1 x = mem st x.
Proof.
  intros st pa k st1 x H Hx.
  destruct (Z.eq_dec pa 0) as [E|E].
  { subst pa. rewrite w3_pmem_free_null in H. discriminate H. }
  destruct (w3_pmem_free_ok st pa k E) as (st1' & H' & Em & _).
  rewrite H' in H. injection H as <-. rewrite Em.
  unfold PGSIZE in *. rewrite store64_other by lia. apply memset_other. lia.
Qed.


Lemma w3_roundtrip : forall st root va pa perm st1,
  0 <= va <= VA_MAX -> 0 <= pa < 2 ^ 64 ->
  Z.land perm (Z.lor (Z.lor PTE_R PTE_W) PTE_X) <> 0 ->
  frames_ok (walk_frames st root va) = true ->
  vm_mappages st root va pa PGSIZE perm = Ok st1 ->
  (forall st' off,
     (forall x, on_path root (walk_t1 st root va) (walk_t0 st root va) va x ->
                mem st' x = mem st1 x) ->
     0 <= off < PGSIZE ->
     snd (vm_walkaddr st' root (va + off)) = pa + off) /\
  (forall freeit,
     (freeit = true -> pa <> 0 /\ ~ In pa (walk_frames st root va)) ->
     exists st2,
       vm_unmappages st1 root va PGSIZE freeit = Ok st2 /\
       forall off, 0 <= off < PGSIZE -> snd (vm_walkaddr st2 root (va + off)) = 0) /\
  (pa = 0 -> vm_unmappages st1 root va PGSIZE true = NullDeref).
Proof.
  intros st root va pa perm st3 Hva Hpa Hrwx Hok Hmap.
  assert (Hva64 : 0 <= va < 2 ^ 64) by (unfold VA_MAX in Hva; lia).
  destruct (w3_map_one _ _ _ _ _ _ Hva64 Hpa Hmap)
    as (st1 & pte & G & Hnz & Em & Ee & Ek & _ & Ava & Apa & Hperm).
  destruct (w3_getpte_create _ _ _ _ _ Hok G Hnz) as (Ep & V2 & E2 & V1 & E1 & _).
  destruct (leaf_pte_facts pa perm Hpa Apa Hperm) as (Lr & Lv & Lpa & _ & Lt).
  specialize (Lt Hrwx).
  pose proof (VPN_range va 2) as R2. pose proof (VPN_range va 1) as R1.
  pose proof (VPN_range va 0) as R0.
  apply frames_ok_spec in Hok. destruct Hok as [Hfr Hnd].
  unfold walk_frames in Hfr, Hnd.
  set (t1 := walk_t1 st root va) in *. set (t0 := walk_t0 st root va) in *.
  destruct (Hfr root ltac:(simpl; auto)) as [Rr Ar].
  destruct (Hfr t1 ltac:(simpl; auto)) as [Rt1 At1].
  destruct (Hfr t0 ltac:(simpl; auto)) as [Rt0 At0].
  assert (N : root <> t1 /\ root <> t0 /\ t1 <> t0).
  { inversion Hnd as [|? ? Hn1 Hnd']; subst. inversion Hnd' as [|? ? Hn2 _]; subst.
    simpl in Hn1, Hn2. intuition. }
  destruct N as (N1 & N0 & N10).
  pose proof (aligned_apart _ _ Ar At1 N1) as D1.
  pose proof (aligned_apart _ _ Ar At0 N0) as D0.
  pose proof (aligned_apart _ _ At1 At0 N10) as D10.
  unfold PGSIZE in D1, D0, D10.
  set (a2 := root + 8 * VA_TO_VPN va 2) in *.
  set (a1 := t1 + 8 * VA_TO_VPN va 1) in *.
  assert (L2 : load64 (mem st3) a2 = load64 (mem st1) a2).
  { rewrite Em. apply load64_store64_other. subst a2 pte. lia. }
  assert (L1 : load64 (mem st3) a1 = load64 (mem st1) a1).
  { rewrite Em. apply load64_store64_other. subst a1 pte. lia. }
  assert (L0 : load64 (mem st3) pte = leaf_pte pa perm).
  { rewrite Em. apply load64_store64_same. exact Lr. }
  rewrite <- L2 in V2, E2. rewrite <- L1 in V1, E1. clear L2 L1.
  split.
  - intros st' off Hsame Hoff.
    assert (S2 : load64 (mem st') a2 = load64 (mem st3) a2).
    { apply load64_ext. intros x Hx. apply Hsame. left. exact Hx. }
    assert (S1 : load64 (mem st') a1 = load64 (mem st3) a1).
    { apply load64_ext. intros x Hx. apply Hsame. right. left. exact Hx. }
    assert (S0 : load64 (mem st') pte = leaf_pte pa perm).
    { rewrite <- L0. apply load64_ext. intros x Hx. apply Hsame. right. right.
      rewrite <- Ep. exact Hx. }
    rewrite <- S2 in V2, E2. rewrite <- S1 in V1, E1. subst a2 a1.
    rewrite (w3_walkaddr_hit st' root va off t1 t0) by (assumption || congruence).
    cbv zeta. rewrite <- Ep, S0, Lv, Lt, Lpa. cbn [negb andb].
    apply wrap64_small. unfold PGSIZE in *.
    pose proof (Z.div_mod pa 4096 ltac:(lia)).
    assert (pa / 4096 < 2 ^ 52) by (apply Z.div_lt_upper_bound; lia). lia.
  - assert (Hun : forall freeit,
      vm_unmappages st3 root va PGSIZE freeit =
      (st4 <- (if freeit
               then pmem_free st3 pa (pa <? PG_ROUND_DOWN (end_ st3) + KERNEL_PAGES * PGSIZE)
               else Ok st3) ;;
       Ok (set_mem st4 (store64 (mem st4) pte 0)))).
    { intros freeit. unfold vm_unmappages.
      replace (negb (va mod PGSIZE =? 0) || negb (PGSIZE mod PGSIZE =? 0)) with false
        by (rewrite Ava; reflexivity).
      change (Z.to_nat (PGSIZE / PGSIZE)) with 1%nat. cbn [vm_unmappages_loop].
      rewrite Z.add_0_r, wrap64_small by exact Hva64.
      rewrite (w3_getpte_hit st3 root va false t1 t0) by (subst a2 a1; assumption).
      rewrite <- Ep.
      replace (pte =? 0) with false by (symmetry; apply Z.eqb_neq; exact Hnz).
      cbv zeta. rewrite L0, Lpa.
      destruct freeit; [|reflexivity].
      destruct (pmem_free st3 pa _); reflexivity. }
    split.
    + intros freeit Hfree. rewrite Hun.
      assert (Hst4 : exists st4,
                (if freeit
                 then pmem_free st3 pa (pa <? PG_ROUND_DOWN (end_ st3) + KERNEL_PAGES * PGSIZE)
                 else Ok st3) = Ok st4 /\
                forall x, (x < pa \/ pa + PGSIZE <= x \/ freeit = false) ->
                          mem st4 x = mem st3 x).
      { destruct freeit.
        - destruct (Hfree eq_refl) as [Hpnz _].
          destruct (w3_pmem_free_ok st3 pa
                      (pa <? PG_ROUND_DOWN (end_ st3) + KERNEL_PAGES * PGSIZE) Hpnz)
            as (st4 & Hf & _).
          exists st4. split; [exact Hf|].
          intros x Hx. apply (w3_pmem_free_outside _ _ _ _ _ Hf).
          destruct Hx as [Hx|[Hx|Hx]]; [auto|auto|discriminate Hx].
        - exists st3. split; [reflexivity|]. intros; reflexivity. }
      destruct Hst4 as (st4 & Hf4 & Hm4). rewrite Hf4. cbn [bind].
      eexists. split; [reflexivity|].
      intros off Hoff.
      assert (Hpa_apart : freeit = true ->
                (pa + 4096 <= root \/ root + 4096 <= pa) /\
                (pa + 4096 <= t1 \/ t1 + 4096 <= pa)).
      { intros Ef. destruct (Hfree Ef) as [_ Hnin]. simpl in Hnin.
        split; apply aligned_apart; try assumption; intuition. }
      assert (M2 : load64 (mem st4) a2 = load64 (mem st3) a2).
      { apply load64_ext. intros x Hx. apply Hm4. destruct freeit; [|auto].
        destruct (Hpa_apart eq_refl) as [Hp _]. subst a2. unfold PGSIZE.
        assert (T : x < pa \/ pa + 4096 <= x) by lia. tauto. }
      assert (M1 : load64 (mem st4) a1 = load64 (mem st3) a1).
      { apply load64_ext. intros x Hx. apply Hm4. destruct freeit; [|auto].
        destruct (Hpa_apart eq_refl) as [_ Hp]. subst a1. unfold PGSIZE.
        assert (T : x < pa \/ pa + 4096 <= x) by lia. tauto. }
      set (st5 := set_mem st4 (store64 (mem st4) pte 0)).
      assert (F2 : load64 (mem st5) a2 = load64 (mem st3) a2).
      { subst st5. cbn [mem set_mem]. rewrite load64_store64_other by (subst a2 pte; lia).
        exact M2. }
      assert (F1 : load64 (mem st5) a1 = load64 (mem st3) a1).
      { subst st5. cbn [mem set_mem]. rewrite load64_store64_other by (subst a1 pte; lia).
        exact M1. }
      assert (F0 : load64 (mem st5) pte = 0).
      { subst st5. cbn [mem set_mem]. apply load64_store64_same. lia. }
      rewrite <- F2 in V2, E2. rewrite <- F1 in V1, E1. subst a2 a1.
      rewrite (w3_walkaddr_hit st5 root va off t1 t0) by (assumption || congruence).
      cbv zeta. rewrite <- Ep, F0. reflexivity.
    + intros E0. rewrite Hun. rewrite E0. rewrite w3_pmem_free_null. reflexivity.
Qed.
(** Closed facts about the example machines are settled by evaluation,
    one conjunct at a time. *)
Ltac conj_compute :=
  repeat match goal with |- _ /\ _ => split end;
  vm_compute; (reflexivity || discriminate).

Lemma get_ok_eq : forall (A : Type) (r : result A) (d : A),
  is_ok r = true -> r = Ok (get_ok r d).
Proof. intros A r d H. destruct r; simpl in *; congruence. Qed.



Section week3_remap.
Import Week3.

Lemma w3_leaf_valid_walk : forall st root va,
  leaf_valid st root va = true ->
  walk_t1 st root va = PTE_TO_PA (load64 (mem st) (root + 8 * VA_TO_VPN va 2)) /\
  walk_t0 st root va =
    PTE_TO_PA (load64 (mem st) (walk_t1 st root va + 8 * VA_TO_VPN va 1)) /\
  pte_valid (load64 (mem st) (root + 8 * VA_TO_VPN va 2)) = true /\
  pte_valid (load64 (mem st) (walk_t1 st root va + 8 * VA_TO_VPN va 1)) = true /\
  pte_valid (load64 (mem st) (walk_t0 st root va + 8 * VA_TO_VPN va 0)) = true.
Proof.
  intros st root va H. unfold leaf_valid in H. cbv zeta in H.
  apply andb_true_iff in H. destruct H as [H V0].
  apply andb_true_iff in H. destruct H as [V2 V1].
  unfold walk_t1, walk_t0. cbv zeta. rewrite V2, V1. auto.
Qed.

Lemma w3_remap : forall st root va pa perm,
  0 <= va <= VA_MAX -> va mod PGSIZE = 0 ->
  0 <= pa < 2 ^ 64 -> pa mod PGSIZE = 0 ->
  Z.land perm (Z.lnot (Z.lor (Z.lor (Z.lor (Z.lor PTE_R PTE_W) PTE_X) PTE_U) PTE_G)) = 0 ->
  leaf_valid st root va = true ->
  frames_ok (walk_frames st root va) = true ->
  ~ In 0 (walk_frames st root va) ->
  exists st1,
    vm_mappages st root va pa PGSIZE perm = Ok st1 /\
    console st1 = console st ++
      [Print "vm_mappages: va 0x%lx already mapped, overwriting\n" [va]] /\
    load64 (mem st1) (walk_t0 st root va + 8 * VA_TO_VPN va 0) = leaf_pte pa perm /\
    (Z.land perm (Z.lor (Z.lor PTE_R PTE_W) PTE_X) <> 0 ->
     forall off, 0 <= off < PGSIZE ->
       snd (vm_walkaddr st1 root (va + off)) = pa + off).
Proof.
  intros st root va pa perm Hva Ava Hpa Apa Hperm Hleaf Hok Hnull.
  assert (Hnz : walk_t0 st root va + 8 * VA_TO_VPN va 0 <> 0).
  { destruct (frames_ok_spec _ Hok) as [Hfr _].
    destruct (Hfr (walk_t0 st root va)) as [Rt0 At0]; [simpl; auto|].
    assert (walk_t0 st root va <> 0) by (intros X; apply Hnull; simpl; auto).
    pose proof (VPN_range va 0). lia. }
  destruct (w3_leaf_valid_walk _ _ _ Hleaf) as (E1 & E0 & V2 & V1 & V0).
  assert (Hva64 : 0 <= va < 2 ^ 64) by (unfold VA_MAX in Hva; lia).
  assert (G : vm_getpte st root va true = (st, walk_t0 st root va + 8 * VA_TO_VPN va 0)).
  { apply (w3_getpte_hit st root va true (walk_t1 st root va)); auto. }
  assert (M : exists st1, vm_mappages st root va pa PGSIZE perm = Ok st1 /\
     console st1 = console st ++
      [Print "vm_mappages: va 0x%lx already mapped, overwriting\n" [va]]).
  { unfold vm_mappages. rewrite Ava, Apa. cbn [Z.eqb negb orb].
    change (PGSIZE mod PGSIZE =? 0) with true. cbn [negb].
    rewrite Hperm. cbn [Z.eqb negb].
    change (Z.to_nat (PGSIZE / PGSIZE)) with 1%nat. cbn [vm_mappages_loop].
    rewrite !Z.add_0_r, !wrap64_small by assumption. rewrite G.
    replace (walk_t0 st root va + 8 * VA_TO_VPN va 0 =? 0) with false
      by (symmetry; apply Z.eqb_neq; exact Hnz).
    rewrite V0. eexists. split; reflexivity. }
  destruct M as (st1 & Hmap & Hcon).
  exists st1. split; [exact Hmap|]. split; [exact Hcon|].
  destruct (w3_map_one _ _ _ _ _ _ Hva64 Hpa Hmap)
    as (st1' & pte & G' & _ & Em & _ & _ & _ & _ & _ & Hp).
  rewrite G in G'. inversion G'; subst st1' pte. clear G'.
  destruct (leaf_pte_facts pa perm Hpa Apa Hp) as (Lr & _).
  split.
  - rewrite Em. apply load64_store64_same. exact Lr.
  - intros Hrwx off Hoff.
    apply (proj1 (w3_roundtrip st root va pa perm st1 Hva Hpa Hrwx Hok Hmap)); auto.
Qed.

End week3_remap.

Section syscall_walker.
Import Syscall.

Lemma sc_getpte_hit : forall st root va alloc t1 t0,
  pte_valid (load64 (mem st) (root + 8 * VA_TO_VPN va 2)) = true ->
  PTE_TO_PA (load64 (mem st) (root + 8 * VA_TO_VPN va 2)) = t1 ->
  pte_valid (load64 (mem st) (t1 + 8 * VA_TO_VPN va 1)) = true ->
  PTE_TO_PA (load64 (mem st) (t1 + 8 * VA_TO_VPN va 1)) = t0 ->
  vm_getpte st root va alloc = Ok (st, t0 + 8 * VA_TO_VPN va 0).
Proof.
  intros st root va alloc t1 t0 V2 E2 V1 E1.
  unfold vm_getpte. cbn [vm_getpte_loop].
  change (Z.of_nat 2) with 2. rewrite V2, E2.
  change (Z.of_nat 1) with 1. rewrite V1, E1. reflexivity.
Qed.

Lemma sc_remap_panics : forall st root va pa len perm,
  leaf_valid st root (PG_ROUND_DOWN va) = true ->
  exists msg, vm_mappages st root va pa len perm = Panic msg.
Proof.
  intros st root va pa len perm H. unfold leaf_valid in H. cbv zeta in H.
  apply andb_true_iff in H. destruct H as [H V0].
  apply andb_true_iff in H. destruct H as [V2 V1].
  unfold vm_mappages.
  destruct (len <=? 0); [eexists; reflexivity|].
  destruct (negb (va mod PGSIZE =? 0) || negb (pa mod PGSIZE =? 0)); [eexists; reflexivity|].
  destruct (VA_MAX <? wrap64 (va + len)); [eexists; reflexivity|].
  set (n := Z.to_nat _). 
  assert (E : forall n, exists msg,
            vm_mappages_loop n st root (PG_ROUND_DOWN va) pa perm = Panic msg).
  { intros k. destruct k; cbn [vm_mappages_loop];
    rewrite (sc_getpte_hit st root _ true _ _ V2 eq_refl V1 eq_refl); cbn [bind];
    (destruct (_ =? 0); [eexists; reflexivity|]); rewrite V0; eexists; reflexivity. }
  apply E.
Qed.

Lemma sc_remap_panics_mapped : forall st root va pa len perm,
  0 < len -> va mod PGSIZE = 0 -> pa mod PGSIZE = 0 ->
  wrap64 (va + len) <= VA_MAX ->
  leaf_valid st root (PG_ROUND_DOWN va) = true ->
  lookup st root (PG_ROUND_DOWN va) <> 0 ->
  vm_mappages st root va pa len perm = Panic "vm_mappages: virtual address already mapped".
Proof.
  intros st root va pa len perm Hlen Ava Apa Hmax H Hnz.
  unfold leaf_valid in H. cbv zeta in H.
  apply andb_true_iff in H. destruct H as [H V0].
  apply andb_true_iff in H. destruct H as [V2 V1].
  assert (El : lookup st root (PG_ROUND_DOWN va)
               = PTE_TO_PA (load64 (mem st)
                   (PTE_TO_PA (load64 (mem st) (root + 8 * VA_TO_VPN (PG_ROUND_DOWN va) 2))
                    + 8 * VA_TO_VPN (PG_ROUND_DOWN va) 1))
                 + 8 * VA_TO_VPN (PG_ROUND_DOWN va) 0).
  { unfold lookup. cbv zeta. rewrite V2, V1. reflexivity. }
  rewrite El in Hnz.
  unfold vm_mappages.
  replace (len <=? 0) with false by (symmetry; apply Z.leb_gt; exact Hlen).
  rewrite Ava, Apa. cbn [Z.eqb negb orb].
  replace (VA_MAX <? wrap64 (va + len)) with false by (symmetry; apply Z.ltb_ge; exact Hmax).
  cbv zeta. set (n := Z.to_nat _).
  assert (E : forall n,
            vm_mappages_loop n st root (PG_ROUND_DOWN va) pa perm
            = Panic "vm_mappages: virtual address already mapped").
  { intros k. destruct k; cbn [vm_mappages_loop];
    rewrite (sc_getpte_hit st root _ true _ _ V2 eq_refl V1 eq_refl); cbn [bind];
    apply Z.eqb_neq in Hnz; rewrite Hnz, V0; reflexivity. }
  apply E.
Qed.

End syscall_walker.

(** C4 (as amended): on week3, for a page-aligned [va] not above
    [VA_MAX] whose walk goes through three pairwise distinct, non-null
    table frames to a leaf entry that is already valid, [vm_mappages]
    of that page to a page-aligned [pa], with a permission within
    R|W|X|U|G, completes, prints the "already mapped, overwriting"
    line, stores [PA_TO_PTE(pa) | perm | PTE_V] in the entry, and (for
    a permission with R, W or X) [vm_walkaddr] then gives the new
    frame.  On 系统调用, [vm_mappages] whose first page has a valid
    leaf entry never completes: when the arguments pass its three
    entry checks and the entry is not at address 0, it panics with
    "vm_mappages: virtual address already mapped"; in any case it ends
    in a panic. *)
Theorem remap_overwrites_week3_panics_syscall :
  (forall st root va pa perm,
     0 <= va <= Week3.VA_MAX -> va mod PGSIZE = 0 ->
     0 <= pa < 2 ^ 64 -> pa mod PGSIZE = 0 ->
     Z.land perm (Z.lnot (Z.lor (Z.lor (Z.lor (Z.lor PTE_R PTE_W) PTE_X) PTE_U) PTE_G)) = 0 ->
     Week3.leaf_valid st root va = true ->
     frames_ok (Week3.walk_frames st root va) = true ->
     ~ In 0 (Week3.walk_frames st root va) ->
     exists st1,
       Week3.vm_mappages st root va pa PGSIZE perm = Ok st1 /\
       Week3.console st1 = Week3.console st ++
         [Print "vm_mappages: va 0x%lx already mapped, overwriting\n" [va]] /\
       load64 (Week3.mem st1) (Week3.walk_t0 st root va + 8 * VA_TO_VPN va 0)
         = leaf_pte pa perm /\
       (Z.land perm (Z.lor (Z.lor PTE_R PTE_W) PTE_X) <> 0 ->
        forall off, 0 <= off < PGSIZE ->
          snd (Week3.vm_walkaddr st1 root (va + off)) = pa + off)) /\
  (forall st root va pa len perm,
     0 < len -> va mod PGSIZE = 0 -> pa mod PGSIZE = 0 ->
     wrap64 (va + len) <= Syscall.VA_MAX ->
     Syscall.leaf_valid st root (PG_ROUND_DOWN va) = true ->
     Syscall.lookup st root (PG_ROUND_DOWN va) <> 0 ->
     Syscall.vm_mappages st root va pa len perm
     = Panic "vm_mappages: virtual address already mapped") /\
  (forall st root va pa len perm,
     Syscall.leaf_valid st root (PG_ROUND_DOWN va) = true ->
     exists msg, Syscall.vm_mappages st root va pa len perm = Panic msg).
Proof.
  split; [exact w3_remap | split; [exact sc_remap_panics_mapped | exact sc_remap_panics]].
Qed.

(** C4 at an example: the page 0x1000 of [mapped] mapped again on
    week3, and the page 0x1000 of the 系统调用 example address space
    mapped again there. *)
Lemma remap_overwrites_week3_panics_syscall_witness :
  ((0 <= 0x1000 <= Week3.VA_MAX /\ 0x1000 mod PGSIZE = 0 /\
    0 <= 0x80301000 < 2 ^ 64 /\ 0x80301000 mod PGSIZE = 0 /\
    Z.land PTE_R (Z.lnot (Z.lor (Z.lor (Z.lor (Z.lor PTE_R PTE_W) PTE_X) PTE_U) PTE_G)) = 0 /\
    Week3.leaf_valid Week3.mapped Week3.boot_root 0x1000 = true /\
    frames_ok (Week3.walk_frames Week3.mapped Week3.boot_root 0x1000) = true /\
    ~ In 0 (Week3.walk_frames Week3.mapped Week3.boot_root 0x1000)) /\
   exists st1,
     Week3.vm_mappages Week3.mapped Week3.boot_root 0x1000 0x80301000 PGSIZE PTE_R = Ok st1 /\
     Week3.console st1 = Week3.console Week3.mapped ++
       [Print "vm_mappages: va 0x%lx already mapped, overwriting\n" [0x1000]] /\
     load64 (Week3.mem st1) (Week3.walk_t0 Week3.mapped Week3.boot_root 0x1000
                             + 8 * VA_TO_VPN 0x1000 0)
       = leaf_pte 0x80301000 PTE_R /\
     (Z.land PTE_R (Z.lor (Z.lor PTE_R PTE_W) PTE_X) <> 0 ->
      forall off, 0 <= off < PGSIZE ->
        snd (Week3.vm_walkaddr st1 Week3.boot_root (0x1000 + off)) = 0x80301000 + off)) /\
  ((0 < PGSIZE /\ 0x1000 mod PGSIZE = 0 /\ Syscall.demo_page mod PGSIZE = 0 /\
    wrap64 (0x1000 + PGSIZE) <= Syscall.VA_MAX /\
    Syscall.leaf_valid Syscall.demo_state Syscall.demo_root (PG_ROUND_DOWN 0x1000) = true /\
    Syscall.lookup Syscall.demo_state Syscall.demo_root (PG_ROUND_DOWN 0x1000) <> 0) /\
   Syscall.vm_mappages Syscall.demo_state Syscall.demo_root 0x1000 Syscall.demo_page
                       PGSIZE (Z.lor PTE_R PTE_W)
   = Panic "vm_mappages: virtual address already mapped").
Proof.
  assert (H1 : 0 <= 0x1000 <= Week3.VA_MAX) by (vm_compute; split; discriminate).
  assert (H2 : 0x1000 mod PGSIZE = 0) by reflexivity.
  assert (H3 : 0 <= 0x80301000 < 2 ^ 64) by (vm_compute; split; [discriminate|reflexivity]).
  assert (H4 : 0x80301000 mod PGSIZE = 0) by reflexivity.
  assert (H5 : Z.land PTE_R
            (Z.lnot (Z.lor (Z.lor (Z.lor (Z.lor PTE_R PTE_W) PTE_X) PTE_U) PTE_G)) = 0)
    by reflexivity.
  assert (H6 : Week3.leaf_valid Week3.mapped Week3.boot_root 0x1000 = true)
    by (vm_compute; reflexivity).
  assert (H7 : frames_ok (Week3.walk_frames Week3.mapped Week3.boot_root 0x1000) = true)
    by (vm_compute; reflexivity).
  assert (E : Week3.walk_frames Week3.mapped Week3.boot_root 0x1000
              = [0x80201000; 0x80202000; 0x80203000]) by (vm_compute; reflexivity).
  assert (H8 : ~ In 0 (Week3.walk_frames Week3.mapped Week3.boot_root 0x1000)).
  { rewrite E. intros [X|[X|[X|[]]]]; discriminate X. }
  assert (G1 : 0 < PGSIZE) by reflexivity.
  assert (G3 : Syscall.demo_page mod PGSIZE = 0) by (vm_compute; reflexivity).
  assert (G4 : wrap64 (0x1000 + PGSIZE) <= Syscall.VA_MAX) by (vm_compute; discriminate).
  assert (G5 : Syscall.leaf_valid Syscall.demo_state Syscall.demo_root (PG_ROUND_DOWN 0x1000)
               = true) by (vm_compute; reflexivity).
  assert (G6 : Syscall.lookup Syscall.demo_state Syscall.demo_root (PG_ROUND_DOWN 0x1000) <> 0)
    by (vm_compute; discriminate).
  split.
  - split; [exact (conj H1 (conj H2 (conj H3 (conj H4 (conj H5 (conj H6 (conj H7 H8)))))))|].
    exact (proj1 remap_overwrites_week3_panics_syscall
             Week3.mapped Week3.boot_root 0x1000 0x80301000 PTE_R H1 H2 H3 H4 H5 H6 H7 H8).
  - split; [exact (conj G1 (conj H2 (conj G3 (conj G4 (conj G5 G6)))))|].
    exact (proj1 (proj2 remap_overwrites_week3_panics_syscall)
             Syscall.demo_state Syscall.demo_root 0x1000 Syscall.demo_page PGSIZE
             (Z.lor PTE_R PTE_W) G1 H2 G3 G4 G5 G6).
Defined.

(** C4 (as stated) fails on 系统调用: mapping the page 0x1000 of the
    example address space a second time panics instead of overwriting. *)
Lemma syscall_remap_panics :
  Syscall.leaf_valid Syscall.demo_state Syscall.demo_root 0x1000 = true /\
  Syscall.vm_mappages Syscall.demo_state Syscall.demo_root 0x1000 Syscall.demo_page
                      PGSIZE (Z.lor PTE_R PTE_W)
  = Panic "vm_mappages: virtual address already mapped".
Proof. conj_compute. Qed.
(** ** Allocation: zero-fill and the empty free list *)

Lemma sc_alloc_ok : forall st k st' p,
  Syscall.pmem_alloc st k = Ok (st', p) ->
  p = Syscall.list_head (Syscall.region st k) /\ p <> 0 /\
  Syscall.allocable (Syscall.region st k) <> 0 /\
  Syscall.mem st' = memset (Syscall.mem st) p 0 PGSIZE /\
  Syscall.region st' k =
    Syscall.mk_region (Syscall.begin (Syscall.region st k)) (Syscall.end_ (Syscall.region st k))
      (wrap32 (Syscall.allocable (Syscall.region st k) - 1))
      (load64 (Syscall.mem st) p) /\
  Syscall.region st' (negb k) = Syscall.region st (negb k).
Proof.
  intros st k st' p H. unfold Syscall.pmem_alloc in H.
  destruct (Z.eqb_spec (Syscall.allocable (Syscall.region st k)) 0) as [Ea|Ea];
    [discriminate|].
  destruct (Z.eqb_spec (Syscall.list_head (Syscall.region st k)) 0) as [Eh|Eh];
    [discriminate|].
  cbn [orb] in H. inversion H; subst; clear H.
  destruct k; cbn; auto 10.
Qed.

Lemma sc_alloc_empty : forall st k,
  Syscall.allocable (Syscall.region st k) = 0 \/ Syscall.list_head (Syscall.region st k) = 0 ->
  Syscall.pmem_alloc st k = Panic "pmem_alloc: no available physical pages ".
Proof.
  intros st k H. unfold Syscall.pmem_alloc.
  destruct H as [H|H]; rewrite H; [reflexivity|].
  rewrite orb_true_r. reflexivity.
Qed.

Lemma w3_alloc_mem : forall st k, Week3.mem (fst (Week3.pmem_alloc st k)) = Week3.mem st.
Proof.
  intros st k. unfold Week3.pmem_alloc.
  destruct k; cbn [andb fst];
    repeat match goal with |- context [if ?c then _ else _] => destruct c end; reflexivity.
Qed.

Lemma w3_alloc_empty : forall st (k : bool),
  (if k then Week3.freelist_kernel (Week3.kmem st)
   else Week3.freelist_user (Week3.kmem st)) = 0 ->
  Week3.pmem_alloc st k =
    ((if k then Week3.printf st "pmem_alloc: kernel out of memory\n" [] else st), 0).
Proof.
  intros st k H. unfold Week3.pmem_alloc. destruct k; rewrite H; reflexivity.
Qed.

Lemma w3_map_oom : forall st root va pa len perm,
  va mod PGSIZE = 0 -> pa mod PGSIZE = 0 -> len mod PGSIZE = 0 -> 0 < len ->
  Z.land perm (Z.lnot (Z.lor (Z.lor (Z.lor (Z.lor PTE_R PTE_W) PTE_X) PTE_U) PTE_G)) = 0 ->
  0 <= va < 2 ^ 64 ->
  Week3.freelist_kernel (Week3.kmem st) = 0 ->
  pte_valid (load64 (Week3.mem st) (root + 8 * VA_TO_VPN va 2)) = false \/
  pte_valid (load64 (Week3.mem st)
     (PTE_TO_PA (load64 (Week3.mem st) (root + 8 * VA_TO_VPN va 2)) + 8 * VA_TO_VPN va 1))
    = false ->
  Week3.vm_mappages st root va pa len perm = Panic "vm_mappages: vm_getpte failed".
Proof.
  intros st root va pa len perm Ava Apa Alen Hlen Hperm Hva Hfree Hmiss.
  unfold Week3.vm_mappages. rewrite Ava, Apa, Alen, Hperm. cbn [Z.eqb negb orb].
  assert (Hn : exists n, Z.to_nat (len / PGSIZE) = S n).
  { exists (Nat.pred (Z.to_nat (len / PGSIZE))).
    assert (PGSIZE <= len).
    { unfold PGSIZE in *. pose proof (Z.div_mod len 4096 ltac:(lia)). lia. }
    assert (1 <= len / PGSIZE) by (apply Z.div_le_lower_bound; unfold PGSIZE in *; lia).
    lia. }
  destruct Hn as [n ->]. cbn [Week3.vm_mappages_loop].
  rewrite Z.add_0_r, wrap64_small by exact Hva.
  assert (E : snd (Week3.vm_getpte st root va true) = 0).
  { unfold Week3.vm_getpte.
    destruct (pte_valid (load64 (Week3.mem st) (root + 8 * VA_TO_VPN va 2))) eqn:V2.
    - destruct Hmiss as [Hm|Hm]; [discriminate|].
      rewrite w3_loop_valid by exact V2. apply w3_loop_oom; assumption.
    - apply w3_loop_oom; assumption. }
  destruct (Week3.vm_getpte st root va true) as [st1 pte]. simpl in E. subst pte.
  reflexivity.
Qed.

Section week3_zero.
Import Week3.

Lemma w3_create_zero : forall st x,
  snd (vm_create st) <> 0 ->
  snd (vm_create st) <= x < snd (vm_create st) + PGSIZE ->
  mem (fst (vm_create st)) x = 0.
Proof.
  intros st x. unfold vm_create.
  destruct (pmem_alloc st true) as [st1 p].
  destruct (p =? 0) eqn:E; cbn [fst snd].
  - apply Z.eqb_eq in E. intros H. contradiction.
  - intros _ Hx. cbn [mem set_mem]. rewrite memset_in by exact Hx. reflexivity.
Qed.

Lemma w3_free_then_alloc : forall st pa k st1,
  pmem_free st pa k = Ok st1 ->
  snd (pmem_alloc st1 k) = pa /\
  (forall x, pa + 8 <= x < pa + PGSIZE -> mem (fst (pmem_alloc st1 k)) x = 0xaa) /\
  (0 <= (if k then freelist_kernel (kmem st) else freelist_user (kmem st)) < 2 ^ 64 ->
   load64 (mem (fst (pmem_alloc st1 k))) pa
   = if k then freelist_kernel (kmem st) else freelist_user (kmem st)).
Proof.
  intros st pa k st1 H.
  destruct (Z.eq_dec pa 0) as [E|E].
  { subst pa. rewrite w3_pmem_free_null in H. discriminate H. }
  destruct (w3_pmem_free_ok st pa k E) as (st1' & H' & Em & Eh & _).
  rewrite H' in H. injection H as <-.
  rewrite w3_alloc_mem.
  split; [|split].
  - unfold pmem_alloc. cbn [snd]. destruct k; exact Eh.
  - intros x Hx. rewrite Em. rewrite store64_other by lia.
    rewrite memset_in by (unfold PGSIZE in *; lia). reflexivity.
  - intros Hr. rewrite Em. apply load64_store64_same. exact Hr.
Qed.

Lemma pte_valid_zero : pte_valid 0 = false.
Proof. reflexivity. Qed.

Lemma w3_getpte_zeroes : forall st root va,
  frames_ok (walk_frames st root va) = true ->
  ~ In 0 (walk_frames st root va) ->
  (pte_valid (load64 (mem st) (root + 8 * VA_TO_VPN va 2)) = true ->
   pte_valid (load64 (mem st) (walk_t1 st root va + 8 * VA_TO_VPN va 1)) = false ->
   walk_t0 st root va = freelist_kernel (kmem st) /\
   snd (vm_getpte st root va true) = walk_t0 st root va + 8 * VA_TO_VPN va 0 /\
   forall x, walk_t0 st root va <= x < walk_t0 st root va + PGSIZE ->
     mem (fst (vm_getpte st root va true)) x = 0) /\
  (pte_valid (load64 (mem st) (root + 8 * VA_TO_VPN va 2)) = false ->
   walk_t1 st root va = freelist_kernel (kmem st) /\
   walk_t0 st root va = load64 (mem st) (walk_t1 st root va) /\
   snd (vm_getpte st root va true) = walk_t0 st root va + 8 * VA_TO_VPN va 0 /\
   (forall x, walk_t0 st root va <= x < walk_t0 st root va + PGSIZE ->
      mem (fst (vm_getpte st root va true)) x = 0) /\
   (forall x, walk_t1 st root va <= x < walk_t1 st root va + PGSIZE ->
      x < walk_t1 st root va + 8 * VA_TO_VPN va 1 \/
      walk_t1 st root va + 8 * VA_TO_VPN va 1 + 8 <= x ->
      mem (fst (vm_getpte st root va true)) x = 0)).
Proof.
  intros st root va Hok Hnull.
  pose proof (VPN_range va 2) as R2. pose proof (VPN_range va 1) as R1.
  pose proof (VPN_range va 0) as R0.
  apply frames_ok_spec in Hok. destruct Hok as [Hfr Hnd].
  unfold walk_frames in Hfr, Hnd, Hnull.
  destruct (Hfr root ltac:(simpl; auto)) as [Rr Ar].
  destruct (Hfr (walk_t1 st root va) ltac:(simpl; auto)) as [Rt1 At1].
  destruct (Hfr (walk_t0 st root va) ltac:(simpl; auto)) as [Rt0 At0].
  assert (N : root <> walk_t1 st root va /\ root <> walk_t0 st root va /\
              walk_t1 st root va <> walk_t0 st root va).
  { inversion Hnd as [|? ? Hn1 Hnd']; subst. inversion Hnd' as [|? ? Hn2 _]; subst.
    simpl in Hn1, Hn2. intuition. }
  destruct N as (N1 & N0 & N10).
  assert (Z1 : walk_t1 st root va <> 0) by (intros X; apply Hnull; simpl; auto).
  assert (Z0 : walk_t0 st root va <> 0) by (intros X; apply Hnull; simpl; auto).
  pose proof (aligned_apart _ _ Ar At1 N1) as D1.
  pose proof (aligned_apart _ _ Ar At0 N0) as D0.
  pose proof (aligned_apart _ _ At1 At0 N10) as D10.
  unfold PGSIZE in D1, D0, D10.
  split.
  - intros V2 V1.
    assert (E1 : walk_t1 st root va
                 = PTE_TO_PA (load64 (mem st) (root + 8 * VA_TO_VPN va 2))).
    { unfold walk_t1. cbv zeta. rewrite V2. reflexivity. }
    assert (E0 : walk_t0 st root va = freelist_kernel (kmem st)).
    { unfold walk_t0. cbv zeta. rewrite V2. rewrite <- E1, V1. reflexivity. }
    split; [exact E0|].
    unfold vm_getpte. rewrite w3_loop_valid by exact V2.
    change (Z.of_nat 1) with 1. rewrite <- E1.
    destruct (w3_loop_create 0 st (walk_t1 st root va + 8 * VA_TO_VPN va 1) va
                (walk_t0 st root va) V1 (eq_sym E0) Z0 Rt0 At0)
      as (st' & El & Em & _).
    rewrite El. cbn [vm_getpte_loop fst snd]. change (Z.of_nat 0) with 0.
    split; [reflexivity|].
    intros x Hx. rewrite Em. unfold PGSIZE in *.
    rewrite store64_other by lia. rewrite memset_in by lia. reflexivity.
  - intros V2.
    assert (E1 : walk_t1 st root va = freelist_kernel (kmem st)).
    { unfold walk_t1. cbv zeta. rewrite V2. reflexivity. }
    assert (E0 : walk_t0 st root va = load64 (mem st) (walk_t1 st root va)).
    { unfold walk_t0. cbv zeta. rewrite V2, E1. reflexivity. }
    split; [exact E1|]. split; [exact E0|].
    unfold vm_getpte.
    destruct (w3_loop_create 1 st (root + 8 * VA_TO_VPN va 2) va
                (walk_t1 st root va) V2 (eq_sym E1) Z1 Rt1 At1)
      as (st' & El & Em & Ef & _).
    rewrite El. change (Z.of_nat 1) with 1.
    assert (V1 : pte_valid (load64 (mem st') (walk_t1 st root va + 8 * VA_TO_VPN va 1))
                 = false).
    { rewrite Em. rewrite load64_store64_other by lia.
      rewrite load64_memset_zero by (unfold PGSIZE; lia). reflexivity. }
    rewrite <- E0 in Ef.
    destruct (w3_loop_create 0 st' (walk_t1 st root va + 8 * VA_TO_VPN va 1) va
                (walk_t0 st root va) V1 Ef Z0 Rt0 At0)
      as (st'' & El' & Em' & _).
    rewrite El'. cbn [vm_getpte_loop fst snd]. change (Z.of_nat 0) with 0.
    split; [reflexivity|]. split.
    + intros x Hx. rewrite Em'. unfold PGSIZE in *.
      rewrite store64_other by lia. rewrite memset_in by lia. reflexivity.
    + intros x Hx Hout. rewrite Em'. unfold PGSIZE in *.
      rewrite store64_other by lia. rewrite memset_other by lia.
      rewrite Em. rewrite store64_other by lia. rewrite memset_in by lia. reflexivity.
Qed.

End week3_zero.

(** C7 (as amended): a frame that 系统调用's [pmem_alloc] returns is
    zero in all its 4096 bytes; week3's [pmem_alloc] does not touch
    memory at all, so a frame comes back as [pmem_free] left it, with
    the list link in its first eight bytes and 0xaa in the others, and
    its callers zero it themselves: [vm_create] the root it returns,
    [vm_getpte] each table its walk creates. *)
Theorem alloc_zero_fill_syscall_only :
  (forall st in_kernel st' p,
     Syscall.pmem_alloc st in_kernel = Ok (st', p) ->
     forall x, p <= x < p + PGSIZE -> Syscall.mem st' x = 0) /\
  (forall st in_kernel,
     Week3.mem (fst (Week3.pmem_alloc st in_kernel)) = Week3.mem st) /\
  (forall st pa (in_kernel : bool) st1,
     Week3.pmem_free st pa in_kernel = Ok st1 ->
     snd (Week3.pmem_alloc st1 in_kernel) = pa /\
     (forall x, pa + 8 <= x < pa + PGSIZE ->
        Week3.mem (fst (Week3.pmem_alloc st1 in_kernel)) x = 0xaa) /\
     (0 <= (if in_kernel then Week3.freelist_kernel (Week3.kmem st)
            else Week3.freelist_user (Week3.kmem st)) < 2 ^ 64 ->
      load64 (Week3.mem (fst (Week3.pmem_alloc st1 in_kernel))) pa
      = if in_kernel then Week3.freelist_kernel (Week3.kmem st)
        else Week3.freelist_user (Week3.kmem st))) /\
  (forall st x,
     snd (Week3.vm_create st) <> 0 ->
     snd (Week3.vm_create st) <= x < snd (Week3.vm_create st) + PGSIZE ->
     Week3.mem (fst (Week3.vm_create st)) x = 0) /\
  (forall st root va,
     frames_ok (Week3.walk_frames st root va) = true ->
     ~ In 0 (Week3.walk_frames st root va) ->
     (pte_valid (load64 (Week3.mem st) (root + 8 * VA_TO_VPN va 2)) = true ->
      pte_valid (load64 (Week3.mem st) (Week3.walk_t1 st root va + 8 * VA_TO_VPN va 1))
        = false ->
      Week3.walk_t0 st root va = Week3.freelist_kernel (Week3.kmem st) /\
      snd (Week3.vm_getpte st root va true) = Week3.walk_t0 st root va + 8 * VA_TO_VPN va 0 /\
      forall x, Week3.walk_t0 st root va <= x < Week3.walk_t0 st root va + PGSIZE ->
        Week3.mem (fst (Week3.vm_getpte st root va true)) x = 0) /\
     (pte_valid (load64 (Week3.mem st) (root + 8 * VA_TO_VPN va 2)) = false ->
      Week3.walk_t1 st root va = Week3.freelist_kernel (Week3.kmem st) /\
      Week3.walk_t0 st root va = load64 (Week3.mem st) (Week3.walk_t1 st root va) /\
      snd (Week3.vm_getpte st root va true) = Week3.walk_t0 st root va + 8 * VA_TO_VPN va 0 /\
      (forall x, Week3.walk_t0 st root va <= x < Week3.walk_t0 st root va + PGSIZE ->
         Week3.mem (fst (Week3.vm_getpte st root va true)) x = 0) /\
      (forall x, Week3.walk_t1 st root va <= x < Week3.walk_t1 st root va + PGSIZE ->
         x < Week3.walk_t1 st root va + 8 * VA_TO_VPN va 1 \/
         Week3.walk_t1 st root va + 8 * VA_TO_VPN va 1 + 8 <= x ->
         Week3.mem (fst (Week3.vm_getpte st root va true)) x = 0))).
Proof.
  split; [|split; [|split; [|split]]].
  - intros st k st' p H x Hx.
    destruct (sc_alloc_ok _ _ _ _ H) as (_ & _ & _ & Em & _). rewrite Em.
    rewrite memset_in by exact Hx. reflexivity.
  - exact w3_alloc_mem.
  - exact w3_free_then_alloc.
  - exact w3_create_zero.
  - exact w3_getpte_zeroes.
Qed.

(** C7 at examples: a user frame of the 系统调用 machine, the root
    that week3's [vm_create] takes from [boot], and the level-0 table
    that the walk of 0x1000 creates under that root. *)
Lemma alloc_zero_fill_syscall_only_witness :
  (is_ok (Syscall.pmem_alloc Syscall.boot false) = true /\
   Syscall.mem (fst (get_ok (Syscall.pmem_alloc Syscall.boot false) (Syscall.boot, 0)))
               (snd (get_ok (Syscall.pmem_alloc Syscall.boot false) (Syscall.boot, 0)) + 8) = 0) /\
  (snd (Week3.vm_create Week3.boot) <> 0 /\
   Week3.mem (fst (Week3.vm_create Week3.boot)) (snd (Week3.vm_create Week3.boot) + 8) = 0) /\
  (frames_ok (Week3.walk_frames Week3.booted Week3.boot_root 0x1000) = true /\
   ~ In 0 (Week3.walk_frames Week3.booted Week3.boot_root 0x1000) /\
   pte_valid (load64 (Week3.mem Week3.booted) (Week3.boot_root + 8 * VA_TO_VPN 0x1000 2))
     = false /\
   forall x, Week3.walk_t0 Week3.booted Week3.boot_root 0x1000 <= x
             < Week3.walk_t0 Week3.booted Week3.boot_root 0x1000 + PGSIZE ->
     Week3.mem (fst (Week3.vm_getpte Week3.booted Week3.boot_root 0x1000 true)) x = 0).
Proof.
  assert (H : is_ok (Syscall.pmem_alloc Syscall.boot false) = true) by (vm_compute; reflexivity).
  assert (C1 : snd (Week3.vm_create Week3.boot) <> 0) by (vm_compute; discriminate).
  assert (G1 : frames_ok (Week3.walk_frames Week3.booted Week3.boot_root 0x1000) = true)
    by (vm_compute; reflexivity).
  assert (E : Week3.walk_frames Week3.booted Week3.boot_root 0x1000
              = [0x80201000; 0x80202000; 0x80203000]) by (vm_compute; reflexivity).
  assert (G2 : ~ In 0 (Week3.walk_frames Week3.booted Week3.boot_root 0x1000)).
  { rewrite E. intros [X|[X|[X|[]]]]; discriminate X. }
  assert (G3 : pte_valid (load64 (Week3.mem Week3.booted)
                            (Week3.boot_root + 8 * VA_TO_VPN 0x1000 2)) = false)
    by (vm_compute; reflexivity).
  split; [|split].
  - split; [exact H|].
    apply (proj1 alloc_zero_fill_syscall_only Syscall.boot false
             (fst (get_ok (Syscall.pmem_alloc Syscall.boot false) (Syscall.boot, 0)))
             (snd (get_ok (Syscall.pmem_alloc Syscall.boot false) (Syscall.boot, 0)))).
    + rewrite <- surjective_pairing. apply get_ok_eq. exact H.
    + unfold PGSIZE. lia.
  - split; [exact C1|].
    apply (proj1 (proj2 (proj2 (proj2 alloc_zero_fill_syscall_only))) Week3.boot);
      [exact C1 | unfold PGSIZE; lia].
  - split; [exact G1|]. split; [exact G2|]. split; [exact G3|].
    exact (proj1 (proj2 (proj2 (proj2
             (proj2 (proj2 (proj2 (proj2 (proj2 alloc_zero_fill_syscall_only)))
                      Week3.booted Week3.boot_root 0x1000 G1 G2) G3))))).
Defined.

(** C7 (as stated) fails on week3: the frame that [pmem_alloc] returns
    from [boot] still holds the 0xaa bytes [pmem_free] wrote. *)
Lemma week3_alloc_returns_poisoned_frame :
  snd (Week3.pmem_alloc Week3.boot true) = 0x80201000 /\
  load8 (Week3.mem (fst (Week3.pmem_alloc Week3.boot true))) (0x80201000 + 8) = 0xaa.
Proof. conj_compute. Qed.

(** C5 (as amended): on an empty free list 系统调用's [pmem_alloc]
    panics for either region; week3's returns NULL for either region
    (after printing "kernel out of memory" for the kernel one), and its
    kernel-side caller [vm_mappages] panics when the walk needed a new
    table. *)
Theorem alloc_failure_policy_per_variant :
  (forall st in_kernel,
     Syscall.allocable (Syscall.region st in_kernel) = 0 \/
     Syscall.list_head (Syscall.region st in_kernel) = 0 ->
     Syscall.pmem_alloc st in_kernel = Panic "pmem_alloc: no available physical pages ") /\
  (forall st (in_kernel : bool),
     (if in_kernel then Week3.freelist_kernel (Week3.kmem st)
      else Week3.freelist_user (Week3.kmem st)) = 0 ->
     Week3.pmem_alloc st in_kernel =
       ((if in_kernel then Week3.printf st "pmem_alloc: kernel out of memory\n" [] else st),
        0)) /\
  (forall st root va pa len perm,
     va mod PGSIZE = 0 -> pa mod PGSIZE = 0 -> len mod PGSIZE = 0 -> 0 < len ->
     Z.land perm (Z.lnot (Z.lor (Z.lor (Z.lor (Z.lor PTE_R PTE_W) PTE_X) PTE_U) PTE_G)) = 0 ->
     0 <= va < 2 ^ 64 ->
     Week3.freelist_kernel (Week3.kmem st) = 0 ->
     pte_valid (load64 (Week3.mem st) (root + 8 * VA_TO_VPN va 2)) = false \/
     pte_valid (load64 (Week3.mem st)
        (PTE_TO_PA (load64 (Week3.mem st) (root + 8 * VA_TO_VPN va 2)) + 8 * VA_TO_VPN va 1))
       = false ->
     Week3.vm_mappages st root va pa len perm = Panic "vm_mappages: vm_getpte failed").
Proof. split; [exact sc_alloc_empty | split; [exact w3_alloc_empty | exact w3_map_oom]]. Qed.

Lemma alloc_failure_policy_per_variant_witness :
  (Syscall.allocable (Syscall.region Syscall.boot_no_user false) = 0 \/
   Syscall.list_head (Syscall.region Syscall.boot_no_user false) = 0) /\
  Syscall.pmem_alloc Syscall.boot_no_user false
  = Panic "pmem_alloc: no available physical pages ".
Proof.
  assert (H : Syscall.allocable (Syscall.region Syscall.boot_no_user false) = 0 \/
              Syscall.list_head (Syscall.region Syscall.boot_no_user false) = 0)
    by (left; vm_compute; reflexivity).
  split; [exact H|].
  exact (proj1 alloc_failure_policy_per_variant Syscall.boot_no_user false H).
Defined.

(** C5 (as stated) fails on 系统调用: with no user frame left, an
    allocation from the user region panics instead of returning a
    failure to its caller. *)
Lemma syscall_user_alloc_panics :
  is_panic (Syscall.pmem_alloc Syscall.boot_no_user false) = true.
Proof. vm_compute. reflexivity. Qed.
(** ** The walker and addresses beyond Sv39 *)

Lemma VPN_mod : forall va l, 0 <= l <= 2 ->
  VA_TO_VPN (va mod 2 ^ 39) l = VA_TO_VPN va l.
Proof.
  intros va l Hl. unfold VA_TO_VPN, VA_SHIFT.
  apply Z.bits_inj'. intros i Hi.
  rewrite !Z.land_spec. change 511 with (Z.ones 9).
  destruct (Z.ltb_spec i 9) as [Hlt|Hge].
  - rewrite !Z.shiftr_spec by lia. rewrite Z.mod_pow2_bits_low by lia. reflexivity.
  - rewrite Z.ones_spec_high by lia. rewrite !andb_false_r. reflexivity.
Qed.

Lemma w3_loop_vpn : forall level st pte va va' alloc,
  (level <= 2)%nat ->
  (forall l, 0 <= l <= 2 -> VA_TO_VPN va' l = VA_TO_VPN va l) ->
  Week3.vm_getpte_loop level st pte va' alloc = Week3.vm_getpte_loop level st pte va alloc.
Proof.
  induction level as [|level IH]; intros st pte va va' alloc Hl Hv; [reflexivity|].
  cbn [Week3.vm_getpte_loop].
  rewrite (Hv (Z.of_nat level)) by lia.
  destruct (negb (pte_valid (load64 (Week3.mem st) pte))).
  - destruct (negb alloc); [reflexivity|].
    destruct (Week3.pmem_alloc st true) as [st1 pa].
    destruct (pa =? 0); [reflexivity|]. apply IH; [lia|exact Hv].
  - apply IH; [lia|exact Hv].
Qed.

Lemma sc_loop_vpn : forall level st pgtbl va va' alloc,
  (level <= 2)%nat ->
  (forall l, 0 <= l <= 2 -> VA_TO_VPN va' l = VA_TO_VPN va l) ->
  Syscall.vm_getpte_loop level st pgtbl va' alloc
  = Syscall.vm_getpte_loop level st pgtbl va alloc.
Proof.
  induction level as [|level IH]; intros st pgtbl va va' alloc Hl Hv.
  - cbn [Syscall.vm_getpte_loop]. rewrite (Hv 0) by lia. reflexivity.
  - cbn [Syscall.vm_getpte_loop].
    rewrite (Hv (Z.of_nat (S level))) by lia.
    destruct (pte_valid _).
    + apply IH; [lia|exact Hv].
    + destruct (negb alloc); [reflexivity|].
      destruct (Syscall.pmem_alloc st true) as [[st1 p]| |]; cbn [bind]; try reflexivity.
      destruct (p =? 0); [reflexivity|]. apply IH; [lia|exact Hv].
Qed.

(** C9 (as amended): week3's [vm_walkaddr] answers 0 for every [va]
    above [VA_MAX] and leaves the state as it was; [vm_getpte] checks
    no range in week3 or 系统调用 and walks (creating tables when
    asked) with the three index fields of [va] alone, so [va] and
    [va mod 2^39] give the same result. *)
Theorem walker_range_check_only_in_walkaddr :
  (forall st root va,
     Week3.VA_MAX < va -> Week3.vm_walkaddr st root va = (st, 0)) /\
  (forall st root va alloc,
     Week3.vm_getpte st root va alloc = Week3.vm_getpte st root (va mod 2 ^ 39) alloc) /\
  (forall st root va alloc,
     Syscall.vm_getpte st root va alloc = Syscall.vm_getpte st root (va mod 2 ^ 39) alloc).
Proof.
  split; [|split].
  - intros st root va H. unfold Week3.vm_walkaddr.
    replace (Week3.VA_MAX <? va) with true by (symmetry; apply Z.ltb_lt; exact H).
    reflexivity.
  - intros st root va alloc. unfold Week3.vm_getpte. rewrite VPN_mod by lia.
    symmetry. apply w3_loop_vpn; [lia|]. intros l Hl. apply VPN_mod. exact Hl.
  - intros st root va alloc. unfold Syscall.vm_getpte.
    symmetry. apply sc_loop_vpn; [lia|]. intros l Hl. apply VPN_mod. exact Hl.
Qed.

Lemma walker_range_check_only_in_walkaddr_witness :
  Week3.VA_MAX < 2 ^ 39 /\
  Week3.vm_walkaddr Week3.mapped Week3.boot_root (2 ^ 39) = (Week3.mapped, 0).
Proof.
  assert (H : Week3.VA_MAX < 2 ^ 39) by reflexivity.
  split; [exact H|].
  exact (proj1 walker_range_check_only_in_walkaddr Week3.mapped Week3.boot_root (2 ^ 39) H).
Defined.

(** C9 (as stated) fails on 系统调用: at [va = VA_MAX] the creating
    walk takes frames from the kernel region and returns an entry, and
    at [2 * VA_MAX + 0x1000] even the non-creating walk returns the
    entry of the page 0x1000. *)
Lemma syscall_getpte_walks_beyond_va_max :
  snd (get_ok (Syscall.vm_getpte Syscall.demo_state Syscall.demo_root Syscall.VA_MAX true)
              (Syscall.demo_state, 0)) <> 0 /\
  Syscall.allocable (Syscall.kern_region
     (fst (get_ok (Syscall.vm_getpte Syscall.demo_state Syscall.demo_root Syscall.VA_MAX true)
                  (Syscall.demo_state, 0))))
    <> Syscall.allocable (Syscall.kern_region Syscall.demo_state) /\
  snd (get_ok (Syscall.vm_getpte Syscall.demo_state Syscall.demo_root
                                 (2 * Syscall.VA_MAX + 0x1000) false)
              (Syscall.demo_state, 0))
    = Syscall.lookup Syscall.demo_state Syscall.demo_root 0x1000 /\
  Syscall.lookup Syscall.demo_state Syscall.demo_root 0x1000 <> 0.
Proof. conj_compute. Qed.
(** ** 系统调用: the cross-space copies *)

Section syscall_copy.
Import Syscall.

Lemma sc_getpte_noalloc : forall st root va,
  vm_getpte st root va false = Ok (st, lookup st root va).
Proof.
  intros st root va. unfold vm_getpte, lookup. cbn [vm_getpte_loop negb].
  change (Z.of_nat 2) with 2. change (Z.of_nat 1) with 1.
  destruct (pte_valid (load64 (mem st) (root + 8 * VA_TO_VPN va 2))); [|reflexivity].
  destruct (pte_valid _); reflexivity.
Qed.

(** What the translation helper of the copies returns. *)
Lemma sc_get_phys_spec : forall st pgtbl va,
  uvm_get_phys_addr st pgtbl va =
    Ok (if (pgtbl =? 0) || (TRAMPOLINE <=? va) || negb (user_leaf st pgtbl va) then 0
        else wrap64 (PTE_TO_PA (load64 (mem st) (lookup st pgtbl va)) + va mod PGSIZE)).
Proof.
  intros st pgtbl va. unfold uvm_get_phys_addr, user_leaf.
  destruct ((pgtbl =? 0) || (TRAMPOLINE <=? va)); [reflexivity|].
  rewrite sc_getpte_noalloc. cbn [bind orb].
  destruct (lookup st pgtbl va =? 0); [reflexivity|]. cbn [negb orb andb].
  destruct (pte_valid _); [|reflexivity]. cbn [negb orb andb].
  destruct (pte_user _); reflexivity.
Qed.

Lemma sc_copyin_miss : forall n st pgtbl remaining dst src,
  0 < remaining -> uvm_get_phys_addr st pgtbl src = Ok 0 ->
  uvm_copyin_loop (S n) st pgtbl remaining dst src
  = Panic "uvm_copyin: invalid user virtual address".
Proof.
  intros n st pgtbl remaining dst src Hr Hm. cbn [uvm_copyin_loop].
  replace (0 <? remaining) with true by (symmetry; apply Z.ltb_lt; exact Hr).
  cbn [negb]. rewrite Hm. reflexivity.
Qed.

Lemma sc_copyout_miss : forall n st pgtbl remaining dst src,
  0 < remaining -> uvm_get_phys_addr st pgtbl dst = Ok 0 ->
  uvm_copyout_loop (S n) st pgtbl remaining dst src
  = Panic "uvm_copyout: invalid user virtual address".
Proof.
  intros n st pgtbl remaining dst src Hr Hm. cbn [uvm_copyout_loop].
  replace (0 <? remaining) with true by (symmetry; apply Z.ltb_lt; exact Hr).
  cbn [negb]. rewrite Hm. reflexivity.
Qed.

Lemma sc_copyin_str_miss : forall n st pgtbl remaining dst src,
  0 < remaining -> uvm_get_phys_addr st pgtbl src = Ok 0 ->
  uvm_copyin_str_loop (S n) st pgtbl remaining dst src false
  = Panic "uvm_copyin_str: invalid user virtual address".
Proof.
  intros n st pgtbl remaining dst src Hr Hm. cbn [uvm_copyin_str_loop].
  replace (0 <? remaining) with true by (symmetry; apply Z.ltb_lt; exact Hr).
  cbn [negb andb]. rewrite Hm. reflexivity.
Qed.

Lemma to_nat_succ : forall z, 0 < z -> exists n, Z.to_nat z = S n.
Proof. intros z H. exists (Nat.pred (Z.to_nat z)). lia. Qed.

End syscall_copy.

(** C8 (as amended): in 系统调用 a copy whose current user page has no
    valid user-accessible leaf (the helper returns 0) ends in the panic
    of its [assert], at the first page and at any later turn of the
    loop alike; only the guards at the entry return without copying,
    and no copy has a failure value to return. *)
Theorem copy_walk_miss_panics :
  (forall st pgtbl dst src len,
     0 < len -> pgtbl <> 0 -> dst <> 0 -> src < Syscall.TRAMPOLINE ->
     Syscall.user_leaf st pgtbl src = false ->
     Syscall.uvm_copyin st pgtbl dst src len
     = Panic "uvm_copyin: invalid user virtual address") /\
  (forall st pgtbl dst src len,
     0 < len -> pgtbl <> 0 -> src <> 0 -> dst < Syscall.TRAMPOLINE ->
     Syscall.user_leaf st pgtbl dst = false ->
     Syscall.uvm_copyout st pgtbl dst src len
     = Panic "uvm_copyout: invalid user virtual address") /\
  (forall st pgtbl dst src maxlen,
     0 < maxlen -> pgtbl <> 0 -> dst <> 0 -> src < Syscall.TRAMPOLINE ->
     Syscall.user_leaf st pgtbl src = false ->
     Syscall.uvm_copyin_str st pgtbl dst src maxlen
     = Panic "uvm_copyin_str: invalid user virtual address") /\
  (forall n st pgtbl remaining curr_dst curr_src,
     0 < remaining -> Syscall.user_leaf st pgtbl curr_src = false ->
     Syscall.uvm_copyin_loop (S n) st pgtbl remaining curr_dst curr_src
     = Panic "uvm_copyin: invalid user virtual address") /\
  (forall n st pgtbl remaining curr_dst curr_src,
     0 < remaining -> Syscall.user_leaf st pgtbl curr_dst = false ->
     Syscall.uvm_copyout_loop (S n) st pgtbl remaining curr_dst curr_src
     = Panic "uvm_copyout: invalid user virtual address") /\
  (forall n st pgtbl remaining curr_dst curr_src,
     0 < remaining -> Syscall.user_leaf st pgtbl curr_src = false ->
     Syscall.uvm_copyin_str_loop (S n) st pgtbl remaining curr_dst curr_src false
     = Panic "uvm_copyin_str: invalid user virtual address").
Proof.
  assert (Hz : forall st pgtbl va, Syscall.user_leaf st pgtbl va = false ->
                 Syscall.uvm_get_phys_addr st pgtbl va = Ok 0).
  { intros st pgtbl va H. rewrite sc_get_phys_spec, H. cbn [negb].
    rewrite orb_true_r. reflexivity. }
  repeat split.
  - intros st pgtbl dst src len Hl Hp Hd Hs Hu. unfold Syscall.uvm_copyin.
    replace (len =? 0) with false by (symmetry; apply Z.eqb_neq; lia).
    replace (pgtbl =? 0) with false by (symmetry; apply Z.eqb_neq; lia).
    replace (dst =? 0) with false by (symmetry; apply Z.eqb_neq; lia).
    replace (Syscall.TRAMPOLINE <=? src) with false by (symmetry; apply Z.leb_gt; lia).
    cbn [orb]. destruct (to_nat_succ len Hl) as [n ->].
    apply sc_copyin_miss; [exact Hl | apply Hz; exact Hu].
  - intros st pgtbl dst src len Hl Hp Hd Hs Hu. unfold Syscall.uvm_copyout.
    replace (len =? 0) with false by (symmetry; apply Z.eqb_neq; lia).
    replace (pgtbl =? 0) with false by (symmetry; apply Z.eqb_neq; lia).
    replace (src =? 0) with false by (symmetry; apply Z.eqb_neq; lia).
    replace (Syscall.TRAMPOLINE <=? dst) with false by (symmetry; apply Z.leb_gt; lia).
    cbn [orb]. destruct (to_nat_succ len Hl) as [n ->].
    apply sc_copyout_miss; [exact Hl | apply Hz; exact Hu].
  - intros st pgtbl dst src len Hl Hp Hd Hs Hu. unfold Syscall.uvm_copyin_str.
    replace (len =? 0) with false by (symmetry; apply Z.eqb_neq; lia).
    replace (pgtbl =? 0) with false by (symmetry; apply Z.eqb_neq; lia).
    replace (dst =? 0) with false by (symmetry; apply Z.eqb_neq; lia).
    replace (Syscall.TRAMPOLINE <=? src) with false by (symmetry; apply Z.leb_gt; lia).
    cbn [orb]. destruct (to_nat_succ len Hl) as [n ->].
    rewrite sc_copyin_str_miss; [reflexivity | exact Hl | apply Hz; exact Hu].
  - intros. apply sc_copyin_miss; [assumption | apply Hz; assumption].
  - intros. apply sc_copyout_miss; [assumption | apply Hz; assumption].
  - intros. apply sc_copyin_str_miss; [assumption | apply Hz; assumption].
Qed.

Lemma copy_walk_miss_panics_witness :
  (0 < 4 /\ Syscall.demo_root <> 0 /\ 0x80000000 <> 0 /\ 0x5000 < Syscall.TRAMPOLINE /\
   Syscall.user_leaf Syscall.demo_state Syscall.demo_root 0x5000 = false) /\
  Syscall.uvm_copyin Syscall.demo_state Syscall.demo_root 0x80000000 0x5000 4
  = Panic "uvm_copyin: invalid user virtual address".
Proof.
  assert (H1 : 0 < 4) by lia.
  assert (H2 : Syscall.demo_root <> 0) by (vm_compute; discriminate).
  assert (H3 : 0x80000000 <> 0) by discriminate.
  assert (H4 : 0x5000 < Syscall.TRAMPOLINE) by reflexivity.
  assert (H5 : Syscall.user_leaf Syscall.demo_state Syscall.demo_root 0x5000 = false)
    by (vm_compute; reflexivity).
  split; [exact (conj H1 (conj H2 (conj H3 (conj H4 H5))))|].
  exact (proj1 copy_walk_miss_panics Syscall.demo_state Syscall.demo_root
           0x80000000 0x5000 4 H1 H2 H3 H4 H5).
Defined.

(** C8 (as stated) fails: copying in from the unmapped user page 0x5000
    of the example address space panics, and so does copying out to it
    and reading a string from it. *)
Lemma syscall_copy_from_unmapped_page_panics :
  is_panic (Syscall.uvm_copyin Syscall.demo_state Syscall.demo_root 0x80000000 0x5000 4)
  = true /\
  is_panic (Syscall.uvm_copyout Syscall.demo_state Syscall.demo_root 0x5000 0x80000000 4)
  = true /\
  is_panic (Syscall.uvm_copyin_str Syscall.demo_state Syscall.demo_root 0x80000000 0x5000 4)
  = true.
Proof. conj_compute. Qed.

(** C10 (the code at the failing input): the data page of the example
    address space is mapped at 0x1000 with [PTE_U], its trap-frame page
    at [TRAPFRAME] without, and the trap frame is the frame after the
    data frame.  [uvm_copyout] of eight bytes to the user address
    0x1800 adds the page offset a second time and writes them at the
    start of the trap-frame frame; the data frame stays as it was. *)
Lemma syscall_copyout_writes_trapframe :
  Syscall.user_leaf Syscall.demo_marked Syscall.demo_root 0x1000 = true /\
  PTE_TO_PA (load64 (Syscall.mem Syscall.demo_marked)
               (Syscall.lookup Syscall.demo_marked Syscall.demo_root 0x1000))
    = Syscall.demo_page /\
  Syscall.user_leaf Syscall.demo_marked Syscall.demo_root Syscall.TRAPFRAME = false /\
  PTE_TO_PA (load64 (Syscall.mem Syscall.demo_marked)
               (Syscall.lookup Syscall.demo_marked Syscall.demo_root Syscall.TRAPFRAME))
    = Syscall.demo_tf /\
  Syscall.demo_tf = Syscall.demo_page + PGSIZE /\
  Syscall.uvm_get_phys_addr Syscall.demo_marked Syscall.demo_root 0x1800
    = Ok (Syscall.demo_page + 0x800) /\
  is_ok (Syscall.uvm_copyout Syscall.demo_marked Syscall.demo_root 0x1800 0x80000000 8)
    = true /\
  load64 (Syscall.mem (get_ok (Syscall.uvm_copyout Syscall.demo_marked Syscall.demo_root
                                                    0x1800 0x80000000 8)
                              Syscall.demo_marked))
         Syscall.demo_tf = 0x1122334455667788 /\
  load64 (Syscall.mem (get_ok (Syscall.uvm_copyout Syscall.demo_marked Syscall.demo_root
                                                    0x1800 0x80000000 8)
                              Syscall.demo_marked))
         (Syscall.demo_page + 0x800) = 0.
Proof. conj_compute. Qed.

(** ** The free list in memory *)

Lemma flist_ext : forall l m m' h,
  (forall f x, In f l -> f <= x < f + 8 -> m' x = m x) ->
  flist m h l -> flist m' h l.
Proof.
  induction l as [|f l IH]; intros m m' h Hs H; [exact H|].
  cbn [flist] in *. destruct H as (Eh & Hnz & Hl).
  split; [exact Eh|]. split; [exact Hnz|].
  rewrite (load64_ext m' m f) by (intros x Hx; apply (Hs f); [left; reflexivity|exact Hx]).
  apply (IH m); [|exact Hl].
  intros g x Hg Hx. apply (Hs g); [right; exact Hg|exact Hx].
Qed.

Lemma flist_nonzero : forall l m h f, flist m h l -> In f l -> f <> 0.
Proof.
  induction l as [|g l IH]; intros m h f H Hin; [destruct Hin|].
  cbn [flist] in H. destruct H as (_ & Hnz & Hl).
  destruct Hin as [<-|Hin]; [exact Hnz|]. exact (IH _ _ _ Hl Hin).
Qed.

Lemma flist_head : forall l m h, flist m h l -> h = 0 \/ In h l.
Proof.
  intros [|f l] m h H; cbn [flist] in H; [left; exact H|].
  destruct H as (-> & _). right. left. reflexivity.
Qed.

Lemma frame_in_apart : forall b e b' e' f g,
  frame_in b e f -> frame_in b' e' g -> f <> g ->
  f + PGSIZE <= g \/ g + PGSIZE <= f.
Proof.
  intros b e b' e' f g (_ & Af & _) (_ & Ag & _) Hne. apply aligned_apart; assumption.
Qed.

(** Taking the first frame off the list and filling it. *)
Lemma flist_pop : forall m f l c b e,
  flist m f (f :: l) -> NoDup (f :: l) -> Forall (frame_in b e) (f :: l) ->
  flist (memset m f c PGSIZE) (load64 m f) l.
Proof.
  intros m f l c b e H Hnd Hfr. cbn [flist] in H. destruct H as (_ & _ & Hl).
  apply (flist_ext l m); [|exact Hl].
  intros g x Hg Hx. inversion Hnd as [|? ? Hnin _]; subst.
  inversion Hfr as [|? ? Hf Hfl]; subst.
  rewrite Forall_forall in Hfl.
  assert (Hne : f <> g) by (intros ->; contradiction).
  destruct (frame_in_apart _ _ _ _ _ _ Hf (Hfl g Hg) Hne); apply memset_other;
    unfold PGSIZE in *; lia.
Qed.

(** Filling a frame that is not on the list and putting it in front. *)
Lemma flist_push : forall m h l p c b e b' e',
  flist m h l -> frame_in b e p -> p <> 0 -> ~ In p l ->
  Forall (frame_in b' e') l -> 0 <= h < 2 ^ 64 ->
  flist (store64 (memset m p c PGSIZE) p h) p (p :: l).
Proof.
  intros m h l p c b e b' e' H Hp Hnz Hnin Hfr Hh. cbn [flist].
  split; [reflexivity|]. split; [exact Hnz|].
  rewrite load64_store64_same by exact Hh.
  apply (flist_ext l m); [|exact H].
  intros g x Hg Hx. rewrite Forall_forall in Hfr.
  assert (Hne : p <> g) by (intros ->; contradiction).
  destruct (frame_in_apart _ _ _ _ _ _ Hp (Hfr g Hg) Hne);
    (rewrite store64_other by (unfold PGSIZE in *; lia));
    apply memset_other; unfold PGSIZE in *; lia.
Qed.

Lemma flist_head_range : forall l m h b e,
  flist m h l -> Forall (frame_in b e) l -> 0 <= h < 2 ^ 64.
Proof.
  intros l m h b e H Hfr. destruct (flist_head _ _ _ H) as [->|Hin]; [lia|].
  rewrite Forall_forall in Hfr. destruct (Hfr h Hin) as (Hr & _). exact Hr.
Qed.

(** ** 系统调用: frame accounting *)

Section syscall_accounting.
Import Syscall.

Lemma sc_free_ok : forall st p k st',
  pmem_free st p k = Ok st' ->
  p mod PGSIZE = 0 /\ begin (region st k) <= p < end_ (region st k) /\
  mem st' = store64 (memset (mem st) p 0 PGSIZE) p (list_head (region st k)) /\
  region st' k =
    mk_region (begin (region st k)) (end_ (region st k))
              (wrap32 (allocable (region st k) + 1)) p /\
  region st' (negb k) = region st (negb k).
Proof.
  intros st p k st' H. unfold pmem_free in H.
  destruct (Z.eqb_spec (p mod PGSIZE) 0) as [Ea|Ea]; cbn [negb] in H; [|discriminate].
  destruct (Z.ltb_spec p (begin (region st k))); cbn [orb] in H; [discriminate|].
  destruct (Z.leb_spec (end_ (region st k)) p); [discriminate|].
  inversion H; subst; clear H. destruct k; cbn; repeat split; auto.
Qed.


Lemma sc_acct_alloc : forall k total st A st' p,
  acct_inv k total st A -> pmem_alloc st k = Ok (st', p) ->
  acct_inv k total st' (p :: A) /\ ~ In p A.
Proof.
  intros k total st A st' p (fl & (Hfl & Hcnt & Hlt & Hnd & Hfr) & HndA & HA & Hlen & Htot) Hal.
  destruct (sc_alloc_ok _ _ _ _ Hal) as (Ep & Hnz & Hcnz & Em & Er & _).
  destruct fl as [|f fl].
  { cbn [flist] in Hfl. congruence. }
  assert (Ef : p = f) by (cbn [flist] in Hfl; destruct Hfl as (E & _); congruence).
  subst f. rewrite <- Ep in Hfl.
  assert (HninA : ~ In p A).
  { intros Hin. cbn [app] in HndA. inversion HndA as [|? ? Hn _]; subst.
    apply Hn. apply in_or_app. right. exact Hin. }
  split; [|exact HninA].
  exists fl. rewrite Er. cbn [begin end_ list_head allocable].
  pose proof (Forall_inv Hfr) as Hfp. pose proof (Forall_inv_tail Hfr) as Hfr'.
  cbn [length] in *.
  split; [|split; [|split; [|split]]]; [| | | |exact Htot].
  - split; [|split; [|split; [|split]]]; cbn [begin end_ list_head allocable].
    + rewrite Em. apply (flist_pop _ _ _ _ _ _ Hfl Hnd Hfr).
    + rewrite Hcnt. unfold wrap32. rewrite Z.mod_small; lia.
    + lia.
    + inversion Hnd; assumption.
    + exact Hfr'.
  - apply (Permutation_NoDup (l := (p :: fl) ++ A)); [|exact HndA].
    cbn [app]. apply Permutation_middle.
  - constructor; [split; assumption|exact HA].
  - lia.
Qed.

Lemma sc_acct_free : forall k total st A1 p A2 st',
  acct_inv k total st (A1 ++ p :: A2) -> pmem_free st p k = Ok st' ->
  acct_inv k total st' (A1 ++ A2).
Proof.
  intros k total st A1 p A2 st'
    (fl & (Hfl & Hcnt & Hlt & Hnd & Hfr) & HndA & HA & Hlen & Htot) Hf.
  destruct (sc_free_ok _ _ _ _ Hf) as (Hal & Hrg & Em & Er & _).
  assert (Hp : p <> 0 /\ frame_in (begin (region st k)) (end_ (region st k)) p).
  { rewrite Forall_forall in HA. apply HA. apply in_or_app. right. left. reflexivity. }
  destruct Hp as [Hnz Hpf].
  rewrite app_assoc in HndA.
  assert (Hnin : ~ In p fl).
  { intros Hin. apply NoDup_remove_2 in HndA. apply HndA.
    apply in_or_app. left. apply in_or_app. left. exact Hin. }
  rewrite length_app in Hlen. cbn [length] in Hlen.
  exists (p :: fl). rewrite Er. cbn [begin end_ list_head allocable length].
  split; [|split; [|split; [|split]]]; [| | | |exact Htot].
  - split; [|split; [|split; [|split]]]; cbn [begin end_ list_head allocable length].
    + rewrite Em.
      apply (flist_push _ _ _ _ _ _ _ _ _ Hfl Hpf Hnz Hnin Hfr).
      exact (flist_head_range _ _ _ _ _ Hfl Hfr).
    + rewrite Hcnt. unfold wrap32. rewrite Z.mod_small; lia.
    + lia.
    + constructor; assumption.
    + constructor; assumption.
  - apply (Permutation_NoDup (l := (fl ++ A1) ++ p :: A2)); [|exact HndA].
    cbn [app]. rewrite (app_assoc fl A1 A2). symmetry. apply Permutation_middle.
  - rewrite Forall_forall in *. intros x Hx. apply HA.
    apply in_app_or in Hx. apply in_or_app. destruct Hx; [left|right; right]; assumption.
  - rewrite length_app. lia.
Qed.

Lemma sc_reach_region : forall k st0 st A,
  reach k st0 st A ->
  begin (region st k) = begin (region st0 k) /\ end_ (region st k) = end_ (region st0 k).
Proof.
  intros k st0 st A H. induction H as [|st A st' p _ IH Hal|st A1 p A2 st' _ IH Hf].
  - auto.
  - destruct (sc_alloc_ok _ _ _ _ Hal) as (_ & _ & _ & _ & Er & _). rewrite Er. exact IH.
  - destruct (sc_free_ok _ _ _ _ Hf) as (_ & _ & _ & Er & _). rewrite Er. exact IH.
Qed.

Lemma sc_reach_inv : forall k st0 fl0 st A,
  region_inv (mem st0) (region st0 k) fl0 ->
  reach k st0 st A ->
  acct_inv k (length fl0) st A.
Proof.
  intros k st0 fl0 st A H0 H.
  induction H as [|st A st' p _ IH Hal|st A1 p A2 st' _ IH Hf].
  - exists fl0. destruct H0 as (? & ? & ? & ? & ?).
    split; [repeat split; assumption|]. rewrite app_nil_r. cbn [length].
    repeat split; auto; lia.
  - exact (proj1 (sc_acct_alloc _ _ _ _ _ _ IH Hal)).
  - exact (sc_acct_free _ _ _ _ _ _ _ IH Hf).
Qed.

End syscall_accounting.

Section syscall_init.
Import Syscall.

Lemma sc_init_loop : forall n m r a fl,
  flist m (list_head r) fl ->
  allocable r = Z.of_nat (length fl) ->
  NoDup fl ->
  Forall (frame_in (begin r) (end_ r)) fl ->
  Forall (fun f => f + PGSIZE <= a) fl ->
  0 < a -> a mod PGSIZE = 0 -> begin r <= a ->
  a + PGSIZE * Z.of_nat n < end_ r + PGSIZE ->
  a + PGSIZE * Z.of_nat n < 2 ^ 64 ->
  Z.of_nat (length fl) + Z.of_nat n < 2 ^ 32 ->
  exists fl',
    region_inv (fst (pmem_init_loop n m r a)) (snd (pmem_init_loop n m r a)) fl' /\
    length fl' = (length fl + n)%nat /\
    begin (snd (pmem_init_loop n m r a)) = begin r /\
    end_ (snd (pmem_init_loop n m r a)) = end_ r /\
    (forall x, x < a -> fst (pmem_init_loop n m r a) x = m x).
Proof.
  induction n as [|n IH]; intros m r a fl Hfl Hcnt Hnd Hfr Hlow Ha Hal Hb He H64 H32.
  - cbn [pmem_init_loop fst snd]. exists fl.
    split; [unfold region_inv; repeat split; auto; lia|].
    split; [lia|]. auto.
  - cbn [pmem_init_loop].
    assert (Hh : 0 <= list_head r < 2 ^ 64) by exact (flist_head_range _ _ _ _ _ Hfl Hfr).
    assert (Hfa : frame_in (begin r) (end_ r) a).
    { unfold frame_in. unfold PGSIZE in *. repeat split; lia. }
    assert (Hnin : ~ In a fl).
    { intros Hin. rewrite Forall_forall in Hlow. specialize (Hlow a Hin).
      unfold PGSIZE in Hlow. lia. }
    assert (Hw : wrap64 (a + PGSIZE) = a + PGSIZE).
    { apply wrap64_small. unfold PGSIZE in *. lia. }
    rewrite Hw.
    destruct (IH (store64 m a (list_head r))
                 (mk_region (begin r) (end_ r) (wrap32 (allocable r + 1)) a)
                 (a + PGSIZE) (a :: fl)) as (fl' & Hinv & Hlen & Hbg & Hen & Hsame);
      cbn [begin end_ list_head allocable length].
    + cbn [flist]. split; [reflexivity|]. split; [lia|].
      rewrite load64_store64_same by exact Hh.
      apply (flist_ext fl m); [|exact Hfl].
      intros f x Hf Hx. rewrite Forall_forall in Hlow. specialize (Hlow f Hf).
      apply store64_other. unfold PGSIZE in Hlow. lia.
    + rewrite Hcnt. unfold wrap32. rewrite Z.mod_small; lia.
    + constructor; assumption.
    + constructor; assumption.
    + constructor; [lia|]. rewrite Forall_forall in *. intros f Hf.
      specialize (Hlow f Hf). unfold PGSIZE in *. lia.
    + unfold PGSIZE. lia.
    + unfold PGSIZE in *. rewrite Z.add_mod, Hal by lia. reflexivity.
    + unfold PGSIZE. lia.
    + unfold PGSIZE in *. lia.
    + unfold PGSIZE in *. lia.
    + lia.
    + exists fl'. split; [exact Hinv|]. split; [rewrite Hlen; cbn [length]; lia|].
      split; [exact Hbg|]. split; [exact Hen|].
      intros x Hx. rewrite Hsame by (unfold PGSIZE; lia).
      apply store64_other. lia.
Qed.

End syscall_init.

Lemma PG_ROUND_DOWN_eq : forall a, 0 <= a < 2 ^ 64 ->
  PG_ROUND_DOWN a = PGSIZE * (a / PGSIZE).
Proof.
  intros a Ha. unfold PG_ROUND_DOWN, wrap64, PGSIZE.
  rewrite <- Z.land_ones by lia.
  rewrite Z.land_assoc, (Z.land_comm a), <- Z.land_assoc.
  rewrite (Z.land_ones a) by lia. rewrite Z.mod_small by exact Ha.
  rewrite Z.land_comm, <- Z.ldiff_land.
  change (4096 - 1) with (Z.ones 12). rewrite Z.ldiff_ones_r by lia.
  rewrite Z.shiftr_div_pow2, Z.shiftl_mul_pow2 by lia. change (2 ^ 12) with 4096. lia.
Qed.

Lemma PG_ROUND_DOWN_aligned : forall a, 0 <= a < 2 ^ 64 -> a mod PGSIZE = 0 ->
  PG_ROUND_DOWN a = a.
Proof.
  intros a Ha Hal. rewrite PG_ROUND_DOWN_eq by exact Ha.
  unfold PGSIZE in *. pose proof (Z.div_mod a 4096 ltac:(lia)). lia.
Qed.

Lemma frames_between_bound : forall b e, b <= e ->
  PGSIZE * Z.of_nat (Syscall.frames_between b e) < e - b + PGSIZE /\
  e - b <= PGSIZE * Z.of_nat (Syscall.frames_between b e).
Proof.
  intros b e H. unfold Syscall.frames_between, PGSIZE.
  rewrite Z2Nat.id by (apply Z.div_pos; lia).
  pose proof (Z.div_mod (e - b + 4096 - 1) 4096 ltac:(lia)).
  pose proof (Z.mod_pos_bound (e - b + 4096 - 1) 4096 ltac:(lia)). lia.
Qed.

Section syscall_init2.
Import Syscall.

Lemma sc_init_inv : forall m AB AE,
  0 < AB -> AB mod PGSIZE = 0 ->
  AB + KERN_PAGES * PGSIZE <= AE -> AE + PGSIZE < 2 ^ 64 ->
  Z.of_nat (frames_between (AB + KERN_PAGES * PGSIZE) AE) < 2 ^ 32 ->
  exists kfl ufl,
    region_inv (mem (pmem_init m AB AE)) (kern_region (pmem_init m AB AE)) kfl /\
    length kfl = Z.to_nat KERN_PAGES /\
    region_inv (mem (pmem_init m AB AE)) (user_region (pmem_init m AB AE)) ufl /\
    length ufl = frames_between (AB + KERN_PAGES * PGSIZE) AE.
Proof.
  intros m AB AE Hpos Hal Hle H64 H32. unfold pmem_init.
  assert (Hke : wrap64 (AB + KERN_PAGES * PGSIZE) = AB + KERN_PAGES * PGSIZE).
  { apply wrap64_small. unfold KERN_PAGES, PGSIZE in *. lia. }
  rewrite Hke. set (ke := AB + KERN_PAGES * PGSIZE) in *.
  assert (Hn : frames_between AB ke = Z.to_nat KERN_PAGES).
  { unfold frames_between, ke, KERN_PAGES, PGSIZE.
    replace (AB + 1024 * 4096 - AB + 4096 - 1) with (4095 + 1024 * 4096) by lia.
    rewrite Z.div_add by lia. reflexivity. }
  rewrite Hn.
  destruct (sc_init_loop (Z.to_nat KERN_PAGES) m (mk_region AB ke 0 0) AB [])
    as (kfl & Hkinv & Hklen & Hkb & Hken & _); cbn [begin end_ list_head allocable length flist];
    try (unfold ke, KERN_PAGES, PGSIZE in *; lia); try constructor; try reflexivity.
  destruct (pmem_init_loop (Z.to_nat KERN_PAGES) m (mk_region AB ke 0 0) AB) as [m1 kr].
  cbn [fst snd] in *.
  destruct (frames_between_bound ke AE Hle) as [Hub _].
  assert (Alke : ke mod PGSIZE = 0).
  { unfold ke, KERN_PAGES, PGSIZE in *. rewrite Z.add_mod, Hal by lia. reflexivity. }
  destruct (sc_init_loop (frames_between ke AE) m1 (mk_region ke AE 0 0) ke [])
    as (ufl & Huinv & Hulen & Hub' & Huen & Hsame);
    cbn [begin end_ list_head allocable length flist];
    try (unfold ke, KERN_PAGES, PGSIZE in *; lia); try constructor; try reflexivity.
  destruct (pmem_init_loop (frames_between ke AE) m1 (mk_region ke AE 0 0) ke) as [m2 ur].
  cbn [fst snd mem kern_region user_region] in *.
  exists kfl, ufl. split; [|split; [exact Hklen|split; [exact Huinv|exact Hulen]]].
  destruct Hkinv as (Hfl & Hcnt & Hlt & Hnd & Hfr).
  split; [|repeat split; assumption].
  apply (flist_ext kfl m1); [|exact Hfl].
  intros f x Hf Hx. apply Hsame. rewrite Forall_forall in Hfr.
  destruct (Hfr f Hf) as (_ & Af & Hrg). rewrite Hkb, Hken in Hrg. cbn [begin end_] in Hrg.
  destruct (aligned_apart f ke Af Alke ltac:(lia)); unfold PGSIZE in *; lia.
Qed.

Lemma sc_accounting : forall k st0 fl0 st A,
  region_inv (mem st0) (region st0 k) fl0 ->
  reach k st0 st A ->
  allocable (region st k) + Z.of_nat (length A) = Z.of_nat (length fl0) /\
  NoDup A /\
  (forall st' p, pmem_alloc st k = Ok (st', p) -> ~ In p A).
Proof.
  intros k st0 fl0 st A H0 H.
  pose proof (sc_reach_inv _ _ _ _ _ H0 H) as Hinv.
  split; [|split].
  - destruct Hinv as (fl & (_ & Hcnt & _) & _ & _ & Hlen & _). rewrite Hcnt. lia.
  - destruct Hinv as (fl & _ & Hnd & _). apply NoDup_app_remove_l in Hnd. exact Hnd.
  - intros st' p Hal. exact (proj2 (sc_acct_alloc _ _ _ _ _ _ Hinv Hal)).
Qed.

End syscall_init2.

(** ** lab6: frame accounting *)

Section lab6_accounting.
Import Lab6.

Lemma l6_alloc_ok : forall st k st' p,
  pmem_alloc st k = (st', p) -> p <> 0 ->
  p = free_list (zone st k) /\
  mem st' = memset (mem st) p 0 PGSIZE /\
  zone st' k =
    mk_zone (zone_start (zone st k)) (zone_end (zone st k))
            (wrap32 (free_page_count (zone st k) - 1)) (load64 (mem st) p) /\
  zone st' (negb k) = zone st (negb k).
Proof.
  intros st k st' p H Hnz. unfold pmem_alloc in H.
  destruct (Z.eqb_spec (free_list (zone st k)) 0) as [E|E].
  - inversion H; subst. congruence.
  - inversion H; subst; clear H. destruct k; cbn; auto.
Qed.

Lemma l6_alloc_empty : forall st k,
  free_list (zone st k) = 0 -> pmem_alloc st k = (st, 0).
Proof. intros st k H. unfold pmem_alloc. rewrite H. reflexivity. Qed.

Lemma l6_free_ok : forall st p k st',
  pmem_free st p k = Ok st' ->
  p mod PGSIZE = 0 /\ zone_start (zone st k) <= p < zone_end (zone st k) /\
  mem st' = store64 (memset (mem st) p 1 PGSIZE) p (free_list (zone st k)) /\
  zone st' k =
    mk_zone (zone_start (zone st k)) (zone_end (zone st k))
            (wrap32 (free_page_count (zone st k) + 1)) p /\
  zone st' (negb k) = zone st (negb k).
Proof.
  intros st p k st' H. unfold pmem_free in H.
  destruct (Z.eqb_spec (p mod PGSIZE) 0) as [Ea|Ea]; cbn [negb] in H; [|discriminate].
  destruct (Z.ltb_spec p (zone_start (zone st k))); cbn [orb] in H; [discriminate|].
  destruct (Z.leb_spec (zone_end (zone st k)) p); [discriminate|].
  inversion H; subst; clear H. destruct k; cbn; repeat split; auto.
Qed.


Lemma l6_acct_alloc : forall k total st A st' p,
  zacct_inv k total st A -> pmem_alloc st k = (st', p) -> p <> 0 ->
  zacct_inv k total st' (p :: A) /\ ~ In p A.
Proof.
  intros k total st A st' p
    (fl & (Hfl & Hcnt & Hlt & Hnd & Hfr) & HndA & HA & Hlen & Htot) Hal Hnz.
  destruct (l6_alloc_ok _ _ _ _ Hal Hnz) as (Ep & Em & Er & _).
  destruct fl as [|f fl].
  { cbn [flist] in Hfl. congruence. }
  assert (Ef : p = f) by (cbn [flist] in Hfl; destruct Hfl as (E & _); congruence).
  subst f. rewrite <- Ep in Hfl.
  assert (HninA : ~ In p A).
  { intros Hin. cbn [app] in HndA. inversion HndA as [|? ? Hn _]; subst.
    apply Hn. apply in_or_app. right. exact Hin. }
  split; [|exact HninA].
  exists fl. rewrite Er. cbn [zone_start zone_end free_list free_page_count].
  pose proof (Forall_inv Hfr) as Hfp. pose proof (Forall_inv_tail Hfr) as Hfr'.
  cbn [length] in *.
  split; [|split; [|split; [|split]]]; [| | | |exact Htot].
  - split; [|split; [|split; [|split]]]; cbn [zone_start zone_end free_list free_page_count].
    + rewrite Em. apply (flist_pop _ _ _ _ _ _ Hfl Hnd Hfr).
    + rewrite Hcnt. unfold wrap32. rewrite Z.mod_small; lia.
    + lia.
    + inversion Hnd; assumption.
    + exact Hfr'.
  - apply (Permutation_NoDup (l := (p :: fl) ++ A)); [|exact HndA].
    cbn [app]. apply Permutation_middle.
  - constructor; [split; assumption|exact HA].
  - lia.
Qed.

Lemma l6_acct_free : forall k total st A1 p A2 st',
  zacct_inv k total st (A1 ++ p :: A2) -> pmem_free st p k = Ok st' ->
  zacct_inv k total st' (A1 ++ A2).
Proof.
  intros k total st A1 p A2 st'
    (fl & (Hfl & Hcnt & Hlt & Hnd & Hfr) & HndA & HA & Hlen & Htot) Hf.
  destruct (l6_free_ok _ _ _ _ Hf) as (Hal & Hrg & Em & Er & _).
  assert (Hp : p <> 0 /\ frame_in (zone_start (zone st k)) (zone_end (zone st k)) p).
  { rewrite Forall_forall in HA. apply HA. apply in_or_app. right. left. reflexivity. }
  destruct Hp as [Hnz Hpf].
  rewrite app_assoc in HndA.
  assert (Hnin : ~ In p fl).
  { intros Hin. apply NoDup_remove_2 in HndA. apply HndA.
    apply in_or_app. left. apply in_or_app. left. exact Hin. }
  rewrite length_app in Hlen. cbn [length] in Hlen.
  exists (p :: fl). rewrite Er. cbn [zone_start zone_end free_list free_page_count length].
  split; [|split; [|split; [|split]]]; [| | | |exact Htot].
  - split; [|split; [|split; [|split]]];
      cbn [zone_start zone_end free_list free_page_count length].
    + rewrite Em.
      apply (flist_push _ _ _ _ _ _ _ _ _ Hfl Hpf Hnz Hnin Hfr).
      exact (flist_head_range _ _ _ _ _ Hfl Hfr).
    + rewrite Hcnt. unfold wrap32. rewrite Z.mod_small; lia.
    + lia.
    + constructor; assumption.
    + constructor; assumption.
  - apply (Permutation_NoDup (l := (fl ++ A1) ++ p :: A2)); [|exact HndA].
    cbn [app]. rewrite (app_assoc fl A1 A2). symmetry. apply Permutation_middle.
  - rewrite Forall_forall in *. intros x Hx. apply HA.
    apply in_app_or in Hx. apply in_or_app. destruct Hx; [left|right; right]; assumption.
  - rewrite length_app. lia.
Qed.

Lemma l6_reach_inv : forall k st0 fl0 st A,
  zone_inv (mem st0) (zone st0 k) fl0 ->
  reach k st0 st A ->
  zacct_inv k (length fl0) st A.
Proof.
  intros k st0 fl0 st A H0 H.
  induction H as [|st A st' p _ IH Hal Hnz|st A1 p A2 st' _ IH Hf].
  - exists fl0. destruct H0 as (? & ? & ? & ? & ?).
    split; [repeat split; assumption|]. rewrite app_nil_r. cbn [length].
    repeat split; auto; lia.
  - exact (proj1 (l6_acct_alloc _ _ _ _ _ _ IH Hal Hnz)).
  - exact (l6_acct_free _ _ _ _ _ _ _ IH Hf).
Qed.

Lemma l6_accounting : forall k st0 fl0 st A,
  zone_inv (mem st0) (zone st0 k) fl0 ->
  reach k st0 st A ->
  free_page_count (zone st k) + Z.of_nat (length A) = Z.of_nat (length fl0) /\
  NoDup A /\
  (forall st' p, pmem_alloc st k = (st', p) -> p <> 0 -> ~ In p A).
Proof.
  intros k st0 fl0 st A H0 H.
  pose proof (l6_reach_inv _ _ _ _ _ H0 H) as Hinv.
  split; [|split].
  - destruct Hinv as (fl & (_ & Hcnt & _) & _ & _ & Hlen & _). rewrite Hcnt. lia.
  - destruct Hinv as (fl & _ & Hnd & _). apply NoDup_app_remove_l in Hnd. exact Hnd.
  - intros st' p Hal Hnz. exact (proj2 (l6_acct_alloc _ _ _ _ _ _ Hinv Hal Hnz)).
Qed.

Lemma l6_init_loop : forall n m z a fl,
  flist m (free_list z) fl ->
  free_page_count z = Z.of_nat (length fl) ->
  NoDup fl ->
  Forall (frame_in (zone_start z) (zone_end z)) fl ->
  Forall (fun f => f + PGSIZE <= a) fl ->
  0 < a -> a mod PGSIZE = 0 -> zone_start z <= a ->
  a + PGSIZE * Z.of_nat n <= zone_end z ->
  zone_end z < 2 ^ 64 ->
  Z.of_nat (length fl) + Z.of_nat n < 2 ^ 32 ->
  exists fl',
    zone_inv (fst (mem_zone_initialize_loop n m z a))
             (snd (mem_zone_initialize_loop n m z a)) fl' /\
    length fl' = (length fl + n)%nat /\
    zone_start (snd (mem_zone_initialize_loop n m z a)) = zone_start z /\
    zone_end (snd (mem_zone_initialize_loop n m z a)) = zone_end z /\
    (forall x, x < a -> fst (mem_zone_initialize_loop n m z a) x = m x).
Proof.
  induction n as [|n IH]; intros m z a fl Hfl Hcnt Hnd Hfr Hlow Ha Hal Hb He H64 H32.
  - cbn [mem_zone_initialize_loop fst snd]. exists fl.
    split; [unfold zone_inv; repeat split; auto; lia|].
    split; [lia|]. auto.
  - cbn [mem_zone_initialize_loop].
    replace (a + PGSIZE <=? zone_end z) with true
      by (symmetry; apply Z.leb_le; unfold PGSIZE in *; lia).
    cbn [negb].
    assert (Hh : 0 <= free_list z < 2 ^ 64) by exact (flist_head_range _ _ _ _ _ Hfl Hfr).
    assert (Hfa : frame_in (zone_start z) (zone_end z) a).
    { unfold frame_in. unfold PGSIZE in *. repeat split; lia. }
    assert (Hnin : ~ In a fl).
    { intros Hin. rewrite Forall_forall in Hlow. specialize (Hlow a Hin).
      unfold PGSIZE in Hlow. lia. }
    destruct (IH (store64 m a (free_list z))
                 (mk_zone (zone_start z) (zone_end z) (wrap32 (free_page_count z + 1)) a)
                 (a + PGSIZE) (a :: fl)) as (fl' & Hinv & Hlen & Hbg & Hen & Hsame);
      cbn [zone_start zone_end free_list free_page_count length].
    + cbn [flist]. split; [reflexivity|]. split; [lia|].
      rewrite load64_store64_same by exact Hh.
      apply (flist_ext fl m); [|exact Hfl].
      intros f x Hf Hx. rewrite Forall_forall in Hlow. specialize (Hlow f Hf).
      apply store64_other. unfold PGSIZE in Hlow. lia.
    + rewrite Hcnt. unfold wrap32. rewrite Z.mod_small; lia.
    + constructor; assumption.
    + constructor; assumption.
    + constructor; [lia|]. rewrite Forall_forall in *. intros f Hf.
      specialize (Hlow f Hf). unfold PGSIZE in *. lia.
    + unfold PGSIZE. lia.
    + unfold PGSIZE in *. rewrite Z.add_mod, Hal by lia. reflexivity.
    + unfold PGSIZE. lia.
    + unfold PGSIZE in *. lia.
    + lia.
    + lia.
    + exists fl'. split; [exact Hinv|]. split; [rewrite Hlen; cbn [length]; lia|].
      split; [exact Hbg|]. split; [exact Hen|].
      intros x Hx. rewrite Hsame by (unfold PGSIZE; lia).
      apply store64_other. lia.
Qed.

Lemma PG_ROUND_UP_aligned : forall a, 0 <= a -> a + PGSIZE < 2 ^ 64 -> a mod PGSIZE = 0 ->
  PG_ROUND_UP a = a.
Proof.
  intros a H0 H1 Hal. unfold PG_ROUND_UP.
  change (Z.land (wrap64 (a + PGSIZE - 1)) (wrap64 (Z.lnot (PGSIZE - 1))))
    with (PG_ROUND_DOWN (wrap64 (a + PGSIZE - 1))).
  rewrite wrap64_small by (unfold PGSIZE in *; lia).
  rewrite PG_ROUND_DOWN_eq by (unfold PGSIZE in *; lia).
  unfold PGSIZE in *. pose proof (Z.div_mod a 4096 ltac:(lia)) as E.
  rewrite Hal, Z.add_0_r in E.
  replace (a + 4096 - 1) with (4095 + (a / 4096) * 4096) by lia.
  rewrite Z.div_add by lia. rewrite (Z.div_small 4095) by lia. lia.
Qed.

Lemma l6_zone_init : forall m s e,
  0 < s -> s mod PGSIZE = 0 -> s <= e -> e + PGSIZE < 2 ^ 64 ->
  (e - s) / PGSIZE < 2 ^ 32 ->
  exists fl,
    zone_inv (fst (mem_zone_initialize m s e)) (snd (mem_zone_initialize m s e)) fl /\
    length fl = Z.to_nat ((e - s) / PGSIZE) /\
    zone_start (snd (mem_zone_initialize m s e)) = s /\
    zone_end (snd (mem_zone_initialize m s e)) = e /\
    (forall x, x < s -> fst (mem_zone_initialize m s e) x = m x).
Proof.
  intros m s e Hs Hal Hle H64 H32. unfold mem_zone_initialize.
  rewrite PG_ROUND_UP_aligned by (assumption || lia).
  assert (Hd : 0 <= (e - s) / PGSIZE) by (apply Z.div_pos; unfold PGSIZE; lia).
  assert (Hm : PGSIZE * ((e - s) / PGSIZE) <= e - s)
    by (apply Z.mul_div_le; unfold PGSIZE; lia).
  pose proof (l6_init_loop (Z.to_nat ((e - s) / PGSIZE)) m (mk_zone s e 0 0) s []) as L.
  cbn [zone_start zone_end free_list free_page_count length flist] in L.
  rewrite Z2Nat.id in L by exact Hd. unfold PGSIZE in *.
  destruct (L eq_refl eq_refl (NoDup_nil _) (Forall_nil _) (Forall_nil _) Hs Hal
              (Z.le_refl s) ltac:(lia) ltac:(lia) ltac:(lia))
    as (fl & Hinv & Hlen & Hb & He & Hsame).
  exists fl. repeat split; auto; apply Hinv.
Qed.

End lab6_accounting.


Lemma l6_init_inv : forall m AB AE KP,
  0 < AB -> AB mod PGSIZE = 0 -> 0 <= KP < 2 ^ 32 ->
  AB + KP * PGSIZE <= AE -> AE + PGSIZE < 2 ^ 64 ->
  (AE - (AB + KP * PGSIZE)) / PGSIZE < 2 ^ 32 ->
  exists kfl ufl,
    Lab6.zone_inv (Lab6.mem (Lab6.pmem_init m AB AE KP))
                  (Lab6.kernel_mem_zone (Lab6.pmem_init m AB AE KP)) kfl /\
    length kfl = Z.to_nat KP /\
    Lab6.zone_inv (Lab6.mem (Lab6.pmem_init m AB AE KP))
                  (Lab6.user_mem_zone (Lab6.pmem_init m AB AE KP)) ufl /\
    length ufl = Z.to_nat ((AE - (AB + KP * PGSIZE)) / PGSIZE).
Proof.
  intros m AB AE KP Hpos Hal HKP Hle H64 H32. unfold Lab6.pmem_init.
  assert (Hke : wrap64 (AB + KP * PGSIZE) = AB + KP * PGSIZE).
  { apply wrap64_small. unfold PGSIZE in *. lia. }
  rewrite Hke. set (ke := AB + KP * PGSIZE) in *.
  replace (AE <? ke) with false by (symmetry; apply Z.ltb_ge; exact Hle).
  assert (Alke : ke mod PGSIZE = 0).
  { unfold ke, PGSIZE in *. rewrite Z.add_mod, Hal, Z.mod_mul by lia. reflexivity. }
  assert (Hk : (ke - AB) / PGSIZE = KP).
  { unfold ke. replace (AB + KP * PGSIZE - AB) with (KP * PGSIZE) by lia.
    apply Z.div_mul. unfold PGSIZE. lia. }
  destruct (l6_zone_init m AB ke Hpos Hal ltac:(unfold ke, PGSIZE in *; lia)
              ltac:(unfold ke, PGSIZE in *; lia) ltac:(rewrite Hk; lia))
    as (kfl & Hkinv & Hklen & Hkb & Hken & _).
  destruct (Lab6.mem_zone_initialize m AB ke) as [m1 kz]. cbn [fst snd] in *.
  destruct (l6_zone_init m1 ke AE ltac:(unfold ke, PGSIZE in *; lia) Alke Hle H64 H32)
    as (ufl & Huinv & Hulen & Hub & Huen & Hsame).
  destruct (Lab6.mem_zone_initialize m1 ke AE) as [m2 uz].
  cbn [fst snd Lab6.mem Lab6.kernel_mem_zone Lab6.user_mem_zone] in *.
  exists kfl, ufl. rewrite Hk in Hklen.
  split; [|split; [exact Hklen|split; [exact Huinv|exact Hulen]]].
  destruct Hkinv as (Hfl & Hcnt & Hlt & Hnd & Hfr).
  split; [|repeat split; assumption].
  apply (flist_ext kfl m1); [|exact Hfl].
  intros f x Hf Hx. apply Hsame. rewrite Forall_forall in Hfr.
  destruct (Hfr f Hf) as (_ & Af & Hrg). rewrite Hkb, Hken in Hrg.
  destruct (aligned_apart f ke Af Alke ltac:(lia)); unfold PGSIZE in *; lia.
Qed.

(** C2 (as amended): from [pmem_init] on, along every sequence of
    [pmem_alloc] and [pmem_free] calls on one region in which
    [pmem_free] is only given a frame that is allocated at that point,
    the region's free count plus the number of allocated frames is the
    number of frames the region was initialised with, the allocated
    frames are pairwise distinct, and [pmem_alloc] never returns a
    frame that is still allocated; in 系统调用 and in lab6 alike. *)
Theorem frame_accounting :
  (forall m ALLOC_BEGIN ALLOC_END in_kernel st A,
     0 < ALLOC_BEGIN -> ALLOC_BEGIN mod PGSIZE = 0 ->
     ALLOC_BEGIN + Syscall.KERN_PAGES * PGSIZE <= ALLOC_END ->
     ALLOC_END + PGSIZE < 2 ^ 64 ->
     Z.of_nat (Syscall.frames_between (ALLOC_BEGIN + Syscall.KERN_PAGES * PGSIZE) ALLOC_END)
       < 2 ^ 32 ->
     Syscall.reach in_kernel (Syscall.pmem_init m ALLOC_BEGIN ALLOC_END) st A ->
     Syscall.allocable (Syscall.region st in_kernel) + Z.of_nat (length A)
       = (if in_kernel then Syscall.KERN_PAGES
          else Z.of_nat (Syscall.frames_between
                           (ALLOC_BEGIN + Syscall.KERN_PAGES * PGSIZE) ALLOC_END)) /\
     Syscall.allocable
       (Syscall.region (Syscall.pmem_init m ALLOC_BEGIN ALLOC_END) in_kernel)
       = (if in_kernel then Syscall.KERN_PAGES
          else Z.of_nat (Syscall.frames_between
                           (ALLOC_BEGIN + Syscall.KERN_PAGES * PGSIZE) ALLOC_END)) /\
     NoDup A /\
     (forall st' p, Syscall.pmem_alloc st in_kernel = Ok (st', p) -> ~ In p A)) /\
  (forall m ALLOC_BEGIN ALLOC_END KERNEL_PAGES in_kernel st A,
     0 < ALLOC_BEGIN -> ALLOC_BEGIN mod PGSIZE = 0 -> 0 <= KERNEL_PAGES < 2 ^ 32 ->
     ALLOC_BEGIN + KERNEL_PAGES * PGSIZE <= ALLOC_END ->
     ALLOC_END + PGSIZE < 2 ^ 64 ->
     (ALLOC_END - (ALLOC_BEGIN + KERNEL_PAGES * PGSIZE)) / PGSIZE < 2 ^ 32 ->
     Lab6.reach in_kernel (Lab6.pmem_init m ALLOC_BEGIN ALLOC_END KERNEL_PAGES) st A ->
     Lab6.free_page_count (Lab6.zone st in_kernel) + Z.of_nat (length A)
       = (if in_kernel then KERNEL_PAGES
          else (ALLOC_END - (ALLOC_BEGIN + KERNEL_PAGES * PGSIZE)) / PGSIZE) /\
     Lab6.free_page_count
       (Lab6.zone (Lab6.pmem_init m ALLOC_BEGIN ALLOC_END KERNEL_PAGES) in_kernel)
       = (if in_kernel then KERNEL_PAGES
          else (ALLOC_END - (ALLOC_BEGIN + KERNEL_PAGES * PGSIZE)) / PGSIZE) /\
     NoDup A /\
     (forall st' p, Lab6.pmem_alloc st in_kernel = (st', p) -> p <> 0 -> ~ In p A)).
Proof.
  split.
  - intros m AB AE k st A H1 H2 H3 H4 H5 Hr.
    destruct (sc_init_inv m AB AE H1 H2 H3 H4 H5) as (kfl & ufl & Hk & Hkl & Hu & Hul).
    set (st0 := Syscall.pmem_init m AB AE) in *.
    assert (Hinv : exists fl, Syscall.region_inv (Syscall.mem st0) (Syscall.region st0 k) fl /\
              Z.of_nat (length fl) =
              (if k then Syscall.KERN_PAGES
               else Z.of_nat (Syscall.frames_between (AB + Syscall.KERN_PAGES * PGSIZE) AE))).
    { destruct k; [exists kfl|exists ufl]; (split; [assumption|]).
      - rewrite Hkl. reflexivity.
      - rewrite Hul. reflexivity. }
    destruct Hinv as (fl & Hinv & Hlen).
    destruct (sc_accounting k st0 fl st A Hinv Hr) as (Hsum & Hnd & Hfresh).
    rewrite <- Hlen. split; [exact Hsum|]. split; [|split; [exact Hnd|exact Hfresh]].
    destruct Hinv as (_ & Hcnt & _). exact Hcnt.
  - intros m AB AE KP k st A H1 H2 H3 H4 H5 H6 Hr.
    destruct (l6_init_inv m AB AE KP H1 H2 H3 H4 H5 H6) as (kfl & ufl & Hk & Hkl & Hu & Hul).
    set (st0 := Lab6.pmem_init m AB AE KP) in *.
    assert (Hd : 0 <= (AE - (AB + KP * PGSIZE)) / PGSIZE)
      by (apply Z.div_pos; unfold PGSIZE in *; lia).
    assert (Hinv : exists fl, Lab6.zone_inv (Lab6.mem st0) (Lab6.zone st0 k) fl /\
              Z.of_nat (length fl) =
              (if k then KP else (AE - (AB + KP * PGSIZE)) / PGSIZE)).
    { destruct k; [exists kfl|exists ufl]; (split; [assumption|]).
      - rewrite Hkl. lia.
      - rewrite Hul. lia. }
    destruct Hinv as (fl & Hinv & Hlen).
    destruct (l6_accounting k st0 fl st A Hinv Hr) as (Hsum & Hnd & Hfresh).
    rewrite <- Hlen. split; [exact Hsum|]. split; [|split; [exact Hnd|exact Hfresh]].
    destruct Hinv as (_ & Hcnt & _). exact Hcnt.
Qed.

Lemma sc_boot_eq :
  Syscall.boot = Syscall.pmem_init (fun _ => 0) 0x80400000
                   (0x80400000 + Syscall.KERN_PAGES * PGSIZE + 8 * PGSIZE).
Proof. unfold Syscall.boot. reflexivity. Qed.

Lemma sc_boot_one_alloc :
  Syscall.pmem_alloc
    (Syscall.pmem_init (fun _ => 0) 0x80400000
       (0x80400000 + Syscall.KERN_PAGES * PGSIZE + 8 * PGSIZE)) false
  = Ok (fst Syscall.one_alloc, snd Syscall.one_alloc).
Proof.
  rewrite <- sc_boot_eq. rewrite <- surjective_pairing. unfold Syscall.one_alloc.
  apply get_ok_eq. vm_compute. reflexivity.
Qed.

Lemma frame_accounting_witness :
  (0 < 0x80400000 /\ 0x80400000 mod PGSIZE = 0 /\
   0x80400000 + Syscall.KERN_PAGES * PGSIZE
     <= 0x80400000 + Syscall.KERN_PAGES * PGSIZE + 8 * PGSIZE /\
   0x80400000 + Syscall.KERN_PAGES * PGSIZE + 8 * PGSIZE + PGSIZE < 2 ^ 64 /\
   Z.of_nat (Syscall.frames_between (0x80400000 + Syscall.KERN_PAGES * PGSIZE)
               (0x80400000 + Syscall.KERN_PAGES * PGSIZE + 8 * PGSIZE)) < 2 ^ 32 /\
   Syscall.reach false
     (Syscall.pmem_init (fun _ => 0) 0x80400000
        (0x80400000 + Syscall.KERN_PAGES * PGSIZE + 8 * PGSIZE))
     (fst Syscall.one_alloc) [snd Syscall.one_alloc]) /\
  Syscall.allocable (Syscall.region (fst Syscall.one_alloc) false)
    + Z.of_nat (length [snd Syscall.one_alloc])
  = (if false then Syscall.KERN_PAGES
     else Z.of_nat (Syscall.frames_between (0x80400000 + Syscall.KERN_PAGES * PGSIZE)
                      (0x80400000 + Syscall.KERN_PAGES * PGSIZE + 8 * PGSIZE))).
Proof.
  assert (H1 : 0 < 0x80400000) by reflexivity.
  assert (H2 : 0x80400000 mod PGSIZE = 0) by reflexivity.
  assert (H3 : 0x80400000 + Syscall.KERN_PAGES * PGSIZE
               <= 0x80400000 + Syscall.KERN_PAGES * PGSIZE + 8 * PGSIZE)
    by (vm_compute; discriminate).
  assert (H4 : 0x80400000 + Syscall.KERN_PAGES * PGSIZE + 8 * PGSIZE + PGSIZE < 2 ^ 64)
    by reflexivity.
  assert (H5 : Z.of_nat (Syscall.frames_between (0x80400000 + Syscall.KERN_PAGES * PGSIZE)
                 (0x80400000 + Syscall.KERN_PAGES * PGSIZE + 8 * PGSIZE)) < 2 ^ 32)
    by reflexivity.
  assert (H6 : Syscall.reach false
                 (Syscall.pmem_init (fun _ => 0) 0x80400000
                    (0x80400000 + Syscall.KERN_PAGES * PGSIZE + 8 * PGSIZE))
                 (fst Syscall.one_alloc) [snd Syscall.one_alloc]).
  { apply Syscall.reach_alloc with (st := Syscall.pmem_init (fun _ => 0) 0x80400000
             (0x80400000 + Syscall.KERN_PAGES * PGSIZE + 8 * PGSIZE));
      [apply Syscall.reach_start | exact sc_boot_one_alloc]. }
  split; [exact (conj H1 (conj H2 (conj H3 (conj H4 (conj H5 H6)))))|].
  exact (proj1 (proj1 frame_accounting (fun _ => 0) 0x80400000 (0x80400000 + Syscall.KERN_PAGES * PGSIZE + 8 * PGSIZE) false (fst Syscall.one_alloc) [snd Syscall.one_alloc] H1 H2 H3 H4 H5 H6)).
Defined.

(** C2 (as stated) fails: [pmem_free] accepts a frame that is already
    free.  After one allocation from the 8-frame user region and two
    frees of that frame the free count is 9 with nothing allocated, and
    the next two allocations return that same frame. *)
Lemma syscall_double_free_breaks_accounting :
  Syscall.allocable (Syscall.user_region Syscall.boot) = 8 /\
  Syscall.allocable (Syscall.user_region Syscall.double_free) = 9 /\
  snd (get_ok (Syscall.pmem_alloc Syscall.double_free false) (Syscall.boot, 0))
    = snd Syscall.one_alloc /\
  snd (get_ok (Syscall.pmem_alloc
                 (fst (get_ok (Syscall.pmem_alloc Syscall.double_free false)
                              (Syscall.boot, 0))) false) (Syscall.boot, 0))
    = snd Syscall.one_alloc /\
  snd Syscall.one_alloc <> 0.
Proof. conj_compute. Qed.

(** ** 系统调用: the creating walk, frame by frame *)

Lemma good_frame_apart : forall f g, good_frame f -> good_frame g -> f <> g ->
  f + PGSIZE <= g \/ g + PGSIZE <= f.
Proof. intros f g (_ & _ & Af) (_ & _ & Ag) H. apply aligned_apart; assumption. Qed.

Lemma off_frames_in : forall l f x, off_frames l x -> In f l -> x < f \/ f + PGSIZE <= x.
Proof. intros l f x H Hin. exact (H f Hin). Qed.

Lemma off_frames_incl : forall l l' x, incl l' l -> off_frames l x -> off_frames l' x.
Proof. intros l l' x Hi H f Hf. apply H. apply Hi. exact Hf. Qed.

(** An entry of a frame lies off every other frame. *)
Lemma entry_off_frame : forall t g i x,
  t mod PGSIZE = 0 -> g mod PGSIZE = 0 -> t <> g -> 0 <= i < 512 ->
  t + 8 * i <= x < t + 8 * i + 8 -> x < g \/ g + PGSIZE <= x.
Proof.
  intros t g i x At Ag Hne Hi Hx.
  destruct (aligned_apart t g At Ag Hne); unfold PGSIZE in *; lia.
Qed.

Section syscall_create.
Import Syscall.

Lemma region_inv_frames : forall m r fl f,
  region_inv m r fl -> In f fl -> good_frame f.
Proof.
  intros m r fl f (Hfl & _ & _ & _ & Hfr) Hin.
  rewrite Forall_forall in Hfr. destruct (Hfr f Hin) as (Hr & Ha & _).
  split; [exact (flist_nonzero _ _ _ _ Hfl Hin)|]. split; assumption.
Qed.

(** A region stays in order when memory changes off its free frames. *)
Lemma region_inv_ext : forall m m' r fl,
  region_inv m r fl ->
  (forall f x, In f fl -> f <= x < f + PGSIZE -> m' x = m x) ->
  region_inv m' r fl.
Proof.
  intros m m' r fl (Hfl & Hc & Hl & Hnd & Hfr) Hs.
  split; [|repeat split; assumption].
  apply (flist_ext fl m); [|exact Hfl].
  intros f x Hf Hx. apply (Hs f x Hf). unfold PGSIZE. lia.
Qed.

Lemma off_frames_dec : forall l x, off_frames l x \/ ~ off_frames l x.
Proof.
  induction l as [|f l IH]; intros x.
  - left. intros g [].
  - destruct (IH x) as [H|H].
    + destruct (Z_lt_dec x f) as [H1|H1].
      * left. intros g [<-|Hg]; [left; exact H1|exact (H g Hg)].
      * destruct (Z_le_dec (f + PGSIZE) x) as [H2|H2].
        -- left. intros g [<-|Hg]; [right; exact H2|exact (H g Hg)].
        -- right. intros Hoff. destruct (Hoff f (or_introl eq_refl)); lia.
    + right. intros Hoff. apply H. intros g Hg. apply Hoff. right. exact Hg.
Qed.

(** Allocation from the kernel region, in terms of its free list. *)
Lemma sc_alloc_inv : forall st k fl st' p,
  region_inv (mem st) (region st k) fl ->
  pmem_alloc st k = Ok (st', p) ->
  exists fl',
    fl = p :: fl' /\ good_frame p /\
    mem st' = memset (mem st) p 0 PGSIZE /\
    region_inv (mem st') (region st' k) fl' /\
    region st' (negb k) = region st (negb k).
Proof.
  intros st k fl st' p Hinv Hal.
  destruct (sc_alloc_ok _ _ _ _ Hal) as (Ep & Hnz & Hcnz & Em & Er & Eo).
  pose proof Hinv as (Hfl & Hcnt & Hlt & Hnd & Hfr).
  destruct fl as [|f fl]; [cbn [flist] in Hfl; congruence|].
  assert (Ef : p = f) by (cbn [flist] in Hfl; destruct Hfl as (E & _); congruence).
  subst f. exists fl. split; [reflexivity|].
  split; [apply (region_inv_frames _ _ _ _ Hinv); left; reflexivity|].
  split; [exact Em|]. split; [|exact Eo].
  rewrite Er, Em. rewrite <- Ep in Hfl. cbn [length] in *.
  split; [|split; [|split; [|split]]]; cbn [begin end_ list_head allocable].
  - apply (flist_pop _ _ _ _ _ _ Hfl Hnd Hfr).
  - rewrite Hcnt. unfold wrap32. rewrite Z.mod_small; lia.
  - lia.
  - inversion Hnd; assumption.
  - exact (Forall_inv_tail Hfr).
Qed.


Lemma off_frames_perm : forall l l' x, Permutation l l' -> off_frames l x -> off_frames l' x.
Proof.
  intros l l' x Hp H f Hf. apply H.
  apply (Permutation_in f (Permutation_sym Hp) Hf).
Qed.

(** The bytes of a frame lie off every other frame. *)
Lemma frame_off : forall l g x,
  Forall good_frame l -> good_frame g -> ~ In g l ->
  g <= x < g + PGSIZE -> off_frames l x.
Proof.
  intros l g x Hl Hg Hn Hx f Hf.
  rewrite Forall_forall in Hl.
  assert (Hne : g <> f) by (intros ->; exact (Hn Hf)).
  destruct (good_frame_apart g f Hg (Hl f Hf) Hne); lia.
Qed.

Lemma tree_inv_frames : forall st root N1 N0 KL,
  tree_inv st root N1 N0 KL -> Forall good_frame (root :: N1 ++ N0 ++ KL).
Proof.
  intros st root N1 N0 KL (Hr & _ & _ & Hg).
  rewrite Forall_forall in *. intros f Hf.
  change (root :: N1 ++ N0 ++ KL) with ((root :: N1) ++ N0 ++ KL) in Hf.
  rewrite !in_app_iff in Hf.
  destruct Hf as [Hf|[Hf|Hf]].
  - apply Hg. change (root :: N1 ++ N0) with ((root :: N1) ++ N0).
    apply in_or_app. left. exact Hf.
  - apply Hg. change (root :: N1 ++ N0) with ((root :: N1) ++ N0).
    apply in_or_app. right. exact Hf.
  - exact (region_inv_frames _ _ _ _ Hr Hf).
Qed.

Lemma grows_refl : forall root st N1 N0 KL,
  tree_inv st root N1 N0 KL -> grows root st N1 N0 KL st N1 N0 KL.
Proof.
  intros. split; [assumption|]. split; [apply Permutation_refl|].
  split; [apply incl_refl|]. split; [apply incl_refl|].
  split; [reflexivity|]. split; intros; reflexivity.
Qed.

Lemma grows_trans : forall root st N1 N0 KL st1 N1a N0a KLa st2 N1b N0b KLb,
  grows root st N1 N0 KL st1 N1a N0a KLa ->
  grows root st1 N1a N0a KLa st2 N1b N0b KLb ->
  grows root st N1 N0 KL st2 N1b N0b KLb.
Proof.
  intros root st N1 N0 KL st1 N1a N0a KLa st2 N1b N0b KLb
    (Ht1 & Hp1 & Hi1 & Hj1 & Hu1 & Ho1 & Hv1) (Ht2 & Hp2 & Hi2 & Hj2 & Hu2 & Ho2 & Hv2).
  split; [assumption|].
  split; [exact (Permutation_trans Hp2 Hp1)|].
  split; [exact (incl_tran Hi1 Hi2)|].
  split; [exact (incl_tran Hj1 Hj2)|].
  split; [congruence|].
  split.
  - intros x Hx. rewrite Ho2; [apply Ho1; exact Hx|].
    apply (off_frames_perm (root :: N1 ++ N0 ++ KL)); [|exact Hx].
    constructor. apply Permutation_sym. exact Hp1.
  - intros t i Ht Hi Hv.
    assert (Ht' : In t (root :: N1a ++ N0a)).
    { destruct Ht as [->|Ht]; [left; reflexivity|right].
      apply in_app_or in Ht. apply in_or_app.
      destruct Ht; [left; apply Hi1|right; apply Hj1]; assumption. }
    rewrite (Hv2 t i Ht' Hi); [apply Hv1; assumption|].
    rewrite (Hv1 t i Ht Hi Hv). exact Hv.
Qed.

Lemma sc_loop_S : forall l st T va alloc,
  vm_getpte_loop (S l) st T va alloc =
  (let pte_entry := T + 8 * VA_TO_VPN va (Z.of_nat (S l)) in
   if pte_valid (load64 (mem st) pte_entry) then
     vm_getpte_loop l st (PTE_TO_PA (load64 (mem st) pte_entry)) va alloc
   else if negb alloc then Ok (st, 0)
   else
     '(st1, new_pgtbl) <- pmem_alloc st true ;;
     if new_pgtbl =? 0 then Ok (st1, 0)
     else
       let m1 := memset (mem st1) new_pgtbl 0 PGSIZE in
       let m2 := store64 m1 pte_entry (Z.lor (PA_TO_PTE new_pgtbl) PTE_V) in
       vm_getpte_loop l (set_mem st1 m2) new_pgtbl va alloc).
Proof. reflexivity. Qed.

(** The entry of a fresh table: valid, pointing to the table. *)
Lemma link_pte_facts : forall f, 0 <= f < 2 ^ 64 -> f mod PGSIZE = 0 ->
  0 <= Z.lor (PA_TO_PTE f) PTE_V < 2 ^ 64 /\
  pte_valid (Z.lor (PA_TO_PTE f) PTE_V) = true /\
  PTE_TO_PA (Z.lor (PA_TO_PTE f) PTE_V) = f.
Proof.
  intros f Hr Ha. split; [|split].
  - apply (lor_range _ _ 64); [lia|apply PA_TO_PTE_range|unfold PTE_V; lia].
  - apply pte_valid_lor_V.
  - apply PTE_TO_PA_encode; [assumption|assumption|unfold PTE_V; lia].
Qed.

(** Memory after a fresh table [f] was zeroed and linked at entry [a]. *)
Lemma linked_other : forall m f a v t j,
  (t + 8 * j + 8 <= a \/ a + 8 <= t + 8 * j) ->
  (t + 8 * j + 8 <= f \/ f + PGSIZE <= t + 8 * j) ->
  load64 (store64 (memset (memset m f 0 PGSIZE) f 0 PGSIZE) a v) (t + 8 * j)
  = load64 m (t + 8 * j).
Proof.
  intros. rewrite load64_store64_other by lia.
  rewrite !load64_memset_other by lia. reflexivity.
Qed.

Lemma linked_fresh : forall m f a v j,
  (f + PGSIZE <= a \/ a + 8 <= f) -> 0 <= j < 512 ->
  load64 (store64 (memset (memset m f 0 PGSIZE) f 0 PGSIZE) a v) (f + 8 * j) = 0.
Proof.
  intros. unfold PGSIZE in *. rewrite load64_store64_other by lia.
  apply load64_memset_zero; lia.
Qed.

Lemma linked_off : forall m f a v T i x,
  a = T + 8 * i -> 0 <= i < 512 ->
  (x < T \/ T + PGSIZE <= x) -> (x < f \/ f + PGSIZE <= x) ->
  store64 (memset (memset m f 0 PGSIZE) f 0 PGSIZE) a v x = m x.
Proof.
  intros. unfold PGSIZE in *. rewrite store64_other by lia.
  rewrite !memset_other by lia. reflexivity.
Qed.

(** A missing table on the creating walk: the head of the kernel free
    list is zeroed and linked. *)
Lemma sc_link : forall st KL T l va r,
  region_inv (mem st) (kern_region st) KL ->
  pte_valid (load64 (mem st) (T + 8 * VA_TO_VPN va (Z.of_nat (S l)))) = false ->
  vm_getpte_loop (S l) st T va true = Ok r ->
  exists f KL' st1,
    KL = f :: KL' /\ good_frame f /\
    vm_getpte_loop l st1 f va true = Ok r /\
    mem st1 = store64 (memset (memset (mem st) f 0 PGSIZE) f 0 PGSIZE)
                (T + 8 * VA_TO_VPN va (Z.of_nat (S l))) (Z.lor (PA_TO_PTE f) PTE_V) /\
    region_inv (memset (mem st) f 0 PGSIZE) (kern_region st1) KL' /\
    user_region st1 = user_region st.
Proof.
  intros st KL T l va r Hinv Hv H.
  rewrite sc_loop_S in H. cbv zeta in H. rewrite Hv in H. cbn [negb] in H.
  destruct (pmem_alloc st true) as [[st1 f]|msg|] eqn:Hal; cbn [bind] in H; try discriminate.
  destruct (sc_alloc_inv st true KL st1 f Hinv Hal) as (KL' & EKL & Hg & Em & Hr & Hu).
  pose proof Hg as (Hnz & _).
  destruct (f =? 0) eqn:Ez; [apply Z.eqb_eq in Ez; contradiction|].
  exists f, KL', (set_mem st1 (store64 (memset (mem st1) f 0 PGSIZE)
                    (T + 8 * VA_TO_VPN va (Z.of_nat (S l))) (Z.lor (PA_TO_PTE f) PTE_V))).
  split; [exact EKL|]. split; [exact Hg|]. split; [exact H|].
  split; [cbn [set_mem mem]; rewrite Em; reflexivity|].
  split; [cbn [set_mem kern_region]; rewrite <- Em; exact Hr|].
  cbn [set_mem user_region]. exact Hu.
Qed.

Lemma NoDup_cons_app_mid : forall (a f : Z) (l1 l2 : list Z),
  NoDup (a :: l1 ++ f :: l2) -> NoDup (a :: (f :: l1) ++ l2).
Proof.
  intros a f l1 l2 H.
  apply (Permutation_NoDup (l := a :: l1 ++ f :: l2)); [|exact H].
  constructor. apply Permutation_sym. apply Permutation_middle.
Qed.

Lemma in_tree_cases : forall (root : Z) N1 N0 KL t,
  In t (root :: N1 ++ N0 ++ KL) <-> t = root \/ In t N1 \/ In t N0 \/ In t KL.
Proof.
  intros. cbn [In]. rewrite !in_app_iff. intuition congruence.
Qed.

Lemma in_tabs_cases : forall (root : Z) N1 N0 t,
  In t (root :: N1 ++ N0) <-> t = root \/ In t N1 \/ In t N0.
Proof.
  intros. cbn [In]. rewrite !in_app_iff. intuition congruence.
Qed.

(** Two entries of tables are the same entry or eight bytes apart. *)
Lemma entry_cases : forall t j T i,
  t mod PGSIZE = 0 -> T mod PGSIZE = 0 -> 0 <= j < 512 -> 0 <= i < 512 ->
  (t = T /\ j = i) \/
  (t + 8 * j + 8 <= T + 8 * i \/ T + 8 * i + 8 <= t + 8 * j).
Proof.
  intros t j T i At AT Hj Hi.
  destruct (Z.eq_dec t T) as [->|Hne].
  - destruct (Z.eq_dec j i) as [->|Hji]; [left; split; reflexivity|right; lia].
  - right. apply ent_apart; assumption.
Qed.

(** An entry of a table lies off every other frame. *)
Lemma entry_off : forall t j f,
  t mod PGSIZE = 0 -> f mod PGSIZE = 0 -> t <> f -> 0 <= j < 512 ->
  t + 8 * j + 8 <= f \/ f + PGSIZE <= t + 8 * j.
Proof.
  intros t j f At Af Hne Hj.
  destruct (aligned_apart t f At Af Hne); unfold PGSIZE in *; lia.
Qed.

Lemma NoDup_app_inv : forall (l1 l2 : list Z),
  NoDup (l1 ++ l2) -> NoDup l1 /\ NoDup l2 /\ (forall x, In x l1 -> ~ In x l2).
Proof.
  induction l1 as [|a l1 IH]; intros l2 H.
  - split; [constructor|]. split; [exact H|]. intros x [].
  - cbn [app] in H. inversion H as [|? ? Hn Hnd]; subst.
    destruct (IH l2 Hnd) as (H1 & H2 & H3).
    split; [|split; [exact H2|]].
    + constructor; [|exact H1]. intros Hin. apply Hn. apply in_or_app. left; exact Hin.
    + intros x [<-|Hx] Hx2; [apply Hn; apply in_or_app; right; exact Hx2|exact (H3 x Hx Hx2)].
Qed.

(** The general growth step: a fresh table [f] linked at entry [i] of
    the table [T]; [N1'] and [N0'] are the lists with [f] added at the
    level below [T]. *)
Lemma sc_link_grows : forall root st N1 N0 f KL' T i st1 N1' N0',
  tree_inv st root N1 N0 (f :: KL') ->
  0 <= i < 512 ->
  pte_valid (load64 (mem st) (T + 8 * i)) = false ->
  mem st1 = store64 (memset (memset (mem st) f 0 PGSIZE) f 0 PGSIZE)
              (T + 8 * i) (Z.lor (PA_TO_PTE f) PTE_V) ->
  region_inv (memset (mem st) f 0 PGSIZE) (kern_region st1) KL' ->
  user_region st1 = user_region st ->
  (T = root /\ N1' = f :: N1 /\ N0' = N0) \/ (In T N1 /\ N1' = N1 /\ N0' = f :: N0) ->
  grows root st N1 N0 (f :: KL') st1 N1' N0' KL'.
Proof.
  intros root st N1 N0 f KL' T i st1 N1' N0' Hinv Hi Hv Em Hr Hu Hcase.
  pose proof (tree_inv_frames _ _ _ _ _ Hinv) as Hall.
  destruct Hinv as (HrK & (Hc1 & Hc0) & Hnd & Hgood).
  rewrite Forall_forall in Hall, Hgood.
  assert (Hgf : good_frame f).
  { apply Hall. apply in_tree_cases. right; right; right. left; reflexivity. }
  assert (HTin : In T (root :: N1 ++ N0)).
  { apply in_tabs_cases. destruct Hcase as [(-> & _)|(H & _)]; [left; reflexivity|right; left; exact H]. }
  assert (HgT : good_frame T) by (apply Hgood; exact HTin).
  assert (Hnd2 : NoDup ((root :: N1 ++ N0) ++ f :: KL')).
  { cbn [app]. rewrite <- app_assoc. exact Hnd. }
  destruct (NoDup_app_inv _ _ Hnd2) as (Hndt & Hndk & Hdisj).
  assert (HfKL : ~ In f KL') by (inversion Hndk; assumption).
  assert (Hroot1 : ~ In root N1).
  { inversion Hndt as [|? ? Hn _]; subst. intros H. apply Hn. apply in_or_app. left; exact H. }
  assert (Htab_f : forall t, In t (root :: N1 ++ N0) -> t <> f).
  { intros t Ht ->. apply (Hdisj f Ht). left; reflexivity. }
  assert (Hfree_T : forall g, In g KL' -> g <> T).
  { intros g Hg ->. apply (Hdisj T HTin). right; exact Hg. }
  assert (HTf : T <> f) by (apply Htab_f; exact HTin).
  destruct HgT as (_ & _ & AT). pose proof Hgf as (_ & Rf & Af).
  destruct (link_pte_facts f Rf Af) as (Rv & Vv & Pv).
  (* reading the new memory *)
  assert (Lsame : load64 (mem st1) (T + 8 * i) = Z.lor (PA_TO_PTE f) PTE_V).
  { rewrite Em. apply load64_store64_same. exact Rv. }
  assert (Lother : forall t j, In t (root :: N1 ++ N0) -> 0 <= j < 512 ->
             ~ (t = T /\ j = i) ->
             load64 (mem st1) (t + 8 * j) = load64 (mem st) (t + 8 * j)).
  { intros t j Ht Hj Hne. rewrite Em.
    destruct (Hgood t Ht) as (_ & _ & At).
    apply linked_other.
    - destruct (entry_cases t j T i At AT Hj Hi) as [H|H]; [contradiction|exact H].
    - apply entry_off; [exact At|exact Af|apply Htab_f; exact Ht|exact Hj]. }
  assert (Lfresh : forall j, 0 <= j < 512 -> load64 (mem st1) (f + 8 * j) = 0).
  { intros j Hj. rewrite Em. apply linked_fresh; [|exact Hj].
    destruct (aligned_apart T f AT Af HTf); unfold PGSIZE in *; lia. }
  assert (Hperm : Permutation (N1' ++ N0' ++ KL') (N1 ++ N0 ++ f :: KL')).
  { destruct Hcase as [(_ & -> & ->)|(_ & -> & ->)].
    - cbn [app]. rewrite !app_assoc. apply Permutation_middle.
    - apply Permutation_app_head. cbn [app]. apply Permutation_middle. }
  assert (Hi1 : incl N1 N1').
  { destruct Hcase as [(_ & -> & _)|(_ & -> & _)]; [apply incl_tl|]; apply incl_refl. }
  assert (Hi0 : incl N0 N0').
  { destruct Hcase as [(_ & _ & ->)|(_ & _ & ->)]; [|apply incl_tl]; apply incl_refl. }
  split; [|split; [exact Hperm|split; [exact Hi1|split; [exact Hi0|split; [exact Hu|split]]]]].
  - (* the tree is in order again *)
    split; [|split; [|split]].
    + apply (region_inv_ext (memset (mem st) f 0 PGSIZE)); [exact Hr|].
      intros g x Hg Hx. rewrite Em.
      assert (Hgg : good_frame g).
      { apply Hall. apply in_tree_cases. right; right; right. right; exact Hg. }
      destruct Hgg as (_ & _ & Ag).
      assert (Hgf' : g <> f) by (intros ->; exact (HfKL Hg)).
      pose proof (Hfree_T g Hg) as HgT.
      destruct (aligned_apart g T Ag AT HgT), (aligned_apart g f Ag Af Hgf');
        unfold PGSIZE in *;
        (rewrite store64_other by lia); (rewrite (memset_other (memset (mem st) f 0 4096)) by lia);
        reflexivity.
    + split.
      * intros j Hj Hval.
        destruct (Z.eq_dec root T) as [ET|ET]; [destruct (Z.eq_dec j i) as [Eji|Eji]|].
        -- subst j. rewrite ET in Hval |- *. rewrite Lsame, Pv.
           destruct Hcase as [(_ & -> & _)|(HT & _)]; [left; reflexivity|].
           exfalso. apply Hroot1. rewrite ET. exact HT.
        -- rewrite Lother in Hval |- * by (try (left; reflexivity); try exact Hj; intros (_ & ?); contradiction).
           apply Hi1. apply Hc1; assumption.
        -- rewrite Lother in Hval |- * by (try (left; reflexivity); try exact Hj; intros (? & _); contradiction).
           apply Hi1. apply Hc1; assumption.
      * intros t j Ht Hj Hval.
        assert (Ht' : t = f \/ In t N1).
        { destruct Hcase as [(_ & -> & _)|(_ & -> & _)]; [destruct Ht as [<-|Ht]|]; tauto. }
        destruct Ht' as [->|Ht1].
        { rewrite Lfresh in Hval by exact Hj. discriminate Hval. }
        assert (Htt : In t (root :: N1 ++ N0)) by (apply in_tabs_cases; right; left; exact Ht1).
        destruct (Z.eq_dec t T) as [ET|ET]; [destruct (Z.eq_dec j i) as [Eji|Eji]|].
        -- subst j. rewrite ET in Hval |- *. rewrite Lsame, Pv.
           destruct Hcase as [(HT & _)|(_ & _ & ->)]; [|left; reflexivity].
           exfalso. apply Hroot1. rewrite <- HT, <- ET. exact Ht1.
        -- rewrite Lother in Hval |- * by (try exact Htt; try exact Hj; intros (_ & ?); contradiction).
           apply Hi0. apply (Hc0 t j); assumption.
        -- rewrite Lother in Hval |- * by (try exact Htt; try exact Hj; intros (? & _); contradiction).
           apply Hi0. apply (Hc0 t j); assumption.
    + apply (Permutation_NoDup (l := root :: N1 ++ N0 ++ f :: KL')); [|exact Hnd].
      constructor. apply Permutation_sym. exact Hperm.
    + rewrite Forall_forall. intros t Ht.
      apply in_tabs_cases in Ht.
      assert (Ht' : t = f \/ In t (root :: N1 ++ N0)).
      { rewrite in_tabs_cases.
        destruct Hcase as [(_ & -> & ->)|(_ & -> & ->)]; cbn [In] in Ht; intuition auto. }
      destruct Ht' as [->|Ht']; [exact Hgf|apply Hgood; exact Ht'].
  - intros x Hx. rewrite Em.
    apply (linked_off _ _ _ _ T i); [reflexivity|exact Hi| |].
    + apply Hx. apply in_tree_cases. apply in_tabs_cases in HTin. tauto.
    + apply Hx. apply in_tree_cases. right; right; right. left; reflexivity.
  - intros t j Ht Hj Hval. apply Lother; [exact Ht|exact Hj|].
    intros (-> & ->). rewrite Hv in Hval. discriminate Hval.
Qed.

(** One level of the creating walk, from a table [T] of the tree. *)
Lemma sc_level : forall root st N1 N0 KL T l va r,
  tree_inv st root N1 N0 KL ->
  T = root \/ In T N1 ->
  vm_getpte_loop (S l) st T va true = Ok r ->
  exists st1 N1' N0' KL' c,
    grows root st N1 N0 KL st1 N1' N0' KL' /\
    vm_getpte_loop l st1 c va true = Ok r /\
    pte_valid (load64 (mem st1) (T + 8 * VA_TO_VPN va (Z.of_nat (S l)))) = true /\
    PTE_TO_PA (load64 (mem st1) (T + 8 * VA_TO_VPN va (Z.of_nat (S l)))) = c /\
    (T = root -> In c N1') /\ (In T N1 -> In c N0').
Proof.
  intros root st N1 N0 KL T l va r Hinv HT H.
  pose proof (VPN_range va (Z.of_nat (S l))) as Hi.
  destruct (pte_valid (load64 (mem st) (T + 8 * VA_TO_VPN va (Z.of_nat (S l))))) eqn:Hv.
  - exists st, N1, N0, KL, (PTE_TO_PA (load64 (mem st) (T + 8 * VA_TO_VPN va (Z.of_nat (S l))))).
    split; [apply grows_refl; exact Hinv|].
    split; [rewrite sc_loop_S in H; cbv zeta in H; rewrite Hv in H; exact H|].
    split; [exact Hv|]. split; [reflexivity|].
    destruct Hinv as (_ & (Hc1 & Hc0) & _ & _).
    split.
    + intros ->. apply Hc1; assumption.
    + intros HT1. apply (Hc0 T); assumption.
  - pose proof Hinv as (HrK & _ & Hnd & _).
    destruct (sc_link st KL T l va r HrK Hv H) as (f & KL' & st1 & EKL & Hgf & Hloop & Em & Hr & Hu).
    subst KL.
    assert (Hroot1 : ~ In root N1).
    { inversion Hnd as [|? ? Hn _]; subst. intros Hin. apply Hn. apply in_or_app. left; exact Hin. }
    destruct Hgf as (_ & Rf & Af).
    destruct (link_pte_facts f Rf Af) as (Rv & Vv & Pv).
    assert (Lsame : load64 (mem st1) (T + 8 * VA_TO_VPN va (Z.of_nat (S l)))
                    = Z.lor (PA_TO_PTE f) PTE_V).
    { rewrite Em. apply load64_store64_same. exact Rv. }
    destruct HT as [HT|HT].
    + exists st1, (f :: N1), N0, KL', f.
      split; [apply (sc_link_grows root st N1 N0 f KL' T (VA_TO_VPN va (Z.of_nat (S l))) st1); try assumption;
              left; repeat split; assumption|].
      split; [exact Hloop|]. rewrite Lsame. split; [exact Vv|]. split; [exact Pv|].
      split; [intros _; left; reflexivity|].
      intros HT1. exfalso. apply Hroot1. rewrite <- HT. exact HT1.
    + exists st1, N1, (f :: N0), KL', f.
      split; [apply (sc_link_grows root st N1 N0 f KL' T (VA_TO_VPN va (Z.of_nat (S l))) st1); try assumption;
              right; repeat split; assumption|].
      split; [exact Hloop|]. rewrite Lsame. split; [exact Vv|]. split; [exact Pv|].
      split; [|intros _; left; reflexivity].
      intros HTr. exfalso. apply Hroot1. rewrite <- HTr. exact HT.
Qed.

(** The creating walk of 系统调用 on a tree in order. *)
Lemma sc_getpte_grows : forall root st N1 N0 KL va st' p,
  tree_inv st root N1 N0 KL ->
  vm_getpte st root va true = Ok (st', p) ->
  exists N1' N0' KL' t1 t0,
    grows root st N1 N0 KL st' N1' N0' KL' /\
    In t1 N1' /\ In t0 N0' /\
    pte_valid (load64 (mem st') (root + 8 * VA_TO_VPN va 2)) = true /\
    PTE_TO_PA (load64 (mem st') (root + 8 * VA_TO_VPN va 2)) = t1 /\
    pte_valid (load64 (mem st') (t1 + 8 * VA_TO_VPN va 1)) = true /\
    PTE_TO_PA (load64 (mem st') (t1 + 8 * VA_TO_VPN va 1)) = t0 /\
    p = t0 + 8 * VA_TO_VPN va 0.
Proof.
  intros root st N1 N0 KL va st' p Hinv H. unfold vm_getpte in H.
  destruct (sc_level root st N1 N0 KL root 1 va _ Hinv (or_introl eq_refl) H)
    as (st1 & N1a & N0a & KLa & t1 & Hg1 & H1 & Hv2 & Hp2 & Hin1 & _).
  specialize (Hin1 eq_refl).
  change (Z.of_nat 2) with 2 in Hv2, Hp2.
  pose proof Hg1 as (Hinv1 & _).
  destruct (sc_level root st1 N1a N0a KLa t1 0 va _ Hinv1 (or_intror Hin1) H1)
    as (st2 & N1b & N0b & KLb & t0 & Hg2 & H2 & Hv1 & Hp1 & _ & Hin0).
  specialize (Hin0 Hin1).
  change (Z.of_nat 1) with 1 in Hv1, Hp1.
  cbn [vm_getpte_loop] in H2. injection H2 as <- <-.
  exists N1b, N0b, KLb, t1, t0.
  pose proof Hg2 as (_ & _ & Hi1 & _ & _ & _ & Hkeep).
  assert (E2 : load64 (mem st2) (root + 8 * VA_TO_VPN va 2)
               = load64 (mem st1) (root + 8 * VA_TO_VPN va 2)).
  { apply Hkeep; [left; reflexivity|apply VPN_range|exact Hv2]. }
  split; [exact (grows_trans _ _ _ _ _ _ _ _ _ _ _ _ _ Hg1 Hg2)|].
  split; [apply Hi1; exact Hin1|]. split; [exact Hin0|].
  rewrite E2. repeat (split; [assumption|]). reflexivity.
Qed.

(** Writing an entry of a level-0 table that was not valid. *)
Lemma sc_leaf_grows : forall root st N1 N0 KL t0 i v,
  tree_inv st root N1 N0 KL ->
  In t0 N0 -> 0 <= i < 512 ->
  pte_valid (load64 (mem st) (t0 + 8 * i)) = false ->
  grows root st N1 N0 KL (set_mem st (store64 (mem st) (t0 + 8 * i) v)) N1 N0 KL.
Proof.
  intros root st N1 N0 KL t0 i v Hinv Ht0 Hi Hv.
  pose proof (tree_inv_frames _ _ _ _ _ Hinv) as Hall.
  destruct Hinv as (HrK & (Hc1 & Hc0) & Hnd & Hgood).
  pose proof Hgood as Hgood'.
  rewrite Forall_forall in Hall, Hgood.
  assert (Hnd2 : NoDup ((root :: N1) ++ N0 ++ KL)) by exact Hnd.
  destruct (NoDup_app_inv _ _ Hnd2) as (_ & Hnd3 & Hd1).
  destruct (NoDup_app_inv _ _ Hnd3) as (_ & _ & Hd0).
  assert (Hup : forall t, In t (root :: N1) -> t <> t0).
  { intros t Ht ->. apply (Hd1 t0 Ht). apply in_or_app. left; exact Ht0. }
  assert (Hfree : forall g, In g KL -> g <> t0).
  { intros g Hg ->. exact (Hd0 t0 Ht0 Hg). }
  assert (Hg0 : good_frame t0).
  { apply Hgood. apply in_tabs_cases. right; right; exact Ht0. }
  destruct Hg0 as (_ & _ & A0).
  assert (Lup : forall t j, In t (root :: N1) -> 0 <= j < 512 ->
            load64 (store64 (mem st) (t0 + 8 * i) v) (t + 8 * j) = load64 (mem st) (t + 8 * j)).
  { intros t j Ht Hj. apply load64_store64_other.
    assert (At : t mod PGSIZE = 0).
    { apply (Hgood t). apply in_tabs_cases. destruct Ht as [<-|Ht]; tauto. }
    destruct (ent_apart t t0 j i At A0 (Hup t Ht) Hj Hi); lia. }
  split; [|split; [apply Permutation_refl|split; [apply incl_refl|split; [apply incl_refl|
          split; [reflexivity|split]]]]].
  - split; [|split; [|split; assumption]].
    + cbn [set_mem mem kern_region]. apply (region_inv_ext (mem st)); [exact HrK|].
      intros g x Hg Hx. apply store64_other.
      assert (Ag : g mod PGSIZE = 0).
      { apply (Hall g). apply in_tree_cases. tauto. }
      destruct (aligned_apart g t0 Ag A0 (Hfree g Hg)); unfold PGSIZE in *; lia.
    + cbn [set_mem mem]. split.
      * intros j Hj. rewrite (Lup root j (or_introl eq_refl) Hj). apply Hc1; exact Hj.
      * intros t j Ht Hj. rewrite (Lup t j (or_intror Ht) Hj). apply Hc0; assumption.
  - intros x Hx. cbn [set_mem mem]. apply store64_other.
    assert (Hx0 : x < t0 \/ t0 + PGSIZE <= x).
    { apply Hx. apply in_tree_cases. tauto. }
    unfold PGSIZE in *. lia.
  - intros t j Ht Hj Hval. cbn [set_mem mem]. apply load64_store64_other.
    assert (At : t mod PGSIZE = 0) by (apply (Hgood t); exact Ht).
    destruct (entry_cases t j t0 i At A0 Hj Hi) as [(-> & ->)|H]; [|lia].
    rewrite Hv in Hval. discriminate Hval.
Qed.

Lemma leaf_pte_range : forall pa perm, 0 <= leaf_pte pa perm < 2 ^ 64.
Proof.
  intros. unfold leaf_pte.
  apply (lor_range _ _ 64); [lia| |unfold PTE_V; lia].
  apply (lor_range _ _ 64); [lia|apply PA_TO_PTE_range|].
  unfold int_to_u64, wrap64. apply Z.mod_pos_bound. lia.
Qed.

(** [vm_mappages] of one page on a tree in order. *)
Lemma sc_map_page : forall root st N1 N0 KL va pa perm st',
  tree_inv st root N1 N0 KL ->
  0 <= va < 2 ^ 64 ->
  vm_mappages st root va pa PGSIZE perm = Ok st' ->
  exists N1' N0' KL' t1 t0,
    grows root st N1 N0 KL st' N1' N0' KL' /\
    In t1 N1' /\ In t0 N0' /\
    pte_valid (load64 (mem st') (root + 8 * VA_TO_VPN va 2)) = true /\
    PTE_TO_PA (load64 (mem st') (root + 8 * VA_TO_VPN va 2)) = t1 /\
    pte_valid (load64 (mem st') (t1 + 8 * VA_TO_VPN va 1)) = true /\
    PTE_TO_PA (load64 (mem st') (t1 + 8 * VA_TO_VPN va 1)) = t0 /\
    load64 (mem st') (t0 + 8 * VA_TO_VPN va 0) = leaf_pte pa perm.
Proof.
  intros root st N1 N0 KL va pa perm st' Hinv Hva H.
  unfold vm_mappages in H.
  change (PGSIZE <=? 0) with false in H. cbv iota in H.
  destruct (negb (va mod PGSIZE =? 0) || negb (pa mod PGSIZE =? 0)) eqn:Hal; [discriminate|].
  apply orb_false_elim in Hal. destruct Hal as (Hal & _).
  apply negb_false_iff in Hal. apply Z.eqb_eq in Hal.
  destruct (VA_MAX <? wrap64 (va + PGSIZE)); [discriminate|].
  cbv zeta in H.
  assert (Hva2 : va + PGSIZE <= 2 ^ 64).
  { unfold PGSIZE in *. 
    assert (va = 4096 * (va / 4096)) by (pose proof (Z.div_mod va 4096); lia).
    assert (va / 4096 < 2 ^ 52) by (apply Z.div_lt_upper_bound; lia).
    lia. }
  rewrite (PG_ROUND_DOWN_aligned va Hva Hal) in H.
  assert (Eend : PG_ROUND_DOWN (wrap64 (va + PGSIZE - 1)) = va).
  { rewrite wrap64_small by (unfold PGSIZE in *; lia).
    rewrite PG_ROUND_DOWN_eq by (unfold PGSIZE in *; lia).
    unfold PGSIZE in *.
    assert (va = 4096 * (va / 4096)) by (pose proof (Z.div_mod va 4096); lia).
    assert ((va + 4096 - 1) / 4096 = va / 4096).
    { symmetry. apply Z.div_unique with (r := 4095); lia. }
    lia. }
  rewrite Eend, Z.sub_diag in H.
  change (Z.to_nat (wrap64 0 / PGSIZE)) with 0%nat in H.
  cbn [vm_mappages_loop] in H.
  destruct (vm_getpte st root va true) as [[st1 p]|msg|] eqn:Hget; cbn [bind] in H; try discriminate.
  destruct (sc_getpte_grows root st N1 N0 KL va st1 p Hinv Hget)
    as (N1' & N0' & KL' & t1 & t0 & Hg & Hin1 & Hin0 & Hv2 & Hp2 & Hv1 & Hp1 & Ep).
  destruct (p =? 0); [discriminate|].
  destruct (pte_valid (load64 (mem st1) p)) eqn:Hleaf; [discriminate|].
  injection H as <-. subst p.
  pose proof Hg as (Hinv1 & _).
  pose proof (sc_leaf_grows root st1 N1' N0' KL' t0 (VA_TO_VPN va 0)
                (Z.lor (Z.lor (PA_TO_PTE pa) (int_to_u64 perm)) PTE_V)
                Hinv1 Hin0 (VPN_range va 0) Hleaf) as Hg2.
  exists N1', N0', KL', t1, t0.
  pose proof Hg2 as (_ & _ & _ & _ & _ & _ & Hkeep).
  assert (E2 : load64 (mem (set_mem st1 (store64 (mem st1) (t0 + 8 * VA_TO_VPN va 0)
                 (Z.lor (Z.lor (PA_TO_PTE pa) (int_to_u64 perm)) PTE_V))))
                 (root + 8 * VA_TO_VPN va 2)
               = load64 (mem st1) (root + 8 * VA_TO_VPN va 2)).
  { apply Hkeep; [left; reflexivity|apply VPN_range|exact Hv2]. }
  assert (E1 : load64 (mem (set_mem st1 (store64 (mem st1) (t0 + 8 * VA_TO_VPN va 0)
                 (Z.lor (Z.lor (PA_TO_PTE pa) (int_to_u64 perm)) PTE_V))))
                 (t1 + 8 * VA_TO_VPN va 1)
               = load64 (mem st1) (t1 + 8 * VA_TO_VPN va 1)).
  { apply Hkeep; [apply in_tabs_cases; right; left; exact Hin1|apply VPN_range|exact Hv1]. }
  split; [exact (grows_trans _ _ _ _ _ _ _ _ _ _ _ _ _ Hg Hg2)|].
  split; [exact Hin1|]. split; [exact Hin0|].
  rewrite E2, E1.
  split; [exact Hv2|]. split; [exact Hp2|]. split; [exact Hv1|]. split; [exact Hp1|].
  cbn [set_mem mem].
  apply load64_store64_same. apply leaf_pte_range.
Qed.

End syscall_create.

(** ** 系统调用: duplicating an address space *)

Lemma frame_off_al : forall l g x,
  Forall good_frame l -> g mod PGSIZE = 0 -> ~ In g l ->
  g <= x < g + PGSIZE -> off_frames l x.
Proof.
  intros l g x Hl Ag Hn Hx f Hf.
  rewrite Forall_forall in Hl. destruct (Hl f Hf) as (_ & _ & Af).
  assert (Hne : g <> f) by (intros ->; exact (Hn Hf)).
  destruct (aligned_apart g f Ag Af Hne); lia.
Qed.

(** An entry of a table frame reads the same in two memories that
    agree on the frame. *)
Lemma load64_frame : forall m m' t i,
  0 <= i < 512 ->
  (forall x, t <= x < t + PGSIZE -> m' x = m x) ->
  load64 m' (t + 8 * i) = load64 m (t + 8 * i).
Proof.
  intros m m' t i Hi H. apply load64_ext. intros x Hx. apply H.
  unfold PGSIZE. lia.
Qed.

(** The leaf [copy_range] installs: the frame [u] with the flags of
    the valid source entry. *)
Lemma copy_pte_facts : forall u src,
  0 <= u < 2 ^ 64 -> u mod PGSIZE = 0 -> pte_valid src = true ->
  pte_valid (leaf_pte u (PTE_FLAGS src)) = true /\
  PTE_TO_PA (leaf_pte u (PTE_FLAGS src)) = u /\
  PTE_FLAGS (leaf_pte u (PTE_FLAGS src)) = PTE_FLAGS src.
Proof.
  intros u src Hu Au Hv.
  assert (Hfl : 0 <= PTE_FLAGS src < 1024).
  { unfold PTE_FLAGS. change 1023 with (Z.ones 10). rewrite Z.land_ones by lia.
    apply Z.mod_pos_bound. lia. }
  assert (Hbit : Z.lor (PTE_FLAGS src) PTE_V = PTE_FLAGS src).
  { unfold pte_valid, PTE_V in Hv. apply negb_true_iff in Hv. apply Z.eqb_neq in Hv.
    unfold PTE_FLAGS, PTE_V.
    apply Z.bits_inj'. intros n Hn.
    rewrite Z.lor_spec, Z.land_spec.
    destruct (Z.eq_dec n 0) as [->|Hn0].
    - assert (Hb : Z.testbit src 0 = true).
      { destruct (Z.testbit src 0) eqn:Eb; [reflexivity|].
        exfalso. apply Hv. apply Z.bits_inj'. intros k Hk.
        rewrite Z.land_spec, Z.bits_0.
        destruct (Z.eq_dec k 0) as [->|Hk0]; [rewrite Eb; reflexivity|].
        change 1 with (Z.ones 1). rewrite Z.ones_spec_high by lia.
        apply andb_false_r. }
      rewrite Hb. reflexivity.
    - change 1 with (Z.ones 1). rewrite (Z.ones_spec_high 1 n) by lia.
      apply orb_false_r. }
  unfold leaf_pte, int_to_u64. rewrite wrap64_small by lia.
  rewrite <- Z.lor_assoc, Hbit.
  split; [|split].
  - unfold pte_valid. rewrite <- Hbit at 1. rewrite Z.lor_assoc.
    apply pte_valid_lor_V.
  - apply PTE_TO_PA_encode; assumption.
  - unfold PTE_FLAGS at 1. apply flags_of_lor. exact Hfl.
Qed.

Section syscall_dup.
Import Syscall.

Lemma tree_inv_ext : forall st st' root N1 N0 KL,
  tree_inv st root N1 N0 KL ->
  kern_region st' = kern_region st ->
  (forall f x, In f (root :: N1 ++ N0 ++ KL) -> f <= x < f + PGSIZE ->
     mem st' x = mem st x) ->
  tree_inv st' root N1 N0 KL.
Proof.
  intros st st' root N1 N0 KL (Hr & (Hc1 & Hc0) & Hnd & Hg) Ek Hm.
  split; [|split; [|split; assumption]].
  - rewrite Ek. apply (region_inv_ext (mem st)); [exact Hr|].
    intros f x Hf Hx. apply (Hm f); [|exact Hx].
    apply in_tree_cases. tauto.
  - split.
    + intros i Hi.
      rewrite (load64_frame (mem st) (mem st') root i Hi).
      * apply Hc1; exact Hi.
      * intros x Hx. apply (Hm root); [left; reflexivity|exact Hx].
    + intros t i Ht Hi.
      rewrite (load64_frame (mem st) (mem st') t i Hi).
      * apply Hc0; assumption.
      * intros x Hx. apply (Hm t); [|exact Hx]. apply in_tree_cases. tauto.
Qed.

(** The non-creating walk of a tree in order ends in a level-0 table. *)
Lemma lookup_tables : forall st root N1 N0 KL va,
  tree_inv st root N1 N0 KL ->
  lookup st root va <> 0 ->
  exists t1 t0,
    In t1 N1 /\ In t0 N0 /\
    pte_valid (load64 (mem st) (root + 8 * VA_TO_VPN va 2)) = true /\
    PTE_TO_PA (load64 (mem st) (root + 8 * VA_TO_VPN va 2)) = t1 /\
    pte_valid (load64 (mem st) (t1 + 8 * VA_TO_VPN va 1)) = true /\
    PTE_TO_PA (load64 (mem st) (t1 + 8 * VA_TO_VPN va 1)) = t0 /\
    lookup st root va = t0 + 8 * VA_TO_VPN va 0.
Proof.
  intros st root N1 N0 KL va (_ & (Hc1 & Hc0) & _ & _) Hl.
  unfold lookup in *. cbv zeta in *.
  destruct (pte_valid (load64 (mem st) (root + 8 * VA_TO_VPN va 2))) eqn:H2; [|congruence].
  pose proof (Hc1 _ (VPN_range va 2) H2) as Hin1.
  destruct (pte_valid (load64 (mem st)
              (PTE_TO_PA (load64 (mem st) (root + 8 * VA_TO_VPN va 2)) + 8 * VA_TO_VPN va 1)))
    eqn:H1; [|congruence].
  pose proof (Hc0 _ _ Hin1 (VPN_range va 1) H1) as Hin0.
  eexists _, _. repeat (split; [eassumption || reflexivity|]). reflexivity.
Qed.

(** The walk facts of a mapped page, as [lookup] sees them. *)
Lemma lookup_of_walk : forall st root va t1 t0,
  pte_valid (load64 (mem st) (root + 8 * VA_TO_VPN va 2)) = true ->
  PTE_TO_PA (load64 (mem st) (root + 8 * VA_TO_VPN va 2)) = t1 ->
  pte_valid (load64 (mem st) (t1 + 8 * VA_TO_VPN va 1)) = true ->
  PTE_TO_PA (load64 (mem st) (t1 + 8 * VA_TO_VPN va 1)) = t0 ->
  lookup st root va = t0 + 8 * VA_TO_VPN va 0.
Proof.
  intros st root va t1 t0 H2 P2 H1 P1. unfold lookup. cbv zeta.
  rewrite H2, P2, H1, P1. reflexivity.
Qed.

Variables (st0 : state) (old new : Z) (P0 UL0 : list Z).
Hypothesis HP0nd : NoDup P0.
Hypothesis HP0good : Forall good_frame P0.
Hypothesis Hold : old mod PGSIZE = 0.

(** The source tree and its data frames lie off [P0]: they read the
    same as when the duplication started. *)
Lemma src_same : forall st va,
  (forall x, off_frames P0 x -> mem st x = mem st0 x) ->
  (forall s, In s (src_frames st0 old va) -> ~ In s P0) ->
  lookup st old va = lookup st0 old va /\
  (lookup st0 old va <> 0 ->
   load64 (mem st) (lookup st0 old va) = load64 (mem st0) (lookup st0 old va) /\
   ~ In (PTE_TO_PA (load64 (mem st0) (lookup st0 old va))) P0 /\
   forall off, 0 <= off < PGSIZE ->
     mem st (PTE_TO_PA (load64 (mem st0) (lookup st0 old va)) + off)
     = mem st0 (PTE_TO_PA (load64 (mem st0) (lookup st0 old va)) + off)).
Proof.
  intros st va Hoff Hsrc.
  assert (Hfr : forall g, g mod PGSIZE = 0 -> ~ In g P0 ->
                forall x, g <= x < g + PGSIZE -> mem st x = mem st0 x).
  { intros g Ag Hg x Hx. apply Hoff. apply (frame_off_al P0 g); assumption. }
  unfold src_frames in Hsrc. cbv zeta in Hsrc.
  set (e2 := load64 (mem st0) (old + 8 * VA_TO_VPN va 2)) in *.
  set (e1 := load64 (mem st0) (PTE_TO_PA e2 + 8 * VA_TO_VPN va 1)) in *.
  set (e0 := load64 (mem st0) (PTE_TO_PA e1 + 8 * VA_TO_VPN va 0)) in *.
  assert (E2 : load64 (mem st) (old + 8 * VA_TO_VPN va 2) = e2).
  { apply load64_frame; [apply VPN_range|].
    apply Hfr; [exact Hold|]. apply Hsrc. left; reflexivity. }
  assert (E1 : load64 (mem st) (PTE_TO_PA e2 + 8 * VA_TO_VPN va 1) = e1).
  { apply load64_frame; [apply VPN_range|].
    apply Hfr; [apply PTE_TO_PA_aligned|]. apply Hsrc. right; left; reflexivity. }
  assert (E0 : load64 (mem st) (PTE_TO_PA e1 + 8 * VA_TO_VPN va 0) = e0).
  { apply load64_frame; [apply VPN_range|].
    apply Hfr; [apply PTE_TO_PA_aligned|]. apply Hsrc. right; right; left; reflexivity. }
  unfold lookup. cbv zeta. rewrite E2. fold e2.
  destruct (pte_valid e2); [|split; [reflexivity|congruence]].
  rewrite E1. fold e1.
  destruct (pte_valid e1); [|split; [reflexivity|congruence]].
  split; [reflexivity|]. intros _. rewrite E0. fold e0.
  split; [reflexivity|].
  assert (Hpa : ~ In (PTE_TO_PA e0) P0).
  { apply Hsrc. right; right; right; left; reflexivity. }
  split; [exact Hpa|].
  intros off Ho. apply (Hfr (PTE_TO_PA e0)); [apply PTE_TO_PA_aligned|exact Hpa|lia].
Qed.

Lemma sc_map_ok_range : forall st root va pa perm st',
  vm_mappages st root va pa PGSIZE perm = Ok st' ->
  wrap64 (va + PGSIZE) <= VA_MAX.
Proof.
  intros st root va pa perm st' H. unfold vm_mappages in H.
  change (PGSIZE <=? 0) with false in H. cbv iota in H.
  destruct (negb (va mod PGSIZE =? 0) || negb (pa mod PGSIZE =? 0)); [discriminate|].
  destruct (VA_MAX <? wrap64 (va + PGSIZE)) eqn:E; [discriminate|].
  apply Z.ltb_ge in E. exact E.
Qed.

(** One page of [copy_range]. *)
Lemma copy_page_step : forall n st N1 N0 KL UL C done va e st',
  dup_inv st0 old new P0 UL0 st N1 N0 KL UL C done ->
  0 <= va < 2 ^ 64 ->
  (forall s, In s (src_frames st0 old va) -> ~ In s P0) ->
  (va <? e) = true ->
  copy_range_loop (S n) st old new va e = Ok st' ->
  exists st4 N1' N0' KL' UL' u,
    dup_inv st0 old new P0 UL0 st4 N1' N0' KL' UL' (u :: C) (va :: done) /\
    wrap64 (va + PGSIZE) <= VA_MAX /\
    copy_range_loop n st4 old new (wrap64 (va + PGSIZE)) e = Ok st'.
Proof.
  intros n st N1 N0 KL UL C done va e st' Hinv Hva Hsrc Hlt H.
  destruct Hinv as (Ht & Hu & Hperm & HiU & HiC & Hoff & Hdone).
  cbn [copy_range_loop] in H. rewrite Hlt in H. cbn [negb] in H.
  rewrite sc_getpte_noalloc in H. cbn [bind] in H.
  destruct (src_same st va Hoff Hsrc) as (El & Hs).
  rewrite El in H.
  destruct (lookup st0 old va =? 0) eqn:Hz; cbn [negb assert bind] in H; [discriminate|].
  apply Z.eqb_neq in Hz. destruct (Hs Hz) as (Esrc & Hpa & Hbytes). clear Hs.
  rewrite Esrc in H.
  set (src := load64 (mem st0) (lookup st0 old va)) in *.
  destruct (pte_valid src) eqn:Hval; cbn [assert bind] in H; [|discriminate].
  destruct (pmem_alloc st false) as [[st2 u]|?|] eqn:Hal; cbn [bind] in H; try discriminate.
  destruct (sc_alloc_inv st false UL st2 u Hu Hal) as (UL' & EUL & Hgu & Em2 & Hu2 & Hk2).
  cbn [negb region] in Hk2, Hu2. subst UL.
  pose proof Hgu as (Hunz & Ru & Au).
  destruct (u =? 0) eqn:Euz; [apply Z.eqb_eq in Euz; contradiction|].
  cbn [negb assert bind] in H.
  set (st3 := set_mem st2 (memmove (mem st2) u (PTE_TO_PA src) PGSIZE)) in *.
  destruct (vm_mappages st3 new va u PGSIZE (PTE_FLAGS src)) as [st4|?|] eqn:Hmap;
    cbn [bind] in H; try discriminate.
  (* the frames *)
  assert (HLnd : NoDup ((new :: N1 ++ N0 ++ KL) ++ (u :: UL') ++ C)).
  { apply (Permutation_NoDup (Permutation_sym Hperm)). exact HP0nd. }
  assert (HLgood : forall g, In g ((new :: N1 ++ N0 ++ KL) ++ (u :: UL') ++ C) -> good_frame g).
  { intros g Hg. rewrite Forall_forall in HP0good. apply HP0good.
    apply (Permutation_in g Hperm Hg). }
  destruct (NoDup_app_inv _ _ HLnd) as (HndT & HndU & HdT).
  assert (HuT : ~ In u (new :: N1 ++ N0 ++ KL)).
  { intros Hin. apply (HdT u Hin). left; reflexivity. }
  assert (HndU2 : NoDup (u :: UL' ++ C)) by exact HndU.
  assert (HuR : ~ In u (UL' ++ C)) by (inversion HndU2; assumption).
  assert (HuP0 : In u P0).
  { apply (Permutation_in u Hperm). apply in_or_app. right. left; reflexivity. }
  assert (HRT : forall g, In g (UL' ++ C) -> ~ In g (new :: N1 ++ N0 ++ KL)).
  { intros g Hg Hin. apply (HdT g Hin). right. exact Hg. }
  assert (HgT : Forall good_frame (new :: N1 ++ N0 ++ KL)).
  { apply Forall_forall. intros g Hg. apply HLgood. apply in_or_app. left; exact Hg. }
  assert (HgR : forall g, In g (UL' ++ C) -> good_frame g).
  { intros g Hg. apply HLgood. apply in_or_app. right. right. exact Hg. }
  (* memory of [st3]: only the frame [u] differs from [st] *)
  assert (Hoff3 : forall x, x < u \/ u + PGSIZE <= x -> mem st3 x = mem st x).
  { intros x Hx. unfold st3. cbn [set_mem mem]. rewrite memmove_other by exact Hx.
    rewrite Em2. apply memset_other. exact Hx. }
  assert (Hfr3 : forall g, good_frame g -> g <> u ->
                 forall x, g <= x < g + PGSIZE -> mem st3 x = mem st x).
  { intros g Hg Hne x Hx. apply Hoff3.
    destruct (good_frame_apart g u Hg Hgu Hne); lia. }
  assert (Ht3 : tree_inv st3 new N1 N0 KL).
  { apply (tree_inv_ext st); [exact Ht|exact Hk2|].
    intros g x Hg Hx. apply (Hfr3 g); [|intros ->; exact (HuT Hg)|exact Hx].
    rewrite Forall_forall in HgT. apply HgT. exact Hg. }
  destruct (sc_map_page new st3 N1 N0 KL va u (PTE_FLAGS src) st4 Ht3 Hva Hmap)
    as (N1' & N0' & KL' & t1 & t0 & Hg4 & Hin1 & Hin0 & Hv2 & Hp2 & Hv1 & Hp1 & Eleaf).
  destruct Hg4 as (Ht4 & Hp4 & Hi1 & Hi0 & Hu4 & Hoff4 & Hkeep4).
  (* memory of [st4] off the tree and the kernel free list *)
  assert (Hfr4 : forall g, good_frame g -> ~ In g (new :: N1 ++ N0 ++ KL) ->
                 forall x, g <= x < g + PGSIZE -> mem st4 x = mem st3 x).
  { intros g Hg Hn x Hx. apply Hoff4. apply (frame_off _ g); assumption. }
  exists st4, N1', N0', KL', UL', u.
  split; [|split; [exact (sc_map_ok_range _ _ _ _ _ _ Hmap)|exact H]].
  split; [exact Ht4|].
  split.
  { rewrite Hu4. unfold st3. cbn [set_mem user_region].
    apply (region_inv_ext (mem st2)); [exact Hu2|].
    intros g x Hg Hx.
    assert (HgRC : In g (UL' ++ C)) by (apply in_or_app; left; exact Hg).
    rewrite (Hfr4 g (HgR g HgRC) (HRT g HgRC) x Hx).
    unfold st3. cbn [set_mem mem]. apply memmove_other.
    assert (Hne : g <> u) by (intros ->; exact (HuR HgRC)).
    destruct (good_frame_apart g u (HgR g HgRC) Hgu Hne); lia. }
  split.
  { apply (Permutation_trans (l' := (new :: N1 ++ N0 ++ KL) ++ (u :: UL') ++ C)); [|exact Hperm].
    apply Permutation_app.
    - constructor. exact Hp4.
    - apply Permutation_sym. apply Permutation_middle. }
  split; [intros g Hg; apply HiU; right; exact Hg|].
  split; [intros g [<-|Hg]; [apply HiU; left; reflexivity|apply HiC; exact Hg]|].
  split.
  { intros x Hx. rewrite Hoff4.
    - rewrite Hoff3; [apply Hoff; exact Hx|]. apply Hx. exact HuP0.
    - intros g Hg. apply Hx. apply (Permutation_in g Hperm). apply in_or_app. left; exact Hg. }
  (* the pages *)
  intros va' [<-|Hva'].
  - assert (El4 : lookup st4 new va = t0 + 8 * VA_TO_VPN va 0)
      by (apply (lookup_of_walk st4 new va t1 t0); assumption).
    destruct (copy_pte_facts u src Ru Au Hval) as (Lv & Lp & Lf).
    unfold copied_at. cbv zeta. fold src. rewrite El4, Eleaf, Lp.
    split; [exact Hz|]. split; [exact Hval|].
    split.
    { destruct Ht4 as (_ & _ & _ & Hg4). rewrite Forall_forall in Hg4.
      assert (G0 : good_frame t0) by (apply Hg4; apply in_tabs_cases; tauto).
      destruct G0 as (Hnz0 & R0 & _). pose proof (VPN_range va 0). lia. }
    split; [exact Lv|]. split; [exact Lf|]. split; [left; reflexivity|].
    intros off Ho.
    rewrite (Hfr4 u Hgu HuT) by lia.
    unfold st3. cbn [set_mem mem]. rewrite memmove_in by lia.
    replace (u + off - u) with off by lia.
    rewrite Em2. rewrite memset_other; [apply Hbytes; exact Ho|].
    assert (Hne : PTE_TO_PA src <> u) by (intros E; apply Hpa; rewrite E; exact HuP0).
    destruct (aligned_apart (PTE_TO_PA src) u (PTE_TO_PA_aligned src) Au Hne); lia.
  - destruct (Hdone va' Hva') as (Hz' & Hval' & Hl' & Hvd & Hfl & HinC & Hby).
    destruct (lookup_tables st new N1 N0 KL va' Ht Hl')
      as (t1' & t0' & Hin1' & Hin0' & Hv2' & Hp2' & Hv1' & Hp1' & El').
    rewrite El' in Hvd, Hfl, HinC, Hby.
    (* the three entries of the walk are the same in [st4] *)
    assert (Hsame : forall t j, In t (new :: N1 ++ N0) -> 0 <= j < 512 ->
              pte_valid (load64 (mem st) (t + 8 * j)) = true ->
              load64 (mem st4) (t + 8 * j) = load64 (mem st) (t + 8 * j)).
    { intros t j Hin Hj Hvv.
      assert (E3 : load64 (mem st3) (t + 8 * j) = load64 (mem st) (t + 8 * j)).
      { apply load64_frame; [exact Hj|]. apply Hfr3.
        - rewrite Forall_forall in HgT. apply HgT.
          apply in_tree_cases. apply in_tabs_cases in Hin. tauto.
        - intros ->. apply HuT. apply in_tree_cases. apply in_tabs_cases in Hin. tauto. }
      rewrite (Hkeep4 t j Hin Hj); [exact E3|rewrite E3; exact Hvv]. }
    assert (E2 : load64 (mem st4) (new + 8 * VA_TO_VPN va' 2)
                 = load64 (mem st) (new + 8 * VA_TO_VPN va' 2)).
    { apply Hsame; [left; reflexivity|apply VPN_range|exact Hv2']. }
    assert (E1 : load64 (mem st4) (t1' + 8 * VA_TO_VPN va' 1)
                 = load64 (mem st) (t1' + 8 * VA_TO_VPN va' 1)).
    { apply Hsame; [apply in_tabs_cases; tauto|apply VPN_range|exact Hv1']. }
    assert (E0 : load64 (mem st4) (t0' + 8 * VA_TO_VPN va' 0)
                 = load64 (mem st) (t0' + 8 * VA_TO_VPN va' 0)).
    { apply Hsame; [apply in_tabs_cases; tauto|apply VPN_range|exact Hvd]. }
    assert (El4 : lookup st4 new va' = t0' + 8 * VA_TO_VPN va' 0).
    { apply (lookup_of_walk st4 new va' t1' t0'); rewrite ?E2, ?E1; congruence. }
    unfold copied_at. cbv zeta. rewrite El4, E0.
    split; [exact Hz'|]. split; [exact Hval'|].
    split; [rewrite <- El'; exact Hl'|].
    split; [exact Hvd|]. split; [exact Hfl|]. split; [right; exact HinC|].
    intros off Ho. rewrite <- (Hby off Ho).
    set (c := PTE_TO_PA (load64 (mem st) (t0' + 8 * VA_TO_VPN va' 0))) in *.
    assert (HcR : In c (UL' ++ C)) by (apply in_or_app; right; exact HinC).
    rewrite (Hfr4 c (HgR c HcR) (HRT c HcR)) by lia.
    apply (Hfr3 c (HgR c HcR)); [intros E; apply HuR; rewrite <- E; exact HcR|lia].
Qed.


Lemma dup_inv_done : forall st N1 N0 KL UL C done done',
  incl done' done ->
  dup_inv st0 old new P0 UL0 st N1 N0 KL UL C done ->
  dup_inv st0 old new P0 UL0 st N1 N0 KL UL C done'.
Proof.
  intros st N1 N0 KL UL C done done' Hi (H1 & H2 & H3 & H4 & H5 & H6 & H7).
  repeat (split; [assumption|]). intros va Hva. apply H7. apply Hi. exact Hva.
Qed.

Lemma multiple_step : forall b va v,
  (va - b) mod PGSIZE = 0 -> (v - b) mod PGSIZE = 0 -> va <= v ->
  v = va \/ va + PGSIZE <= v.
Proof.
  intros b va v H1 H2 Hle. unfold PGSIZE in *.
  pose proof (Z.div_mod (va - b) 4096). pose proof (Z.div_mod (v - b) 4096). lia.
Qed.

(** The loop of [copy_range] from the page [va] of the extent from [b]
    to [e]: the pages of the extent from [va] on get their duplicates. *)
Lemma copy_range_loop_inv : forall n st N1 N0 KL UL C done va b e st',
  dup_inv st0 old new P0 UL0 st N1 N0 KL UL C done ->
  0 <= b <= va -> (va - b) mod PGSIZE = 0 -> (va < e -> va <= VA_MAX) ->
  (forall v, in_range b e v -> forall s, In s (src_frames st0 old v) -> ~ In s P0) ->
  copy_range_loop n st old new va e = Ok st' ->
  exists N1' N0' KL' UL' C' done',
    dup_inv st0 old new P0 UL0 st' N1' N0' KL' UL' C' done' /\
    incl done done' /\
    (forall v, in_range b e v -> va <= v -> v < va + PGSIZE * Z.of_nat n -> In v done').
Proof.
  induction n as [|n IH]; intros st N1 N0 KL UL C done va b e st' Hinv Hb Hmod Hmax Hsrc H.
  - cbn [copy_range_loop] in H. injection H as <-.
    exists N1, N0, KL, UL, C, done.
    split; [exact Hinv|]. split; [apply incl_refl|]. intros v _ H1 H2. lia.
  - destruct (va <? e) eqn:Hlt.
    + pose proof Hlt as Hlt'. apply Z.ltb_lt in Hlt'.
      pose proof (Hmax Hlt') as Hva.
      assert (Hr : in_range b e va) by (split; [lia|exact Hmod]).
      assert (Hva64 : 0 <= va < 2 ^ 64) by (unfold VA_MAX in Hva; lia).
      destruct (copy_page_step n st N1 N0 KL UL C done va e st' Hinv Hva64 (Hsrc va Hr) Hlt H)
        as (st4 & N1a & N0a & KLa & ULa & u & Hinv4 & Hnext & Hloop).
      rewrite wrap64_small in Hnext, Hloop by (unfold VA_MAX, PGSIZE in *; lia).
      assert (Hmod' : (va + PGSIZE - b) mod PGSIZE = 0).
      { replace (va + PGSIZE - b) with (va - b + 1 * PGSIZE) by lia.
        rewrite Z.mod_add by (unfold PGSIZE; lia). exact Hmod. }
      destruct (IH st4 N1a N0a KLa ULa (u :: C) (va :: done) (va + PGSIZE) b e st' Hinv4
                  ltac:(unfold PGSIZE; lia) Hmod' ltac:(intros _; exact Hnext) Hsrc Hloop)
        as (N1' & N0' & KL' & UL' & C' & done' & Hinv' & Hincl & Hcov).
      exists N1', N0', KL', UL', C', done'.
      split; [exact Hinv'|].
      split; [intros x Hx; apply Hincl; right; exact Hx|].
      intros v Hv Hle Hlt2.
      destruct (multiple_step b va v Hmod (proj2 Hv) Hle) as [->|Hge].
      * apply Hincl. left; reflexivity.
      * apply Hcov; [exact Hv|exact Hge|]. lia.
    + cbn [copy_range_loop] in H. rewrite Hlt in H. cbn [negb] in H. injection H as <-.
      exists N1, N0, KL, UL, C, done.
      split; [exact Hinv|]. split; [apply incl_refl|].
      intros v (Hv & _) Hle _. apply Z.ltb_ge in Hlt. lia.
Qed.

(** [copy_range] on an extent: every page of it gets its duplicate. *)
Lemma copy_range_inv : forall st N1 N0 KL UL C done b e st',
  dup_inv st0 old new P0 UL0 st N1 N0 KL UL C done ->
  0 <= b -> (b < e -> b <= VA_MAX) ->
  (forall v, in_range b e v -> forall s, In s (src_frames st0 old v) -> ~ In s P0) ->
  copy_range st old new b e = Ok st' ->
  exists N1' N0' KL' UL' C' done',
    dup_inv st0 old new P0 UL0 st' N1' N0' KL' UL' C' done' /\
    incl done done' /\
    (forall v, in_range b e v -> In v done').
Proof.
  intros st N1 N0 KL UL C done b e st' Hinv Hb Hmax Hsrc H.
  unfold copy_range in H.
  destruct (copy_range_loop_inv _ st N1 N0 KL UL C done b b e st' Hinv
              ltac:(lia) ltac:(rewrite Z.sub_diag; reflexivity) Hmax Hsrc H)
    as (N1' & N0' & KL' & UL' & C' & done' & Hinv' & Hincl & Hcov).
  exists N1', N0', KL', UL', C', done'.
  split; [exact Hinv'|]. split; [exact Hincl|].
  intros v Hv. apply Hcov; [exact Hv|destruct Hv; lia|].
  destruct Hv as ((Hv1 & Hv2) & _).
  pose proof (frames_between_bound b e ltac:(lia)). lia.
Qed.

(** The loop over the memory-mapped regions. *)
Lemma copy_mmap_inv : forall mmap st N1 N0 KL UL C done heap_top st',
  dup_inv st0 old new P0 UL0 st N1 N0 KL UL C done ->
  Forall (fun r => 0 <= mmap_begin r) mmap ->
  (forall r v, In r mmap ->
     in_range (mmap_begin r) (wrap64 (mmap_begin r + wrap32 (npages r * PGSIZE))) v ->
     forall s, In s (src_frames st0 old v) -> ~ In s P0) ->
  copy_mmap_loop st old new heap_top mmap = Ok st' ->
  exists N1' N0' KL' UL' C' done',
    dup_inv st0 old new P0 UL0 st' N1' N0' KL' UL' C' done' /\
    incl done done' /\
    (forall r v, In r mmap ->
       in_range (mmap_begin r) (wrap64 (mmap_begin r + wrap32 (npages r * PGSIZE))) v ->
       In v done').
Proof.
  induction mmap as [|r rest IH]; intros st N1 N0 KL UL C done heap_top st' Hinv Hrng Hsrc H.
  - cbn [copy_mmap_loop] in H. injection H as <-.
    exists N1, N0, KL, UL, C, done.
    split; [exact Hinv|]. split; [apply incl_refl|]. intros r v [].
  - cbn [copy_mmap_loop] in H. cbv zeta in H.
    set (e := wrap64 (mmap_begin r + wrap32 (npages r * PGSIZE))) in *.
    destruct ((heap_top <=? mmap_begin r) && (e <? TRAPFRAME)) eqn:Hc;
      cbn [assert bind] in H; [|discriminate].
    apply andb_prop in Hc. destruct Hc as (_ & Hc). apply Z.ltb_lt in Hc.
    destruct (copy_range st old new (mmap_begin r) e) as [st1|?|] eqn:Hcr;
      cbn [bind] in H; try discriminate.
    inversion Hrng as [|? ? Hr0 Hrest]; subst.
    destruct (copy_range_inv st N1 N0 KL UL C done (mmap_begin r) e st1 Hinv Hr0
                ltac:(unfold TRAPFRAME, TRAMPOLINE, VA_MAX, PGSIZE in *; lia)
                (fun v Hv => Hsrc r v (or_introl eq_refl) Hv) Hcr)
      as (N1a & N0a & KLa & ULa & Ca & donea & Hinva & Hincla & Hcova).
    destruct (IH st1 N1a N0a KLa ULa Ca donea heap_top st' Hinva Hrest
                (fun r' v Hr' Hv => Hsrc r' v (or_intror Hr') Hv) H)
      as (N1' & N0' & KL' & UL' & C' & done' & Hinv' & Hincl & Hcov).
    exists N1', N0', KL', UL', C', done'.
    split; [exact Hinv'|].
    split; [exact (incl_tran Hincla Hincl)|].
    intros r' v [<-|Hr'] Hv.
    + apply Hincl. apply Hcova. exact Hv.
    + exact (Hcov r' v Hr' Hv).
Qed.

(** [uvm_copy_pgtbl]: every page of its extents gets its duplicate. *)
Lemma uvm_copy_inv : forall st N1 N0 KL UL C heap_top ustack_pages mmap st',
  dup_inv st0 old new P0 UL0 st N1 N0 KL UL C [] ->
  Forall (fun r => 0 <= mmap_begin r) mmap ->
  (forall v, in_extents heap_top ustack_pages mmap v ->
     forall s, In s (src_frames st0 old v) -> ~ In s P0) ->
  uvm_copy_pgtbl st old new heap_top ustack_pages mmap = Ok st' ->
  exists N1' N0' KL' UL' C' done',
    dup_inv st0 old new P0 UL0 st' N1' N0' KL' UL' C' done' /\
    (forall v, in_extents heap_top ustack_pages mmap v -> In v done').
Proof.
  intros st N1 N0 KL UL C heap_top ustack_pages mmap st' Hinv Hrng Hsrc H.
  unfold uvm_copy_pgtbl in H.
  destruct (negb (old =? 0) && negb (new =? 0)); cbn [assert bind] in H; [|discriminate].
  destruct (heap_top mod PGSIZE =? 0); cbn [assert bind] in H; [|discriminate].
  cbv zeta in H.
  set (bottom := wrap64 (TRAPFRAME - PGSIZE - wrap32 (ustack_pages * PGSIZE))) in *.
  (* the heap *)
  assert (H1 : exists st1 N1a N0a KLa ULa Ca donea,
            dup_inv st0 old new P0 UL0 st1 N1a N0a KLa ULa Ca donea /\
            (forall v, in_range PGSIZE heap_top v -> In v donea) /\
            (st2 <- (if (0 <? ustack_pages) && (bottom <? TRAPFRAME - PGSIZE)
                     then copy_range st1 old new bottom (TRAPFRAME - PGSIZE)
                     else Ok st1) ;;
             copy_mmap_loop st2 old new heap_top mmap) = Ok st').
  { destruct (PGSIZE <? heap_top) eqn:Hh.
    - destruct (copy_range st old new PGSIZE heap_top) as [st1|?|] eqn:Hcr;
        cbn [bind] in H; try discriminate.
      destruct (copy_range_inv st N1 N0 KL UL C [] PGSIZE heap_top st1 Hinv
                  ltac:(unfold PGSIZE; lia) ltac:(unfold VA_MAX, PGSIZE; lia)
                  (fun v Hv => Hsrc v (or_introl Hv)) Hcr)
        as (N1a & N0a & KLa & ULa & Ca & donea & Hinva & _ & Hcova).
      exists st1, N1a, N0a, KLa, ULa, Ca, donea.
      split; [exact Hinva|]. split; [exact Hcova|exact H].
    - cbn [bind] in H. exists st, N1, N0, KL, UL, C, [].
      split; [exact Hinv|]. split; [|exact H].
      intros v ((Hv1 & Hv2) & _). apply Z.ltb_ge in Hh. lia. }
  destruct H1 as (st1 & N1a & N0a & KLa & ULa & Ca & donea & Hinva & Hcova & H1).
  clear H.
  (* the stack *)
  assert (H2 : exists st2 N1b N0b KLb ULb Cb doneb,
            dup_inv st0 old new P0 UL0 st2 N1b N0b KLb ULb Cb doneb /\
            incl donea doneb /\
            (0 < ustack_pages -> forall v, in_range bottom (TRAPFRAME - PGSIZE) v -> In v doneb) /\
            copy_mmap_loop st2 old new heap_top mmap = Ok st').
  { destruct ((0 <? ustack_pages) && (bottom <? TRAPFRAME - PGSIZE)) eqn:Hs.
    - destruct (copy_range st1 old new bottom (TRAPFRAME - PGSIZE)) as [st2|?|] eqn:Hcr;
        cbn [bind] in H1; try discriminate.
      apply andb_prop in Hs. destruct Hs as (Hs1 & Hs2).
      apply Z.ltb_lt in Hs1. apply Z.ltb_lt in Hs2.
      assert (Hb0 : 0 <= bottom).
      { unfold bottom, wrap64. apply Z.mod_pos_bound. lia. }
      destruct (copy_range_inv st1 N1a N0a KLa ULa Ca donea bottom (TRAPFRAME - PGSIZE) st2 Hinva
                  Hb0 ltac:(unfold TRAPFRAME, TRAMPOLINE, VA_MAX, PGSIZE in *; lia)
                  (fun v Hv => Hsrc v (or_intror (or_introl (conj Hs1 Hv)))) Hcr)
        as (N1b & N0b & KLb & ULb & Cb & doneb & Hinvb & Hinclb & Hcovb).
      exists st2, N1b, N0b, KLb, ULb, Cb, doneb.
      split; [exact Hinvb|]. split; [exact Hinclb|]. split; [intros _; exact Hcovb|exact H1].
    - cbn [bind] in H1. exists st1, N1a, N0a, KLa, ULa, Ca, donea.
      split; [exact Hinva|]. split; [apply incl_refl|]. split; [|exact H1].
      intros Hpos v ((Hv1 & Hv2) & _).
      apply andb_false_iff in Hs. destruct Hs as [Hs|Hs].
      + apply Z.ltb_ge in Hs. lia.
      + apply Z.ltb_ge in Hs. lia. }
  destruct H2 as (st2 & N1b & N0b & KLb & ULb & Cb & doneb & Hinvb & Hinclb & Hcovb & H2).
  (* the memory-mapped regions *)
  destruct (copy_mmap_inv mmap st2 N1b N0b KLb ULb Cb doneb heap_top st' Hinvb Hrng
              (fun r v Hr Hv => Hsrc v (or_intror (or_intror (ex_intro _ r (conj Hr Hv))))) H2)
    as (N1' & N0' & KL' & UL' & C' & done' & Hinv' & Hincl & Hcov).
  exists N1', N0', KL', UL', C', done'.
  split; [exact Hinv'|].
  intros v [Hv|[(Hpos & Hv)|(r & Hr & Hv)]].
  - apply Hincl. apply Hinclb. apply Hcova. exact Hv.
  - apply Hincl. apply (Hcovb Hpos). exact Hv.
  - exact (Hcov r v Hr Hv).
Qed.

End syscall_dup.

(** ** Soundness of the boolean versions *)

Lemma flistb_sound : forall l m h, flistb m h l = true -> flist m h l.
Proof.
  induction l as [|f l IH]; intros m h H; cbn [flistb flist] in *.
  - apply Z.eqb_eq. exact H.
  - apply andb_prop in H. destruct H as (H & H3).
    apply andb_prop in H. destruct H as (H1 & H2).
    apply Z.eqb_eq in H1. apply negb_true_iff in H2. apply Z.eqb_neq in H2.
    split; [exact H1|]. split; [exact H2|]. apply IH. exact H3.
Qed.

Lemma frame_inb_sound : forall b e f, frame_inb b e f = true -> frame_in b e f.
Proof.
  intros b e f H. unfold frame_inb in H.
  apply andb_prop in H. destruct H as (H & H3).
  apply andb_prop in H. destruct H as (H1 & H2).
  apply is_frameb_true in H1. destruct H1 as (R & A).
  apply Z.leb_le in H2. apply Z.ltb_lt in H3.
  split; [exact R|]. split; [exact A|]. lia.
Qed.

Lemma good_frameb_sound : forall f, good_frameb f = true -> good_frame f.
Proof.
  intros f H. unfold good_frameb in H.
  apply andb_prop in H. destruct H as (H1 & H2).
  apply negb_true_iff in H1. apply Z.eqb_neq in H1.
  apply is_frameb_true in H2. destruct H2 as (R & A).
  split; [exact H1|]. split; assumption.
Qed.

Lemma forallb_Forall : forall (P : Z -> Prop) (p : Z -> bool) l,
  (forall x, p x = true -> P x) -> forallb p l = true -> Forall P l.
Proof.
  intros P p l Hp H. apply Forall_forall. intros x Hx.
  apply Hp. rewrite forallb_forall in H. apply H. exact Hx.
Qed.

Lemma existsb_eqb_In : forall x l, existsb (Z.eqb x) l = true -> In x l.
Proof.
  intros x l H. apply existsb_exists in H. destruct H as (y & Hy & E).
  apply Z.eqb_eq in E. subst y. exact Hy.
Qed.

Lemma existsb_eqb_notin : forall x l, existsb (Z.eqb x) l = false -> ~ In x l.
Proof.
  intros x l H Hin.
  assert (E : existsb (Z.eqb x) l = true).
  { apply existsb_exists. exists x. split; [exact Hin|apply Z.eqb_refl]. }
  congruence.
Qed.

Lemma entries_inb_sound : forall m t N i,
  entries_inb m t N = true -> 0 <= i < 512 ->
  pte_valid (load64 m (t + 8 * i)) = true ->
  In (PTE_TO_PA (load64 m (t + 8 * i))) N.
Proof.
  intros m t N i H Hi Hv. unfold entries_inb in H.
  pose proof (range_check _ 512 H i Hi) as Hc. cbv beta in Hc.
  rewrite Hv in Hc. cbn [implb] in Hc. apply existsb_eqb_In. exact Hc.
Qed.

Lemma tables_closedb_sound : forall m root N1 N0,
  tables_closedb m root N1 N0 = true -> tables_closed m root N1 N0.
Proof.
  intros m root N1 N0 H. unfold tables_closedb in H.
  apply andb_prop in H. destruct H as (H1 & H0).
  split.
  - intros i Hi Hv. exact (entries_inb_sound m root N1 i H1 Hi Hv).
  - intros t i Ht Hi Hv. rewrite forallb_forall in H0.
    exact (entries_inb_sound m t N0 i (H0 t Ht) Hi Hv).
Qed.

Lemma region_invb_sound : forall m r fl,
  Syscall.region_invb m r fl = true -> Syscall.region_inv m r fl.
Proof.
  intros m r fl H. unfold Syscall.region_invb in H.
  apply andb_prop in H. destruct H as (H & H5).
  apply andb_prop in H. destruct H as (H & H4).
  apply andb_prop in H. destruct H as (H & H3).
  apply andb_prop in H. destruct H as (H1 & H2).
  split; [apply flistb_sound; exact H1|].
  split; [apply Z.eqb_eq; exact H2|].
  split; [apply Z.ltb_lt; exact H3|].
  split; [apply distinctb_NoDup; exact H4|].
  apply (forallb_Forall _ _ _ (frame_inb_sound _ _) H5).
Qed.

Lemma tree_invb_sound : forall st root N1 N0 KL,
  Syscall.tree_invb st root N1 N0 KL = true -> Syscall.tree_inv st root N1 N0 KL.
Proof.
  intros st root N1 N0 KL H. unfold Syscall.tree_invb in H.
  apply andb_prop in H. destruct H as (H & H4).
  apply andb_prop in H. destruct H as (H & H3).
  apply andb_prop in H. destruct H as (H1 & H2).
  split; [apply region_invb_sound; exact H1|].
  split; [apply tables_closedb_sound; exact H2|].
  split; [apply distinctb_NoDup; exact H3|].
  apply (forallb_Forall _ _ _ good_frameb_sound H4).
Qed.

(** X1 (系统调用, [uvm_copy_pgtbl] with [copy_range]): when the
    destination tree and the two free lists are in order, made of
    distinct frames, and none of them is a frame the source tree uses
    for the extents, a call that completes leaves, for every page of
    the heap, the stack and the memory-mapped regions, a valid leaf in
    the destination with the flags of the source leaf, whose frame
    comes from the user free list, is not the source frame, and holds
    the 4096 bytes the source frame held when the call started. *)
Theorem duplicate_fidelity :
  forall st old new heap_top ustack_pages mmap N1 N0 KL UL st',
  Syscall.tree_inv st new N1 N0 KL ->
  Syscall.region_inv (Syscall.mem st) (Syscall.user_region st) UL ->
  NoDup ((new :: N1 ++ N0 ++ KL) ++ UL) ->
  old mod PGSIZE = 0 ->
  Forall (fun r => 0 <= Syscall.mmap_begin r) mmap ->
  (forall va, Syscall.in_extents heap_top ustack_pages mmap va ->
     forall s, In s (Syscall.src_frames st old va) ->
     ~ In s ((new :: N1 ++ N0 ++ KL) ++ UL)) ->
  Syscall.uvm_copy_pgtbl st old new heap_top ustack_pages mmap = Ok st' ->
  forall va, Syscall.in_extents heap_top ustack_pages mmap va ->
    Syscall.page_duplicated st old st' new UL va.
Proof.
  intros st old new heap_top ustack_pages mmap N1 N0 KL UL st'
    Ht Hu Hnd Hold Hrng Hsrc H va Hva.
  set (P0 := (new :: N1 ++ N0 ++ KL) ++ UL) in *.
  assert (Hgood : Forall good_frame P0).
  { apply Forall_app. split; [exact (tree_inv_frames _ _ _ _ _ Ht)|].
    apply Forall_forall. intros f Hf. exact (region_inv_frames _ _ _ _ Hu Hf). }
  assert (Hinv : Syscall.dup_inv st old new P0 UL st N1 N0 KL UL [] []).
  { split; [exact Ht|]. split; [exact Hu|].
    split; [rewrite app_nil_r; apply Permutation_refl|].
    split; [apply incl_refl|]. split; [intros x []|].
    split; [intros; reflexivity|intros v []]. }
  destruct (uvm_copy_inv st old new P0 UL Hnd Hgood Hold st N1 N0 KL UL []
              heap_top ustack_pages mmap st' Hinv Hrng Hsrc H)
    as (N1' & N0' & KL' & UL' & C' & done' & Hinv' & Hcov).
  destruct Hinv' as (_ & _ & _ & _ & HiC & _ & Hdone).
  destruct (Hdone va (Hcov va Hva)) as (Hz & Hval & Hl & Hvd & Hfl & HinC & Hby).
  destruct (src_same st old P0 Hgood Hold st va (fun x _ => eq_refl) (Hsrc va Hva))
    as (_ & Hs).
  destruct (Hs Hz) as (_ & Hpa & _).
  split.
  - split; [exact Hz|]. split; [exact Hval|]. split; [exact Hl|].
    split; [exact Hvd|]. split; [exact Hfl|]. split; [apply HiC; exact HinC|exact Hby].
  - intros E. apply Hpa. rewrite <- E. unfold P0. apply in_or_app. right.
    apply HiC. exact HinC.
Qed.

(** An extent with a hole: the heap page 0x1000 of [small_root] is
    validly mapped and lies within the extent up to 0x3000, yet the
    duplication installs nothing for it: the page 0x2000 of the extent
    is not mapped and [copy_range] panics on it. *)
Lemma syscall_duplicate_panics_on_unmapped_page :
  Syscall.leaf_valid Syscall.dup_start Syscall.small_root 0x1000 = true /\
  Syscall.leaf_valid Syscall.dup_start Syscall.small_root 0x2000 = false /\
  Syscall.uvm_copy_pgtbl Syscall.dup_start Syscall.small_root Syscall.dup_root 0x3000 0 []
  = Panic "uvm_copy_pgtbl: pte not valid".
Proof. conj_compute. Qed.

Lemma dup_demo_extent : forall va,
  Syscall.in_extents 0x2000 0 [] va -> va = 0x1000.
Proof.
  intros va [((H1 & H2) & H3)|[(H & _)|(r & [] & _)]]; [|lia].
  unfold PGSIZE in *.
  pose proof (Z.div_mod (va - 4096) 4096). lia.
Qed.

(** X1 at the example: the heap page 0x1000 of [small_root] duplicated
    under [dup_root]. *)
Lemma duplicate_fidelity_witness :
  Syscall.tree_inv Syscall.dup_start Syscall.dup_root [] [] Syscall.dup_KL /\
  Syscall.region_inv (Syscall.mem Syscall.dup_start)
    (Syscall.user_region Syscall.dup_start) Syscall.dup_UL /\
  NoDup ((Syscall.dup_root :: [] ++ [] ++ Syscall.dup_KL) ++ Syscall.dup_UL) /\
  Syscall.small_root mod PGSIZE = 0 /\
  Forall (fun r => 0 <= Syscall.mmap_begin r) [] /\
  (forall va, Syscall.in_extents 0x2000 0 [] va ->
     forall s, In s (Syscall.src_frames Syscall.dup_start Syscall.small_root va) ->
     ~ In s ((Syscall.dup_root :: [] ++ [] ++ Syscall.dup_KL) ++ Syscall.dup_UL)) /\
  Syscall.uvm_copy_pgtbl Syscall.dup_start Syscall.small_root Syscall.dup_root 0x2000 0 []
  = Ok Syscall.dup_end /\
  Syscall.in_extents 0x2000 0 [] 0x1000 /\
  Syscall.page_duplicated Syscall.dup_start Syscall.small_root Syscall.dup_end
    Syscall.dup_root Syscall.dup_UL 0x1000.
Proof.
  assert (H1 : Syscall.tree_inv Syscall.dup_start Syscall.dup_root [] [] Syscall.dup_KL).
  { apply tree_invb_sound. vm_compute. reflexivity. }
  assert (H2 : Syscall.region_inv (Syscall.mem Syscall.dup_start)
                 (Syscall.user_region Syscall.dup_start) Syscall.dup_UL).
  { apply region_invb_sound. vm_compute. reflexivity. }
  assert (H3 : NoDup ((Syscall.dup_root :: [] ++ [] ++ Syscall.dup_KL) ++ Syscall.dup_UL)).
  { apply distinctb_NoDup. vm_compute. reflexivity. }
  assert (H4 : Syscall.small_root mod PGSIZE = 0) by (vm_compute; reflexivity).
  assert (H5 : Forall (fun r => 0 <= Syscall.mmap_begin r) []) by constructor.
  assert (H6 : forall va, Syscall.in_extents 0x2000 0 [] va ->
     forall s, In s (Syscall.src_frames Syscall.dup_start Syscall.small_root va) ->
     ~ In s ((Syscall.dup_root :: [] ++ [] ++ Syscall.dup_KL) ++ Syscall.dup_UL)).
  { intros va Hva s Hs. rewrite (dup_demo_extent va Hva) in Hs.
    apply existsb_eqb_notin.
    destruct Hs as [<-|[<-|[<-|[<-|[]]]]]; vm_compute; reflexivity. }
  assert (H7 : Syscall.uvm_copy_pgtbl Syscall.dup_start Syscall.small_root Syscall.dup_root
                 0x2000 0 [] = Ok Syscall.dup_end).
  { apply get_ok_eq. vm_compute. reflexivity. }
  assert (H8 : Syscall.in_extents 0x2000 0 [] 0x1000).
  { left. split; [unfold PGSIZE; lia|reflexivity]. }
  repeat (split; [assumption|]).
  exact (duplicate_fidelity Syscall.dup_start Syscall.small_root Syscall.dup_root 0x2000 0 []
           [] [] Syscall.dup_KL Syscall.dup_UL Syscall.dup_end H1 H2 H3 H4 H5 H6 H7 0x1000 H8).
Defined.

(** ** 系统调用: what one [vm_mappages] leaves alone *)

(** X2 (系统调用, [vm_mappages] of one page with [vm_getpte]): on a
    tree in order, a call that completes installs the leaf
    [PA_TO_PTE(pa) | perm | PTE_V] for [va]; the tree is in order
    again, with any new table taken from the kernel free list; the
    user region record and every byte off the tree and the kernel free
    list are untouched; and every page that had a valid leaf before
    keeps the same leaf. *)
Theorem syscall_map_page_keeps_mappings :
  forall root st N1 N0 KL va pa perm st',
  Syscall.tree_inv st root N1 N0 KL ->
  0 <= va < 2 ^ 64 ->
  Syscall.vm_mappages st root va pa PGSIZE perm = Ok st' ->
  Syscall.lookup st' root va <> 0 /\
  load64 (Syscall.mem st') (Syscall.lookup st' root va) = leaf_pte pa perm /\
  (exists N1' N0' KL',
     Syscall.tree_inv st' root N1' N0' KL' /\
     Permutation (N1' ++ N0' ++ KL') (N1 ++ N0 ++ KL) /\
     incl N1 N1' /\ incl N0 N0') /\
  Syscall.user_region st' = Syscall.user_region st /\
  (forall x, off_frames (root :: N1 ++ N0 ++ KL) x ->
     Syscall.mem st' x = Syscall.mem st x) /\
  (forall va', Syscall.lookup st root va' <> 0 ->
     pte_valid (load64 (Syscall.mem st) (Syscall.lookup st root va')) = true ->
     Syscall.lookup st' root va' = Syscall.lookup st root va' /\
     load64 (Syscall.mem st') (Syscall.lookup st' root va')
     = load64 (Syscall.mem st) (Syscall.lookup st root va')).
Proof.
  intros root st N1 N0 KL va pa perm st' Hinv Hva H.
  destruct (sc_map_page root st N1 N0 KL va pa perm st' Hinv Hva H)
    as (N1' & N0' & KL' & t1 & t0 & Hg & Hin1 & Hin0 & Hv2 & Hp2 & Hv1 & Hp1 & Eleaf).
  destruct Hg as (Ht' & Hp & Hi1 & Hi0 & Hu & Hoff & Hkeep).
  assert (El : Syscall.lookup st' root va = t0 + 8 * VA_TO_VPN va 0)
    by (apply (lookup_of_walk st' root va t1 t0); assumption).
  split.
  { rewrite El. destruct Ht' as (_ & _ & _ & Hg). rewrite Forall_forall in Hg.
    assert (G0 : good_frame t0) by (apply Hg; apply in_tabs_cases; tauto).
    destruct G0 as (Hnz0 & R0 & _). pose proof (VPN_range va 0). lia. }
  split; [rewrite El; exact Eleaf|].
  split; [exists N1', N0', KL'; repeat (split; [assumption|]); assumption|].
  split; [exact Hu|]. split; [exact Hoff|].
  intros va' Hl Hv.
  destruct (lookup_tables st root N1 N0 KL va' Hinv Hl)
    as (t1' & t0' & Hin1' & Hin0' & Hv2' & Hp2' & Hv1' & Hp1' & El').
  rewrite El' in Hv |- *.
  assert (E2 : load64 (Syscall.mem st') (root + 8 * VA_TO_VPN va' 2)
               = load64 (Syscall.mem st) (root + 8 * VA_TO_VPN va' 2)).
  { apply Hkeep; [left; reflexivity|apply VPN_range|exact Hv2']. }
  assert (E1 : load64 (Syscall.mem st') (t1' + 8 * VA_TO_VPN va' 1)
               = load64 (Syscall.mem st) (t1' + 8 * VA_TO_VPN va' 1)).
  { apply Hkeep; [apply in_tabs_cases; tauto|apply VPN_range|exact Hv1']. }
  assert (E0 : load64 (Syscall.mem st') (t0' + 8 * VA_TO_VPN va' 0)
               = load64 (Syscall.mem st) (t0' + 8 * VA_TO_VPN va' 0)).
  { apply Hkeep; [apply in_tabs_cases; tauto|apply VPN_range|exact Hv]. }
  assert (El4 : Syscall.lookup st' root va' = t0' + 8 * VA_TO_VPN va' 0).
  { apply (lookup_of_walk st' root va' t1' t0'); rewrite ?E2, ?E1; congruence. }
  rewrite El4. split; [reflexivity|exact E0].
Qed.

(** X2 at an example: the page 0x5000 mapped under [dup_root]. *)
Lemma syscall_map_page_keeps_mappings_witness :
  Syscall.tree_inv Syscall.dup_start Syscall.dup_root [] [] Syscall.dup_KL /\
  0 <= 0x5000 < 2 ^ 64 /\
  Syscall.vm_mappages Syscall.dup_start Syscall.dup_root 0x5000 Syscall.small_page PGSIZE PTE_R
  = Ok (get_ok (Syscall.vm_mappages Syscall.dup_start Syscall.dup_root 0x5000
                  Syscall.small_page PGSIZE PTE_R) Syscall.dup_start) /\
  Syscall.lookup (get_ok (Syscall.vm_mappages Syscall.dup_start Syscall.dup_root 0x5000
                    Syscall.small_page PGSIZE PTE_R) Syscall.dup_start)
    Syscall.dup_root 0x5000 <> 0.
Proof.
  assert (H1 : Syscall.tree_inv Syscall.dup_start Syscall.dup_root [] [] Syscall.dup_KL).
  { apply tree_invb_sound. vm_compute. reflexivity. }
  assert (H2 : 0 <= 0x5000 < 2 ^ 64) by lia.
  assert (H3 : Syscall.vm_mappages Syscall.dup_start Syscall.dup_root 0x5000
                 Syscall.small_page PGSIZE PTE_R
               = Ok (get_ok (Syscall.vm_mappages Syscall.dup_start Syscall.dup_root 0x5000
                               Syscall.small_page PGSIZE PTE_R) Syscall.dup_start)).
  { apply get_ok_eq. vm_compute. reflexivity. }
  repeat (split; [assumption|]).
  exact (proj1 (syscall_map_page_keeps_mappings Syscall.dup_root Syscall.dup_start [] []
                  Syscall.dup_KL 0x5000 Syscall.small_page PTE_R _ H1 H2 H3)).
Defined.

(** ** 系统调用: the free list is a stack *)

(** X3 (系统调用, [pmem_free] then [pmem_alloc]): the frame just freed
    is the next one allocated from that region; the region record is
    then what it was before the free, the frame is all zero and no
    other byte of memory has changed. *)
Theorem syscall_free_then_alloc :
  forall st p k st1,
  Syscall.pmem_free st p k = Ok st1 ->
  p <> 0 ->
  0 <= Syscall.allocable (Syscall.region st k) ->
  Syscall.allocable (Syscall.region st k) + 1 < 2 ^ 32 ->
  0 <= Syscall.list_head (Syscall.region st k) < 2 ^ 64 ->
  exists st2,
    Syscall.pmem_alloc st1 k = Ok (st2, p) /\
    Syscall.region st2 k = Syscall.region st k /\
    Syscall.region st2 (negb k) = Syscall.region st (negb k) /\
    (forall x, p <= x < p + PGSIZE -> Syscall.mem st2 x = 0) /\
    (forall x, x < p \/ p + PGSIZE <= x -> Syscall.mem st2 x = Syscall.mem st x).
Proof.
  intros st p k st1 Hfree Hnz Hc0 Hc1 Hh.
  destruct (sc_free_ok st p k st1 Hfree) as (Ha & Hr & Em & Er & Eo).
  assert (Hal : Syscall.pmem_alloc st1 k
                = Ok (Syscall.set_mem
                        (Syscall.set_region st1 k
                           (Syscall.mk_region (Syscall.begin (Syscall.region st k))
                              (Syscall.end_ (Syscall.region st k))
                              (wrap32 (wrap32 (Syscall.allocable (Syscall.region st k) + 1) - 1))
                              (load64 (Syscall.mem st1) p)))
                        (memset (Syscall.mem st1) p 0 PGSIZE), p)).
  { unfold Syscall.pmem_alloc. rewrite Er.
    cbn [Syscall.allocable Syscall.list_head Syscall.begin Syscall.end_].
    assert (E1 : (wrap32 (Syscall.allocable (Syscall.region st k) + 1) =? 0) = false).
    { apply Z.eqb_neq. unfold wrap32. rewrite Z.mod_small; lia. }
    assert (E2 : (p =? 0) = false) by (apply Z.eqb_neq; exact Hnz).
    rewrite E1, E2. cbn [orb].
    destruct k; reflexivity. }
  eexists. split; [exact Hal|].
  assert (Ecnt : wrap32 (wrap32 (Syscall.allocable (Syscall.region st k) + 1) - 1)
                 = Syscall.allocable (Syscall.region st k)).
  { unfold wrap32. rewrite (Z.mod_small (_ + 1)) by lia.
    rewrite Z.mod_small by lia. lia. }
  assert (Ehead : load64 (Syscall.mem st1) p = Syscall.list_head (Syscall.region st k)).
  { rewrite Em. apply load64_store64_same. exact Hh. }
  rewrite Ecnt, Ehead.
  split; [destruct k, st1, st as [m [b e a h] [b' e' a' h']]; reflexivity|].
  split; [rewrite <- Eo; destruct k, st1; reflexivity|].
  split.
  - intros x Hx.
    assert (E : Syscall.mem (Syscall.set_mem
                  (Syscall.set_region st1 k
                     (Syscall.mk_region (Syscall.begin (Syscall.region st k))
                        (Syscall.end_ (Syscall.region st k))
                        (Syscall.allocable (Syscall.region st k))
                        (Syscall.list_head (Syscall.region st k))))
                  (memset (Syscall.mem st1) p 0 PGSIZE)) x
                = memset (Syscall.mem st1) p 0 PGSIZE x) by (destruct k; reflexivity).
    rewrite E. rewrite memset_in by exact Hx. reflexivity.
  - intros x Hx.
    assert (E : Syscall.mem (Syscall.set_mem
                  (Syscall.set_region st1 k
                     (Syscall.mk_region (Syscall.begin (Syscall.region st k))
                        (Syscall.end_ (Syscall.region st k))
                        (Syscall.allocable (Syscall.region st k))
                        (Syscall.list_head (Syscall.region st k))))
                  (memset (Syscall.mem st1) p 0 PGSIZE)) x
                = memset (Syscall.mem st1) p 0 PGSIZE x) by (destruct k; reflexivity).
    rewrite E. rewrite memset_other by exact Hx. rewrite Em.
    rewrite store64_other by (unfold PGSIZE in *; lia).
    apply memset_other. exact Hx.
Qed.

(** X3 at an example: [dup_root] freed to the user region of
    [dup_start] and allocated again. *)
Lemma syscall_free_then_alloc_witness :
  Syscall.pmem_free Syscall.dup_start Syscall.dup_root false
  = Ok (get_ok (Syscall.pmem_free Syscall.dup_start Syscall.dup_root false) Syscall.dup_start) /\
  Syscall.dup_root <> 0 /\
  0 <= Syscall.allocable (Syscall.region Syscall.dup_start false) /\
  Syscall.allocable (Syscall.region Syscall.dup_start false) + 1 < 2 ^ 32 /\
  0 <= Syscall.list_head (Syscall.region Syscall.dup_start false) < 2 ^ 64 /\
  exists st2,
    Syscall.pmem_alloc
      (get_ok (Syscall.pmem_free Syscall.dup_start Syscall.dup_root false) Syscall.dup_start)
      false = Ok (st2, Syscall.dup_root) /\
    Syscall.region st2 false = Syscall.region Syscall.dup_start false /\
    Syscall.region st2 (negb false) = Syscall.region Syscall.dup_start (negb false) /\
    (forall x, Syscall.dup_root <= x < Syscall.dup_root + PGSIZE -> Syscall.mem st2 x = 0) /\
    (forall x, x < Syscall.dup_root \/ Syscall.dup_root + PGSIZE <= x ->
       Syscall.mem st2 x = Syscall.mem Syscall.dup_start x).
Proof.
  assert (H1 : Syscall.pmem_free Syscall.dup_start Syscall.dup_root false
    = Ok (get_ok (Syscall.pmem_free Syscall.dup_start Syscall.dup_root false) Syscall.dup_start)).
  { apply get_ok_eq. vm_compute. reflexivity. }
  assert (H2 : Syscall.dup_root <> 0) by (vm_compute; discriminate).
  assert (H3 : 0 <= Syscall.allocable (Syscall.region Syscall.dup_start false))
    by (vm_compute; discriminate).
  assert (H4 : Syscall.allocable (Syscall.region Syscall.dup_start false) + 1 < 2 ^ 32)
    by (vm_compute; reflexivity).
  assert (H5 : 0 <= Syscall.list_head (Syscall.region Syscall.dup_start false) < 2 ^ 64)
    by (split; vm_compute; [discriminate|reflexivity]).
  repeat (split; [assumption|]).
  exact (syscall_free_then_alloc Syscall.dup_start Syscall.dup_root false _ H1 H2 H3 H4 H5).
Defined.

(** ** 系统调用: each region hands out its own frames *)

Lemma sc_init_loop_bounds : forall n m r a,
  Syscall.begin (snd (Syscall.pmem_init_loop n m r a)) = Syscall.begin r /\
  Syscall.end_ (snd (Syscall.pmem_init_loop n m r a)) = Syscall.end_ r.
Proof.
  induction n as [|n IH]; intros m r a; cbn [Syscall.pmem_init_loop]; [split; reflexivity|].
  destruct (IH (store64 m a (Syscall.list_head r))
              (Syscall.mk_region (Syscall.begin r) (Syscall.end_ r)
                 (wrap32 (Syscall.allocable r + 1)) a)
              (wrap64 (a + PGSIZE))) as (Hb & He).
  rewrite Hb, He. split; reflexivity.
Qed.

Lemma sc_init_bounds : forall m AB AE k,
  Syscall.begin (Syscall.region (Syscall.pmem_init m AB AE) k)
  = (if k then AB else wrap64 (AB + Syscall.KERN_PAGES * PGSIZE)) /\
  Syscall.end_ (Syscall.region (Syscall.pmem_init m AB AE) k)
  = (if k then wrap64 (AB + Syscall.KERN_PAGES * PGSIZE) else AE).
Proof.
  intros m AB AE k. unfold Syscall.pmem_init.
  set (ke := wrap64 (AB + Syscall.KERN_PAGES * PGSIZE)).
  pose proof (sc_init_loop_bounds (Syscall.frames_between AB ke) m
                (Syscall.mk_region AB ke 0 0) AB) as Hk.
  destruct (Syscall.pmem_init_loop (Syscall.frames_between AB ke) m
              (Syscall.mk_region AB ke 0 0) AB) as [m1 kr].
  pose proof (sc_init_loop_bounds (Syscall.frames_between ke AE) m1
                (Syscall.mk_region ke AE 0 0) ke) as Hu.
  destruct (Syscall.pmem_init_loop (Syscall.frames_between ke AE) m1
              (Syscall.mk_region ke AE 0 0) ke) as [m2 ur].
  cbn [fst snd Syscall.begin Syscall.end_] in Hk, Hu.
  destruct k; cbn [Syscall.region Syscall.kern_region Syscall.user_region]; assumption.
Qed.

(** X4 (系统调用, [pmem_init] and [pmem_alloc]): from [pmem_init] on,
    along every sequence of allocations and frees of allocated frames
    on one region, [pmem_alloc] returns a non-null page-aligned frame
    of that region's own range: the 1024 frames from [ALLOC_BEGIN] for
    the kernel, the frames from there up to [ALLOC_END] for the user
    region. *)
Theorem syscall_alloc_stays_in_region :
  forall m ALLOC_BEGIN ALLOC_END in_kernel st A st' p,
  0 < ALLOC_BEGIN -> ALLOC_BEGIN mod PGSIZE = 0 ->
  ALLOC_BEGIN + Syscall.KERN_PAGES * PGSIZE <= ALLOC_END ->
  ALLOC_END + PGSIZE < 2 ^ 64 ->
  Z.of_nat (Syscall.frames_between (ALLOC_BEGIN + Syscall.KERN_PAGES * PGSIZE) ALLOC_END)
    < 2 ^ 32 ->
  Syscall.reach in_kernel (Syscall.pmem_init m ALLOC_BEGIN ALLOC_END) st A ->
  Syscall.pmem_alloc st in_kernel = Ok (st', p) ->
  p <> 0 /\ p mod PGSIZE = 0 /\
  (if in_kernel
   then ALLOC_BEGIN <= p < ALLOC_BEGIN + Syscall.KERN_PAGES * PGSIZE
   else ALLOC_BEGIN + Syscall.KERN_PAGES * PGSIZE <= p < ALLOC_END).
Proof.
  intros m AB AE k st A st' p Hpos Hal Hle H64 H32 Hreach Halloc.
  destruct (sc_init_inv m AB AE Hpos Hal Hle H64 H32) as (kfl & ufl & Hk & _ & Hu & _).
  assert (Hinv0 : exists fl0, Syscall.region_inv (Syscall.mem (Syscall.pmem_init m AB AE))
                                (Syscall.region (Syscall.pmem_init m AB AE) k) fl0).
  { destruct k; [exists kfl; exact Hk|exists ufl; exact Hu]. }
  destruct Hinv0 as (fl0 & Hinv0).
  destruct (sc_reach_inv k _ fl0 st A Hinv0 Hreach) as (fl & Hinv & _).
  destruct (sc_reach_region k _ st A Hreach) as (Eb & Ee).
  destruct (sc_init_bounds m AB AE k) as (Eb0 & Ee0).
  destruct (sc_alloc_inv st k fl st' p Hinv Halloc) as (fl' & Efl & (Hnz & _ & Ha) & _).
  destruct Hinv as (_ & _ & _ & _ & Hfr).
  rewrite Efl in Hfr. apply Forall_inv in Hfr. destruct Hfr as (_ & _ & Hrg).
  rewrite Eb, Ee, Eb0, Ee0 in Hrg.
  assert (Hke : wrap64 (AB + Syscall.KERN_PAGES * PGSIZE) = AB + Syscall.KERN_PAGES * PGSIZE).
  { apply wrap64_small. unfold Syscall.KERN_PAGES, PGSIZE in *. lia. }
  rewrite Hke in Hrg.
  split; [exact Hnz|]. split; [exact Ha|].
  destruct k; exact Hrg.
Qed.

(** X4 at an example: the first user allocation after [boot]. *)
Lemma syscall_alloc_stays_in_region_witness :
  0 < 0x80400000 /\ 0x80400000 mod PGSIZE = 0 /\
  0x80400000 + Syscall.KERN_PAGES * PGSIZE
    <= 0x80400000 + Syscall.KERN_PAGES * PGSIZE + 8 * PGSIZE /\
  0x80400000 + Syscall.KERN_PAGES * PGSIZE + 8 * PGSIZE + PGSIZE < 2 ^ 64 /\
  Z.of_nat (Syscall.frames_between (0x80400000 + Syscall.KERN_PAGES * PGSIZE)
              (0x80400000 + Syscall.KERN_PAGES * PGSIZE + 8 * PGSIZE)) < 2 ^ 32 /\
  Syscall.pmem_alloc
    (Syscall.pmem_init (fun _ => 0) 0x80400000
       (0x80400000 + Syscall.KERN_PAGES * PGSIZE + 8 * PGSIZE)) false
  = Ok (fst Syscall.one_alloc, snd Syscall.one_alloc) /\
  (snd Syscall.one_alloc <> 0 /\ snd Syscall.one_alloc mod PGSIZE = 0 /\
   0x80400000 + Syscall.KERN_PAGES * PGSIZE <= snd Syscall.one_alloc
     < 0x80400000 + Syscall.KERN_PAGES * PGSIZE + 8 * PGSIZE).
Proof.
  assert (H1 : 0 < 0x80400000) by lia.
  assert (H2 : 0x80400000 mod PGSIZE = 0) by reflexivity.
  assert (H3 : 0x80400000 + Syscall.KERN_PAGES * PGSIZE
               <= 0x80400000 + Syscall.KERN_PAGES * PGSIZE + 8 * PGSIZE)
    by (unfold PGSIZE; lia).
  assert (H4 : 0x80400000 + Syscall.KERN_PAGES * PGSIZE + 8 * PGSIZE + PGSIZE < 2 ^ 64)
    by (unfold Syscall.KERN_PAGES, PGSIZE; lia).
  assert (H5 : Z.of_nat (Syscall.frames_between (0x80400000 + Syscall.KERN_PAGES * PGSIZE)
              (0x80400000 + Syscall.KERN_PAGES * PGSIZE + 8 * PGSIZE)) < 2 ^ 32)
    by (vm_compute; reflexivity).
  pose proof sc_boot_one_alloc as H6.
  repeat (split; [assumption|]).
  exact (syscall_alloc_stays_in_region (fun _ => 0) 0x80400000
           (0x80400000 + Syscall.KERN_PAGES * PGSIZE + 8 * PGSIZE) false _ [] _ _
           H1 H2 H3 H4 H5 (Syscall.reach_start false _) H6).
Defined.

(** ** 系统调用: [vm_unmappages] *)

Section syscall_unmap.
Import Syscall.

(** One page of [vm_unmappages] is one turn of its loop. *)
Lemma sc_unmap_one : forall st root va freeit,
  va mod PGSIZE = 0 -> 0 <= va -> va + PGSIZE < 2 ^ 64 ->
  vm_unmappages st root va PGSIZE freeit
  = vm_unmappages_loop 1 st root va (va + PGSIZE) freeit.
Proof.
  intros st root va freeit Ha H0 H1. unfold vm_unmappages.
  rewrite Ha. cbn [Z.eqb negb].
  change (PGSIZE <=? 0) with false. cbv iota zeta.
  change (PG_ROUND_UP PGSIZE) with PGSIZE.
  rewrite wrap64_small by (unfold PGSIZE in *; lia).
  change (Z.to_nat (PGSIZE / PGSIZE)) with 1%nat. reflexivity.
Qed.


(** The leaf entry decides how one page of [vm_unmappages] ends. *)
Lemma sc_unmap_page_spec : forall st root va freeit,
  va mod PGSIZE = 0 -> 0 <= va -> va + PGSIZE < 2 ^ 64 ->
  vm_unmappages st root va PGSIZE freeit =
  (let pte := lookup st root va in
   if pte =? 0 then Panic "vm_unmappages: fail to get valid pte"
   else if negb (pte_valid (load64 (mem st) pte))
   then Panic "vm_unmappages: virtual address not mapped"
   else if PTE_CHECK (load64 (mem st) pte)
   then Panic "vm_unmappages: pte is not a leaf node (page table entry)"
   else
     st2 <- (if freeit then pmem_free st (PTE_TO_PA (load64 (mem st) pte)) false
             else Ok st) ;;
     Ok (set_mem st2 (store64 (mem st2) pte 0))).
Proof.
  intros st root va freeit Ha H0 H1.
  rewrite sc_unmap_one by assumption.
  cbn [vm_unmappages_loop].
  assert (E : (va <? va + PGSIZE) = true) by (apply Z.ltb_lt; unfold PGSIZE; lia).
  rewrite E. cbn [negb]. rewrite sc_getpte_noalloc. cbn [bind]. cbv zeta.
  destruct (lookup st root va =? 0); [reflexivity|].
  destruct (negb (pte_valid (load64 (mem st) (lookup st root va)))); [reflexivity|].
  destruct (PTE_CHECK (load64 (mem st) (lookup st root va))); [reflexivity|].
  destruct freeit; [|reflexivity].
  destruct (pmem_free st (PTE_TO_PA (load64 (mem st) (lookup st root va))) false);
    reflexivity.
Qed.

End syscall_unmap.

(** X5 (系统调用, [vm_unmappages] of one page): the call panics when
    the walk finds no level-0 table, when the leaf entry is not valid,
    and when the leaf is valid but has none of R, W, X (such a page,
    once mapped, cannot be unmapped).  Otherwise, with [freeit] unset
    it completes and changes only the eight bytes of the leaf entry,
    which reads 0 afterwards; with [freeit] set it panics inside
    [pmem_free] when the frame of the leaf lies outside the user
    region, and for a non-null frame inside it completes: the frame is
    zero-filled and put at the head of the user free list, the count
    of the region goes up by one, and besides that only the eight
    bytes of the leaf entry change, which reads 0 afterwards. *)
Theorem syscall_unmap_page :
  forall st root va freeit,
  va mod PGSIZE = 0 -> 0 <= va -> va + PGSIZE < 2 ^ 64 ->
  (Syscall.lookup st root va = 0 ->
   Syscall.vm_unmappages st root va PGSIZE freeit
   = Panic "vm_unmappages: fail to get valid pte") /\
  (Syscall.lookup st root va <> 0 ->
   pte_valid (load64 (Syscall.mem st) (Syscall.lookup st root va)) = false ->
   Syscall.vm_unmappages st root va PGSIZE freeit
   = Panic "vm_unmappages: virtual address not mapped") /\
  (Syscall.lookup st root va <> 0 ->
   pte_valid (load64 (Syscall.mem st) (Syscall.lookup st root va)) = true ->
   Z.land (load64 (Syscall.mem st) (Syscall.lookup st root va))
          (Z.lor (Z.lor PTE_R PTE_W) PTE_X) = 0 ->
   Syscall.vm_unmappages st root va PGSIZE freeit
   = Panic "vm_unmappages: pte is not a leaf node (page table entry)") /\
  (Syscall.lookup st root va <> 0 ->
   pte_valid (load64 (Syscall.mem st) (Syscall.lookup st root va)) = true ->
   Z.land (load64 (Syscall.mem st) (Syscall.lookup st root va))
          (Z.lor (Z.lor PTE_R PTE_W) PTE_X) <> 0 ->
   (exists st', Syscall.vm_unmappages st root va PGSIZE false = Ok st' /\
      Syscall.kern_region st' = Syscall.kern_region st /\
      Syscall.user_region st' = Syscall.user_region st /\
      load64 (Syscall.mem st') (Syscall.lookup st root va) = 0 /\
      (forall x, x < Syscall.lookup st root va \/ Syscall.lookup st root va + 8 <= x ->
         Syscall.mem st' x = Syscall.mem st x)) /\
   (PTE_TO_PA (load64 (Syscall.mem st) (Syscall.lookup st root va))
      < Syscall.begin (Syscall.user_region st) \/
    Syscall.end_ (Syscall.user_region st)
      <= PTE_TO_PA (load64 (Syscall.mem st) (Syscall.lookup st root va)) ->
    Syscall.vm_unmappages st root va PGSIZE true
    = Panic "pmem_free: physical address out of region range ") /\
   (Syscall.begin (Syscall.user_region st)
      <= PTE_TO_PA (load64 (Syscall.mem st) (Syscall.lookup st root va))
      < Syscall.end_ (Syscall.user_region st) ->
    PTE_TO_PA (load64 (Syscall.mem st) (Syscall.lookup st root va)) <> 0 ->
    exists st', Syscall.vm_unmappages st root va PGSIZE true = Ok st' /\
      Syscall.kern_region st' = Syscall.kern_region st /\
      Syscall.user_region st'
      = Syscall.mk_region (Syscall.begin (Syscall.user_region st))
          (Syscall.end_ (Syscall.user_region st))
          (wrap32 (Syscall.allocable (Syscall.user_region st) + 1))
          (PTE_TO_PA (load64 (Syscall.mem st) (Syscall.lookup st root va))) /\
      load64 (Syscall.mem st') (Syscall.lookup st root va) = 0 /\
      (forall x, x < Syscall.lookup st root va \/ Syscall.lookup st root va + 8 <= x ->
         Syscall.mem st' x
         = store64 (memset (Syscall.mem st)
                      (PTE_TO_PA (load64 (Syscall.mem st) (Syscall.lookup st root va)))
                      0 PGSIZE)
             (PTE_TO_PA (load64 (Syscall.mem st) (Syscall.lookup st root va)))
             (Syscall.list_head (Syscall.user_region st)) x))).
Proof.
  intros st root va freeit Ha H0 H1.
  split; [|split; [|split]].
  - intros Hl. rewrite sc_unmap_page_spec by assumption. cbv zeta.
    rewrite Hl. reflexivity.
  - intros Hl Hv. rewrite sc_unmap_page_spec by assumption. cbv zeta.
    apply Z.eqb_neq in Hl. rewrite Hl, Hv. reflexivity.
  - intros Hl Hv Hc. rewrite sc_unmap_page_spec by assumption. cbv zeta.
    apply Z.eqb_neq in Hl. rewrite Hl, Hv. cbn [negb].
    unfold PTE_CHECK. change 14 with (Z.lor (Z.lor PTE_R PTE_W) PTE_X).
    rewrite Hc. reflexivity.
  - intros Hl Hv Hc.
    assert (Hck : PTE_CHECK (load64 (Syscall.mem st) (Syscall.lookup st root va)) = false).
    { unfold PTE_CHECK. change 14 with (Z.lor (Z.lor PTE_R PTE_W) PTE_X).
      apply Z.eqb_neq. exact Hc. }
    pose proof Hl as Hl'. apply Z.eqb_neq in Hl'.
    pose proof (PTE_TO_PA_aligned (load64 (Syscall.mem st) (Syscall.lookup st root va)))
      as Hal.
    set (pa := PTE_TO_PA (load64 (Syscall.mem st) (Syscall.lookup st root va))) in *.
    split; [|split].
    + eexists. rewrite sc_unmap_page_spec by assumption. cbv zeta.
      rewrite Hl', Hv, Hck. cbn [negb bind].
      split; [reflexivity|]. split; [reflexivity|]. split; [reflexivity|].
      cbn [Syscall.set_mem Syscall.mem].
      split; [apply load64_store64_same; lia|].
      intros x Hx. apply store64_other. exact Hx.
    + intros Hout. rewrite sc_unmap_page_spec by assumption. cbv zeta.
      rewrite Hl', Hv, Hck. cbn [negb]. fold pa.
      unfold Syscall.pmem_free. rewrite Hal. cbn [Z.eqb negb Syscall.region].
      replace ((pa <? Syscall.begin (Syscall.user_region st))
               || (Syscall.end_ (Syscall.user_region st) <=? pa)) with true; [reflexivity|].
      symmetry. apply orb_true_iff.
      destruct Hout as [Hlt|Hge]; [left; apply Z.ltb_lt | right; apply Z.leb_le]; assumption.
    + intros Hin _. rewrite sc_unmap_page_spec by assumption. cbv zeta.
      rewrite Hl', Hv, Hck. cbn [negb]. fold pa.
      unfold Syscall.pmem_free. rewrite Hal. cbn [Z.eqb negb Syscall.region].
      replace ((pa <? Syscall.begin (Syscall.user_region st))
               || (Syscall.end_ (Syscall.user_region st) <=? pa)) with false.
      2:{ symmetry. apply orb_false_iff.
          split; [apply Z.ltb_ge | apply Z.leb_gt]; lia. }
      cbv zeta. cbn [bind]. eexists. split; [reflexivity|].
      cbn [Syscall.set_region Syscall.set_mem Syscall.mem Syscall.kern_region
           Syscall.user_region].
      split; [reflexivity|]. split; [reflexivity|].
      split; [apply load64_store64_same; lia|].
      intros x Hx. apply store64_other. exact Hx.
Qed.

(** X5 at an example: the heap page 0x1000 of [small_root], unmapped
    without and with freeing its frame. *)
Lemma syscall_unmap_page_witness :
  (0x1000 mod PGSIZE = 0 /\ 0 <= 0x1000 /\ 0x1000 + PGSIZE < 2 ^ 64 /\
   Syscall.lookup Syscall.small_state Syscall.small_root 0x1000 <> 0 /\
   pte_valid (load64 (Syscall.mem Syscall.small_state)
                (Syscall.lookup Syscall.small_state Syscall.small_root 0x1000)) = true /\
   Z.land (load64 (Syscall.mem Syscall.small_state)
             (Syscall.lookup Syscall.small_state Syscall.small_root 0x1000))
          (Z.lor (Z.lor PTE_R PTE_W) PTE_X) <> 0 /\
   Syscall.begin (Syscall.user_region Syscall.small_state)
     <= PTE_TO_PA (load64 (Syscall.mem Syscall.small_state)
                     (Syscall.lookup Syscall.small_state Syscall.small_root 0x1000))
     < Syscall.end_ (Syscall.user_region Syscall.small_state) /\
   PTE_TO_PA (load64 (Syscall.mem Syscall.small_state)
                (Syscall.lookup Syscall.small_state Syscall.small_root 0x1000)) <> 0) /\
  (exists st', Syscall.vm_unmappages Syscall.small_state Syscall.small_root 0x1000 PGSIZE false
               = Ok st' /\
     Syscall.kern_region st' = Syscall.kern_region Syscall.small_state /\
     Syscall.user_region st' = Syscall.user_region Syscall.small_state /\
     load64 (Syscall.mem st') (Syscall.lookup Syscall.small_state Syscall.small_root 0x1000) = 0 /\
     (forall x, x < Syscall.lookup Syscall.small_state Syscall.small_root 0x1000 \/
                Syscall.lookup Syscall.small_state Syscall.small_root 0x1000 + 8 <= x ->
        Syscall.mem st' x = Syscall.mem Syscall.small_state x)) /\
  (exists st', Syscall.vm_unmappages Syscall.small_state Syscall.small_root 0x1000 PGSIZE true
               = Ok st' /\
     Syscall.kern_region st' = Syscall.kern_region Syscall.small_state /\
     Syscall.user_region st'
     = Syscall.mk_region (Syscall.begin (Syscall.user_region Syscall.small_state))
         (Syscall.end_ (Syscall.user_region Syscall.small_state))
         (wrap32 (Syscall.allocable (Syscall.user_region Syscall.small_state) + 1))
         (PTE_TO_PA (load64 (Syscall.mem Syscall.small_state)
                       (Syscall.lookup Syscall.small_state Syscall.small_root 0x1000))) /\
     load64 (Syscall.mem st') (Syscall.lookup Syscall.small_state Syscall.small_root 0x1000) = 0 /\
     (forall x, x < Syscall.lookup Syscall.small_state Syscall.small_root 0x1000 \/
                Syscall.lookup Syscall.small_state Syscall.small_root 0x1000 + 8 <= x ->
        Syscall.mem st' x
        = store64 (memset (Syscall.mem Syscall.small_state)
                     (PTE_TO_PA (load64 (Syscall.mem Syscall.small_state)
                        (Syscall.lookup Syscall.small_state Syscall.small_root 0x1000)))
                     0 PGSIZE)
            (PTE_TO_PA (load64 (Syscall.mem Syscall.small_state)
               (Syscall.lookup Syscall.small_state Syscall.small_root 0x1000)))
            (Syscall.list_head (Syscall.user_region Syscall.small_state)) x)).
Proof.
  assert (H1 : 0x1000 mod PGSIZE = 0) by reflexivity.
  assert (H2 : 0 <= 0x1000) by lia.
  assert (H3 : 0x1000 + PGSIZE < 2 ^ 64) by (unfold PGSIZE; lia).
  assert (H4 : Syscall.lookup Syscall.small_state Syscall.small_root 0x1000 <> 0)
    by (vm_compute; discriminate).
  assert (H5 : pte_valid (load64 (Syscall.mem Syscall.small_state)
               (Syscall.lookup Syscall.small_state Syscall.small_root 0x1000)) = true)
    by (vm_compute; reflexivity).
  assert (H6 : Z.land (load64 (Syscall.mem Syscall.small_state)
            (Syscall.lookup Syscall.small_state Syscall.small_root 0x1000))
         (Z.lor (Z.lor PTE_R PTE_W) PTE_X) <> 0) by (vm_compute; discriminate).
  assert (H7 : Syscall.begin (Syscall.user_region Syscall.small_state)
     <= PTE_TO_PA (load64 (Syscall.mem Syscall.small_state)
                     (Syscall.lookup Syscall.small_state Syscall.small_root 0x1000))
     < Syscall.end_ (Syscall.user_region Syscall.small_state))
    by (vm_compute; split; [discriminate|reflexivity]).
  assert (H8 : PTE_TO_PA (load64 (Syscall.mem Syscall.small_state)
                (Syscall.lookup Syscall.small_state Syscall.small_root 0x1000)) <> 0)
    by (vm_compute; discriminate).
  split; [exact (conj H1 (conj H2 (conj H3 (conj H4 (conj H5 (conj H6 (conj H7 H8)))))))|].
  split.
  - exact (proj1 (proj2 (proj2 (proj2 (syscall_unmap_page Syscall.small_state
             Syscall.small_root 0x1000 false H1 H2 H3))) H4 H5 H6)).
  - exact (proj2 (proj2 (proj2 (proj2 (proj2 (syscall_unmap_page Syscall.small_state
             Syscall.small_root 0x1000 true H1 H2 H3))) H4 H5 H6)) H7 H8).
Defined.

Section syscall_remap.
Import Syscall.

Lemma sc_map_ok_checks : forall st root va pa perm st',
  vm_mappages st root va pa PGSIZE perm = Ok st' ->
  va mod PGSIZE = 0 /\ pa mod PGSIZE = 0 /\ wrap64 (va + PGSIZE) <= VA_MAX.
Proof.
  intros st root va pa perm st' H. unfold vm_mappages in H.
  change (PGSIZE <=? 0) with false in H. cbv iota in H.
  destruct (negb (va mod PGSIZE =? 0) || negb (pa mod PGSIZE =? 0)) eqn:Hal; [discriminate|].
  apply orb_false_elim in Hal. destruct Hal as (Hv & Hp).
  apply negb_false_iff in Hv. apply Z.eqb_eq in Hv.
  apply negb_false_iff in Hp. apply Z.eqb_eq in Hp.
  destruct (VA_MAX <? wrap64 (va + PGSIZE)) eqn:E; [discriminate|].
  apply Z.ltb_ge in E. repeat split; assumption.
Qed.

(** [vm_mappages] of one page is one turn of its loop. *)
Lemma sc_map_one_turn : forall st root va pa perm,
  0 <= va < 2 ^ 64 -> va mod PGSIZE = 0 -> pa mod PGSIZE = 0 ->
  wrap64 (va + PGSIZE) <= VA_MAX ->
  vm_mappages st root va pa PGSIZE perm = vm_mappages_loop 0 st root va pa perm.
Proof.
  intros st root va pa perm Hva Hal Hpa Hmax. unfold vm_mappages.
  change (PGSIZE <=? 0) with false. cbv iota.
  rewrite Hal, Hpa. cbn [Z.eqb negb orb].
  assert (E : (VA_MAX <? wrap64 (va + PGSIZE)) = false) by (apply Z.ltb_ge; exact Hmax).
  rewrite E. cbv zeta.
  assert (Hva2 : va + PGSIZE <= 2 ^ 64).
  { unfold PGSIZE in *.
    assert (va = 4096 * (va / 4096)) by (pose proof (Z.div_mod va 4096); lia).
    assert (va / 4096 < 2 ^ 52) by (apply Z.div_lt_upper_bound; lia).
    lia. }
  rewrite (PG_ROUND_DOWN_aligned va Hva Hal).
  assert (Eend : PG_ROUND_DOWN (wrap64 (va + PGSIZE - 1)) = va).
  { rewrite wrap64_small by (unfold PGSIZE in *; lia).
    rewrite PG_ROUND_DOWN_eq by (unfold PGSIZE in *; lia).
    unfold PGSIZE in *.
    assert (va = 4096 * (va / 4096)) by (pose proof (Z.div_mod va 4096); lia).
    assert ((va + 4096 - 1) / 4096 = va / 4096).
    { symmetry. apply Z.div_unique with (r := 4095); lia. }
    lia. }
  rewrite Eend, Z.sub_diag. reflexivity.
Qed.

Lemma leaf_pte_rwx : forall pa perm, 0 <= perm < 1024 ->
  Z.land (leaf_pte pa perm) 14 = Z.land perm 14.
Proof.
  intros pa perm Hp. unfold leaf_pte, int_to_u64.
  rewrite wrap64_small by lia. rewrite <- Z.lor_assoc.
  rewrite (land_low _ 14) by lia.
  assert (Hfl : 0 <= Z.lor perm PTE_V < 1024).
  { apply (lor_range _ _ 10); [lia|exact Hp|unfold PTE_V; lia]. }
  rewrite flags_of_lor by exact Hfl.
  rewrite Z.land_lor_distr_l. change (Z.land PTE_V 14) with 0.
  apply Z.lor_0_r.
Qed.

End syscall_remap.

(** X6 (系统调用, [vm_mappages] then [vm_unmappages]): a page mapped
    with a permission that has R, W or X can be unmapped again; the
    unmapping keeps the page tables, changes no byte but the leaf
    entry, which reads 0, so every walk ends where it did; and a new
    [vm_mappages] of that page then completes without taking a frame
    from the kernel region. *)
Theorem syscall_map_unmap_remap :
  forall root st N1 N0 KL va pa perm st1,
  Syscall.tree_inv st root N1 N0 KL ->
  0 <= va -> va + PGSIZE < 2 ^ 64 ->
  0 <= perm < 1024 -> Z.land perm 14 <> 0 ->
  Syscall.vm_mappages st root va pa PGSIZE perm = Ok st1 ->
  exists st2,
    Syscall.vm_unmappages st1 root va PGSIZE false = Ok st2 /\
    (forall va', Syscall.lookup st2 root va' = Syscall.lookup st1 root va') /\
    load64 (Syscall.mem st2) (Syscall.lookup st1 root va) = 0 /\
    (forall x, x < Syscall.lookup st1 root va \/ Syscall.lookup st1 root va + 8 <= x ->
       Syscall.mem st2 x = Syscall.mem st1 x) /\
    (forall pa' perm', pa' mod PGSIZE = 0 ->
       exists st3,
         Syscall.vm_mappages st2 root va pa' PGSIZE perm' = Ok st3 /\
         load64 (Syscall.mem st3) (Syscall.lookup st3 root va) = leaf_pte pa' perm' /\
         Syscall.kern_region st3 = Syscall.kern_region st1).
Proof.
  intros root st N1 N0 KL va pa perm st1 Hinv Hva0 Hva1 Hperm Hrwx Hmap.
  assert (Hva : 0 <= va < 2 ^ 64) by (unfold PGSIZE in *; lia).
  destruct (sc_map_ok_checks _ _ _ _ _ _ Hmap) as (Hal & Hpal & Hmax).
  destruct (sc_map_page root st N1 N0 KL va pa perm st1 Hinv Hva Hmap)
    as (N1' & N0' & KL' & t1 & t0 & Hg & Hin1 & Hin0 & Hv2 & Hp2 & Hv1 & Hp1 & Eleaf).
  destruct Hg as (Ht1 & _).
  assert (El : Syscall.lookup st1 root va = t0 + 8 * VA_TO_VPN va 0)
    by (apply (lookup_of_walk st1 root va t1 t0); assumption).
  pose proof Ht1 as (_ & (Hc1 & Hc0) & Hnd & Hgood).
  rewrite Forall_forall in Hgood.
  assert (G0 : good_frame t0) by (apply Hgood; apply in_tabs_cases; tauto).
  assert (Hnz : Syscall.lookup st1 root va <> 0).
  { rewrite El. destruct G0 as (Hnz0 & R0 & _). pose proof (VPN_range va 0). lia. }
  assert (Hvalid : pte_valid (load64 (Syscall.mem st1) (Syscall.lookup st1 root va)) = true).
  { rewrite El, Eleaf. unfold leaf_pte. apply pte_valid_lor_V. }
  assert (Hck : PTE_CHECK (load64 (Syscall.mem st1) (Syscall.lookup st1 root va)) = false).
  { rewrite El, Eleaf. unfold PTE_CHECK. rewrite leaf_pte_rwx by exact Hperm.
    apply Z.eqb_neq. exact Hrwx. }
  set (st2 := Syscall.set_mem st1
                (store64 (Syscall.mem st1) (Syscall.lookup st1 root va) 0)).
  assert (Hun : Syscall.vm_unmappages st1 root va PGSIZE false = Ok st2).
  { rewrite sc_unmap_page_spec by assumption. cbv zeta.
    apply Z.eqb_neq in Hnz. rewrite Hnz, Hvalid, Hck. reflexivity. }
  (* the entries of the root and of the level-1 tables are untouched *)
  assert (Hnd2 : NoDup ((root :: N1') ++ N0' ++ KL')) by exact Hnd.
  destruct (NoDup_app_inv _ _ Hnd2) as (_ & _ & Hd1).
  assert (Hup : forall t j, In t (root :: N1') -> 0 <= j < 512 ->
            load64 (Syscall.mem st2) (t + 8 * j) = load64 (Syscall.mem st1) (t + 8 * j)).
  { intros t j Ht Hj. unfold st2. cbn [Syscall.set_mem Syscall.mem]. rewrite El.
    apply load64_store64_other.
    assert (Hne : t <> t0).
    { intros ->. apply (Hd1 t0 Ht). apply in_or_app. left; exact Hin0. }
    assert (At : t mod PGSIZE = 0).
    { apply (Hgood t). apply in_tabs_cases. destruct Ht as [<-|Ht]; tauto. }
    destruct G0 as (_ & _ & A0).
    destruct (ent_apart t t0 j (VA_TO_VPN va 0) At A0 Hne Hj (VPN_range va 0)); lia. }
  assert (Hlook : forall va', Syscall.lookup st2 root va' = Syscall.lookup st1 root va').
  { intros va'. unfold Syscall.lookup. cbv zeta.
    rewrite (Hup root _ (or_introl eq_refl) (VPN_range va' 2)).
    destruct (pte_valid (load64 (Syscall.mem st1) (root + 8 * VA_TO_VPN va' 2))) eqn:V2;
      [|reflexivity].
    rewrite (Hup _ _ (or_intror (Hc1 _ (VPN_range va' 2) V2)) (VPN_range va' 1)).
    reflexivity. }
  exists st2. split; [exact Hun|]. split; [exact Hlook|].
  split; [unfold st2; cbn [Syscall.set_mem Syscall.mem]; apply load64_store64_same; lia|].
  split; [intros x Hx; unfold st2; cbn [Syscall.set_mem Syscall.mem];
          apply store64_other; exact Hx|].
  intros pa' perm' Hpa'.
  rewrite (sc_map_one_turn st2 root va pa' perm' Hva Hal Hpa' Hmax).
  cbn [Syscall.vm_mappages_loop].
  assert (Hget : Syscall.vm_getpte st2 root va true = Ok (st2, t0 + 8 * VA_TO_VPN va 0)).
  { apply (sc_getpte_hit st2 root va true t1 t0).
    - rewrite (Hup root _ (or_introl eq_refl) (VPN_range va 2)). exact Hv2.
    - rewrite (Hup root _ (or_introl eq_refl) (VPN_range va 2)). exact Hp2.
    - rewrite (Hup t1 _ (or_intror Hin1) (VPN_range va 1)). exact Hv1.
    - rewrite (Hup t1 _ (or_intror Hin1) (VPN_range va 1)). exact Hp1. }
  rewrite Hget. cbn [bind]. rewrite <- El.
  apply Z.eqb_neq in Hnz. rewrite Hnz.
  assert (E0 : load64 (Syscall.mem st2) (Syscall.lookup st1 root va) = 0).
  { unfold st2. cbn [Syscall.set_mem Syscall.mem]. apply load64_store64_same. lia. }
  rewrite E0. change (pte_valid 0) with false. cbv iota.
  eexists. split; [reflexivity|].
  split; [|reflexivity].
  assert (Hup3 : forall t j, In t (root :: N1') -> 0 <= j < 512 ->
            load64 (store64 (Syscall.mem st2) (t0 + 8 * VA_TO_VPN va 0)
                      (Z.lor (Z.lor (PA_TO_PTE pa') (int_to_u64 perm')) PTE_V)) (t + 8 * j)
            = load64 (Syscall.mem st1) (t + 8 * j)).
  { intros t j Ht Hj. rewrite <- (Hup t j Ht Hj). apply load64_store64_other.
    assert (Hne : t <> t0).
    { intros ->. apply (Hd1 t0 Ht). apply in_or_app. left; exact Hin0. }
    assert (At : t mod PGSIZE = 0).
    { apply (Hgood t). apply in_tabs_cases. destruct Ht as [<-|Ht]; tauto. }
    destruct G0 as (_ & _ & A0).
    destruct (ent_apart t t0 j (VA_TO_VPN va 0) At A0 Hne Hj (VPN_range va 0)); lia. }
  rewrite El.
  assert (Hl3 : Syscall.lookup
                  (Syscall.set_mem st2
                     (store64 (Syscall.mem st2) (t0 + 8 * VA_TO_VPN va 0)
                        (Z.lor (Z.lor (PA_TO_PTE pa') (int_to_u64 perm')) PTE_V)))
                  root va = t0 + 8 * VA_TO_VPN va 0).
  { apply (lookup_of_walk _ root va t1 t0); cbn [Syscall.set_mem Syscall.mem].
    - rewrite (Hup3 root _ (or_introl eq_refl) (VPN_range va 2)). exact Hv2.
    - rewrite (Hup3 root _ (or_introl eq_refl) (VPN_range va 2)). exact Hp2.
    - rewrite (Hup3 t1 _ (or_intror Hin1) (VPN_range va 1)). exact Hv1.
    - rewrite (Hup3 t1 _ (or_intror Hin1) (VPN_range va 1)). exact Hp1. }
  rewrite Hl3. cbn [Syscall.set_mem Syscall.mem].
  apply load64_store64_same. apply leaf_pte_range.
Qed.

(** X6 at an example: the page 0x5000 mapped under [dup_root],
    unmapped, and ready to be mapped again. *)
Lemma syscall_map_unmap_remap_witness :
  Syscall.tree_inv Syscall.dup_start Syscall.dup_root [] [] Syscall.dup_KL /\
  0 <= 0x5000 /\ 0x5000 + PGSIZE < 2 ^ 64 /\
  0 <= PTE_R < 1024 /\ Z.land PTE_R 14 <> 0 /\
  Syscall.vm_mappages Syscall.dup_start Syscall.dup_root 0x5000 Syscall.small_page PGSIZE PTE_R
  = Ok (get_ok (Syscall.vm_mappages Syscall.dup_start Syscall.dup_root 0x5000
                  Syscall.small_page PGSIZE PTE_R) Syscall.dup_start) /\
  exists st2,
    Syscall.vm_unmappages
      (get_ok (Syscall.vm_mappages Syscall.dup_start Syscall.dup_root 0x5000
                 Syscall.small_page PGSIZE PTE_R) Syscall.dup_start)
      Syscall.dup_root 0x5000 PGSIZE false = Ok st2.
Proof.
  assert (H1 : Syscall.tree_inv Syscall.dup_start Syscall.dup_root [] [] Syscall.dup_KL).
  { apply tree_invb_sound. vm_compute. reflexivity. }
  assert (H2 : 0 <= 0x5000) by lia.
  assert (H3 : 0x5000 + PGSIZE < 2 ^ 64) by (unfold PGSIZE; lia).
  assert (H4 : 0 <= PTE_R < 1024) by (unfold PTE_R; lia).
  assert (H5 : Z.land PTE_R 14 <> 0) by (vm_compute; discriminate).
  assert (H6 : Syscall.vm_mappages Syscall.dup_start Syscall.dup_root 0x5000
                 Syscall.small_page PGSIZE PTE_R
               = Ok (get_ok (Syscall.vm_mappages Syscall.dup_start Syscall.dup_root 0x5000
                               Syscall.small_page PGSIZE PTE_R) Syscall.dup_start)).
  { apply get_ok_eq. vm_compute. reflexivity. }
  repeat (split; [assumption|]).
  destruct (syscall_map_unmap_remap Syscall.dup_root Syscall.dup_start [] [] Syscall.dup_KL
              0x5000 Syscall.small_page PTE_R _ H1 H2 H3 H4 H5 H6) as (st2 & Hun & _).
  exists st2. exact Hun.
Defined.


(** ** 系统调用: a fresh user page mapped into a tree *)

Section syscall_user_page.
Import Syscall.

(** A frame from the user region, written to, then mapped: what
    [copy_range], [uvm_heap_grow] and [uvm_mmap] do for each page. *)
Lemma sc_user_page_step : forall root st N1 N0 KL UL C st1 u st2 va perm st3,
  tree_inv st root N1 N0 KL ->
  region_inv (mem st) (user_region st) UL ->
  NoDup ((root :: N1 ++ N0 ++ KL) ++ UL ++ C) ->
  pmem_alloc st false = Ok (st1, u) ->
  kern_region st2 = kern_region st1 -> user_region st2 = user_region st1 ->
  (forall x, x < u \/ u + PGSIZE <= x -> mem st2 x = mem st1 x) ->
  0 <= va < 2 ^ 64 ->
  vm_mappages st2 root va u PGSIZE perm = Ok st3 ->
  exists N1' N0' KL' UL',
    UL = u :: UL' /\ good_frame u /\
    tree_inv st3 root N1' N0' KL' /\
    region_inv (mem st3) (user_region st3) UL' /\
    Permutation ((root :: N1' ++ N0' ++ KL') ++ UL' ++ u :: C)
                ((root :: N1 ++ N0 ++ KL) ++ UL ++ C) /\
    (forall x, off_frames ((root :: N1 ++ N0 ++ KL) ++ [u]) x -> mem st3 x = mem st x) /\
    (forall x, u <= x < u + PGSIZE -> mem st3 x = mem st2 x) /\
    lookup st3 root va <> 0 /\
    load64 (mem st3) (lookup st3 root va) = leaf_pte u perm /\
    leaves_kept st st3 root /\
    user_region st3 = user_region st1.
Proof.
  intros root st N1 N0 KL UL C st1 u st2 va perm st3
    Ht Hu HLnd Hal Hk2 Hu2 Hm2 Hva Hmap.
  destruct (sc_alloc_inv st false UL st1 u Hu Hal) as (UL' & EUL & Hgu & Em1 & Hu1 & Hk1).
  cbn [negb region] in Hk1, Hu1. subst UL.
  pose proof (tree_inv_frames _ _ _ _ _ Ht) as HgT.
  destruct (NoDup_app_inv _ _ HLnd) as (HndT & HndU & HdT).
  assert (HuT : ~ In u (root :: N1 ++ N0 ++ KL)).
  { intros Hin. apply (HdT u Hin). left; reflexivity. }
  assert (HndU2 : NoDup (u :: UL' ++ C)) by exact HndU.
  assert (HuR : ~ In u (UL' ++ C)) by (inversion HndU2; assumption).
  assert (Hoff2 : forall x, x < u \/ u + PGSIZE <= x -> mem st2 x = mem st x).
  { intros x Hx. rewrite Hm2 by exact Hx. rewrite Em1. apply memset_other. exact Hx. }
  assert (Hfr2 : forall g, good_frame g -> g <> u ->
                 forall x, g <= x < g + PGSIZE -> mem st2 x = mem st x).
  { intros g Hg Hne x Hx. apply Hoff2.
    destruct (good_frame_apart g u Hg Hgu Hne); lia. }
  assert (Ht2 : tree_inv st2 root N1 N0 KL).
  { apply (tree_inv_ext st); [exact Ht|congruence|].
    intros g x Hg Hx. apply (Hfr2 g); [|intros ->; exact (HuT Hg)|exact Hx].
    rewrite Forall_forall in HgT. apply HgT. exact Hg. }
  destruct (sc_map_page root st2 N1 N0 KL va u perm st3 Ht2 Hva Hmap)
    as (N1' & N0' & KL' & t1 & t0 & Hg3 & Hin1 & Hin0 & Hv2 & Hp2 & Hv1 & Hp1 & Eleaf).
  destruct Hg3 as (Ht3 & Hp3 & Hi1 & Hi0 & Hu3 & Hoff3 & Hkeep3).
  assert (Hfr3 : forall g, good_frame g -> ~ In g (root :: N1 ++ N0 ++ KL) ->
                 forall x, g <= x < g + PGSIZE -> mem st3 x = mem st2 x).
  { intros g Hg Hn x Hx. apply Hoff3. apply (frame_off _ g); assumption. }
  assert (HgU : forall g, In g UL' -> good_frame g).
  { intros g Hg. apply (region_inv_frames _ _ _ g Hu). right; exact Hg. }
  exists N1', N0', KL', UL'.
  split; [reflexivity|]. split; [exact Hgu|]. split; [exact Ht3|].
  split.
  { rewrite Hu3, Hu2.
    apply (region_inv_ext (mem st1)); [exact Hu1|].
    intros g x Hg Hx.
    assert (HgRC : In g (UL' ++ C)) by (apply in_or_app; left; exact Hg).
    assert (Hne : g <> u) by (intros ->; exact (HuR HgRC)).
    rewrite (Hfr3 g (HgU g Hg)); [| |exact Hx].
    - apply Hm2. destruct (good_frame_apart g u (HgU g Hg) Hgu Hne); lia.
    - intros Hin. apply (HdT g Hin). right. exact HgRC. }
  split.
  { apply Permutation_app.
    - constructor. exact Hp3.
    - apply Permutation_sym. apply Permutation_middle. }
  split.
  { intros x Hx. rewrite Hoff3.
    - apply Hoff2. apply Hx. apply in_or_app. right. left; reflexivity.
    - intros g Hg. apply Hx. apply in_or_app. left; exact Hg. }
  split; [intros x Hx; apply (Hfr3 u Hgu HuT); exact Hx|].
  assert (El : lookup st3 root va = t0 + 8 * VA_TO_VPN va 0)
    by (apply (lookup_of_walk st3 root va t1 t0); assumption).
  split.
  { rewrite El. destruct Ht3 as (_ & _ & _ & Hg3). rewrite Forall_forall in Hg3.
    assert (G0 : good_frame t0) by (apply Hg3; apply in_tabs_cases; tauto).
    destruct G0 as (Hnz0 & R0 & _). pose proof (VPN_range va 0). lia. }
  split; [rewrite El; exact Eleaf|].
  split; [|congruence].
  intros va' Hl Hv.
  destruct (lookup_tables st root N1 N0 KL va' Ht Hl)
    as (t1' & t0' & Hin1' & Hin0' & Hv2' & Hp2' & Hv1' & Hp1' & El').
  rewrite El' in Hv |- *.
  assert (Hsame : forall t j, In t (root :: N1 ++ N0) -> 0 <= j < 512 ->
            pte_valid (load64 (mem st) (t + 8 * j)) = true ->
            load64 (mem st3) (t + 8 * j) = load64 (mem st) (t + 8 * j)).
  { intros t j Hin Hj Hvv.
    assert (E2 : load64 (mem st2) (t + 8 * j) = load64 (mem st) (t + 8 * j)).
    { apply load64_frame; [exact Hj|]. apply Hfr2.
      - rewrite Forall_forall in HgT. apply HgT.
        apply in_tree_cases. apply in_tabs_cases in Hin. tauto.
      - intros ->. apply HuT. apply in_tree_cases. apply in_tabs_cases in Hin. tauto. }
    rewrite (Hkeep3 t j Hin Hj); [exact E2|rewrite E2; exact Hvv]. }
  assert (E2 : load64 (mem st3) (root + 8 * VA_TO_VPN va' 2)
               = load64 (mem st) (root + 8 * VA_TO_VPN va' 2)).
  { apply Hsame; [left; reflexivity|apply VPN_range|exact Hv2']. }
  assert (E1 : load64 (mem st3) (t1' + 8 * VA_TO_VPN va' 1)
               = load64 (mem st) (t1' + 8 * VA_TO_VPN va' 1)).
  { apply Hsame; [apply in_tabs_cases; tauto|apply VPN_range|exact Hv1']. }
  assert (E0 : load64 (mem st3) (t0' + 8 * VA_TO_VPN va' 0)
               = load64 (mem st) (t0' + 8 * VA_TO_VPN va' 0)).
  { apply Hsame; [apply in_tabs_cases; tauto|apply VPN_range|exact Hv]. }
  assert (El4 : lookup st3 root va' = t0' + 8 * VA_TO_VPN va' 0).
  { apply (lookup_of_walk st3 root va' t1' t0'); rewrite ?E2, ?E1; congruence. }
  rewrite El4. split; [reflexivity|exact E0].
Qed.


Lemma leaves_kept_trans : forall st0 st1 st2 root,
  leaves_kept st0 st1 root -> leaves_kept st1 st2 root -> leaves_kept st0 st2 root.
Proof.
  intros st0 st1 st2 root H1 H2 va Hl Hv.
  destruct (H1 va Hl Hv) as (El & Ee).
  assert (Hl1 : lookup st1 root va <> 0) by (rewrite El; exact Hl).
  assert (Hv1 : pte_valid (load64 (mem st1) (lookup st1 root va)) = true)
    by (rewrite Ee; exact Hv).
  destruct (H2 va Hl1 Hv1) as (El2 & Ee2).
  split; congruence.
Qed.

Variables (st0 : state) (root : Z) (P0 UL0 : list Z).
Hypothesis HP0nd : NoDup P0.
Hypothesis HP0good : Forall good_frame P0.

(** One page of [uvm_heap_grow]. *)
Lemma grow_page_step : forall n st N1 N0 KL UL M va e st',
  grow_inv st0 root P0 UL0 st N1 N0 KL UL M ->
  0 <= va < 2 ^ 64 ->
  (va <? e) = true ->
  uvm_heap_grow_loop (S n) st root va e = Ok st' ->
  exists st3 N1' N0' KL' UL' u,
    grow_inv st0 root P0 UL0 st3 N1' N0' KL' UL' ((va, u) :: M) /\
    wrap64 (va + PGSIZE) <= VA_MAX /\
    uvm_heap_grow_loop n st3 root (wrap64 (va + PGSIZE)) e = Ok st'.
Proof.
  intros n st N1 N0 KL UL M va e st' Hinv Hva Hlt H.
  destruct Hinv as (Ht & Hu & Hperm & HUL0 & Hb & He & Hoff & Hkept & Hdone).
  cbn [uvm_heap_grow_loop] in H. rewrite Hlt in H. cbn [negb] in H.
  destruct (pmem_alloc st false) as [[st1 u]|?|] eqn:Hal; cbn [bind] in H; try discriminate.
  destruct (u =? 0) eqn:Euz; cbn [negb assert bind] in H; [discriminate|].
  set (st2 := set_mem st1 (memset (mem st1) u 0 PGSIZE)) in *.
  destruct (vm_mappages st2 root va u PGSIZE (Z.lor (Z.lor (Z.lor PTE_U PTE_R) PTE_W) PTE_V))
    as [st3|?|] eqn:Hmap; cbn [bind] in H; try discriminate.
  set (C := map snd M) in *.
  assert (HLnd : NoDup ((root :: N1 ++ N0 ++ KL) ++ UL ++ C)).
  { apply (Permutation_NoDup (Permutation_sym Hperm)). exact HP0nd. }
  assert (HLgood : forall g, In g ((root :: N1 ++ N0 ++ KL) ++ UL ++ C) -> good_frame g).
  { intros g Hg. rewrite Forall_forall in HP0good. apply HP0good.
    apply (Permutation_in g Hperm Hg). }
  destruct (sc_alloc_ok _ _ _ _ Hal) as (_ & _ & _ & _ & Er1 & _).
  cbn [region] in Er1.
  destruct (sc_user_page_step root st N1 N0 KL UL C st1 u st2 va _ st3 Ht Hu HLnd Hal
              eq_refl eq_refl
              (fun x Hx => memset_other (mem st1) u 0 PGSIZE x Hx) Hva Hmap)
    as (N1' & N0' & KL' & UL' & EUL & Hgu & Ht3 & Hu3 & Hp3 & Hoff3 & Hfru & Hl3 & Eleaf & Hk3
        & Hreg3).
  subst UL.
  destruct (NoDup_app_inv _ _ HLnd) as (_ & HndU & HdT).
  assert (HndU2 : NoDup (u :: UL' ++ C)) by exact HndU.
  assert (HuR : ~ In u (UL' ++ C)) by (inversion HndU2; assumption).
  (* frames handed out earlier are untouched *)
  assert (HfrC : forall c, In c C -> forall x, c <= x < c + PGSIZE -> mem st3 x = mem st x).
  { intros c Hc x Hx. apply Hoff3.
    assert (HcL : In c ((root :: N1 ++ N0 ++ KL) ++ (u :: UL') ++ C)).
    { apply in_or_app. right. apply in_or_app. right. exact Hc. }
    apply (frame_off _ c); [|exact (HLgood c HcL)| |exact Hx].
    - apply Forall_forall. intros g Hg. apply HLgood.
      apply in_app_or in Hg. destruct Hg as [Hg|[<-|[]]].
      + apply in_or_app. left; exact Hg.
      + apply in_or_app. right. left; reflexivity.
    - intros Hin. apply in_app_or in Hin. destruct Hin as [Hin|[<-|[]]].
      + apply (HdT c Hin). right. apply in_or_app. right; exact Hc.
      + apply HuR. apply in_or_app. right; exact Hc. }
  exists st3, N1', N0', KL', UL', u.
  split; [|split; [exact (sc_map_ok_range _ _ _ _ _ _ Hmap)|exact H]].
  split; [exact Ht3|]. split; [exact Hu3|].
  split; [exact (Permutation_trans Hp3 Hperm)|].
  split.
  { rewrite HUL0. cbn [map snd rev]. fold C. rewrite <- app_assoc. reflexivity. }
  split; [rewrite Hreg3, Er1; exact Hb|].
  split; [rewrite Hreg3, Er1; exact He|].
  split.
  { intros x Hx. rewrite Hoff3; [apply Hoff; exact Hx|].
    intros g Hg. apply Hx. apply (Permutation_in g Hperm).
    apply in_app_or in Hg. destruct Hg as [Hg|[<-|[]]].
    - apply in_or_app. left; exact Hg.
    - apply in_or_app. right. left; reflexivity. }
  split; [exact (leaves_kept_trans _ _ _ _ Hkept Hk3)|].
  intros va' c [E|Hva'].
  - injection E as <- <-.
    destruct Hgu as (Hunz & Ru & Au).
    destruct (leaf_pte_facts u (Z.lor (Z.lor (Z.lor PTE_U PTE_R) PTE_W) PTE_V) Ru Au
                ltac:(vm_compute; split; [discriminate|reflexivity]))
      as (_ & Lv & Lp & Lf & _).
    split.
    + unfold page_at. cbv zeta. rewrite Eleaf.
      split; [exact Hl3|]. split; [exact Lv|]. split; [rewrite Lf; reflexivity|exact Lp].
    + intros off Ho. rewrite Hfru by lia. unfold st2. cbn [set_mem mem].
      rewrite memset_in by lia. reflexivity.
  - destruct (Hdone va' c Hva') as ((Hl & Hv & Hf & Hc) & Hz).
    destruct (Hk3 va' Hl Hv) as (El & Ee).
    split.
    + unfold page_at. cbv zeta. rewrite Ee, El.
      split; [exact Hl|]. split; [exact Hv|]. split; [exact Hf|exact Hc].
    + intros off Ho.
      assert (HinC : In c C) by (apply (in_map snd M (va', c)); exact Hva').
      rewrite (HfrC _ HinC) by lia. apply Hz. exact Ho.
Qed.

(** The loop of [uvm_heap_grow]: the pages it maps are the pages
    [range_pages] lists. *)
Lemma grow_loop_inv : forall n st N1 N0 KL UL M va e st',
  grow_inv st0 root P0 UL0 st N1 N0 KL UL M ->
  0 <= va -> (va < e -> va <= VA_MAX) ->
  uvm_heap_grow_loop n st root va e = Ok st' ->
  exists N1' N0' KL' UL' Mn,
    grow_inv st0 root P0 UL0 st' N1' N0' KL' UL' (Mn ++ M) /\
    map fst (rev Mn) = range_pages n va e.
Proof.
  induction n as [|n IH]; intros st N1 N0 KL UL M va e st' Hinv Hb Hmax H.
  - cbn [uvm_heap_grow_loop] in H. injection H as <-.
    exists N1, N0, KL, UL, []. split; [exact Hinv|reflexivity].
  - cbn [range_pages]. destruct (va <? e) eqn:Hlt.
    + pose proof Hlt as Hlt'. apply Z.ltb_lt in Hlt'.
      pose proof (Hmax Hlt') as Hva.
      assert (Hva64 : 0 <= va < 2 ^ 64) by (unfold VA_MAX in Hva; lia).
      destruct (grow_page_step n st N1 N0 KL UL M va e st' Hinv Hva64 Hlt H)
        as (st4 & N1a & N0a & KLa & ULa & u & Hinv4 & Hnext & Hloop).
      assert (Hw : 0 <= wrap64 (va + PGSIZE)).
      { unfold wrap64. apply Z.mod_pos_bound. lia. }
      destruct (IH st4 N1a N0a KLa ULa ((va, u) :: M) (wrap64 (va + PGSIZE)) e st' Hinv4
                  Hw ltac:(intros _; exact Hnext) Hloop)
        as (N1' & N0' & KL' & UL' & Mn & Hinv' & Hpages).
      exists N1', N0', KL', UL', (Mn ++ [(va, u)]).
      split; [rewrite <- app_assoc; exact Hinv'|].
      rewrite rev_app_distr. cbn [rev app map fst]. rewrite Hpages. reflexivity.
    + cbn [uvm_heap_grow_loop] in H. rewrite Hlt in H. cbn [negb] in H. injection H as <-.
      exists N1, N0, KL, UL, []. split; [exact Hinv|reflexivity].
Qed.

End syscall_user_page.

(** [range_pages] lists every page of the extent. *)
Lemma range_pages_in : forall k n b e,
  (k < n)%nat -> 0 <= b -> b + PGSIZE * Z.of_nat k < e -> e <= 2 ^ 64 ->
  In (b + PGSIZE * Z.of_nat k) (Syscall.range_pages n b e).
Proof.
  induction k as [|k IH]; intros n b e Hk Hb Hlt He.
  - destruct n as [|n]; [lia|]. cbn [Syscall.range_pages].
    assert (E : (b <? e) = true) by (apply Z.ltb_lt; lia).
    rewrite E. left. lia.
  - destruct n as [|n]; [lia|]. cbn [Syscall.range_pages].
    assert (E : (b <? e) = true) by (apply Z.ltb_lt; unfold PGSIZE in *; lia).
    rewrite E. right.
    rewrite wrap64_small by (unfold PGSIZE in *; lia).
    replace (b + PGSIZE * Z.of_nat (S k)) with (b + PGSIZE + PGSIZE * Z.of_nat k) by lia.
    apply IH; [lia|unfold PGSIZE; lia|lia|exact He].
Qed.

Lemma range_pages_complete : forall b e v,
  Syscall.in_range b e v -> 0 <= b -> e <= 2 ^ 64 ->
  In v (Syscall.range_pages (Syscall.frames_between b e) b e).
Proof.
  intros b e v ((Hv1 & Hv2) & Hm) Hb He.
  assert (Ev : v = b + PGSIZE * Z.of_nat (Z.to_nat ((v - b) / PGSIZE))).
  { rewrite Z2Nat.id by (apply Z.div_pos; unfold PGSIZE; lia).
    unfold PGSIZE in *. pose proof (Z.div_mod (v - b) 4096 ltac:(lia)). lia. }
  rewrite Ev. apply range_pages_in; [|exact Hb|rewrite <- Ev; exact Hv2|exact He].
  pose proof (frames_between_bound b e ltac:(lia)) as (_ & Hn).
  apply Nat2Z.inj_lt. rewrite Z2Nat.id by (apply Z.div_pos; unfold PGSIZE; lia).
  unfold PGSIZE in *. pose proof (Z.div_mod (v - b) 4096 ltac:(lia)). lia.
Qed.

Lemma round_up_le : forall h va, va mod PGSIZE = 0 -> h <= va ->
  (h + PGSIZE - 1) / PGSIZE * PGSIZE <= va /\
  (va - (h + PGSIZE - 1) / PGSIZE * PGSIZE) mod PGSIZE = 0.
Proof.
  intros h va Hva Hle. unfold PGSIZE in *.
  pose proof (Z.div_mod (h + 4096 - 1) 4096 ltac:(lia)).
  pose proof (Z.mod_pos_bound (h + 4096 - 1) 4096 ltac:(lia)).
  pose proof (Z.div_mod va 4096 ltac:(lia)).
  split; [lia|].
  replace (va - (h + 4096 - 1) / 4096 * 4096)
    with ((va / 4096 - (h + 4096 - 1) / 4096) * 4096) by lia.
  apply Z.mod_mul. lia.
Qed.

Lemma round_down_lt : forall t va, va mod PGSIZE = 0 -> va + PGSIZE <= t ->
  va < t / PGSIZE * PGSIZE.
Proof.
  intros t va Hva Hle. unfold PGSIZE in *.
  pose proof (Z.div_mod t 4096 ltac:(lia)).
  pose proof (Z.mod_pos_bound t 4096 ltac:(lia)).
  pose proof (Z.div_mod va 4096 ltac:(lia)).
  lia.
Qed.

(** X7 (系统调用, [uvm_heap_grow]): on a tree and free lists in order,
    a call that completes returns [heap_top + len], which is at most
    [TRAPFRAME - 2 * PGSIZE]; every whole page lying between the old
    and the new heap top is then mapped with [PTE_U | PTE_R | PTE_W |
    PTE_V] to a frame taken from the user free list that is all zero;
    and every page that was mapped before has the leaf it had. *)
Theorem syscall_heap_grow_pages :
  forall st root heap_top len N1 N0 KL UL st' top',
  Syscall.tree_inv st root N1 N0 KL ->
  Syscall.region_inv (Syscall.mem st) (Syscall.user_region st) UL ->
  NoDup ((root :: N1 ++ N0 ++ KL) ++ UL) ->
  0 <= heap_top -> 0 < len -> heap_top + len < 2 ^ 64 -> root <> 0 ->
  Syscall.uvm_heap_grow st root heap_top len = Ok (st', top') ->
  top' = heap_top + len /\
  top' <= Syscall.TRAPFRAME - 2 * PGSIZE /\
  Syscall.leaves_kept st st' root /\
  (forall va, va mod PGSIZE = 0 -> heap_top <= va -> va + PGSIZE <= heap_top + len ->
     Syscall.zero_page_at st' root UL (Z.lor (Z.lor (Z.lor PTE_U PTE_R) PTE_W) PTE_V) va).
Proof.
  intros st root heap_top len N1 N0 KL UL st' top' Ht Hu Hnd Hh Hlen H64 Hroot H.
  unfold Syscall.uvm_heap_grow in H.
  assert (E1 : (len =? 0) = false) by (apply Z.eqb_neq; lia).
  assert (E2 : (root =? 0) = false) by (apply Z.eqb_neq; exact Hroot).
  rewrite E1, E2 in H. cbn [orb] in H. cbv zeta in H.
  rewrite (wrap64_small (heap_top + len)) in H by lia.
  destruct (heap_top + len <=? Syscall.TRAPFRAME - 2 * PGSIZE) eqn:Hmax;
    cbn [assert bind] in H; [|discriminate].
  apply Z.leb_le in Hmax.
  assert (Hmaxv : heap_top + len <= 2 ^ 38 - 4 * 4096).
  { unfold Syscall.TRAPFRAME, Syscall.TRAMPOLINE, Syscall.VA_MAX, PGSIZE in Hmax. lia. }
  rewrite (wrap64_small (heap_top + PGSIZE - 1)) in H by (unfold PGSIZE; lia).
  set (A := (heap_top + PGSIZE - 1) / PGSIZE * PGSIZE) in *.
  set (B := (heap_top + len) / PGSIZE * PGSIZE) in *.
  assert (HA : 0 <= A <= heap_top + PGSIZE - 1).
  { unfold A, PGSIZE.
    pose proof (Z.div_mod (heap_top + 4096 - 1) 4096 ltac:(lia)).
    pose proof (Z.mod_pos_bound (heap_top + 4096 - 1) 4096 ltac:(lia)). lia. }
  assert (HB : 0 <= B <= heap_top + len).
  { unfold B, PGSIZE.
    pose proof (Z.div_mod (heap_top + len) 4096 ltac:(lia)).
    pose proof (Z.mod_pos_bound (heap_top + len) 4096 ltac:(lia)). lia. }
  rewrite (wrap64_small A), (wrap64_small B) in H by (unfold PGSIZE in *; lia).
  destruct (Syscall.uvm_heap_grow_loop (Syscall.frames_between A B) st root A B)
    as [st1|?|] eqn:Hloop; cbn [bind] in H; try discriminate.
  injection H as <- <-.
  set (P0 := (root :: N1 ++ N0 ++ KL) ++ UL) in *.
  assert (Hgood : Forall good_frame P0).
  { apply Forall_app. split; [exact (tree_inv_frames _ _ _ _ _ Ht)|].
    apply Forall_forall. intros f Hf. exact (region_inv_frames _ _ _ _ Hu Hf). }
  assert (Hinv : Syscall.grow_inv st root P0 UL st N1 N0 KL UL []).
  { split; [exact Ht|]. split; [exact Hu|].
    split; [cbn [map]; rewrite app_nil_r; apply Permutation_refl|].
    split; [reflexivity|]. split; [reflexivity|]. split; [reflexivity|].
    split; [intros; reflexivity|].
    split; [intros va _ _; split; reflexivity|intros v c []]. }
  destruct (grow_loop_inv st root P0 UL Hnd Hgood _ st N1 N0 KL UL [] A B st1 Hinv
              ltac:(lia) ltac:(unfold Syscall.VA_MAX, PGSIZE in *; lia) Hloop)
    as (N1' & N0' & KL' & UL' & Mn & Hinv' & Hpages).
  rewrite app_nil_r in Hinv'.
  destruct Hinv' as (_ & _ & _ & HUL & _ & _ & _ & Hkept & Hdone).
  split; [reflexivity|]. split; [exact Hmax|]. split; [exact Hkept|].
  intros va Hva Hge Hle.
  destruct (round_up_le heap_top va Hva Hge) as (HAle & HAmod). fold A in HAle, HAmod.
  pose proof (round_down_lt (heap_top + len) va Hva Hle) as HBlt. fold B in HBlt.
  assert (Hin : In va (map fst (rev Mn))).
  { rewrite Hpages. apply range_pages_complete; [split; [lia|exact HAmod]|lia|].
    unfold PGSIZE in *. lia. }
  apply in_map_iff in Hin. destruct Hin as ((va1 & c) & Efst & Hin).
  cbn [fst] in Efst. subst va1. apply in_rev in Hin.
  destruct (Hdone va c Hin) as ((Hl & Hv & Hf & Hc) & Hz).
  split; [exact Hl|]. split; [exact Hv|]. split; [exact Hf|].
  split; [|rewrite Hc; exact Hz].
  rewrite Hc, HUL. apply in_or_app. left. apply in_rev. rewrite rev_involutive.
  apply (in_map snd Mn (va, c)). exact Hin.
Qed.

(** X8 (系统调用, [uvm_heap_grow]): only whole pages are mapped.  When
    no page boundary pair lies between the old and the new heap top,
    the call returns the new top and leaves the state as it is: the
    bytes of the heap above the last mapped page have no frame. *)
Theorem syscall_heap_grow_partial_page :
  forall st root heap_top len,
  root <> 0 -> 0 <= heap_top -> 0 < len ->
  heap_top + len <= Syscall.TRAPFRAME - 2 * PGSIZE ->
  (heap_top + len) / PGSIZE <= (heap_top + PGSIZE - 1) / PGSIZE ->
  Syscall.uvm_heap_grow st root heap_top len = Ok (st, heap_top + len).
Proof.
  intros st root heap_top len Hroot Hh Hlen Hmax Hpart.
  unfold Syscall.uvm_heap_grow.
  assert (E1 : (len =? 0) = false) by (apply Z.eqb_neq; lia).
  assert (E2 : (root =? 0) = false) by (apply Z.eqb_neq; exact Hroot).
  rewrite E1, E2. cbn [orb]. cbv zeta.
  assert (Hmaxv : heap_top + len <= 2 ^ 38 - 4 * 4096).
  { unfold Syscall.TRAPFRAME, Syscall.TRAMPOLINE, Syscall.VA_MAX, PGSIZE in Hmax. lia. }
  rewrite (wrap64_small (heap_top + len)) by lia.
  apply Z.leb_le in Hmax. rewrite Hmax. cbn [assert bind].
  rewrite (wrap64_small (heap_top + PGSIZE - 1)) by (unfold PGSIZE; lia).
  set (A := (heap_top + PGSIZE - 1) / PGSIZE * PGSIZE) in *.
  set (B := (heap_top + len) / PGSIZE * PGSIZE) in *.
  assert (HA : 0 <= A <= heap_top + PGSIZE - 1).
  { unfold A, PGSIZE.
    pose proof (Z.div_mod (heap_top + 4096 - 1) 4096 ltac:(lia)).
    pose proof (Z.mod_pos_bound (heap_top + 4096 - 1) 4096 ltac:(lia)). lia. }
  assert (HBA : 0 <= B <= A).
  { unfold A, B, PGSIZE in *.
    pose proof (Z.div_mod (heap_top + len) 4096 ltac:(lia)).
    pose proof (Z.mod_pos_bound (heap_top + len) 4096 ltac:(lia)). lia. }
  rewrite (wrap64_small A), (wrap64_small B) by (unfold PGSIZE in *; lia).
  assert (Hl : Syscall.uvm_heap_grow_loop (Syscall.frames_between A B) st root A B = Ok st).
  { destruct (Syscall.frames_between A B); cbn [Syscall.uvm_heap_grow_loop]; [reflexivity|].
    assert (E : (A <? B) = false) by (apply Z.ltb_ge; lia).
    rewrite E. reflexivity. }
  rewrite Hl. reflexivity.
Qed.

(** X7 at an example: the heap of [small_root] grown from 0x2000 by a
    page and a half; the page 0x2000 is mapped to a zero frame. *)
Lemma syscall_heap_grow_pages_witness :
  Syscall.tree_inv Syscall.grow_start Syscall.small_root Syscall.grow_N1 Syscall.grow_N0
    Syscall.grow_KL /\
  Syscall.region_inv (Syscall.mem Syscall.grow_start)
    (Syscall.user_region Syscall.grow_start) Syscall.grow_UL /\
  NoDup ((Syscall.small_root :: Syscall.grow_N1 ++ Syscall.grow_N0 ++ Syscall.grow_KL)
         ++ Syscall.grow_UL) /\
  0 <= 0x2000 /\ 0 < 0x1800 /\ 0x2000 + 0x1800 < 2 ^ 64 /\ Syscall.small_root <> 0 /\
  Syscall.uvm_heap_grow Syscall.grow_start Syscall.small_root 0x2000 0x1800
  = Ok (fst (get_ok (Syscall.uvm_heap_grow Syscall.grow_start Syscall.small_root 0x2000 0x1800)
               (Syscall.grow_start, 0)),
        snd (get_ok (Syscall.uvm_heap_grow Syscall.grow_start Syscall.small_root 0x2000 0x1800)
               (Syscall.grow_start, 0))) /\
  Syscall.zero_page_at
    (fst (get_ok (Syscall.uvm_heap_grow Syscall.grow_start Syscall.small_root 0x2000 0x1800)
            (Syscall.grow_start, 0)))
    Syscall.small_root Syscall.grow_UL (Z.lor (Z.lor (Z.lor PTE_U PTE_R) PTE_W) PTE_V) 0x2000.
Proof.
  assert (H1 : Syscall.tree_inv Syscall.grow_start Syscall.small_root Syscall.grow_N1
                 Syscall.grow_N0 Syscall.grow_KL).
  { apply tree_invb_sound. vm_compute. reflexivity. }
  assert (H2 : Syscall.region_inv (Syscall.mem Syscall.grow_start)
                 (Syscall.user_region Syscall.grow_start) Syscall.grow_UL).
  { apply region_invb_sound. vm_compute. reflexivity. }
  assert (H3 : NoDup ((Syscall.small_root :: Syscall.grow_N1 ++ Syscall.grow_N0
                       ++ Syscall.grow_KL) ++ Syscall.grow_UL)).
  { apply distinctb_NoDup. vm_compute. reflexivity. }
  assert (H4 : 0 <= 0x2000) by lia.
  assert (H5 : 0 < 0x1800) by lia.
  assert (H6 : 0x2000 + 0x1800 < 2 ^ 64) by lia.
  assert (H7 : Syscall.small_root <> 0) by (vm_compute; discriminate).
  assert (H8 : Syscall.uvm_heap_grow Syscall.grow_start Syscall.small_root 0x2000 0x1800
    = Ok (fst (get_ok (Syscall.uvm_heap_grow Syscall.grow_start Syscall.small_root 0x2000 0x1800)
               (Syscall.grow_start, 0)),
        snd (get_ok (Syscall.uvm_heap_grow Syscall.grow_start Syscall.small_root 0x2000 0x1800)
               (Syscall.grow_start, 0)))).
  { rewrite <- surjective_pairing. apply get_ok_eq. vm_compute. reflexivity. }
  repeat (split; [assumption|]).
  exact (proj2 (proj2 (proj2
           (syscall_heap_grow_pages Syscall.grow_start Syscall.small_root 0x2000 0x1800
              Syscall.grow_N1 Syscall.grow_N0 Syscall.grow_KL Syscall.grow_UL _ _
              H1 H2 H3 H4 H5 H6 H7 H8)))
         0x2000 eq_refl ltac:(lia) ltac:(unfold PGSIZE; lia)).
Defined.

(** X8 at an example: the heap grown from 0x2000 by 0xfff bytes. *)
Lemma syscall_heap_grow_partial_page_witness :
  Syscall.small_root <> 0 /\ 0 <= 0x2000 /\ 0 < 0xfff /\
  0x2000 + 0xfff <= Syscall.TRAPFRAME - 2 * PGSIZE /\
  (0x2000 + 0xfff) / PGSIZE <= (0x2000 + PGSIZE - 1) / PGSIZE /\
  Syscall.uvm_heap_grow Syscall.grow_start Syscall.small_root 0x2000 0xfff
  = Ok (Syscall.grow_start, 0x2000 + 0xfff).
Proof.
  assert (H1 : Syscall.small_root <> 0) by (vm_compute; discriminate).
  assert (H2 : 0 <= 0x2000) by lia.
  assert (H3 : 0 < 0xfff) by lia.
  assert (H4 : 0x2000 + 0xfff <= Syscall.TRAPFRAME - 2 * PGSIZE)
    by (vm_compute; discriminate).
  assert (H5 : (0x2000 + 0xfff) / PGSIZE <= (0x2000 + PGSIZE - 1) / PGSIZE)
    by (vm_compute; discriminate).
  repeat (split; [assumption|]).
  exact (syscall_heap_grow_partial_page Syscall.grow_start Syscall.small_root 0x2000 0xfff
           H1 H2 H3 H4 H5).
Defined.

(** ** 系统调用: [uvm_heap_ungrow] *)

Section syscall_ungrow.
Import Syscall.

(** [pmem_free] of a frame of the region that is not free, in terms of
    the free list. *)
Lemma sc_free_inv : forall st k fl p,
  region_inv (mem st) (region st k) fl ->
  p <> 0 -> frame_in (begin (region st k)) (end_ (region st k)) p ->
  ~ In p fl -> Z.of_nat (length fl) + 1 < 2 ^ 32 ->
  exists st',
    pmem_free st p k = Ok st' /\
    mem st' = store64 (memset (mem st) p 0 PGSIZE) p (list_head (region st k)) /\
    region_inv (mem st') (region st' k) (p :: fl) /\
    region st' (negb k) = region st (negb k).
Proof.
  intros st k fl p (Hfl & Hcnt & Hlt & Hnd & Hfr) Hnz Hpf Hnin Hlen.
  pose proof Hpf as (Hr & Ha & Hrg).
  set (st' := set_region (set_mem st (store64 (memset (mem st) p 0 PGSIZE) p
                                        (list_head (region st k)))) k
                (mk_region (begin (region st k)) (end_ (region st k))
                   (wrap32 (allocable (region st k) + 1)) p)).
  assert (Hf : pmem_free st p k = Ok st').
  { unfold pmem_free. rewrite Ha. cbn [Z.eqb negb].
    assert (E1 : (p <? begin (region st k)) = false) by (apply Z.ltb_ge; lia).
    assert (E2 : (end_ (region st k) <=? p) = false) by (apply Z.leb_gt; lia).
    rewrite E1, E2. reflexivity. }
  exists st'. split; [exact Hf|].
  destruct (sc_free_ok _ _ _ _ Hf) as (_ & _ & Em & Er & Eo).
  split; [exact Em|]. split; [|exact Eo].
  rewrite Er, Em.
  split; [|split; [|split; [|split]]]; cbn [begin end_ list_head allocable length].
  - apply (flist_push _ _ _ _ _ _ _ _ _ Hfl Hpf Hnz Hnin Hfr).
    exact (flist_head_range _ _ _ _ _ Hfl Hfr).
  - rewrite Hcnt. unfold wrap32. rewrite Z.mod_small; lia.
  - lia.
  - constructor; assumption.
  - constructor; assumption.
Qed.


(** A tree stays in order when memory changes off the root, the
    level-1 tables and the kernel free list. *)
Lemma tree_inv_ext0 : forall st st' root N1 N0 KL,
  tree_inv st root N1 N0 KL ->
  kern_region st' = kern_region st ->
  (forall f x, In f (root :: N1 ++ KL) -> f <= x < f + PGSIZE ->
     mem st' x = mem st x) ->
  tree_inv st' root N1 N0 KL.
Proof.
  intros st st' root N1 N0 KL (Hr & (Hc1 & Hc0) & Hnd & Hg) Ek Hm.
  split; [|split; [|split; assumption]].
  - rewrite Ek. apply (region_inv_ext (mem st)); [exact Hr|].
    intros f x Hf Hx. apply (Hm f); [|exact Hx].
    right. apply in_or_app. right; exact Hf.
  - split.
    + intros i Hi.
      rewrite (load64_frame (mem st) (mem st') root i Hi).
      * apply Hc1; exact Hi.
      * intros x Hx. apply (Hm root); [left; reflexivity|exact Hx].
    + intros t i Ht Hi.
      rewrite (load64_frame (mem st) (mem st') t i Hi).
      * apply Hc0; assumption.
      * intros x Hx. apply (Hm t); [|exact Hx]. right. apply in_or_app. left; exact Ht.
Qed.

Lemma clear_valid : forall e, 0 <= e ->
  0 <= Z.land e (int_to_u64 (Z.lnot PTE_V)) < 2 ^ 64 /\
  pte_valid (Z.land e (int_to_u64 (Z.lnot PTE_V))) = false.
Proof.
  intros e He. change (int_to_u64 (Z.lnot PTE_V)) with (2 ^ 64 - 2).
  split.
  - assert (Hn : 0 <= Z.land e (2 ^ 64 - 2)) by (apply Z.land_nonneg; right; lia).
    split; [exact Hn|].
    destruct (Z.eq_dec (Z.land e (2 ^ 64 - 2)) 0) as [->|Hne]; [lia|].
    apply Z.log2_lt_pow2; [lia|].
    pose proof (Z.log2_land e (2 ^ 64 - 2) He ltac:(lia)) as Hl.
    change (Z.log2 (2 ^ 64 - 2)) with 63 in Hl. lia.
  - unfold pte_valid, PTE_V. rewrite <- Z.land_assoc.
    change (Z.land (2 ^ 64 - 2) 1) with 0. rewrite Z.land_0_r. reflexivity.
Qed.

Variables (root : Z) (N1 N0 KL : list Z).

(** One mapped page of [uvm_heap_ungrow]: its frame goes back to the
    user free list and the valid bit of its leaf is cleared. *)
Lemma ungrow_step : forall st UL va,
  tree_inv st root N1 N0 KL ->
  region_inv (mem st) (user_region st) UL ->
  lookup st root va <> 0 ->
  pte_valid (load64 (mem st) (lookup st root va)) = true ->
  let a := lookup st root va in
  let c := PTE_TO_PA (load64 (mem st) a) in
  c <> 0 -> begin (user_region st) <= c < end_ (user_region st) ->
  NoDup ((root :: N1 ++ N0 ++ KL) ++ c :: UL) ->
  Z.of_nat (length UL) + 1 < 2 ^ 32 ->
  exists st3,
    (st2 <- pmem_free st c false ;;
     Ok (set_mem st2 (store64 (mem st2) a
                        (Z.land (load64 (mem st2) a) (int_to_u64 (Z.lnot PTE_V)))))) = Ok st3 /\
    tree_inv st3 root N1 N0 KL /\
    region_inv (mem st3) (user_region st3) (c :: UL) /\
    kern_region st3 = kern_region st /\
    begin (user_region st3) = begin (user_region st) /\
    end_ (user_region st3) = end_ (user_region st) /\
    (forall x, x < c \/ c + PGSIZE <= x -> x < a \/ a + 8 <= x -> mem st3 x = mem st x) /\
    pte_valid (load64 (mem st3) a) = false /\
    (forall g x, In g (root :: N1) -> g <= x < g + PGSIZE -> mem st3 x = mem st x) /\
    (forall t j, In t N0 -> 0 <= j < 512 -> t + 8 * j <> a ->
       load64 (mem st3) (t + 8 * j) = load64 (mem st) (t + 8 * j)).
Proof.
  intros st UL va Ht Hu Hl Hv a c Hcnz Hcr HndA Hlen.
  destruct (lookup_tables st root N1 N0 KL va Ht Hl)
    as (t1 & t0 & Hin1 & Hin0 & _ & _ & _ & _ & El).
  fold a in El.
  pose proof (tree_inv_frames _ _ _ _ _ Ht) as HgT. rewrite Forall_forall in HgT.
  assert (Hgc : good_frame c).
  { split; [exact Hcnz|]. split; [apply PTE_TO_PA_range|apply PTE_TO_PA_aligned]. }
  assert (Hpf : frame_in (begin (region st false)) (end_ (region st false)) c).
  { split; [apply PTE_TO_PA_range|]. split; [apply PTE_TO_PA_aligned|exact Hcr]. }
  destruct (NoDup_app_inv _ _ HndA) as (HndT & HndCU & HdTU).
  assert (HcUL : ~ In c UL) by (inversion HndCU; assumption).
  assert (HcT : forall t, In t (root :: N1 ++ N0 ++ KL) -> t <> c).
  { intros t Hin ->. apply (HdTU c Hin). left; reflexivity. }
  destruct (sc_free_inv st false UL c Hu Hcnz Hpf HcUL Hlen) as (st2 & Hf & Em & Hu2 & Hk2).
  cbn [negb region] in Hk2, Hu2.
  destruct (sc_free_ok _ _ _ _ Hf) as (_ & _ & _ & Er2 & _). cbn [region] in Er2.
  assert (Hoff2 : forall x, x < c \/ c + PGSIZE <= x -> mem st2 x = mem st x).
  { intros x Hx. rewrite Em. rewrite store64_other by (unfold PGSIZE in *; lia).
    apply memset_other. exact Hx. }
  assert (Hfr2 : forall t, In t (root :: N1 ++ N0 ++ KL) ->
                 forall x, t <= x < t + PGSIZE -> mem st2 x = mem st x).
  { intros t Hin x Hx. apply Hoff2.
    destruct (good_frame_apart t c (HgT t Hin) Hgc (HcT t Hin)); lia. }
  assert (Hint0 : In t0 (root :: N1 ++ N0 ++ KL)) by (apply in_tree_cases; tauto).
  assert (G0 : good_frame t0) by (apply HgT; exact Hint0).
  assert (Ea2 : load64 (mem st2) a = load64 (mem st) a).
  { rewrite El. apply load64_frame; [apply VPN_range|]. apply Hfr2. exact Hint0. }
  destruct (clear_valid (load64 (mem st) a) (proj1 (load64_range _ _))) as (Rc & Vc).
  rewrite Hf. cbn [bind]. eexists. split; [reflexivity|].
  rewrite Ea2. cbn [set_mem mem kern_region user_region].
  destruct G0 as (_ & _ & A0).
  (* the leaf entry is apart from every other frame *)
  assert (Hent : forall g, g mod PGSIZE = 0 -> g <> t0 ->
                 forall x, g <= x < g + PGSIZE -> x < a \/ a + 8 <= x).
  { intros g Ag Hne x Hx. rewrite El. pose proof (VPN_range va 0).
    destruct (aligned_apart g t0 Ag A0 Hne); unfold PGSIZE in *; lia. }
  assert (Hnd2 : NoDup ((root :: N1) ++ N0 ++ KL)).
  { destruct Ht as (_ & _ & Hnd & _). exact Hnd. }
  destruct (NoDup_app_inv _ _ Hnd2) as (_ & Hnd3 & Hd1).
  destruct (NoDup_app_inv _ _ Hnd3) as (_ & _ & Hd0).
  split.
  { apply (tree_inv_ext0 st); [exact Ht|cbn [kern_region]; exact Hk2|].
    intros g x Hg Hx. cbn [set_mem mem].
    assert (HgT' : In g (root :: N1 ++ N0 ++ KL)).
    { apply in_tree_cases. destruct Hg as [<-|Hg]; [tauto|].
      apply in_app_or in Hg. tauto. }
    assert (Hne : g <> t0).
    { intros ->. destruct Hg as [Hg|Hg].
      - apply (Hd1 t0 (or_introl Hg)). apply in_or_app. left; exact Hin0.
      - apply in_app_or in Hg. destruct Hg as [Hg|Hg].
        + apply (Hd1 t0 (or_intror Hg)). apply in_or_app. left; exact Hin0.
        + exact (Hd0 t0 Hin0 Hg). }
    rewrite store64_other
      by (apply (Hent g (proj2 (proj2 (HgT g HgT'))) Hne x Hx)).
    apply (Hfr2 g HgT' x Hx). }
  split.
  { rewrite Er2 in Hu2 |- *.
    apply (region_inv_ext (mem st2)); [exact Hu2|].
    intros g x Hg Hx.
    assert (Hgg : good_frame g).
    { apply (region_inv_frames _ _ _ g Hu2). exact Hg. }
    assert (Hne : g <> t0).
    { intros ->. apply (HdTU t0 Hint0). exact Hg. }
    apply store64_other. apply (Hent g (proj2 (proj2 Hgg)) Hne x Hx). }
  split; [exact Hk2|].
  rewrite Er2. cbn [begin end_].
  split; [reflexivity|]. split; [reflexivity|].
  split.
  { intros x Hc Ha. rewrite store64_other by exact Ha. apply Hoff2. exact Hc. }
  split; [rewrite load64_store64_same by exact Rc; exact Vc|].
  split.
  { intros g x Hg Hx.
    assert (HgT' : In g (root :: N1 ++ N0 ++ KL)).
    { apply in_tree_cases. destruct Hg as [<-|Hg]; tauto. }
    assert (Hne : g <> t0).
    { intros ->. apply (Hd1 t0 Hg). apply in_or_app. left; exact Hin0. }
    rewrite store64_other
      by (apply (Hent g (proj2 (proj2 (HgT g HgT'))) Hne x Hx)).
    apply (Hfr2 g HgT' x Hx). }
  intros t j Hin Hj Hne.
  assert (HtT : In t (root :: N1 ++ N0 ++ KL)) by (apply in_tree_cases; tauto).
  destruct (HgT t HtT) as (_ & _ & At).
  rewrite load64_store64_other.
  - apply load64_frame; [exact Hj|]. apply Hfr2. exact HtT.
  - rewrite El in Hne |- *.
    destruct (entry_cases t j t0 (VA_TO_VPN va 0) At A0 Hj (VPN_range va 0))
      as [(-> & ->)|H]; [contradiction|lia].
Qed.

Lemma lookup_same : forall st st',
  tree_inv st root N1 N0 KL ->
  (forall g x, In g (root :: N1) -> g <= x < g + PGSIZE -> mem st' x = mem st x) ->
  forall v, lookup st' root v = lookup st root v.
Proof.
  intros st st' (_ & (Hc1 & _) & _ & _) Hm v. unfold lookup. cbv zeta.
  rewrite (load64_frame (mem st) (mem st') root _ (VPN_range v 2))
    by (intros x Hx; apply (Hm root); [left; reflexivity|exact Hx]).
  destruct (pte_valid (load64 (mem st) (root + 8 * VA_TO_VPN v 2))) eqn:V2; [|reflexivity].
  rewrite (load64_frame (mem st) (mem st') _ _ (VPN_range v 1))
    by (intros x Hx; apply (Hm _ x (or_intror (Hc1 _ (VPN_range v 2) V2)) Hx)).
  reflexivity.
Qed.

Lemma in_ungrow_frees : forall st pages v,
  In v pages -> lookup st root v <> 0 ->
  pte_valid (load64 (mem st) (lookup st root v)) = true ->
  In (PTE_TO_PA (load64 (mem st) (lookup st root v))) (ungrow_frees st root pages).
Proof.
  intros st pages v Hin Hl Hv. unfold ungrow_frees. apply in_flat_map.
  exists v. split; [exact Hin|].
  apply Z.eqb_neq in Hl. rewrite Hl, Hv. left; reflexivity.
Qed.

Lemma ungrow_frees_ext : forall st st' pages,
  (forall v, In v pages ->
     lookup st' root v = lookup st root v /\
     (lookup st root v <> 0 ->
      load64 (mem st') (lookup st root v) = load64 (mem st) (lookup st root v))) ->
  ungrow_frees st' root pages = ungrow_frees st root pages.
Proof.
  intros st st' pages. induction pages as [|v l IH]; intros H; [reflexivity|].
  unfold ungrow_frees in *. cbn [flat_map].
  rewrite IH by (intros w Hw; apply H; right; exact Hw).
  destruct (H v (or_introl eq_refl)) as (El & Ee). rewrite El.
  destruct (lookup st root v =? 0) eqn:Ez; [reflexivity|].
  apply Z.eqb_neq in Ez. rewrite (Ee Ez). reflexivity.
Qed.


Lemma NoDup_app_intro : forall (l1 l2 : list Z),
  NoDup l1 -> NoDup l2 -> (forall x, In x l1 -> ~ In x l2) -> NoDup (l1 ++ l2).
Proof.
  induction l1 as [|a l1 IH]; intros l2 H1 H2 Hd; [exact H2|].
  cbn [app]. inversion H1 as [|? ? Hn Hnd]; subst. constructor.
  - intros Hin. apply in_app_or in Hin. destruct Hin as [Hin|Hin]; [exact (Hn Hin)|].
    exact (Hd a (or_introl eq_refl) Hin).
  - apply IH; [exact Hnd|exact H2|]. intros x Hx. apply Hd. right; exact Hx.
Qed.

(** The loop of [uvm_heap_ungrow] completes when the frames of the
    mapped pages are distinct frames of the user region that are
    neither free nor tables; they are then on the user free list, the
    last page's frame first, and the leaves are no longer valid. *)
Lemma ungrow_loop_ok : forall n st UL va e,
  tree_inv st root N1 N0 KL ->
  region_inv (mem st) (user_region st) UL ->
  NoDup ((root :: N1 ++ N0 ++ KL) ++ UL ++ ungrow_frees st root (range_pages n va e)) ->
  Forall (fun c => c <> 0 /\ begin (user_region st) <= c < end_ (user_region st))
         (ungrow_frees st root (range_pages n va e)) ->
  Z.of_nat (length UL) + Z.of_nat (length (ungrow_frees st root (range_pages n va e)))
    < 2 ^ 32 ->
  exists st',
    uvm_heap_ungrow_loop n st root va e = Ok st' /\
    tree_inv st' root N1 N0 KL /\
    region_inv (mem st') (user_region st')
               (rev (ungrow_frees st root (range_pages n va e)) ++ UL) /\
    kern_region st' = kern_region st /\
    (forall g x, In g (root :: N1) -> g <= x < g + PGSIZE -> mem st' x = mem st x) /\
    (forall t j, In t N0 -> 0 <= j < 512 ->
       pte_valid (load64 (mem st) (t + 8 * j)) = false \/
       ~ In (PTE_TO_PA (load64 (mem st) (t + 8 * j)))
            (ungrow_frees st root (range_pages n va e)) ->
       load64 (mem st') (t + 8 * j) = load64 (mem st) (t + 8 * j)) /\
    (forall v, In v (range_pages n va e) -> lookup st root v <> 0 ->
       pte_valid (load64 (mem st') (lookup st root v)) = false).
Proof.
  induction n as [|n IH]; intros st UL va e Ht Hu Hnd Hfr Hlen.
  - exists st. cbn [uvm_heap_ungrow_loop range_pages ungrow_frees flat_map rev app].
    split; [reflexivity|]. split; [exact Ht|]. split; [exact Hu|].
    split; [reflexivity|]. split; [intros; reflexivity|].
    split; [intros; reflexivity|intros v []].
  - cbn [uvm_heap_ungrow_loop range_pages] in *.
    destruct (va <? e) eqn:Hlt; cbn [negb].
    2:{ exists st. cbn [ungrow_frees flat_map rev app].
        split; [reflexivity|]. split; [exact Ht|]. split; [exact Hu|].
        split; [reflexivity|]. split; [intros; reflexivity|].
        split; [intros; reflexivity|intros v []]. }
    rewrite sc_getpte_noalloc. cbn [bind].
    set (rest := range_pages n (wrap64 (va + PGSIZE)) e) in *.
    unfold ungrow_frees in Hnd, Hfr, Hlen |- *. cbn [flat_map] in Hnd, Hfr, Hlen |- *.
    fold (ungrow_frees st root rest) in Hnd, Hfr, Hlen |- *.
    destruct (negb (lookup st root va =? 0)
              && pte_valid (load64 (mem st) (lookup st root va))) eqn:Hmapped.
    + (* a mapped page *)
      apply andb_prop in Hmapped. destruct Hmapped as (Hl & Hv).
      apply negb_true_iff in Hl. apply Z.eqb_neq in Hl.
      set (a := lookup st root va) in *.
      set (c := PTE_TO_PA (load64 (mem st) a)) in *.
      set (Fr := ungrow_frees st root rest) in *.
      change ([c] ++ Fr) with (c :: Fr) in *.
      set (T := root :: N1 ++ N0 ++ KL) in *.
      (* the distinctness facts *)
      destruct (NoDup_app_inv _ _ Hnd) as (HndT & HndUF & HdT).
      assert (HndcUF : NoDup (c :: UL ++ Fr)).
      { apply (Permutation_NoDup (l := UL ++ c :: Fr)); [|exact HndUF].
        apply Permutation_sym. apply Permutation_middle. }
      assert (HndA : NoDup (T ++ c :: UL)).
      { apply NoDup_app_intro; [exact HndT| |].
        - change (c :: UL ++ Fr) with ((c :: UL) ++ Fr) in HndcUF.
          exact (proj1 (NoDup_app_inv _ _ HndcUF)).
        - intros x Hx Hin. apply (HdT x Hx).
          destruct Hin as [<-|Hin]; apply in_or_app; [right; left; reflexivity|left; exact Hin]. }
      assert (HcFr : ~ In c Fr).
      { inversion HndcUF as [|? ? Hn _]; subst. intros Hin. apply Hn.
        apply in_or_app. right; exact Hin. }
      pose proof (Forall_inv Hfr) as (Hcnz & Hcr).
      pose proof (Forall_inv_tail Hfr) as Hfr'.
      cbn [length] in Hlen.
      destruct (ungrow_step st UL va Ht Hu Hl Hv Hcnz Hcr HndA ltac:(lia))
        as (st3 & Hstep & Ht3 & Hu3 & Hk3 & Hb3 & He3 & Hoff3 & Hinv3 & Hup3 & Hent3).
      fold a c in Hstep, Hoff3, Hinv3, Hent3.
      rewrite Hstep. cbn [bind].
      pose proof (lookup_same st st3 Ht Hup3) as Hlook3.
      destruct (lookup_tables st root N1 N0 KL va Ht Hl)
        as (t1 & t0 & Hin1 & Hin0 & _ & _ & _ & _ & El). fold a in El.
      (* the remaining pages read the same *)
      assert (Hrest : forall v, In v rest -> lookup st root v <> 0 ->
                load64 (mem st3) (lookup st root v) = load64 (mem st) (lookup st root v)).
      { intros v Hin Hlv.
        destruct (lookup_tables st root N1 N0 KL v Ht Hlv)
          as (t1' & t0' & _ & Hin0' & _ & _ & _ & _ & El').
        rewrite El'. apply Hent3; [exact Hin0'|apply VPN_range|].
        rewrite <- El'. intros E.
        apply HcFr. unfold c. rewrite <- E.
        apply in_ungrow_frees; [exact Hin|exact Hlv|rewrite E; exact Hv]. }
      assert (EFr : ungrow_frees st3 root rest = Fr).
      { apply ungrow_frees_ext. intros v Hin. split; [apply Hlook3|apply Hrest; exact Hin]. }
      destruct (IH st3 (c :: UL) (wrap64 (va + PGSIZE)) e Ht3 Hu3) as
        (st' & Hloop & Ht' & Hu' & Hk' & Hup' & HL' & HP').
      { fold rest. rewrite EFr.
        apply (Permutation_NoDup (l := T ++ UL ++ c :: Fr)); [|exact Hnd].
        apply Permutation_app_head. apply Permutation_sym.
        cbn [app]. apply Permutation_middle. }
      { fold rest. rewrite EFr, Hb3, He3. exact Hfr'. }
      { fold rest. rewrite EFr. cbn [length]. lia. }
      fold rest in Hloop, Hu', HL', HP'. rewrite EFr in Hu', HL'.
      exists st'. split; [exact Hloop|]. split; [exact Ht'|].
      split; [cbn [rev]; rewrite <- app_assoc; exact Hu'|].
      split; [congruence|].
      split; [intros g x Hg Hx; rewrite (Hup' g x Hg Hx); apply (Hup3 g x Hg Hx)|].
      split.
      * intros t j Hin Hj Hcond.
        assert (Hne : t + 8 * j <> a).
        { intros E. rewrite E in Hcond. destruct Hcond as [Hc|Hc]; [congruence|].
          apply Hc. left; reflexivity. }
        pose proof (Hent3 t j Hin Hj Hne) as E3.
        rewrite <- E3. apply HL'; [exact Hin|exact Hj|].
        rewrite E3. destruct Hcond as [Hc|Hc]; [left; exact Hc|right].
        intros Hi. apply Hc. right; exact Hi.
      * intros v [<-|Hin] Hlv.
        -- fold a. rewrite El.
           rewrite (HL' t0 _ Hin0 (VPN_range va 0)); rewrite <- El; [exact Hinv3|].
           left. exact Hinv3.
        -- rewrite <- (Hlook3 v). apply HP'; [exact Hin|]. rewrite Hlook3. exact Hlv.
    + (* a page without a valid leaf is skipped *)
      change ([] ++ ungrow_frees st root rest) with (ungrow_frees st root rest) in *.
      cbn [bind].
      destruct (IH st UL (wrap64 (va + PGSIZE)) e Ht Hu Hnd Hfr Hlen) as
        (st' & Hloop & Ht' & Hu' & Hk' & Hup' & HL' & HP').
      fold rest in Hloop, Hu', HL', HP'.
      exists st'. split; [exact Hloop|]. split; [exact Ht'|]. split; [exact Hu'|].
      split; [exact Hk'|]. split; [exact Hup'|]. split; [exact HL'|].
      intros v [<-|Hin] Hlv; [|exact (HP' v Hin Hlv)].
      assert (Hinv : pte_valid (load64 (mem st) (lookup st root va)) = false).
      { apply Z.eqb_neq in Hlv. rewrite Hlv in Hmapped. exact Hmapped. }
      destruct (lookup_tables st root N1 N0 KL va Ht Hlv)
        as (t1 & t0 & _ & Hin0 & _ & _ & _ & _ & El).
      rewrite El in Hinv |- *.
      rewrite (HL' t0 _ Hin0 (VPN_range va 0)); [exact Hinv|left; exact Hinv].
Qed.

End syscall_ungrow.

Lemma ungrow_pages_whole : forall heap_top len va,
  0 <= len <= heap_top -> heap_top < 2 ^ 64 ->
  va mod PGSIZE = 0 -> heap_top - len <= va -> va + PGSIZE <= heap_top ->
  In va (Syscall.ungrow_pages heap_top len).
Proof.
  intros heap_top len va Hlen H64 Hva Hge Hle. unfold Syscall.ungrow_pages. cbv zeta.
  rewrite (wrap64_small (heap_top - len)) by lia.
  rewrite (wrap64_small (heap_top - len + PGSIZE - 1)) by (unfold PGSIZE in *; lia).
  set (A := (heap_top - len + PGSIZE - 1) / PGSIZE * PGSIZE).
  set (B := heap_top / PGSIZE * PGSIZE).
  destruct (round_up_le (heap_top - len) va Hva Hge) as (HAle & HAmod).
  fold A in HAle, HAmod.
  pose proof (round_down_lt heap_top va Hva Hle) as HBlt. fold B in HBlt.
  assert (HA : 0 <= A).
  { unfold A, PGSIZE.
    pose proof (Z.div_mod (heap_top - len + 4096 - 1) 4096 ltac:(lia)).
    pose proof (Z.mod_pos_bound (heap_top - len + 4096 - 1) 4096 ltac:(lia)). lia. }
  assert (HB : B <= heap_top).
  { unfold B, PGSIZE.
    pose proof (Z.div_mod heap_top 4096 ltac:(lia)).
    pose proof (Z.mod_pos_bound heap_top 4096 ltac:(lia)). lia. }
  rewrite (wrap64_small A), (wrap64_small B) by (unfold PGSIZE in *; lia).
  apply range_pages_complete; [split; [lia|exact HAmod]|exact HA|lia].
Qed.

Lemma sc_heap_ungrow_ok :
  forall st root heap_top len N1 N0 KL UL,
  Syscall.tree_inv st root N1 N0 KL ->
  Syscall.region_inv (Syscall.mem st) (Syscall.user_region st) UL ->
  root <> 0 -> 0 < len <= heap_top -> heap_top < 2 ^ 64 ->
  2 * PGSIZE <= heap_top - len ->
  NoDup ((root :: N1 ++ N0 ++ KL) ++ UL
         ++ Syscall.ungrow_frees st root (Syscall.ungrow_pages heap_top len)) ->
  Forall (fun c => c <> 0 /\
            Syscall.begin (Syscall.user_region st) <= c < Syscall.end_ (Syscall.user_region st))
         (Syscall.ungrow_frees st root (Syscall.ungrow_pages heap_top len)) ->
  Z.of_nat (length UL)
  + Z.of_nat (length (Syscall.ungrow_frees st root (Syscall.ungrow_pages heap_top len)))
    < 2 ^ 32 ->
  exists st',
    Syscall.uvm_heap_ungrow st root heap_top len = Ok (st', heap_top - len) /\
    Syscall.kern_region st' = Syscall.kern_region st /\
    Syscall.region_inv (Syscall.mem st') (Syscall.user_region st')
      (rev (Syscall.ungrow_frees st root (Syscall.ungrow_pages heap_top len)) ++ UL) /\
    (forall v, Syscall.lookup st' root v = Syscall.lookup st root v) /\
    (forall va, va mod PGSIZE = 0 -> heap_top - len <= va -> va + PGSIZE <= heap_top ->
       Syscall.lookup st root va <> 0 ->
       pte_valid (load64 (Syscall.mem st') (Syscall.lookup st' root va)) = false) /\
    (forall v, Syscall.lookup st root v <> 0 ->
       pte_valid (load64 (Syscall.mem st) (Syscall.lookup st root v)) = true ->
       ~ In (PTE_TO_PA (load64 (Syscall.mem st) (Syscall.lookup st root v)))
            (Syscall.ungrow_frees st root (Syscall.ungrow_pages heap_top len)) ->
       load64 (Syscall.mem st') (Syscall.lookup st' root v)
       = load64 (Syscall.mem st) (Syscall.lookup st root v)).
Proof.
  intros st root heap_top len N1 N0 KL UL Ht Hu Hroot Hlen H64 Hmin Hnd Hfr Hcnt.
  unfold Syscall.ungrow_pages in Hnd, Hfr, Hcnt |- *. cbv zeta in Hnd, Hfr, Hcnt |- *.
  destruct (ungrow_loop_ok root N1 N0 KL _ st UL _ _ Ht Hu Hnd Hfr Hcnt)
    as (st' & Hloop & Ht' & Hu' & Hk' & Hup' & HL' & HP').
  pose proof (lookup_same root N1 N0 KL st st' Ht Hup') as Hlook.
  exists st'.
  split.
  { unfold Syscall.uvm_heap_ungrow.
    assert (E1 : (len =? 0) = false) by (apply Z.eqb_neq; lia).
    assert (E2 : (root =? 0) = false) by (apply Z.eqb_neq; exact Hroot).
    rewrite E1, E2. cbn [orb]. cbv zeta.
    assert (E3 : (2 * PGSIZE <=? wrap64 (heap_top - len)) = true).
    { apply Z.leb_le. rewrite wrap64_small by (unfold PGSIZE in *; lia). exact Hmin. }
    rewrite E3. cbn [assert bind]. rewrite Hloop. cbn [bind].
    rewrite wrap64_small by (unfold PGSIZE in *; lia). reflexivity. }
  split; [exact Hk'|]. split; [exact Hu'|]. split; [exact Hlook|].
  split.
  - intros va Hva Hge Hle Hl. rewrite Hlook. apply HP'; [|exact Hl].
    apply (ungrow_pages_whole heap_top len va); try assumption; lia.
  - intros v Hl Hv Hn. rewrite Hlook.
    destruct (lookup_tables st root N1 N0 KL v Ht Hl)
      as (t1 & t0 & _ & Hin0 & _ & _ & _ & _ & El).
    rewrite El in Hn |- *. apply HL'; [exact Hin0|apply VPN_range|right; exact Hn].
Qed.

(** X9 (系统调用, [uvm_heap_ungrow]): on a tree and a user free list
    in order, when the frames of the mapped pages the call visits are
    distinct non-null frames of the user region that are neither free
    nor page tables, the call completes and returns [heap_top - len];
    those frames are then on the user free list, the frame of the
    last page first; the kernel region and the tables are untouched,
    so every walk ends where it did; every whole page between the new
    and the old heap top has no valid leaf any more, and every other
    valid leaf is as it was. *)
Theorem syscall_heap_ungrow_frees :
  forall st root heap_top len N1 N0 KL UL,
  Syscall.tree_inv st root N1 N0 KL ->
  Syscall.region_inv (Syscall.mem st) (Syscall.user_region st) UL ->
  root <> 0 -> 0 < len <= heap_top -> heap_top < 2 ^ 64 ->
  2 * PGSIZE <= heap_top - len ->
  NoDup ((root :: N1 ++ N0 ++ KL) ++ UL
         ++ Syscall.ungrow_frees st root (Syscall.ungrow_pages heap_top len)) ->
  Forall (fun c => c <> 0 /\
            Syscall.begin (Syscall.user_region st) <= c < Syscall.end_ (Syscall.user_region st))
         (Syscall.ungrow_frees st root (Syscall.ungrow_pages heap_top len)) ->
  Z.of_nat (length UL)
  + Z.of_nat (length (Syscall.ungrow_frees st root (Syscall.ungrow_pages heap_top len)))
    < 2 ^ 32 ->
  exists st',
    Syscall.uvm_heap_ungrow st root heap_top len = Ok (st', heap_top - len) /\
    Syscall.kern_region st' = Syscall.kern_region st /\
    Syscall.region_inv (Syscall.mem st') (Syscall.user_region st')
      (rev (Syscall.ungrow_frees st root (Syscall.ungrow_pages heap_top len)) ++ UL) /\
    (forall v, Syscall.lookup st' root v = Syscall.lookup st root v) /\
    (forall va, va mod PGSIZE = 0 -> heap_top - len <= va -> va + PGSIZE <= heap_top ->
       Syscall.lookup st root va <> 0 ->
       pte_valid (load64 (Syscall.mem st') (Syscall.lookup st' root va)) = false) /\
    (forall v, Syscall.lookup st root v <> 0 ->
       pte_valid (load64 (Syscall.mem st) (Syscall.lookup st root v)) = true ->
       ~ In (PTE_TO_PA (load64 (Syscall.mem st) (Syscall.lookup st root v)))
            (Syscall.ungrow_frees st root (Syscall.ungrow_pages heap_top len)) ->
       load64 (Syscall.mem st') (Syscall.lookup st' root v)
       = load64 (Syscall.mem st) (Syscall.lookup st root v)).
Proof.
  intros st root heap_top len N1 N0 KL UL.
  exact (sc_heap_ungrow_ok st root heap_top len N1 N0 KL UL).
Qed.

(** What a completed [uvm_heap_grow] leaves behind. *)
Lemma grow_result : forall st root heap_top len N1 N0 KL UL st' top',
  Syscall.tree_inv st root N1 N0 KL ->
  Syscall.region_inv (Syscall.mem st) (Syscall.user_region st) UL ->
  NoDup ((root :: N1 ++ N0 ++ KL) ++ UL) ->
  0 <= heap_top -> 0 < len -> heap_top + len < 2 ^ 64 -> root <> 0 ->
  Syscall.uvm_heap_grow st root heap_top len = Ok (st', top') ->
  top' = heap_top + len /\
  top' <= Syscall.TRAPFRAME - 2 * PGSIZE /\
  exists N1' N0' KL' UL' Mn,
    Syscall.grow_inv st root ((root :: N1 ++ N0 ++ KL) ++ UL) UL st' N1' N0' KL' UL' Mn /\
    map fst (rev Mn)
    = Syscall.range_pages
        (Syscall.frames_between ((heap_top + PGSIZE - 1) / PGSIZE * PGSIZE)
                                ((heap_top + len) / PGSIZE * PGSIZE))
        ((heap_top + PGSIZE - 1) / PGSIZE * PGSIZE) ((heap_top + len) / PGSIZE * PGSIZE).
Proof.
  intros st root heap_top len N1 N0 KL UL st' top' Ht Hu Hnd Hh Hlen H64 Hroot H.
  unfold Syscall.uvm_heap_grow in H.
  assert (E1 : (len =? 0) = false) by (apply Z.eqb_neq; lia).
  assert (E2 : (root =? 0) = false) by (apply Z.eqb_neq; exact Hroot).
  rewrite E1, E2 in H. cbn [orb] in H. cbv zeta in H.
  rewrite (wrap64_small (heap_top + len)) in H by lia.
  destruct (heap_top + len <=? Syscall.TRAPFRAME - 2 * PGSIZE) eqn:Hmax;
    cbn [assert bind] in H; [|discriminate].
  apply Z.leb_le in Hmax.
  assert (Hmaxv : heap_top + len <= 2 ^ 38 - 4 * 4096).
  { unfold Syscall.TRAPFRAME, Syscall.TRAMPOLINE, Syscall.VA_MAX, PGSIZE in Hmax. lia. }
  rewrite (wrap64_small (heap_top + PGSIZE - 1)) in H by (unfold PGSIZE; lia).
  set (A := (heap_top + PGSIZE - 1) / PGSIZE * PGSIZE) in *.
  set (B := (heap_top + len) / PGSIZE * PGSIZE) in *.
  assert (HA : 0 <= A <= heap_top + PGSIZE - 1).
  { unfold A, PGSIZE.
    pose proof (Z.div_mod (heap_top + 4096 - 1) 4096 ltac:(lia)).
    pose proof (Z.mod_pos_bound (heap_top + 4096 - 1) 4096 ltac:(lia)). lia. }
  assert (HB : 0 <= B <= heap_top + len).
  { unfold B, PGSIZE.
    pose proof (Z.div_mod (heap_top + len) 4096 ltac:(lia)).
    pose proof (Z.mod_pos_bound (heap_top + len) 4096 ltac:(lia)). lia. }
  rewrite (wrap64_small A), (wrap64_small B) in H by (unfold PGSIZE in *; lia).
  destruct (Syscall.uvm_heap_grow_loop (Syscall.frames_between A B) st root A B)
    as [st1|?|] eqn:Hloop; cbn [bind] in H; try discriminate.
  injection H as <- <-.
  set (P0 := (root :: N1 ++ N0 ++ KL) ++ UL) in *.
  assert (Hgood : Forall good_frame P0).
  { apply Forall_app. split; [exact (tree_inv_frames _ _ _ _ _ Ht)|].
    apply Forall_forall. intros f Hf. exact (region_inv_frames _ _ _ _ Hu Hf). }
  assert (Hinv : Syscall.grow_inv st root P0 UL st N1 N0 KL UL []).
  { split; [exact Ht|]. split; [exact Hu|].
    split; [cbn [map]; rewrite app_nil_r; apply Permutation_refl|].
    split; [reflexivity|]. split; [reflexivity|]. split; [reflexivity|].
    split; [intros; reflexivity|].
    split; [intros va _ _; split; reflexivity|intros v c []]. }
  destruct (grow_loop_inv st root P0 UL Hnd Hgood _ st N1 N0 KL UL [] A B st1 Hinv
              ltac:(lia) ltac:(unfold Syscall.VA_MAX, PGSIZE in *; lia) Hloop)
    as (N1' & N0' & KL' & UL' & Mn & Hinv' & Hpages).
  rewrite app_nil_r in Hinv'.
  split; [reflexivity|]. split; [exact Hmax|].
  exists N1', N0', KL', UL', Mn. split; assumption.
Qed.

Lemma frees_of_pages : forall st root fl (L : list (Z * Z)),
  (forall va c, In (va, c) L -> Syscall.page_at st root fl va c) ->
  Syscall.ungrow_frees st root (map fst L) = map snd L.
Proof.
  intros st root fl L. induction L as [|[va c] L IH]; intros H; [reflexivity|].
  unfold Syscall.ungrow_frees in *. cbn [map flat_map fst snd].
  rewrite IH by (intros v d Hin; apply H; right; exact Hin).
  destruct (H va c (or_introl eq_refl)) as (Hl & Hv & _ & Hc).
  apply Z.eqb_neq in Hl. rewrite Hl, Hv, Hc. reflexivity.
Qed.

(** X10 (系统调用, [uvm_heap_grow] then [uvm_heap_ungrow]): shrinking
    the heap by the length it was just grown by completes and returns
    the old heap top; the frames the growth took are back on the user
    free list, which has the frames and the count it had before; the
    page tables the growth added stay; no whole page between the two
    tops is mapped any more, and every page that was mapped before
    the growth to a frame that was not free has the leaf it had. *)
Theorem syscall_heap_grow_ungrow :
  forall st root heap_top len N1 N0 KL UL st1 top1,
  Syscall.tree_inv st root N1 N0 KL ->
  Syscall.region_inv (Syscall.mem st) (Syscall.user_region st) UL ->
  NoDup ((root :: N1 ++ N0 ++ KL) ++ UL) ->
  2 * PGSIZE <= heap_top -> 0 < len -> heap_top + len < 2 ^ 64 -> root <> 0 ->
  Syscall.uvm_heap_grow st root heap_top len = Ok (st1, top1) ->
  exists st2,
    Syscall.uvm_heap_ungrow st1 root top1 len = Ok (st2, heap_top) /\
    (exists UL2, Syscall.region_inv (Syscall.mem st2) (Syscall.user_region st2) UL2 /\
                 Permutation UL2 UL) /\
    Syscall.allocable (Syscall.user_region st2) = Syscall.allocable (Syscall.user_region st) /\
    Syscall.kern_region st2 = Syscall.kern_region st1 /\
    (forall va, va mod PGSIZE = 0 -> heap_top <= va -> va + PGSIZE <= heap_top + len ->
       pte_valid (load64 (Syscall.mem st2) (Syscall.lookup st2 root va)) = false) /\
    (forall v, Syscall.lookup st root v <> 0 ->
       pte_valid (load64 (Syscall.mem st) (Syscall.lookup st root v)) = true ->
       ~ In (PTE_TO_PA (load64 (Syscall.mem st) (Syscall.lookup st root v))) UL ->
       Syscall.lookup st2 root v = Syscall.lookup st root v /\
       load64 (Syscall.mem st2) (Syscall.lookup st2 root v)
       = load64 (Syscall.mem st) (Syscall.lookup st root v)).
Proof.
  intros st root heap_top len N1 N0 KL UL st1 top1 Ht Hu Hnd Hmin Hlen H64 Hroot Hgrow.
  assert (Hh : 0 <= heap_top) by (unfold PGSIZE in *; lia).
  destruct (grow_result st root heap_top len N1 N0 KL UL st1 top1 Ht Hu Hnd Hh Hlen H64
              Hroot Hgrow)
    as (-> & Hmax & N1' & N0' & KL' & UL' & Mn & Hinv & Hpages).
  destruct Hinv as (Ht1 & Hu1 & Hperm & HUL & Hb & He & _ & Hkept & Hdone).
  assert (Hmaxv : heap_top + len <= 2 ^ 38 - 4 * 4096).
  { unfold Syscall.TRAPFRAME, Syscall.TRAMPOLINE, Syscall.VA_MAX, PGSIZE in Hmax. lia. }
  (* the pages and the frames of the way back *)
  assert (Epages : Syscall.ungrow_pages (heap_top + len) len = map fst (rev Mn)).
  { rewrite Hpages. unfold Syscall.ungrow_pages. cbv zeta.
    replace (heap_top + len - len) with heap_top by lia.
    rewrite (wrap64_small heap_top) by lia.
    rewrite (wrap64_small (heap_top + PGSIZE - 1)) by (unfold PGSIZE in *; lia).
    set (A := (heap_top + PGSIZE - 1) / PGSIZE * PGSIZE).
    set (B := (heap_top + len) / PGSIZE * PGSIZE).
    assert (HA : 0 <= A <= heap_top + PGSIZE - 1).
    { unfold A, PGSIZE.
      pose proof (Z.div_mod (heap_top + 4096 - 1) 4096 ltac:(lia)).
      pose proof (Z.mod_pos_bound (heap_top + 4096 - 1) 4096 ltac:(lia)). lia. }
    assert (HB : 0 <= B <= heap_top + len).
    { unfold B, PGSIZE.
      pose proof (Z.div_mod (heap_top + len) 4096 ltac:(lia)).
      pose proof (Z.mod_pos_bound (heap_top + len) 4096 ltac:(lia)). lia. }
    rewrite (wrap64_small A), (wrap64_small B) by (unfold PGSIZE in *; lia).
    reflexivity. }
  assert (EF : Syscall.ungrow_frees st1 root (Syscall.ungrow_pages (heap_top + len) len)
               = rev (map snd Mn)).
  { rewrite Epages, <- map_rev.
    apply (frees_of_pages st1 root (Z.lor (Z.lor (Z.lor PTE_U PTE_R) PTE_W) PTE_V)).
    intros va c Hin. apply in_rev in Hin. exact (proj1 (Hdone va c Hin)). }
  assert (HinUL : forall c, In c (rev (map snd Mn)) -> In c UL).
  { intros c Hc. rewrite HUL. apply in_or_app. left; exact Hc. }
  destruct (sc_heap_ungrow_ok st1 root (heap_top + len) len N1' N0' KL' UL' Ht1 Hu1 Hroot
              ltac:(lia) ltac:(lia) ltac:(lia))
    as (st2 & Hun & Hk2 & Hu2 & Hlook2 & Hgone & Hkeep2).
  { rewrite EF.
    apply (Permutation_NoDup (l := (root :: N1' ++ N0' ++ KL') ++ UL' ++ map snd Mn)).
    - apply Permutation_app_head. apply Permutation_app_head. apply Permutation_rev.
    - apply (Permutation_NoDup (Permutation_sym Hperm)). exact Hnd. }
  { rewrite EF. apply Forall_forall. intros c Hc.
    pose proof (HinUL c Hc) as HcUL.
    split; [exact (proj1 (region_inv_frames _ _ _ c Hu HcUL))|].
    destruct Hu as (_ & _ & _ & _ & Hfr). rewrite Forall_forall in Hfr.
    destruct (Hfr c HcUL) as (_ & _ & Hrg). rewrite Hb, He. exact Hrg. }
  { rewrite EF. destruct Hu as (_ & _ & Hlt & _).
    rewrite HUL, length_app in Hlt. lia. }
  rewrite EF, rev_involutive in Hu2. rewrite EF in Hkeep2.
  replace (heap_top + len - len) with heap_top in Hun, Hgone by lia.
  assert (Hp2 : Permutation (map snd Mn ++ UL') UL).
  { rewrite HUL. apply Permutation_app_tail. apply Permutation_rev. }
  exists st2. split; [exact Hun|].
  split; [exists (map snd Mn ++ UL'); split; assumption|].
  split.
  { destruct Hu2 as (_ & Hc2 & _). destruct Hu as (_ & Hc & _).
    rewrite Hc2, Hc. rewrite (Permutation_length Hp2). reflexivity. }
  split; [exact Hk2|].
  split.
  - intros va Hva Hge Hle.
    assert (Hin : In va (map fst (rev Mn))).
    { rewrite <- Epages. apply ungrow_pages_whole; try assumption; lia. }
    apply in_map_iff in Hin. destruct Hin as ((va1 & c) & Efst & Hin).
    cbn [fst] in Efst. subst va1. apply in_rev in Hin.
    destruct (Hdone va c Hin) as ((Hl & _) & _).
    apply Hgone; try assumption; lia.
  - intros v Hl Hv Hn.
    destruct (Hkept v Hl Hv) as (El1 & Ee1).
    split; [rewrite Hlook2; exact El1|].
    rewrite <- Ee1. apply Hkeep2.
    + rewrite El1. exact Hl.
    + rewrite Ee1. exact Hv.
    + rewrite Ee1. intros Hi. apply Hn. apply HinUL. exact Hi.
Qed.

(** X9 at an example: the heap of [small_root], grown to 0x3800, shrunk
    by 0x1800. *)
Lemma syscall_heap_ungrow_frees_witness :
  Syscall.tree_inv Syscall.grow_end Syscall.small_root Syscall.grow_N1 Syscall.grow_N0
    Syscall.grow_KL /\
  Syscall.region_inv (Syscall.mem Syscall.grow_end) (Syscall.user_region Syscall.grow_end)
    Syscall.grow_end_UL /\
  Syscall.small_root <> 0 /\ 0 < 0x1800 <= 0x3800 /\ 0x3800 < 2 ^ 64 /\
  2 * PGSIZE <= 0x3800 - 0x1800 /\
  NoDup ((Syscall.small_root :: Syscall.grow_N1 ++ Syscall.grow_N0 ++ Syscall.grow_KL)
         ++ Syscall.grow_end_UL
         ++ Syscall.ungrow_frees Syscall.grow_end Syscall.small_root
              (Syscall.ungrow_pages 0x3800 0x1800)) /\
  Forall (fun c => c <> 0 /\
            Syscall.begin (Syscall.user_region Syscall.grow_end) <= c
              < Syscall.end_ (Syscall.user_region Syscall.grow_end))
         (Syscall.ungrow_frees Syscall.grow_end Syscall.small_root
            (Syscall.ungrow_pages 0x3800 0x1800)) /\
  Z.of_nat (length Syscall.grow_end_UL)
  + Z.of_nat (length (Syscall.ungrow_frees Syscall.grow_end Syscall.small_root
                        (Syscall.ungrow_pages 0x3800 0x1800))) < 2 ^ 32 /\
  exists st',
    Syscall.uvm_heap_ungrow Syscall.grow_end Syscall.small_root 0x3800 0x1800
    = Ok (st', 0x3800 - 0x1800).
Proof.
  assert (H1 : Syscall.tree_inv Syscall.grow_end Syscall.small_root Syscall.grow_N1
                 Syscall.grow_N0 Syscall.grow_KL).
  { apply tree_invb_sound. vm_compute. reflexivity. }
  assert (H2 : Syscall.region_inv (Syscall.mem Syscall.grow_end)
                 (Syscall.user_region Syscall.grow_end) Syscall.grow_end_UL).
  { apply region_invb_sound. vm_compute. reflexivity. }
  assert (H3 : Syscall.small_root <> 0) by (vm_compute; discriminate).
  assert (H4 : 0 < 0x1800 <= 0x3800) by lia.
  assert (H5 : 0x3800 < 2 ^ 64) by lia.
  assert (H6 : 2 * PGSIZE <= 0x3800 - 0x1800) by (unfold PGSIZE; lia).
  assert (H7 : NoDup ((Syscall.small_root :: Syscall.grow_N1 ++ Syscall.grow_N0
                       ++ Syscall.grow_KL) ++ Syscall.grow_end_UL
                      ++ Syscall.ungrow_frees Syscall.grow_end Syscall.small_root
                           (Syscall.ungrow_pages 0x3800 0x1800))).
  { apply distinctb_NoDup. vm_compute. reflexivity. }
  assert (H8 : Forall (fun c => c <> 0 /\
            Syscall.begin (Syscall.user_region Syscall.grow_end) <= c
              < Syscall.end_ (Syscall.user_region Syscall.grow_end))
         (Syscall.ungrow_frees Syscall.grow_end Syscall.small_root
            (Syscall.ungrow_pages 0x3800 0x1800))).
  { apply Forall_forall. intros c Hc. vm_compute in Hc.
    destruct Hc as [<-|[]]. vm_compute. repeat split; discriminate || reflexivity. }
  assert (H9 : Z.of_nat (length Syscall.grow_end_UL)
    + Z.of_nat (length (Syscall.ungrow_frees Syscall.grow_end Syscall.small_root
                          (Syscall.ungrow_pages 0x3800 0x1800))) < 2 ^ 32)
    by (vm_compute; reflexivity).
  repeat (split; [assumption|]).
  destruct (syscall_heap_ungrow_frees Syscall.grow_end Syscall.small_root 0x3800 0x1800
              Syscall.grow_N1 Syscall.grow_N0 Syscall.grow_KL Syscall.grow_end_UL
              H1 H2 H3 H4 H5 H6 H7 H8 H9) as (st' & Hun & _).
  exists st'. exact Hun.
Defined.

(** X10 at an example: the heap of [small_root] grown from 0x2000 by
    a page and a half, and shrunk again. *)
Lemma syscall_heap_grow_ungrow_witness :
  Syscall.tree_inv Syscall.grow_start Syscall.small_root Syscall.grow_N1 Syscall.grow_N0
    Syscall.grow_KL /\
  Syscall.region_inv (Syscall.mem Syscall.grow_start)
    (Syscall.user_region Syscall.grow_start) Syscall.grow_UL /\
  NoDup ((Syscall.small_root :: Syscall.grow_N1 ++ Syscall.grow_N0 ++ Syscall.grow_KL)
         ++ Syscall.grow_UL) /\
  2 * PGSIZE <= 0x2000 /\ 0 < 0x1800 /\ 0x2000 + 0x1800 < 2 ^ 64 /\ Syscall.small_root <> 0 /\
  Syscall.uvm_heap_grow Syscall.grow_start Syscall.small_root 0x2000 0x1800
  = Ok (fst (get_ok (Syscall.uvm_heap_grow Syscall.grow_start Syscall.small_root 0x2000 0x1800)
               (Syscall.grow_start, 0)),
        snd (get_ok (Syscall.uvm_heap_grow Syscall.grow_start Syscall.small_root 0x2000 0x1800)
               (Syscall.grow_start, 0))) /\
  exists st2,
    Syscall.uvm_heap_ungrow
      (fst (get_ok (Syscall.uvm_heap_grow Syscall.grow_start Syscall.small_root 0x2000 0x1800)
              (Syscall.grow_start, 0)))
      Syscall.small_root
      (snd (get_ok (Syscall.uvm_heap_grow Syscall.grow_start Syscall.small_root 0x2000 0x1800)
              (Syscall.grow_start, 0)))
      0x1800 = Ok (st2, 0x2000) /\
    Syscall.allocable (Syscall.user_region st2)
    = Syscall.allocable (Syscall.user_region Syscall.grow_start).
Proof.
  assert (H1 : Syscall.tree_inv Syscall.grow_start Syscall.small_root Syscall.grow_N1
                 Syscall.grow_N0 Syscall.grow_KL).
  { apply tree_invb_sound. vm_compute. reflexivity. }
  assert (H2 : Syscall.region_inv (Syscall.mem Syscall.grow_start)
                 (Syscall.user_region Syscall.grow_start) Syscall.grow_UL).
  { apply region_invb_sound. vm_compute. reflexivity. }
  assert (H3 : NoDup ((Syscall.small_root :: Syscall.grow_N1 ++ Syscall.grow_N0
                       ++ Syscall.grow_KL) ++ Syscall.grow_UL)).
  { apply distinctb_NoDup. vm_compute. reflexivity. }
  assert (H4 : 2 * PGSIZE <= 0x2000) by (unfold PGSIZE; lia).
  assert (H5 : 0 < 0x1800) by lia.
  assert (H6 : 0x2000 + 0x1800 < 2 ^ 64) by lia.
  assert (H7 : Syscall.small_root <> 0) by (vm_compute; discriminate).
  assert (H8 : Syscall.uvm_heap_grow Syscall.grow_start Syscall.small_root 0x2000 0x1800
    = Ok (fst (get_ok (Syscall.uvm_heap_grow Syscall.grow_start Syscall.small_root 0x2000 0x1800)
               (Syscall.grow_start, 0)),
        snd (get_ok (Syscall.uvm_heap_grow Syscall.grow_start Syscall.small_root 0x2000 0x1800)
               (Syscall.grow_start, 0)))).
  { rewrite <- surjective_pairing. apply get_ok_eq. vm_compute. reflexivity. }
  repeat (split; [assumption|]).
  destruct (syscall_heap_grow_ungrow Syscall.grow_start Syscall.small_root 0x2000 0x1800
              Syscall.grow_N1 Syscall.grow_N0 Syscall.grow_KL Syscall.grow_UL _ _
              H1 H2 H3 H4 H5 H6 H7 H8) as (st2 & Hun & _ & Hcnt & _).
  exists st2. split; [exact Hun|exact Hcnt].
Defined.

(** Lists without repetition, by counting. *)
Lemma NoDup_le : forall (l l' : list Z), NoDup l ->
  (forall x, (count_occ Z.eq_dec l' x <= count_occ Z.eq_dec l x)%nat) -> NoDup l'.
Proof.
  intros l l' H Hle. apply (NoDup_count_occ Z.eq_dec). intros x.
  pose proof (proj1 (NoDup_count_occ Z.eq_dec l) H x). specialize (Hle x). lia.
Qed.

Lemma notin_count : forall (l : list Z) x, count_occ Z.eq_dec l x = 0%nat -> ~ In x l.
Proof. intros l x H. apply (count_occ_not_In Z.eq_dec). exact H. Qed.

Lemma count_rev : forall (l : list Z) x,
  count_occ Z.eq_dec (rev l) x = count_occ Z.eq_dec l x.
Proof.
  induction l as [|a l IH]; intros x; [reflexivity|].
  cbn [rev]. rewrite count_occ_app, IH. cbn [count_occ].
  destruct (Z.eq_dec a x); lia.
Qed.

Lemma count_in : forall (l : list Z) x, In x l -> (1 <= count_occ Z.eq_dec l x)%nat.
Proof. intros l x H. apply (count_occ_In Z.eq_dec) in H. lia. Qed.

Ltac count_norm :=
  repeat (rewrite ?count_occ_app, ?count_rev in *; cbn [count_occ] in * );
  repeat match goal with
  | |- context [Z.eq_dec ?a ?b] => destruct (Z.eq_dec a b); try congruence
  | H : context [Z.eq_dec ?a ?b] |- _ => destruct (Z.eq_dec a b); try congruence
  end.

Ltac nodup_from H :=
  apply (NoDup_le _ _ H); let x := fresh "x" in intros x; count_norm; lia.

Ltac notin_from H :=
  apply notin_count;
  match type of H with NoDup ?l =>
    let Hc := fresh "Hc" in
    pose proof (proj1 (NoDup_count_occ Z.eq_dec l) H) as Hc;
    match goal with |- count_occ _ _ ?c = _ => specialize (Hc c) end;
    count_norm; lia
  end.

(** ** 系统调用: [uvm_destroy_pgtbl] *)

Section syscall_destroy.
Import Syscall.

(** Every frame the destruction frees is the target of an entry. *)
Lemma kfrees_loop_aligned : forall rec n m T i,
  (forall c, Forall (fun f => f mod PGSIZE = 0) (rec c)) ->
  Forall (fun f => f mod PGSIZE = 0) (kfrees_loop rec n m T i).
Proof.
  intros rec n m T. induction n as [|n IH]; intros i Hrec; [constructor|].
  cbn [kfrees_loop]. cbv zeta. apply Forall_app. split; [|apply IH; exact Hrec].
  destruct (negb (pte_valid (load64 m (T + 8 * i)))); [constructor|].
  destruct (Z.land (load64 m (T + 8 * i)) (Z.lor (Z.lor PTE_R PTE_W) PTE_X) =? 0);
    [|constructor].
  apply Forall_app. split; [apply Hrec|].
  constructor; [apply PTE_TO_PA_aligned|constructor].
Qed.

Lemma kfrees_aligned : forall L m T, Forall (fun f => f mod PGSIZE = 0) (kfrees L m T).
Proof.
  induction L as [|L IH]; intros m T; [constructor|].
  cbn [kfrees]. destruct (T =? 0); [constructor|].
  apply kfrees_loop_aligned. intros c. apply IH.
Qed.

Lemma ufrees_loop_aligned : forall rec n m T i,
  (forall c, Forall (fun f => f mod PGSIZE = 0) (rec c)) ->
  Forall (fun f => f mod PGSIZE = 0) (ufrees_loop rec n m T i).
Proof.
  intros rec n m T. induction n as [|n IH]; intros i Hrec; [constructor|].
  cbn [ufrees_loop]. cbv zeta. apply Forall_app. split; [|apply IH; exact Hrec].
  destruct (negb (pte_valid (load64 m (T + 8 * i)))); [constructor|].
  destruct (Z.land (load64 m (T + 8 * i)) (Z.lor (Z.lor PTE_R PTE_W) PTE_X) =? 0);
    [apply Hrec|].
  destruct (pte_user (load64 m (T + 8 * i))); [|constructor].
  constructor; [apply PTE_TO_PA_aligned|constructor].
Qed.

Lemma ufrees_aligned : forall L m T, Forall (fun f => f mod PGSIZE = 0) (ufrees L m T).
Proof.
  induction L as [|L IH]; intros m T; [constructor|].
  cbn [ufrees]. destruct (T =? 0); [constructor|].
  apply ufrees_loop_aligned. intros c. apply IH.
Qed.

Lemma child_in_kfrees_loop : forall krec n m T i j,
  i <= j < i + Z.of_nat n ->
  is_table_entry (load64 m (T + 8 * j)) ->
  incl (krec (PTE_TO_PA (load64 m (T + 8 * j))) ++ [PTE_TO_PA (load64 m (T + 8 * j))])
       (kfrees_loop krec n m T i).
Proof.
  intros krec n m T. induction n as [|n IH]; intros i j Hj (Hv & Ht); [lia|].
  cbn [kfrees_loop]. cbv zeta.
  destruct (Z.eq_dec j i) as [->|Hne].
  - rewrite Hv, Ht. cbn [negb Z.eqb]. apply incl_appl. apply incl_refl.
  - apply incl_appr. apply IH; [lia|split; assumption].
Qed.

(** The lists read the same from two memories that agree on the
    entries visited and on the tables below them. *)
Lemma frees_loop_ext : forall krec krec' urec urec' n m m' T i,
  (forall j, i <= j < i + Z.of_nat n -> load64 m' (T + 8 * j) = load64 m (T + 8 * j)) ->
  (forall j, i <= j < i + Z.of_nat n -> is_table_entry (load64 m (T + 8 * j)) ->
     krec' (PTE_TO_PA (load64 m (T + 8 * j))) = krec (PTE_TO_PA (load64 m (T + 8 * j))) /\
     urec' (PTE_TO_PA (load64 m (T + 8 * j))) = urec (PTE_TO_PA (load64 m (T + 8 * j)))) ->
  kfrees_loop krec' n m' T i = kfrees_loop krec n m T i /\
  ufrees_loop urec' n m' T i = ufrees_loop urec n m T i.
Proof.
  intros krec krec' urec urec' n m m' T. induction n as [|n IH]; intros i He Hrec;
    [split; reflexivity|].
  cbn [kfrees_loop ufrees_loop] in *. cbv zeta in *.
  rewrite (He i) by lia.
  destruct (IH (i + 1)) as (IHk & IHu).
  { intros j Hj. apply He. lia. }
  { intros j Hj. apply Hrec. lia. }
  rewrite IHk, IHu.
  destruct (pte_valid (load64 m (T + 8 * i))) eqn:Hv; cbn [negb]; [|split; reflexivity].
  destruct (Z.land (load64 m (T + 8 * i)) (Z.lor (Z.lor PTE_R PTE_W) PTE_X) =? 0) eqn:Ht;
    [|split; reflexivity].
  apply Z.eqb_eq in Ht.
  destruct (Hrec i ltac:(lia) (conj Hv Ht)) as (Ek & Eu).
  rewrite Ek, Eu. split; reflexivity.
Qed.

Lemma frees_ext : forall L m m' T,
  (forall f, In f (T :: kfrees L m T) ->
     forall x, f <= x < f + PGSIZE -> m' x = m x) ->
  kfrees L m' T = kfrees L m T /\ ufrees L m' T = ufrees L m T.
Proof.
  induction L as [|L IH]; intros m m' T H; [split; reflexivity|].
  cbn [kfrees ufrees] in *. destruct (T =? 0); [split; reflexivity|].
  apply frees_loop_ext.
  - intros j Hj. apply load64_frame; [lia|]. apply (H T). left; reflexivity.
  - intros j Hj Htab. apply IH. intros f Hf x Hx. apply (H f); [|exact Hx]. right.
    apply (child_in_kfrees_loop (kfrees L m) 512 m T 0 j Hj Htab).
    destruct Hf as [<-|Hf]; apply in_or_app; [right; left; reflexivity|left; exact Hf].
Qed.


(** [pmem_free] on a frame of neither list: the frame is pushed on its
    region's list, the other region is as before and only the frame is
    written. *)
Lemma free_step : forall st k fl gl p,
  region_inv (mem st) (region st k) fl ->
  region_inv (mem st) (region st (negb k)) gl ->
  freeable (region st k) p -> p mod PGSIZE = 0 -> 0 <= p < 2 ^ 64 ->
  ~ In p fl -> ~ In p gl -> Z.of_nat (length fl) + 1 < 2 ^ 32 ->
  exists st',
    pmem_free st p k = Ok st' /\
    region_inv (mem st') (region st' k) (p :: fl) /\
    region_inv (mem st') (region st' (negb k)) gl /\
    same_bounds st st' /\
    (forall x, x < p \/ p + PGSIZE <= x -> mem st' x = mem st x).
Proof.
  intros st k fl gl p Hfl Hgl (Hnz & Hrg) Ha Hp Hnf Hng Hlen.
  destruct (sc_free_inv st k fl p Hfl Hnz (conj Hp (conj Ha Hrg)) Hnf Hlen)
    as (st' & Hf & Em & Hfl' & Eo).
  exists st'. split; [exact Hf|]. split; [exact Hfl'|].
  assert (Hmem : forall x, x < p \/ p + PGSIZE <= x -> mem st' x = mem st x).
  { intros x Hx. rewrite Em. rewrite store64_other by (unfold PGSIZE in *; lia).
    apply memset_other. exact Hx. }
  split; [|split; [|exact Hmem]].
  - rewrite Eo. apply (region_inv_ext (mem st)); [exact Hgl|].
    intros f x Hf' Hx. apply Hmem.
    destruct Hgl as (_ & _ & _ & _ & Hfr). rewrite Forall_forall in Hfr.
    destruct (Hfr f Hf') as (_ & Af & _).
    assert (Hne : f <> p) by (intros ->; exact (Hng Hf')).
    destruct (aligned_apart f p Af Ha Hne); lia.
  - destruct (sc_free_ok _ _ _ _ Hf) as (_ & _ & _ & Er & _).
    unfold same_bounds. destruct k; cbn [region negb] in *.
    + rewrite Er, Eo. cbn. repeat split; reflexivity.
    + rewrite Er, Eo. cbn. repeat split; reflexivity.
Qed.

Lemma same_bounds_refl : forall st, same_bounds st st.
Proof. intros st. repeat split; reflexivity. Qed.

Lemma same_bounds_trans : forall a b c, same_bounds a b -> same_bounds b c -> same_bounds a c.
Proof.
  intros a b c (H1 & H2 & H3 & H4) (G1 & G2 & G3 & G4).
  repeat split; congruence.
Qed.

Lemma freeable_bounds : forall r r' l,
  begin r' = begin r -> end_ r' = end_ r ->
  Forall (freeable r) l -> Forall (freeable r') l.
Proof.
  intros r r' l Eb Ee H. apply Forall_forall. rewrite Forall_forall in H.
  intros c Hc. destruct (H c Hc) as (Hnz & Hr). split; [exact Hnz|]. rewrite Eb, Ee. exact Hr.
Qed.


Lemma aligned_off : forall l g x,
  Forall (fun f => f mod PGSIZE = 0) l -> g mod PGSIZE = 0 -> ~ In g l ->
  g <= x < g + PGSIZE -> off_frames l x.
Proof.
  intros l g x Hl Hg Hn Hx f Hf. rewrite Forall_forall in Hl.
  assert (Hne : g <> f) by (intros ->; exact (Hn Hf)).
  destruct (aligned_apart g f Hg (Hl f Hf) Hne); lia.
Qed.

(** The entries after [i] and the tables below them read the same
    after writes confined to entry [i] and to frames [F] that are
    neither the table nor freed later. *)
Lemma rest_same : forall L n m m' T i F,
  0 <= i -> i + 1 + Z.of_nat n <= 512 -> T mod PGSIZE = 0 ->
  Forall (fun f => f mod PGSIZE = 0) F ->
  ~ In T F -> ~ In T (kfrees_loop (kfrees L m) n m T (i + 1)) ->
  (forall f, In f F -> ~ In f (kfrees_loop (kfrees L m) n m T (i + 1))) ->
  (forall x, off_frames F x -> x < T + 8 * i \/ T + 8 * i + 8 <= x -> m' x = m x) ->
  kfrees_loop (kfrees L m') n m' T (i + 1) = kfrees_loop (kfrees L m) n m T (i + 1) /\
  ufrees_loop (ufrees L m') n m' T (i + 1) = ufrees_loop (ufrees L m) n m T (i + 1).
Proof.
  intros L n m m' T i F Hi Hn AT AF HT HTk HF Hm.
  apply frees_loop_ext.
  - intros j Hj. apply load64_ext. intros x Hx. apply Hm; [|lia].
    apply (aligned_off F T x AF AT HT). unfold PGSIZE. lia.
  - intros j Hj Htab. apply frees_ext. intros f Hf x Hx.
    assert (Hin : In f (kfrees_loop (kfrees L m) n m T (i + 1))).
    { apply (child_in_kfrees_loop (kfrees L m) n m T (i + 1) j Hj Htab).
      destruct Hf as [<-|Hf]; apply in_or_app; [right; left; reflexivity|left; exact Hf]. }
    assert (Af : f mod PGSIZE = 0).
    { pose proof (kfrees_loop_aligned (kfrees L m) n m T (i + 1)
                    (fun c => kfrees_aligned L m c)) as Hal.
      rewrite Forall_forall in Hal. exact (Hal f Hin). }
    assert (HfT : f <> T) by (intros ->; exact (HTk Hin)).
    apply Hm.
    + apply (aligned_off F f x AF Af); [|exact Hx].
      intros HfF. exact (HF f HfF Hin).
    + destruct (aligned_apart f T Af AT HfT); unfold PGSIZE in *; lia.
Qed.

Section destroy_level.
Variable L : nat.
Hypothesis IHL : forall st T KL UL,
  frees_pre st T (kfrees L (mem st) T) (ufrees L (mem st) T) KL UL ->
  exists st',
    destroy_pgtbl L st T = Ok st' /\
    frees_post st st' (kfrees L (mem st) T) (ufrees L (mem st) T) KL UL /\
    (forall x, off_frames (T :: kfrees L (mem st) T ++ ufrees L (mem st) T) x ->
       mem st' x = mem st x).

Lemma destroy_loop_ok : forall n st T i KL UL,
  0 <= i -> i + Z.of_nat n <= 512 ->
  frees_pre st T (kfrees_loop (kfrees L (mem st)) n (mem st) T i)
                 (ufrees_loop (ufrees L (mem st)) n (mem st) T i) KL UL ->
  exists st',
    destroy_pgtbl_loop (destroy_pgtbl L) n st T i = Ok st' /\
    frees_post st st' (kfrees_loop (kfrees L (mem st)) n (mem st) T i)
                      (ufrees_loop (ufrees L (mem st)) n (mem st) T i) KL UL /\
    (forall x, off_frames (kfrees_loop (kfrees L (mem st)) n (mem st) T i ++
                           ufrees_loop (ufrees L (mem st)) n (mem st) T i) x ->
       x < T + 8 * i \/ T + 8 * (i + Z.of_nat n) <= x -> mem st' x = mem st x).
Proof.
  induction n as [|n IH]; intros st T i KL UL Hi Hn Hpre.
  - exists st. cbn [destroy_pgtbl_loop kfrees_loop ufrees_loop] in *.
    destruct Hpre as (Hk & Hu & _). split; [reflexivity|].
    split; [|intros; reflexivity].
    split; [exact Hk|]. split; [exact Hu|apply same_bounds_refl].
  - cbn [destroy_pgtbl_loop kfrees_loop ufrees_loop] in *. cbv zeta in *.
    set (e := load64 (mem st) (T + 8 * i)) in *.
    set (Krest := kfrees_loop (kfrees L (mem st)) n (mem st) T (i + 1)) in *.
    set (Urest := ufrees_loop (ufrees L (mem st)) n (mem st) T (i + 1)) in *.
    assert (AKrest : Forall (fun f => f mod PGSIZE = 0) Krest).
    { apply kfrees_loop_aligned. intros c. apply kfrees_aligned. }
    destruct (pte_valid e) eqn:Hv; cbn [negb] in *.
    2:{ (* an invalid entry is skipped *)
        cbn [app] in Hpre.
        destruct (IH st T (i + 1) KL UL ltac:(lia) ltac:(lia) Hpre) as (st' & Hd & Hpost & Hm).
        exists st'. split; [exact Hd|]. split; [exact Hpost|].
        intros x Hoff Hx. apply Hm; [exact Hoff|lia]. }
    destruct (Z.land e (Z.lor (Z.lor PTE_R PTE_W) PTE_X) =? 0) eqn:Ht.
    + (* a table: destroyed, then freed to the kernel region *)
      set (c := PTE_TO_PA e) in *.
      set (Kc := kfrees L (mem st) c) in *.
      set (Uc := ufrees L (mem st) c) in *.
      destruct Hpre as (Hk & Hu & AT & Hnd & HfK & HfU & HlK & HlU).
      repeat rewrite length_app in HlK. repeat rewrite length_app in HlU. cbn [length] in HlK.
      apply Forall_app in HfK. destruct HfK as (HfK1 & HfKr).
      apply Forall_app in HfK1. destruct HfK1 as (HfKc & Hfc).
      apply Forall_app in HfU. destruct HfU as (HfUc & HfUr).
      assert (Ac : c mod PGSIZE = 0) by apply PTE_TO_PA_aligned.
      assert (Rc : 0 <= c < 2 ^ 64) by apply PTE_TO_PA_range.
      assert (AKc : Forall (fun f => f mod PGSIZE = 0) Kc) by apply kfrees_aligned.
      assert (AUc : Forall (fun f => f mod PGSIZE = 0) Uc) by apply ufrees_aligned.
      destruct (IHL st c KL UL) as (st1 & Hd1 & (Hk1 & Hu1 & Hb1) & Hm1).
      { split; [exact Hk|]. split; [exact Hu|]. split; [exact Ac|].
        fold Kc Uc. split; [nodup_from Hnd|].
        split; [exact HfKc|]. split; [exact HfUc|]. lia. }
      fold Kc Uc in Hk1, Hu1, Hm1.
      destruct Hb1 as (Eb1 & Ee1 & Eb1' & Ee1').
      destruct (free_step st1 true (rev Kc ++ KL) (rev Uc ++ UL) c Hk1 Hu1)
        as (st2 & Hf2 & Hk2 & Hu2 & Hb2 & Hm2).
      { inversion Hfc as [|c' l' (Hnz & Hrg) _]; subst. cbn [region].
        split; [exact Hnz|]. rewrite Eb1, Ee1. exact Hrg. }
      { exact Ac. } { exact Rc. }
      { notin_from Hnd. } { notin_from Hnd. }
      { rewrite length_app, length_rev. lia. }
      cbn [region negb] in Hk2, Hu2.
      assert (Hb02 : same_bounds st st2).
      { apply (same_bounds_trans st st1 st2); [repeat split; assumption|exact Hb2]. }
      assert (Hm12 : forall x, off_frames (c :: Kc ++ Uc) x -> mem st2 x = mem st x).
      { intros x Hx. rewrite Hm2; [apply Hm1; exact Hx|]. apply (Hx c). left; reflexivity. }
      destruct (rest_same L n (mem st) (mem st2) T i (c :: Kc ++ Uc)) as (EK & EU).
      { exact Hi. } { lia. } { exact AT. }
      { constructor; [exact Ac|]. apply Forall_app. split; assumption. }
      { notin_from Hnd. }
      { fold Krest. notin_from Hnd. }
      { fold Krest. intros f Hf. pose proof (count_in _ _ Hf) as Hcf. notin_from Hnd. }
      { intros x Hx _. apply Hm12. exact Hx. }
      fold Krest in EK. fold Urest in EU.
      destruct (IH st2 T (i + 1) (c :: rev Kc ++ KL) (rev Uc ++ UL)) as (st3 & Hd3 & Hpost3 & Hm3).
      { lia. } { lia. }
      { rewrite EK, EU. destruct Hb02 as (B1 & B2 & B3 & B4).
        split; [exact Hk2|]. split; [exact Hu2|]. split; [exact AT|].
        split; [nodup_from Hnd|].
        split; [apply (freeable_bounds (kern_region st)); [exact B1|exact B2|exact HfKr]|].
        split; [apply (freeable_bounds (user_region st)); [exact B3|exact B4|exact HfUr]|].
        cbn [length]. rewrite !length_app, !length_rev. lia. }
      rewrite EK, EU in Hpost3, Hm3.
      exists st3. split.
      { rewrite Hd1. cbn [bind]. rewrite Hf2. cbn [bind]. exact Hd3. }
      split.
      { destruct Hpost3 as (Hk3 & Hu3 & Hb3).
        split; [|split; [|apply (same_bounds_trans st st2 st3); assumption]].
        - rewrite !rev_app_distr. cbn [rev app]. rewrite <- !app_assoc. cbn [app]. exact Hk3.
        - rewrite !rev_app_distr. rewrite <- !app_assoc. exact Hu3. }
      intros x Hoff Hx. rewrite Hm3.
      * apply Hm12. intros f Hf. apply Hoff.
        destruct Hf as [<-|Hf].
        -- apply in_or_app. left. apply in_or_app. left. apply in_or_app. right. left; reflexivity.
        -- apply in_app_or in Hf. destruct Hf as [Hf|Hf].
           ++ apply in_or_app. left. apply in_or_app. left. apply in_or_app. left. exact Hf.
           ++ apply in_or_app. right. apply in_or_app. left. exact Hf.
      * intros f Hf. apply Hoff. apply in_app_or in Hf. destruct Hf as [Hf|Hf].
        -- apply in_or_app. left. apply in_or_app. right. exact Hf.
        -- apply in_or_app. right. apply in_or_app. right. exact Hf.
      * lia.
    + (* a page: freed to the user region if PTE_U, then unmapped *)
      cbn [app] in Hpre.
      destruct Hpre as (Hk & Hu & AT & Hnd & HfK & HfU & HlK & HlU).
      set (U1 := if pte_user e then [PTE_TO_PA e] else []) in *.
      assert (AU1 : Forall (fun f => f mod PGSIZE = 0) U1).
      { unfold U1. destruct (pte_user e); [|constructor].
        constructor; [apply PTE_TO_PA_aligned|constructor]. }
      assert (Hstep : exists st1,
                (if pte_user e then pmem_free st (PTE_TO_PA e) false else Ok st) = Ok st1 /\
                region_inv (mem st1) (kern_region st1) KL /\
                region_inv (mem st1) (user_region st1) (rev U1 ++ UL) /\
                same_bounds st st1 /\
                (forall x, off_frames U1 x -> mem st1 x = mem st x)).
      { unfold U1 in *. destruct (pte_user e).
        - cbn [app length] in *.
          inversion HfU as [|u' l' Hfu _]; subst.
          destruct (free_step st false UL KL (PTE_TO_PA e) Hu Hk Hfu)
            as (st1 & Hf1 & Hu1 & Hk1 & Hb1 & Hm1).
          { apply PTE_TO_PA_aligned. } { apply PTE_TO_PA_range. }
          { notin_from Hnd. } { notin_from Hnd. } { lia. }
          exists st1. split; [exact Hf1|]. cbn [region negb rev app] in *.
          split; [exact Hk1|]. split; [exact Hu1|]. split; [exact Hb1|].
          intros x Hx. apply Hm1. apply (Hx (PTE_TO_PA e)). left; reflexivity.
        - exists st. split; [reflexivity|]. cbn [rev app].
          split; [exact Hk|]. split; [exact Hu|]. split; [apply same_bounds_refl|].
          intros; reflexivity. }
      destruct Hstep as (st1 & Hf1 & Hk1 & Hu1 & Hb1 & Hm1).
      rewrite Hf1. cbn [bind].
      set (st2 := set_mem st1 (store64 (mem st1) (T + 8 * i)
                    (Z.land (load64 (mem st1) (T + 8 * i)) (int_to_u64 (Z.lnot PTE_V))))).
      assert (Hm2 : forall x, off_frames U1 x -> x < T + 8 * i \/ T + 8 * i + 8 <= x ->
                mem st2 x = mem st x).
      { intros x Hoff Hx. unfold st2. cbn [set_mem mem].
        rewrite store64_other by exact Hx. apply Hm1. exact Hoff. }
      assert (HTU1 : ~ In T U1).
      { unfold U1 in *. destruct (pte_user e); [|intros []]. cbn [app] in Hnd. notin_from Hnd. }
      assert (Hext : forall fl f x, Forall (fun g => g mod PGSIZE = 0) fl -> ~ In T fl ->
                 In f fl -> f <= x < f + PGSIZE -> mem st2 x = mem st1 x).
      { intros fl f x Hal HnT Hf Hx. unfold st2. cbn [set_mem mem].
        apply store64_other. rewrite Forall_forall in Hal.
        assert (HfT : f <> T) by (intros ->; exact (HnT Hf)).
        destruct (aligned_apart f T (Hal f Hf) AT HfT); unfold PGSIZE in *; lia. }
      assert (Hal : forall r fl, Forall (frame_in (begin r) (end_ r)) fl ->
                 Forall (fun g => g mod PGSIZE = 0) fl).
      { intros r fl H. apply Forall_forall. rewrite Forall_forall in H.
        intros g Hg. destruct (H g Hg) as (_ & Ag & _). exact Ag. }
      assert (Hk2 : region_inv (mem st2) (kern_region st2) KL).
      { apply (region_inv_ext (mem st1)); [exact Hk1|].
        intros f x Hf Hx. apply (Hext KL f x); [|notin_from Hnd|exact Hf|exact Hx].
        destruct Hk1 as (_ & _ & _ & _ & Hfr). exact (Hal _ _ Hfr). }
      assert (Hu2 : region_inv (mem st2) (user_region st2) (rev U1 ++ UL)).
      { apply (region_inv_ext (mem st1)); [exact Hu1|].
        intros f x Hf Hx. apply (Hext (rev U1 ++ UL) f x); [| |exact Hf|exact Hx].
        - destruct Hu1 as (_ & _ & _ & _ & Hfr). exact (Hal _ _ Hfr).
        - unfold U1 in *. destruct (pte_user e); cbn [app] in Hnd; notin_from Hnd. }
      assert (Hb2 : same_bounds st st2) by exact Hb1.
      destruct (rest_same L n (mem st) (mem st2) T i U1) as (EK & EU).
      { exact Hi. } { lia. } { exact AT. } { exact AU1. } { exact HTU1. }
      { fold Krest. notin_from Hnd. }
      { fold Krest. intros f Hf. pose proof (count_in _ _ Hf) as Hcf.
        unfold U1 in *. destruct (pte_user e); cbn [app] in Hnd; notin_from Hnd. }
      { exact Hm2. }
      fold Krest in EK. fold Urest in EU.
      destruct (IH st2 T (i + 1) KL (rev U1 ++ UL)) as (st3 & Hd3 & Hpost3 & Hm3).
      { lia. } { lia. }
      { rewrite EK, EU. destruct Hb2 as (B1 & B2 & B3 & B4).
        split; [exact Hk2|]. split; [exact Hu2|]. split; [exact AT|].
        split; [unfold U1 in *; destruct (pte_user e); cbn [app rev] in *; nodup_from Hnd|].
        split; [apply (freeable_bounds (kern_region st)); [exact B1|exact B2|exact HfK]|].
        split.
        { apply (freeable_bounds (user_region st)); [exact B3|exact B4|].
          apply Forall_app in HfU. destruct HfU as (_ & HfUr). exact HfUr. }
        rewrite !length_app, length_rev in *. lia. }
      rewrite EK, EU in Hpost3, Hm3.
      exists st3. split; [exact Hd3|]. split.
      { destruct Hpost3 as (Hk3 & Hu3 & Hb3).
        split; [exact Hk3|]. split; [|apply (same_bounds_trans st st2 st3); assumption].
        rewrite rev_app_distr, <- app_assoc. exact Hu3. }
      intros x Hoff Hx. rewrite Hm3.
      * apply Hm2; [|lia]. intros f Hf. apply Hoff.
        apply in_or_app. right. apply in_or_app. left. exact Hf.
      * intros f Hf. apply Hoff. apply in_app_or in Hf. destruct Hf as [Hf|Hf].
        -- apply in_or_app. left. exact Hf.
        -- apply in_or_app. right. apply in_or_app. right. exact Hf.
      * lia.
Qed.

End destroy_level.


(** [destroy_pgtbl] at any level: it returns, having pushed the frames
    of [kfrees] and [ufrees] on the two free lists, and writes only
    the table and those frames. *)
Lemma destroy_level_ok : forall L st T KL UL,
  frees_pre st T (kfrees L (mem st) T) (ufrees L (mem st) T) KL UL ->
  exists st',
    destroy_pgtbl L st T = Ok st' /\
    frees_post st st' (kfrees L (mem st) T) (ufrees L (mem st) T) KL UL /\
    (forall x, off_frames (T :: kfrees L (mem st) T ++ ufrees L (mem st) T) x ->
       mem st' x = mem st x).
Proof.
  induction L as [|L IHL]; intros st T KL UL Hpre.
  - exists st. cbn [destroy_pgtbl kfrees ufrees] in *.
    destruct Hpre as (Hk & Hu & _). split; [reflexivity|].
    split; [|intros; reflexivity].
    split; [exact Hk|]. split; [exact Hu|apply same_bounds_refl].
  - cbn [destroy_pgtbl kfrees ufrees] in *. destruct (T =? 0).
    + exists st. destruct Hpre as (Hk & Hu & _). split; [reflexivity|].
      split; [|intros; reflexivity].
      split; [exact Hk|]. split; [exact Hu|apply same_bounds_refl].
    + destruct (destroy_loop_ok L IHL 512 st T 0 KL UL ltac:(lia) ltac:(lia) Hpre)
        as (st' & Hd & Hpost & Hm).
      exists st'. split; [exact Hd|]. split; [exact Hpost|].
      intros x Hoff. apply Hm.
      * intros f Hf. apply Hoff. right. exact Hf.
      * pose proof (Hoff T ltac:(left; reflexivity)) as HT. unfold PGSIZE in HT. lia.
Qed.

Lemma freeableb_sound : forall r l,
  forallb (freeableb r) l = true -> Forall (freeable r) l.
Proof.
  intros r l H. apply Forall_forall. intros c Hc.
  rewrite forallb_forall in H. specialize (H c Hc). unfold freeableb in H.
  apply andb_true_iff in H. destruct H as (H & H3).
  apply andb_true_iff in H. destruct H as (H1 & H2).
  apply negb_true_iff in H1. apply Z.eqb_neq in H1.
  apply Z.leb_le in H2. apply Z.ltb_lt in H3.
  split; [exact H1|lia].
Qed.

End syscall_destroy.

(** [uvm_destroy_pgtbl] returns and leaves the two free lists as [kfrees]
    and [ufrees] say. *)
Lemma sc_destroy_ok : forall st root KL UL,
  root <> 0 -> root mod PGSIZE = 0 -> 0 <= root < 2 ^ 64 ->
  Syscall.begin (Syscall.user_region st) <= root < Syscall.end_ (Syscall.user_region st) ->
  Syscall.region_inv (Syscall.mem st) (Syscall.kern_region st) KL ->
  Syscall.region_inv (Syscall.mem st) (Syscall.user_region st) UL ->
  NoDup ((root :: Syscall.kfrees 3 (Syscall.mem st) root)
         ++ Syscall.ufrees 3 (Syscall.mem st) root ++ KL ++ UL) ->
  Forall (Syscall.freeable (Syscall.kern_region st)) (Syscall.kfrees 3 (Syscall.mem st) root) ->
  Forall (Syscall.freeable (Syscall.user_region st)) (Syscall.ufrees 3 (Syscall.mem st) root) ->
  Z.of_nat (length (Syscall.kfrees 3 (Syscall.mem st) root)) + Z.of_nat (length KL) < 2 ^ 32 ->
  Z.of_nat (length (Syscall.ufrees 3 (Syscall.mem st) root)) + Z.of_nat (length UL) + 1
    < 2 ^ 32 ->
  exists st',
    Syscall.uvm_destroy_pgtbl st root = Ok st' /\
    Syscall.region_inv (Syscall.mem st') (Syscall.kern_region st')
      (rev (Syscall.kfrees 3 (Syscall.mem st) root) ++ KL) /\
    Syscall.region_inv (Syscall.mem st') (Syscall.user_region st')
      (root :: rev (Syscall.ufrees 3 (Syscall.mem st) root) ++ UL) /\
    (forall x,
       off_frames (root :: Syscall.kfrees 3 (Syscall.mem st) root
                   ++ Syscall.ufrees 3 (Syscall.mem st) root) x ->
       Syscall.mem st' x = Syscall.mem st x).
Proof.
  intros st root KL UL Hnz Ar Rr Hrg Hk Hu Hnd HfK HfU HlK HlU.
  set (K := Syscall.kfrees 3 (Syscall.mem st) root) in *.
  set (U := Syscall.ufrees 3 (Syscall.mem st) root) in *.
  destruct (destroy_level_ok 3 st root KL UL) as (st1 & Hd & (Hk1 & Hu1 & Hb1) & Hm1).
  { fold K U. repeat (split; [assumption|]). lia. }
  fold K U in Hk1, Hu1, Hm1.
  set (st2 := Syscall.set_mem st1 (memset (Syscall.mem st1) root 0 PGSIZE)).
  assert (Hal : forall r fl, Forall (frame_in (Syscall.begin r) (Syscall.end_ r)) fl ->
             Forall (fun g => g mod PGSIZE = 0) fl).
  { intros r fl H. apply Forall_forall. rewrite Forall_forall in H.
    intros g Hg. destruct (H g Hg) as (_ & Ag & _). exact Ag. }
  assert (Hext : forall fl f x, Forall (fun g => g mod PGSIZE = 0) fl -> ~ In root fl ->
             In f fl -> f <= x < f + PGSIZE -> Syscall.mem st2 x = Syscall.mem st1 x).
  { intros fl f x Hfl HnT Hf Hx. unfold st2. cbn [Syscall.set_mem Syscall.mem].
    apply memset_other. rewrite Forall_forall in Hfl.
    assert (HfT : f <> root) by (intros ->; exact (HnT Hf)).
    destruct (aligned_apart f root (Hfl f Hf) Ar HfT); unfold PGSIZE in *; lia. }
  assert (Hk2 : Syscall.region_inv (Syscall.mem st2) (Syscall.kern_region st2) (rev K ++ KL)).
  { apply (region_inv_ext (Syscall.mem st1)); [exact Hk1|].
    intros f x Hf Hx. apply (Hext (rev K ++ KL) f x); [|notin_from Hnd|exact Hf|exact Hx].
    destruct Hk1 as (_ & _ & _ & _ & Hfr). exact (Hal _ _ Hfr). }
  assert (Hu2 : Syscall.region_inv (Syscall.mem st2) (Syscall.user_region st2) (rev U ++ UL)).
  { apply (region_inv_ext (Syscall.mem st1)); [exact Hu1|].
    intros f x Hf Hx. apply (Hext (rev U ++ UL) f x); [|notin_from Hnd|exact Hf|exact Hx].
    destruct Hu1 as (_ & _ & _ & _ & Hfr). exact (Hal _ _ Hfr). }
  destruct Hb1 as (B1 & B2 & B3 & B4).
  destruct (free_step st2 false (rev U ++ UL) (rev K ++ KL) root Hu2 Hk2)
    as (st3 & Hf3 & Hu3 & Hk3 & _ & Hm3).
  { split; [exact Hnz|]. unfold st2. cbn [Syscall.region Syscall.set_mem Syscall.user_region].
    rewrite B3, B4. exact Hrg. }
  { exact Ar. } { exact Rr. }
  { notin_from Hnd. } { notin_from Hnd. }
  { rewrite length_app, length_rev. lia. }
  cbn [Syscall.region negb] in Hu3, Hk3.
  exists st3. split.
  { unfold Syscall.uvm_destroy_pgtbl.
    destruct (Z.eqb_spec root 0) as [E|_]; [contradiction|].
    rewrite Hd. cbn [bind]. exact Hf3. }
  split; [exact Hk3|]. split; [exact Hu3|].
  intros x Hoff. pose proof (Hoff root ltac:(left; reflexivity)) as Hx.
  rewrite Hm3 by exact Hx. unfold st2. cbn [Syscall.set_mem Syscall.mem].
  rewrite memset_other by exact Hx. apply Hm1. exact Hoff.
Qed.

(** X11. 系统调用, [uvm_destroy_pgtbl]: on a tree whose table frames
    below the root ([kfrees], each listed after the tables below it)
    and whose [PTE_U] page frames ([ufrees]) are frames of the kernel
    and of the user region, all different from one another, from the
    root and from the frames of the two free lists, the call returns
    without a panic.  Afterwards the kernel free list holds the table
    frames, the last freed first, above its old frames; the user free
    list holds the root above the user pages above its old frames;
    no byte outside the root and the freed frames has changed.  Pages
    mapped without [PTE_U] are not freed. *)
Theorem syscall_destroy_frees_tree : forall st root KL UL,
  root <> 0 -> root mod PGSIZE = 0 -> 0 <= root < 2 ^ 64 ->
  Syscall.begin (Syscall.user_region st) <= root < Syscall.end_ (Syscall.user_region st) ->
  Syscall.region_inv (Syscall.mem st) (Syscall.kern_region st) KL ->
  Syscall.region_inv (Syscall.mem st) (Syscall.user_region st) UL ->
  NoDup ((root :: Syscall.kfrees 3 (Syscall.mem st) root)
         ++ Syscall.ufrees 3 (Syscall.mem st) root ++ KL ++ UL) ->
  Forall (Syscall.freeable (Syscall.kern_region st)) (Syscall.kfrees 3 (Syscall.mem st) root) ->
  Forall (Syscall.freeable (Syscall.user_region st)) (Syscall.ufrees 3 (Syscall.mem st) root) ->
  Z.of_nat (length (Syscall.kfrees 3 (Syscall.mem st) root)) + Z.of_nat (length KL) < 2 ^ 32 ->
  Z.of_nat (length (Syscall.ufrees 3 (Syscall.mem st) root)) + Z.of_nat (length UL) + 1
    < 2 ^ 32 ->
  exists st',
    Syscall.uvm_destroy_pgtbl st root = Ok st' /\
    Syscall.region_inv (Syscall.mem st') (Syscall.kern_region st')
      (rev (Syscall.kfrees 3 (Syscall.mem st) root) ++ KL) /\
    Syscall.region_inv (Syscall.mem st') (Syscall.user_region st')
      (root :: rev (Syscall.ufrees 3 (Syscall.mem st) root) ++ UL) /\
    (forall x,
       off_frames (root :: Syscall.kfrees 3 (Syscall.mem st) root
                   ++ Syscall.ufrees 3 (Syscall.mem st) root) x ->
       Syscall.mem st' x = Syscall.mem st x).
Proof. exact sc_destroy_ok. Qed.

(** X11 at an example: the tree of [small_root] with its heap grown to
    0x3800. *)
Lemma syscall_destroy_frees_tree_witness :
  Syscall.small_root <> 0 /\ Syscall.small_root mod PGSIZE = 0 /\
  0 <= Syscall.small_root < 2 ^ 64 /\
  Syscall.begin (Syscall.user_region Syscall.grow_end) <= Syscall.small_root
    < Syscall.end_ (Syscall.user_region Syscall.grow_end) /\
  Syscall.region_inv (Syscall.mem Syscall.grow_end) (Syscall.kern_region Syscall.grow_end)
    Syscall.grow_KL /\
  Syscall.region_inv (Syscall.mem Syscall.grow_end) (Syscall.user_region Syscall.grow_end)
    Syscall.grow_end_UL /\
  NoDup ((Syscall.small_root :: Syscall.kfrees 3 (Syscall.mem Syscall.grow_end) Syscall.small_root)
         ++ Syscall.ufrees 3 (Syscall.mem Syscall.grow_end) Syscall.small_root
         ++ Syscall.grow_KL ++ Syscall.grow_end_UL) /\
  Forall (Syscall.freeable (Syscall.kern_region Syscall.grow_end))
    (Syscall.kfrees 3 (Syscall.mem Syscall.grow_end) Syscall.small_root) /\
  Forall (Syscall.freeable (Syscall.user_region Syscall.grow_end))
    (Syscall.ufrees 3 (Syscall.mem Syscall.grow_end) Syscall.small_root) /\
  Z.of_nat (length (Syscall.kfrees 3 (Syscall.mem Syscall.grow_end) Syscall.small_root))
    + Z.of_nat (length Syscall.grow_KL) < 2 ^ 32 /\
  Z.of_nat (length (Syscall.ufrees 3 (Syscall.mem Syscall.grow_end) Syscall.small_root))
    + Z.of_nat (length Syscall.grow_end_UL) + 1 < 2 ^ 32 /\
  exists st',
    Syscall.uvm_destroy_pgtbl Syscall.grow_end Syscall.small_root = Ok st' /\
    Syscall.region_inv (Syscall.mem st') (Syscall.user_region st')
      (Syscall.small_root
       :: rev (Syscall.ufrees 3 (Syscall.mem Syscall.grow_end) Syscall.small_root)
       ++ Syscall.grow_end_UL).
Proof.
  assert (H1 : Syscall.small_root <> 0) by (vm_compute; discriminate).
  assert (H2 : Syscall.small_root mod PGSIZE = 0) by (vm_compute; reflexivity).
  assert (H3 : 0 <= Syscall.small_root < 2 ^ 64) by (vm_compute; split; [intros E; discriminate E|reflexivity]).
  assert (H4 : Syscall.begin (Syscall.user_region Syscall.grow_end) <= Syscall.small_root
               < Syscall.end_ (Syscall.user_region Syscall.grow_end))
    by (vm_compute; split; [intros E; discriminate E|reflexivity]).
  assert (H5 : Syscall.region_inv (Syscall.mem Syscall.grow_end)
                 (Syscall.kern_region Syscall.grow_end) Syscall.grow_KL).
  { apply region_invb_sound. vm_compute. reflexivity. }
  assert (H6 : Syscall.region_inv (Syscall.mem Syscall.grow_end)
                 (Syscall.user_region Syscall.grow_end) Syscall.grow_end_UL).
  { apply region_invb_sound. vm_compute. reflexivity. }
  assert (H7 : NoDup ((Syscall.small_root
                       :: Syscall.kfrees 3 (Syscall.mem Syscall.grow_end) Syscall.small_root)
         ++ Syscall.ufrees 3 (Syscall.mem Syscall.grow_end) Syscall.small_root
         ++ Syscall.grow_KL ++ Syscall.grow_end_UL)).
  { apply distinctb_NoDup. vm_compute. reflexivity. }
  assert (H8 : Forall (Syscall.freeable (Syscall.kern_region Syscall.grow_end))
                 (Syscall.kfrees 3 (Syscall.mem Syscall.grow_end) Syscall.small_root)).
  { apply freeableb_sound. vm_compute. reflexivity. }
  assert (H9 : Forall (Syscall.freeable (Syscall.user_region Syscall.grow_end))
                 (Syscall.ufrees 3 (Syscall.mem Syscall.grow_end) Syscall.small_root)).
  { apply freeableb_sound. vm_compute. reflexivity. }
  assert (H10 : Z.of_nat (length (Syscall.kfrees 3 (Syscall.mem Syscall.grow_end)
                                    Syscall.small_root))
                + Z.of_nat (length Syscall.grow_KL) < 2 ^ 32) by (vm_compute; reflexivity).
  assert (H11 : Z.of_nat (length (Syscall.ufrees 3 (Syscall.mem Syscall.grow_end)
                                    Syscall.small_root))
                + Z.of_nat (length Syscall.grow_end_UL) + 1 < 2 ^ 32)
    by (vm_compute; reflexivity).
  split; [exact H1|]. split; [exact H2|]. split; [exact H3|]. split; [exact H4|].
  split; [exact H5|]. split; [exact H6|]. split; [exact H7|]. split; [exact H8|].
  split; [exact H9|]. split; [exact H10|]. split; [exact H11|].
  destruct (syscall_destroy_frees_tree Syscall.grow_end Syscall.small_root Syscall.grow_KL
              Syscall.grow_end_UL H1 H2 H3 H4 H5 H6 H7 H8 H9 H10 H11)
    as (st' & Hd & _ & Hu & _).
  exists st'. split; [exact Hd|exact Hu].
Defined.

(** ** 系统调用: [proc_pgtbl_init] and [uvm_destroy_pgtbl] *)

Section syscall_proc_create.
Import Syscall.

Lemma link_pte_table : forall f,
  Z.land (Z.lor (PA_TO_PTE f) PTE_V) (Z.lor (Z.lor PTE_R PTE_W) PTE_X) = 0.
Proof.
  intros f. change (Z.lor (Z.lor PTE_R PTE_W) PTE_X) with 14.
  replace (Z.lor (PA_TO_PTE f) PTE_V) with (leaf_pte f 0).
  - rewrite leaf_pte_rwx by lia. reflexivity.
  - unfold leaf_pte. change (int_to_u64 0) with 0. rewrite Z.lor_0_r. reflexivity.
Qed.

Lemma leaf_pte_user : forall pa perm, 0 <= perm < 1024 ->
  pte_user (leaf_pte pa perm) = negb (Z.land perm PTE_U =? 0).
Proof.
  intros pa perm Hp. unfold pte_user. f_equal. f_equal.
  unfold leaf_pte, int_to_u64. rewrite wrap64_small by lia. rewrite <- Z.lor_assoc.
  rewrite (land_low _ PTE_U) by (unfold PTE_U; lia).
  assert (Hfl : 0 <= Z.lor perm PTE_V < 1024).
  { apply (lor_range _ _ 10); [lia|exact Hp|unfold PTE_V; lia]. }
  rewrite flags_of_lor by exact Hfl.
  rewrite Z.land_lor_distr_l. change (Z.land PTE_V PTE_U) with 0.
  apply Z.lor_0_r.
Qed.

Lemma leaf_pte_valid : forall pa perm, 0 <= perm < 1024 ->
  pte_valid (leaf_pte pa perm) = true.
Proof.
  intros pa perm Hp. unfold pte_valid.
  unfold leaf_pte, int_to_u64. rewrite wrap64_small by lia. rewrite <- Z.lor_assoc.
  rewrite (land_low _ PTE_V) by (unfold PTE_V; lia).
  assert (Hfl : 0 <= Z.lor perm PTE_V < 1024).
  { apply (lor_range _ _ 10); [lia|exact Hp|unfold PTE_V; lia]. }
  rewrite flags_of_lor by exact Hfl.
  rewrite Z.land_lor_distr_l. change (Z.land PTE_V PTE_V) with 1.
  destruct (Z.eqb_spec (Z.lor (Z.land perm PTE_V) 1) 0) as [E|E]; [|reflexivity].
  exfalso. apply Z.lor_eq_0_iff in E. destruct E as (_ & E). discriminate E.
Qed.

(** A table with no table entry and no user page frees nothing. *)
Lemma frees_loop_none : forall krec urec n m T i,
  (forall j, i <= j < i + Z.of_nat n ->
     pte_valid (load64 m (T + 8 * j)) = false \/
     (Z.land (load64 m (T + 8 * j)) (Z.lor (Z.lor PTE_R PTE_W) PTE_X) <> 0 /\
      pte_user (load64 m (T + 8 * j)) = false)) ->
  kfrees_loop krec n m T i = [] /\ ufrees_loop urec n m T i = [].
Proof.
  intros krec urec n m T. induction n as [|n IH]; intros i H; [split; reflexivity|].
  cbn [kfrees_loop ufrees_loop]. cbv zeta.
  destruct (IH (i + 1)) as (Ek & Eu); [intros j Hj; apply H; lia|].
  rewrite Ek, Eu.
  destruct (H i ltac:(lia)) as [Hv|(Hr & Hu)].
  - rewrite Hv. split; reflexivity.
  - apply Z.eqb_neq in Hr. rewrite Hr, Hu.
    destruct (negb (pte_valid (load64 m (T + 8 * i)))); split; reflexivity.
Qed.

(** A table whose only valid entry is a table entry frees what is
    below that entry and then its target. *)
Lemma frees_loop_one : forall krec urec n m T i k,
  i <= k < i + Z.of_nat n ->
  (forall j, i <= j < i + Z.of_nat n -> j <> k ->
     pte_valid (load64 m (T + 8 * j)) = false) ->
  is_table_entry (load64 m (T + 8 * k)) ->
  kfrees_loop krec n m T i
  = krec (PTE_TO_PA (load64 m (T + 8 * k))) ++ [PTE_TO_PA (load64 m (T + 8 * k))] /\
  ufrees_loop urec n m T i = urec (PTE_TO_PA (load64 m (T + 8 * k))).
Proof.
  intros krec urec n m T. induction n as [|n IH]; intros i k Hk H (Hv & Ht); [lia|].
  cbn [kfrees_loop ufrees_loop]. cbv zeta.
  destruct (Z.eq_dec i k) as [->|Hne].
  - rewrite Hv, Ht. cbn [negb Z.eqb].
    destruct (frees_loop_none krec urec n m T (k + 1)) as (Ek & Eu).
    { intros j Hj. left. apply H; lia. }
    rewrite Ek, Eu, !app_nil_r. split; reflexivity.
  - rewrite (H i) by lia. cbn [negb app].
    apply IH; [lia| |split; assumption].
    intros j Hj Hjk. apply H; [lia|exact Hjk].
Qed.

Lemma sc_alloc_bounds : forall st k st' p,
  pmem_alloc st k = Ok (st', p) -> same_bounds st st'.
Proof.
  intros st k st' p H. destruct (sc_alloc_ok _ _ _ _ H) as (_ & _ & _ & _ & Er & Eo).
  unfold same_bounds. destruct k; cbn [region negb] in *; rewrite Er, Eo; cbn;
    repeat split; reflexivity.
Qed.

Lemma sc_getpte_bounds : forall l st T va alloc st' p,
  vm_getpte_loop l st T va alloc = Ok (st', p) -> same_bounds st st'.
Proof.
  induction l as [|l IH]; intros st T va alloc st' p H.
  - cbn [vm_getpte_loop] in H. injection H as <- _. apply same_bounds_refl.
  - rewrite sc_loop_S in H. cbv zeta in H.
    destruct (pte_valid (load64 (mem st) (T + 8 * VA_TO_VPN va (Z.of_nat (S l))))).
    + exact (IH _ _ _ _ _ _ H).
    + destruct (negb alloc); [injection H as <- _; apply same_bounds_refl|].
      destruct (pmem_alloc st true) as [[st1 f]|msg|] eqn:Hal; cbn [bind] in H; try discriminate.
      pose proof (sc_alloc_bounds _ _ _ _ Hal) as Hb.
      destruct (f =? 0); [injection H as <- _; exact Hb|].
      apply (same_bounds_trans st st1 st'); [exact Hb|].
      apply (same_bounds_trans st1 (set_mem st1 (store64 (memset (mem st1) f 0 PGSIZE)
               (T + 8 * VA_TO_VPN va (Z.of_nat (S l))) (Z.lor (PA_TO_PTE f) PTE_V))) st');
        [repeat split; reflexivity|].
      exact (IH _ _ _ _ _ _ H).
Qed.


(** The memory [proc_pgtbl_init] builds: the root [r] with one entry
    to the table [a], [a] with one entry to the table [b], and the two
    leaves in [b]. *)
Lemma create_loads : forall m r a b pa pb l1 l2 m2 m2a m2b m3 m4,
  r mod PGSIZE = 0 -> a mod PGSIZE = 0 -> b mod PGSIZE = 0 ->
  r <> a -> r <> b -> a <> b ->
  0 <= pa < 2 ^ 64 -> 0 <= pb < 2 ^ 64 -> 0 <= l1 < 2 ^ 64 -> 0 <= l2 < 2 ^ 64 ->
  m2 = memset (memset m r 0 PGSIZE) r 0 PGSIZE ->
  m2a = store64 (memset (memset m2 a 0 PGSIZE) a 0 PGSIZE) (r + 8 * 255) pa ->
  m2b = store64 (memset (memset m2a b 0 PGSIZE) b 0 PGSIZE) (a + 8 * 511) pb ->
  m3 = store64 m2b (b + 8 * 511) l1 ->
  m4 = store64 m3 (b + 8 * 510) l2 ->
  (forall j, 0 <= j < 512 ->
     load64 m2a (r + 8 * j) = (if j =? 255 then pa else 0) /\
     load64 m3 (r + 8 * j) = (if j =? 255 then pa else 0) /\
     load64 m4 (r + 8 * j) = (if j =? 255 then pa else 0)) /\
  (forall j, 0 <= j < 512 ->
     load64 m2a (a + 8 * j) = 0 /\
     load64 m3 (a + 8 * j) = (if j =? 511 then pb else 0) /\
     load64 m4 (a + 8 * j) = (if j =? 511 then pb else 0)) /\
  (forall j, 0 <= j < 512 ->
     load64 m2b (b + 8 * j) = 0 /\
     load64 m3 (b + 8 * j) = (if j =? 511 then l1 else 0) /\
     load64 m4 (b + 8 * j)
     = (if j =? 511 then l1 else if j =? 510 then l2 else 0)) /\
  (forall x, off_frames [r; a; b] x ->
     m2 x = m x /\ m2a x = m x /\ m2b x = m x /\ m3 x = m x /\ m4 x = m x).
Proof.
  intros m r a b pa pb l1 l2 m2 m2a m2b m3 m4 Ar Aa Ab Hra Hrb Hab Rpa Rpb Rl1 Rl2
         E2 E2a E2b E3 E4.
  pose proof (aligned_apart r a Ar Aa Hra) as Pra.
  pose proof (aligned_apart r b Ar Ab Hrb) as Prb.
  pose proof (aligned_apart a b Aa Ab Hab) as Pab.
  unfold PGSIZE in Pra, Prb, Pab.
  assert (Lr2a : forall j, 0 <= j < 512 ->
            load64 m2a (r + 8 * j) = (if j =? 255 then pa else 0)).
  { intros j Hj. rewrite E2a. destruct (Z.eqb_spec j 255) as [->|Hne].
    - apply load64_store64_same. exact Rpa.
    - rewrite load64_store64_other by lia.
      rewrite !load64_memset_other by (unfold PGSIZE; lia).
      rewrite E2. apply load64_memset_zero; unfold PGSIZE; lia. }
  assert (La2a : forall j, 0 <= j < 512 -> load64 m2a (a + 8 * j) = 0).
  { intros j Hj. rewrite E2a. rewrite load64_store64_other by lia.
    apply load64_memset_zero; unfold PGSIZE; lia. }
  assert (Lr2b : forall j, 0 <= j < 512 -> load64 m2b (r + 8 * j) = load64 m2a (r + 8 * j)).
  { intros j Hj. rewrite E2b. rewrite load64_store64_other by lia.
    rewrite !load64_memset_other by (unfold PGSIZE; lia). reflexivity. }
  assert (La2b : forall j, 0 <= j < 512 ->
            load64 m2b (a + 8 * j) = (if j =? 511 then pb else 0)).
  { intros j Hj. rewrite E2b. destruct (Z.eqb_spec j 511) as [->|Hne].
    - apply load64_store64_same. exact Rpb.
    - rewrite load64_store64_other by lia.
      rewrite !load64_memset_other by (unfold PGSIZE; lia). apply La2a. exact Hj. }
  assert (Lb2b : forall j, 0 <= j < 512 -> load64 m2b (b + 8 * j) = 0).
  { intros j Hj. rewrite E2b. rewrite load64_store64_other by lia.
    apply load64_memset_zero; unfold PGSIZE; lia. }
  assert (Lb3 : forall j, 0 <= j < 512 ->
            load64 m3 (b + 8 * j) = (if j =? 511 then l1 else 0)).
  { intros j Hj. rewrite E3. destruct (Z.eqb_spec j 511) as [->|Hne].
    - apply load64_store64_same. exact Rl1.
    - rewrite load64_store64_other by lia. apply Lb2b. exact Hj. }
  assert (Lb4 : forall j, 0 <= j < 512 ->
            load64 m4 (b + 8 * j) = (if j =? 511 then l1 else if j =? 510 then l2 else 0)).
  { intros j Hj. rewrite E4. destruct (Z.eqb_spec j 510) as [->|Hne].
    - cbn [Z.eqb Pos.eqb]. apply load64_store64_same. exact Rl2.
    - rewrite load64_store64_other by lia. rewrite Lb3 by exact Hj.
      destruct (j =? 511); reflexivity. }
  split; [|split; [|split]].
  - intros j Hj. split; [apply Lr2a; exact Hj|].
    assert (E : load64 m3 (r + 8 * j) = (if j =? 255 then pa else 0)).
    { rewrite E3, load64_store64_other by lia. rewrite Lr2b by exact Hj.
      apply Lr2a. exact Hj. }
    split; [exact E|]. rewrite E4, load64_store64_other by lia. exact E.
  - intros j Hj. split; [apply La2a; exact Hj|].
    assert (E : load64 m3 (a + 8 * j) = (if j =? 511 then pb else 0)).
    { rewrite E3, load64_store64_other by lia. apply La2b. exact Hj. }
    split; [exact E|]. rewrite E4, load64_store64_other by lia. exact E.
  - intros j Hj. split; [apply Lb2b; exact Hj|]. split; [apply Lb3; exact Hj|].
    apply Lb4. exact Hj.
  - intros x Hoff.
    pose proof (Hoff r ltac:(left; reflexivity)) as Hr.
    pose proof (Hoff a ltac:(right; left; reflexivity)) as Ha.
    pose proof (Hoff b ltac:(right; right; left; reflexivity)) as Hb.
    unfold PGSIZE in Hr, Ha, Hb.
    assert (X2 : m2 x = m x).
    { rewrite E2. rewrite !memset_other by (unfold PGSIZE; lia). reflexivity. }
    assert (X2a : m2a x = m x).
    { rewrite E2a. rewrite store64_other by lia.
      rewrite !memset_other by (unfold PGSIZE; lia). exact X2. }
    assert (X2b : m2b x = m x).
    { rewrite E2b. rewrite store64_other by lia.
      rewrite !memset_other by (unfold PGSIZE; lia). exact X2a. }
    assert (X3 : m3 x = m x).
    { rewrite E3. rewrite store64_other by lia. exact X2b. }
    repeat split; try assumption.
    rewrite E4. rewrite store64_other by lia. exact X3.
Qed.


Lemma mem_set_mem : forall st m, mem (set_mem st m) = m.
Proof. reflexivity. Qed.

Lemma frames_aligned : forall r fl,
  Forall (frame_in (begin r) (end_ r)) fl -> Forall (fun g => g mod PGSIZE = 0) fl.
Proof.
  intros r fl H. apply Forall_forall. rewrite Forall_forall in H.
  intros g Hg. destruct (H g Hg) as (_ & Ag & _). exact Ag.
Qed.

(** [proc_pgtbl_init], when it returns: the root is the first free user
    frame, the two tables the first two free kernel frames, and the
    tree holds the two leaves and nothing else. *)
Lemma sc_create_tree : forall st tramp tf KL UL st4 root,
  region_inv (mem st) (kern_region st) KL ->
  region_inv (mem st) (user_region st) UL ->
  NoDup (KL ++ UL) ->
  proc_pgtbl_init st tramp tf = Ok (st4, root) ->
  exists a b KL' UL',
    KL = a :: b :: KL' /\ UL = root :: UL' /\
    good_frame root /\ good_frame a /\ good_frame b /\
    region_inv (mem st4) (kern_region st4) KL' /\
    region_inv (mem st4) (user_region st4) UL' /\
    same_bounds st st4 /\
    (forall j, 0 <= j < 512 ->
       load64 (mem st4) (root + 8 * j)
       = (if j =? 255 then Z.lor (PA_TO_PTE a) PTE_V else 0)) /\
    (forall j, 0 <= j < 512 ->
       load64 (mem st4) (a + 8 * j)
       = (if j =? 511 then Z.lor (PA_TO_PTE b) PTE_V else 0)) /\
    (forall j, 0 <= j < 512 ->
       load64 (mem st4) (b + 8 * j)
       = (if j =? 511 then leaf_pte tramp (Z.lor PTE_R PTE_X)
          else if j =? 510 then leaf_pte tf (Z.lor PTE_R PTE_W) else 0)) /\
    (forall x, off_frames [root; a; b] x -> mem st4 x = mem st x).
Proof.
  intros st tramp tf KL UL st4 root Hk Hu Hnd H.
  unfold proc_pgtbl_init in H.
  destruct (pmem_alloc st false) as [[st1 r]|msg|] eqn:Hal; cbn [bind] in H; try discriminate.
  destruct (sc_alloc_inv st false UL st1 r Hu Hal) as (UL' & EUL & Hgr & Em1 & Hu1 & Hk1e).
  pose proof (sc_alloc_bounds _ _ _ _ Hal) as Hb1.
  cbn [region negb] in Hu1, Hk1e.
  pose proof Hgr as (Hrnz & Rr & Ar).
  destruct (r =? 0) eqn:Ez; [apply Z.eqb_eq in Ez; contradiction|].
  cbv zeta in H.
  set (st2 := set_mem st1 (memset (mem st1) r 0 PGSIZE)) in *.
  destruct (vm_mappages st2 r TRAMPOLINE tramp PGSIZE (Z.lor PTE_R PTE_X))
    as [st3|msg|] eqn:Hm1; cbn [bind] in H; try discriminate.
  destruct (vm_mappages st3 r TRAPFRAME tf PGSIZE (Z.lor PTE_R PTE_W))
    as [st4'|msg|] eqn:Hm2; cbn [bind] in H; try discriminate.
  injection H as <- <-.
  subst UL.
  assert (E2 : mem st2 = memset (memset (mem st) r 0 PGSIZE) r 0 PGSIZE).
  { unfold st2. cbn [set_mem mem]. rewrite Em1. reflexivity. }
  pose proof Hk as (_ & _ & _ & HndK & HfrK).
  pose proof (frames_aligned _ _ HfrK) as AK.
  (* the kernel free list is untouched so far *)
  assert (Hk2 : region_inv (mem st2) (kern_region st2) KL).
  { assert (Ek2 : kern_region st2 = kern_region st) by exact Hk1e.
    rewrite Ek2. apply (region_inv_ext (mem st)); [exact Hk|].
    intros f x Hf Hx. rewrite E2.
    assert (Hne : f <> r) by (intros ->; revert Hf; notin_from Hnd).
    rewrite Forall_forall in AK.
    destruct (aligned_apart f r (AK f Hf) Ar Hne);
      rewrite !memset_other by lia; reflexivity. }
  (* first mapping *)
  destruct (sc_map_ok_checks _ _ _ _ _ _ Hm1) as (_ & Atr & _).
  rewrite sc_map_one_turn in Hm1;
    [|vm_compute; split; [intros E; discriminate E|reflexivity]|reflexivity|exact Atr
     |vm_compute; intros E; discriminate E].
  cbn [vm_mappages_loop] in Hm1. unfold vm_getpte in Hm1.
  destruct (vm_getpte_loop 2 st2 r TRAMPOLINE true) as [[st2c p]|msg|] eqn:Hg;
    cbn [bind] in Hm1; try discriminate.
  pose proof (sc_getpte_bounds _ _ _ _ _ _ _ Hg) as Hb2.
  destruct (sc_link st2 KL r 1 TRAMPOLINE (st2c, p) Hk2) as
    (a & KL1 & st2a & EKL & Hga & Hg1 & Em2a & Hr2a & Eu2a).
  { change (VA_TO_VPN TRAMPOLINE (Z.of_nat 2)) with 255. rewrite E2.
    rewrite load64_memset_zero by (unfold PGSIZE; lia). reflexivity. }
  { exact Hg. }
  change (VA_TO_VPN TRAMPOLINE (Z.of_nat 2)) with 255 in Em2a.
  pose proof Hga as (Hanz & Ra & Aa).
  subst KL.
  assert (Hra : r <> a) by (intros ->; revert Hnd; clear; intros Hnd;
    assert (X : ~ In a (a :: KL1 ++ a :: UL') -> False) by (intros X; apply X; left; reflexivity);
    apply X; notin_from Hnd).
  assert (Hk2a : region_inv (mem st2a) (kern_region st2a) KL1).
  { apply (region_inv_ext (memset (mem st2) a 0 PGSIZE)); [exact Hr2a|].
    intros f x Hf Hx. rewrite Em2a.
    assert (Af : f mod PGSIZE = 0).
    { rewrite Forall_forall in AK. apply AK. right; exact Hf. }
    assert (Hfr : f <> r) by (intros ->; revert Hf; notin_from Hnd).
    assert (Hfa : f <> a) by (intros ->; revert Hf; notin_from HndK).
    destruct (aligned_apart f r Af Ar Hfr); destruct (aligned_apart f a Af Aa Hfa);
      unfold PGSIZE in *; rewrite store64_other by lia;
      rewrite (memset_other (memset (mem st2) a 0 4096)) by lia; reflexivity. }
  pose proof (aligned_apart r a Ar Aa Hra) as Pra. unfold PGSIZE in Pra.
  destruct (sc_link st2a KL1 a 0 TRAMPOLINE (st2c, p) Hk2a) as
    (b & KL' & st2b & EKL1 & Hgb & Hg0 & Em2b & Hr2b & Eu2b).
  { change (VA_TO_VPN TRAMPOLINE (Z.of_nat 1)) with 511. rewrite Em2a.
    rewrite linked_fresh by (unfold PGSIZE; lia). reflexivity. }
  { exact Hg1. }
  change (VA_TO_VPN TRAMPOLINE (Z.of_nat 1)) with 511 in Em2b.
  pose proof Hgb as (Hbnz & Rb & Ab).
  subst KL1.
  assert (Hab : a <> b) by (intros ->; revert HndK; clear; intros HndK;
    inversion HndK as [|x l Hn _]; subst; apply Hn; left; reflexivity).
  assert (Hrb : r <> b) by (intros ->; revert Hnd; clear; intros Hnd;
    assert (X : ~ In b (a :: b :: KL' ++ b :: UL') -> False)
      by (intros X; apply X; right; left; reflexivity);
    apply X; notin_from Hnd).
  cbn [vm_getpte_loop] in Hg0. injection Hg0 as Est Ep. subst st2c.
  change (VA_TO_VPN TRAMPOLINE 0) with 511 in Ep.
  assert (Ep' : p = b + 8 * 511) by lia. clear Ep. subst p.
  pose proof (aligned_apart r b Ar Ab Hrb) as Prb. unfold PGSIZE in Prb.
  pose proof (aligned_apart a b Aa Ab Hab) as Pab. unfold PGSIZE in Pab.
  set (l1 := leaf_pte tramp (Z.lor PTE_R PTE_X)) in *.
  set (l2 := leaf_pte tf (Z.lor PTE_R PTE_W)) in *.
  destruct (link_pte_facts a Ra Aa) as (Rpa & Vpa & Ppa).
  destruct (link_pte_facts b Rb Ab) as (Rpb & Vpb & Ppb).
  destruct (create_loads (mem st) r a b (Z.lor (PA_TO_PTE a) PTE_V) (Z.lor (PA_TO_PTE b) PTE_V)
              l1 l2 (mem st2) (mem st2a) (mem st2b)
              (store64 (mem st2b) (b + 8 * 511) l1)
              (store64 (store64 (mem st2b) (b + 8 * 511) l1) (b + 8 * 510) l2)
              Ar Aa Ab Hra Hrb Hab Rpa Rpb (leaf_pte_range _ _) (leaf_pte_range _ _)
              E2 Em2a Em2b eq_refl eq_refl) as (Lr & La & Lb & Loff).
  assert (Hp1 : (b + 8 * 511 =? 0) = false) by (apply Z.eqb_neq; lia).
  assert (Hv1 : pte_valid (load64 (mem st2b) (b + 8 * 511)) = false).
  { rewrite (proj1 (Lb 511 ltac:(lia))). reflexivity. }
  rewrite Hp1, Hv1 in Hm1.
  assert (Est3 : st3 = set_mem st2b (store64 (mem st2b) (b + 8 * 511) l1))
    by (injection Hm1 as <-; reflexivity).
  clear Hm1. subst st3.
  (* second mapping *)
  destruct (sc_map_ok_checks _ _ _ _ _ _ Hm2) as (_ & Atf & _).
  rewrite sc_map_one_turn in Hm2;
    [|vm_compute; split; [intros E; discriminate E|reflexivity]|reflexivity|exact Atf
     |vm_compute; intros E; discriminate E].
  cbn [vm_mappages_loop] in Hm2.
  rewrite (sc_getpte_hit _ r TRAPFRAME true a b) in Hm2.
  2:{ change (VA_TO_VPN TRAPFRAME 2) with 255. rewrite mem_set_mem.
      rewrite (proj1 (proj2 (Lr 255 ltac:(lia)))). exact Vpa. }
  2:{ change (VA_TO_VPN TRAPFRAME 2) with 255. rewrite mem_set_mem.
      rewrite (proj1 (proj2 (Lr 255 ltac:(lia)))). exact Ppa. }
  2:{ change (VA_TO_VPN TRAPFRAME 1) with 511. rewrite mem_set_mem.
      rewrite (proj1 (proj2 (La 511 ltac:(lia)))). exact Vpb. }
  2:{ change (VA_TO_VPN TRAPFRAME 1) with 511. rewrite mem_set_mem.
      rewrite (proj1 (proj2 (La 511 ltac:(lia)))). exact Ppb. }
  cbn [bind] in Hm2. change (VA_TO_VPN TRAPFRAME 0) with 510 in Hm2.
  assert (Hp2 : (b + 8 * 510 =? 0) = false) by (apply Z.eqb_neq; lia).
  assert (Hv2 : pte_valid (load64 (mem (set_mem st2b (store64 (mem st2b) (b + 8 * 511) l1)))
                             (b + 8 * 510)) = false).
  { rewrite mem_set_mem. rewrite (proj1 (proj2 (Lb 510 ltac:(lia)))). reflexivity. }
  rewrite Hp2, Hv2 in Hm2.
  assert (Est4 : st4' = set_mem (set_mem st2b (store64 (mem st2b) (b + 8 * 511) l1))
                         (store64 (store64 (mem st2b) (b + 8 * 511) l1) (b + 8 * 510) l2))
    by (injection Hm2 as <-; reflexivity).
  clear Hm2. subst st4'.
  rewrite !mem_set_mem.
  change (kern_region (set_mem (set_mem st2b (store64 (mem st2b) (b + 8 * 511) l1))
            (store64 (store64 (mem st2b) (b + 8 * 511) l1) (b + 8 * 510) l2)))
    with (kern_region st2b).
  change (user_region (set_mem (set_mem st2b (store64 (mem st2b) (b + 8 * 511) l1))
            (store64 (store64 (mem st2b) (b + 8 * 511) l1) (b + 8 * 510) l2)))
    with (user_region st2b).
  exists a, b, KL', UL'.
  split; [reflexivity|]. split; [reflexivity|].
  split; [exact Hgr|]. split; [exact Hga|]. split; [exact Hgb|].
  pose proof Hu as (_ & _ & _ & HndU & HfrU).
  pose proof (frames_aligned _ _ HfrU) as AU.
  rewrite Forall_forall in AK, AU.
  split; [|split; [|split; [|split; [|split; [|split]]]]].
  - apply (region_inv_ext (memset (mem st2a) b 0 PGSIZE)); [exact Hr2b|].
    intros f x Hf Hx.
    assert (Af : f mod PGSIZE = 0) by (apply AK; right; right; exact Hf).
    assert (Hfr : f <> r) by (intros ->; revert Hf; notin_from Hnd).
    assert (Hfa : f <> a) by (intros ->; revert Hf; notin_from HndK).
    assert (Hfb : f <> b) by (intros ->; revert Hf; notin_from HndK).
    assert (Hoff : off_frames [r; a; b] x).
    { intros g [<-|[<-|[<-|[]]]].
      - destruct (aligned_apart f r Af Ar Hfr); lia.
      - destruct (aligned_apart f a Af Aa Hfa); lia.
      - destruct (aligned_apart f b Af Ab Hfb); lia. }
    destruct (Loff x Hoff) as (_ & X2a & _ & _ & X4).
    rewrite X4. rewrite memset_other; [symmetry; exact X2a|].
    destruct (aligned_apart f b Af Ab Hfb); lia.
  - rewrite Eu2b, Eu2a. unfold st2. cbn [set_mem user_region].
    apply (region_inv_ext (mem st1)); [exact Hu1|].
    intros f x Hf Hx.
    assert (Af : f mod PGSIZE = 0) by (apply AU; right; exact Hf).
    assert (Hfr : f <> r) by (intros ->; revert Hf; notin_from HndU).
    assert (Hfa : f <> a) by (intros ->; revert Hf; notin_from Hnd).
    assert (Hfb : f <> b) by (intros ->; revert Hf; notin_from Hnd).
    assert (Hoff : off_frames [r; a; b] x).
    { intros g [<-|[<-|[<-|[]]]].
      - destruct (aligned_apart f r Af Ar Hfr); lia.
      - destruct (aligned_apart f a Af Aa Hfa); lia.
      - destruct (aligned_apart f b Af Ab Hfb); lia. }
    destruct (Loff x Hoff) as (_ & _ & _ & _ & X4).
    rewrite X4, Em1. rewrite memset_other; [reflexivity|].
    destruct (aligned_apart f r Af Ar Hfr); lia.
  - apply (same_bounds_trans st st1); [exact Hb1|].
    apply (same_bounds_trans st1 st2); [repeat split; reflexivity|].
    apply (same_bounds_trans st2 st2b); [exact Hb2|repeat split; reflexivity].
  - intros j Hj. apply (Lr j Hj).
  - intros j Hj. apply (La j Hj).
  - intros j Hj. apply (Lb j Hj).
  - intros x Hoff. apply (Loff x Hoff).
Qed.


(** What the destruction of the tree of [proc_pgtbl_init] frees: the
    two tables, the lower one first, and no page. *)
Lemma create_frees : forall m root a b l1 l2,
  good_frame root -> good_frame a -> good_frame b ->
  pte_valid l1 = true -> pte_valid l2 = true ->
  Z.land l1 (Z.lor (Z.lor PTE_R PTE_W) PTE_X) <> 0 ->
  Z.land l2 (Z.lor (Z.lor PTE_R PTE_W) PTE_X) <> 0 ->
  pte_user l1 = false -> pte_user l2 = false ->
  (forall j, 0 <= j < 512 ->
     load64 m (root + 8 * j) = (if j =? 255 then Z.lor (PA_TO_PTE a) PTE_V else 0)) ->
  (forall j, 0 <= j < 512 ->
     load64 m (a + 8 * j) = (if j =? 511 then Z.lor (PA_TO_PTE b) PTE_V else 0)) ->
  (forall j, 0 <= j < 512 ->
     load64 m (b + 8 * j) = (if j =? 511 then l1 else if j =? 510 then l2 else 0)) ->
  kfrees 3 m root = [b; a] /\ ufrees 3 m root = [].
Proof.
  intros m root a b l1 l2 (Hrnz & _ & _) (Hanz & Ra & Aa) (Hbnz & Rb & Ab)
         V1 V2 X1 X2 U1 U2 Lr La Lb.
  destruct (link_pte_facts a Ra Aa) as (_ & Vpa & Ppa).
  destruct (link_pte_facts b Rb Ab) as (_ & Vpb & Ppb).
  assert (Eb : kfrees 1 m b = [] /\ ufrees 1 m b = []).
  { cbn [kfrees ufrees]. destruct (Z.eqb_spec b 0) as [E|_]; [contradiction|].
    apply frees_loop_none. intros j Hj. rewrite (Lb j) by lia.
    destruct (j =? 511); [right; split; assumption|].
    destruct (j =? 510); [right; split; assumption|left; reflexivity]. }
  destruct Eb as (Ekb & Eub).
  assert (Ea : kfrees 2 m a = [b] /\ ufrees 2 m a = []).
  { change (kfrees 2 m a) with
      (if a =? 0 then [] else kfrees_loop (kfrees 1 m) 512 m a 0).
    change (ufrees 2 m a) with
      (if a =? 0 then [] else ufrees_loop (ufrees 1 m) 512 m a 0).
    destruct (Z.eqb_spec a 0) as [E|_]; [contradiction|].
    destruct (frees_loop_one (kfrees 1 m) (ufrees 1 m) 512 m a 0 511) as (Ek & Eu).
    { lia. }
    { intros j Hj Hne. rewrite (La j) by lia.
      destruct (Z.eqb_spec j 511) as [E|_]; [contradiction|reflexivity]. }
    { rewrite (La 511) by lia. split; [exact Vpb|apply link_pte_table]. }
    rewrite (La 511) in Ek, Eu by lia. cbn [Z.eqb Pos.eqb] in Ek, Eu.
    rewrite Ppb in Ek, Eu. rewrite Ek, Eu, Ekb, Eub. split; reflexivity. }
  destruct Ea as (Eka & Eua).
  change (kfrees 3 m root) with
    (if root =? 0 then [] else kfrees_loop (kfrees 2 m) 512 m root 0).
  change (ufrees 3 m root) with
    (if root =? 0 then [] else ufrees_loop (ufrees 2 m) 512 m root 0).
  destruct (Z.eqb_spec root 0) as [E|_]; [contradiction|].
  destruct (frees_loop_one (kfrees 2 m) (ufrees 2 m) 512 m root 0 255) as (Ek & Eu).
  { lia. }
  { intros j Hj Hne. rewrite (Lr j) by lia.
    destruct (Z.eqb_spec j 255) as [E|_]; [contradiction|reflexivity]. }
  { rewrite (Lr 255) by lia. split; [exact Vpa|apply link_pte_table]. }
  rewrite (Lr 255) in Ek, Eu by lia. cbn [Z.eqb Pos.eqb] in Ek, Eu.
  rewrite Ppa in Ek, Eu. rewrite Ek, Eu, Eka, Eua. split; reflexivity.
Qed.

Lemma leaf_rx_facts : forall pa,
  pte_valid (leaf_pte pa (Z.lor PTE_R PTE_X)) = true /\
  Z.land (leaf_pte pa (Z.lor PTE_R PTE_X)) (Z.lor (Z.lor PTE_R PTE_W) PTE_X) <> 0 /\
  pte_user (leaf_pte pa (Z.lor PTE_R PTE_X)) = false.
Proof.
  intros pa. change (Z.lor PTE_R PTE_X) with 10.
  change (Z.lor (Z.lor PTE_R PTE_W) PTE_X) with 14.
  split; [apply leaf_pte_valid; lia|]. split.
  - rewrite leaf_pte_rwx by lia. discriminate.
  - rewrite leaf_pte_user by lia. reflexivity.
Qed.

Lemma leaf_rw_facts : forall pa,
  pte_valid (leaf_pte pa (Z.lor PTE_R PTE_W)) = true /\
  Z.land (leaf_pte pa (Z.lor PTE_R PTE_W)) (Z.lor (Z.lor PTE_R PTE_W) PTE_X) <> 0 /\
  pte_user (leaf_pte pa (Z.lor PTE_R PTE_W)) = false.
Proof.
  intros pa. change (Z.lor PTE_R PTE_W) with 6.
  change (Z.lor (Z.lor 6 PTE_X)) with (Z.lor 14).
  change (Z.lor (Z.lor 6 PTE_X) 0) with 14.
  split; [apply leaf_pte_valid; lia|]. split.
  - change (Z.lor 6 PTE_X) with 14. rewrite leaf_pte_rwx by lia. discriminate.
  - rewrite leaf_pte_user by lia. reflexivity.
Qed.

(** Creation followed by destruction gives both free lists back. *)
Lemma sc_create_destroy : forall st tramp tf KL UL st1 root,
  region_inv (mem st) (kern_region st) KL ->
  region_inv (mem st) (user_region st) UL ->
  NoDup (KL ++ UL) ->
  proc_pgtbl_init st tramp tf = Ok (st1, root) ->
  exists st2,
    uvm_destroy_pgtbl st1 root = Ok st2 /\
    region_inv (mem st2) (kern_region st2) KL /\
    region_inv (mem st2) (user_region st2) UL.
Proof.
  intros st tramp tf KL UL st1 root Hk Hu Hnd H.
  destruct (sc_create_tree st tramp tf KL UL st1 root Hk Hu Hnd H)
    as (a & b & KL' & UL' & EKL & EUL & Hgr & Hga & Hgb & Hk1 & Hu1 & Hb & Lr & La & Lb & _).
  destruct (leaf_rx_facts tramp) as (V1 & X1 & U1).
  destruct (leaf_rw_facts tf) as (V2 & X2 & U2).
  destruct (create_frees (mem st1) root a b _ _ Hgr Hga Hgb V1 V2 X1 X2 U1 U2 Lr La Lb)
    as (EK & EU).
  pose proof Hk as (_ & _ & HlK & _ & HfrK).
  pose proof Hu as (_ & _ & HlU & _ & HfrU).
  subst KL UL. cbn [length] in HlK, HlU.
  destruct Hb as (B1 & B2 & B3 & B4).
  pose proof Hgr as (Hrnz & Rr & Ar).
  destruct (sc_destroy_ok st1 root KL' UL') as (st2 & Hd & Hk2 & Hu2 & _).
  - exact Hrnz.
  - exact Ar.
  - exact Rr.
  - rewrite B3, B4. inversion HfrU as [|x l (_ & _ & Hin) _]; subst. exact Hin.
  - exact Hk1.
  - exact Hu1.
  - rewrite EK, EU. nodup_from Hnd.
  - rewrite EK. inversion HfrK as [|x l (_ & _ & Hina) HfrK']; subst.
    inversion HfrK' as [|x l (_ & _ & Hinb) _]; subst.
    destruct Hga as (Hanz & _). destruct Hgb as (Hbnz & _).
    constructor; [split; [exact Hbnz|rewrite B1, B2; exact Hinb]|].
    constructor; [split; [exact Hanz|rewrite B1, B2; exact Hina]|constructor].
  - rewrite EU. constructor.
  - rewrite EK. cbn [length]. lia.
  - rewrite EU. cbn [length]. lia.
  - exists st2. split; [exact Hd|].
    rewrite EK in Hk2. rewrite EU in Hu2. split; [exact Hk2|exact Hu2].
Qed.


(** The two pages of the tree of [proc_pgtbl_init], and no page for the
    user. *)
Lemma sc_create_pages : forall m st root a b tramp tf,
  mem st = m ->
  good_frame root -> good_frame a -> good_frame b ->
  0 <= tramp < 2 ^ 64 -> tramp mod PGSIZE = 0 ->
  0 <= tf < 2 ^ 64 -> tf mod PGSIZE = 0 ->
  (forall j, 0 <= j < 512 ->
     load64 m (root + 8 * j) = (if j =? 255 then Z.lor (PA_TO_PTE a) PTE_V else 0)) ->
  (forall j, 0 <= j < 512 ->
     load64 m (a + 8 * j) = (if j =? 511 then Z.lor (PA_TO_PTE b) PTE_V else 0)) ->
  (forall j, 0 <= j < 512 ->
     load64 m (b + 8 * j)
     = (if j =? 511 then leaf_pte tramp (Z.lor PTE_R PTE_X)
        else if j =? 510 then leaf_pte tf (Z.lor PTE_R PTE_W) else 0)) ->
  page_at st root (Z.lor (Z.lor PTE_R PTE_X) PTE_V) TRAMPOLINE tramp /\
  page_at st root (Z.lor (Z.lor PTE_R PTE_W) PTE_V) TRAPFRAME tf /\
  (forall va, user_leaf st root va = false).
Proof.
  intros m st root a b tramp tf Em Hgr (Hanz & Ra & Aa) (Hbnz & Rb & Ab)
         Rtr Atr Rtf Atf Lr La Lb.
  destruct (link_pte_facts a Ra Aa) as (_ & Vpa & Ppa).
  destruct (link_pte_facts b Rb Ab) as (_ & Vpb & Ppb).
  assert (Hlook : forall va, VA_TO_VPN va 2 = 255 -> VA_TO_VPN va 1 = 511 ->
            lookup st root va = b + 8 * VA_TO_VPN va 0).
  { intros va E2 E1. unfold lookup. rewrite Em, E2, (Lr 255) by lia.
    cbn [Z.eqb Pos.eqb]. rewrite Vpa, Ppa, E1, (La 511) by lia.
    cbn [Z.eqb Pos.eqb]. rewrite Vpb, Ppb. reflexivity. }
  split; [|split].
  - unfold page_at. rewrite (Hlook TRAMPOLINE) by reflexivity.
    change (VA_TO_VPN TRAMPOLINE 0) with 511. rewrite Em, (Lb 511) by lia.
    cbn [Z.eqb Pos.eqb]. cbv zeta.
    destruct (leaf_pte_facts tramp (Z.lor PTE_R PTE_X) Rtr Atr ltac:(vm_compute; split; [intros E; discriminate E|reflexivity]))
      as (_ & V & P & F & _).
    split; [lia|]. split; [exact V|]. split; [exact F|exact P].
  - unfold page_at. rewrite (Hlook TRAPFRAME) by reflexivity.
    change (VA_TO_VPN TRAPFRAME 0) with 510. rewrite Em, (Lb 510) by lia.
    cbn [Z.eqb Pos.eqb]. cbv zeta.
    destruct (leaf_pte_facts tf (Z.lor PTE_R PTE_W) Rtf Atf ltac:(vm_compute; split; [intros E; discriminate E|reflexivity]))
      as (_ & V & P & F & _).
    split; [lia|]. split; [exact V|]. split; [exact F|exact P].
  - intros va. unfold user_leaf.
    pose proof (VPN_range va 2) as R2. pose proof (VPN_range va 1) as R1.
    pose proof (VPN_range va 0) as R0.
    destruct (Z.eq_dec (VA_TO_VPN va 2) 255) as [E2|N2].
    + destruct (Z.eq_dec (VA_TO_VPN va 1) 511) as [E1|N1].
      * rewrite (Hlook va E2 E1), Em, (Lb _ R0).
        destruct (leaf_rx_facts tramp) as (_ & _ & U1).
        destruct (leaf_rw_facts tf) as (_ & _ & U2).
        destruct (VA_TO_VPN va 0 =? 511); [rewrite U1; apply andb_false_r|].
        destruct (VA_TO_VPN va 0 =? 510); [rewrite U2; apply andb_false_r|].
        change (pte_valid 0) with false. rewrite andb_false_r. reflexivity.
      * assert (E : lookup st root va = 0).
        { unfold lookup. rewrite Em, E2, (Lr 255) by lia.
          cbn [Z.eqb Pos.eqb]. rewrite Vpa, Ppa, (La _ R1).
          destruct (Z.eqb_spec (VA_TO_VPN va 1) 511) as [E|_]; [contradiction|].
          reflexivity. }
        rewrite E. reflexivity.
    + assert (E : lookup st root va = 0).
      { unfold lookup. rewrite Em, (Lr _ R2).
        destruct (Z.eqb_spec (VA_TO_VPN va 2) 255) as [E|_]; [contradiction|].
        reflexivity. }
      rewrite E. reflexivity.
Qed.

End syscall_proc_create.

(** X12. 系统调用, [proc_pgtbl_init]: when it returns a root, the root
    is the first frame of the user free list and the two tables of the
    walk are the first two frames of the kernel free list; both lists
    stay in order without them.  In the new tree TRAMPOLINE is mapped
    to the trampoline code with R, X and V, TRAPFRAME to the trap frame
    with R, W and V, and no virtual address translates for the user:
    [uvm_get_phys_addr] returns 0 for every address.  No byte outside
    the three frames has changed. *)
Theorem syscall_pgtbl_init_tree : forall st tramp tf KL UL st1 root,
  Syscall.region_inv (Syscall.mem st) (Syscall.kern_region st) KL ->
  Syscall.region_inv (Syscall.mem st) (Syscall.user_region st) UL ->
  NoDup (KL ++ UL) ->
  0 <= tramp < 2 ^ 64 -> 0 <= tf < 2 ^ 64 ->
  Syscall.proc_pgtbl_init st tramp tf = Ok (st1, root) ->
  exists a b KL' UL',
    KL = a :: b :: KL' /\ UL = root :: UL' /\
    Syscall.region_inv (Syscall.mem st1) (Syscall.kern_region st1) KL' /\
    Syscall.region_inv (Syscall.mem st1) (Syscall.user_region st1) UL' /\
    Syscall.page_at st1 root (Z.lor (Z.lor PTE_R PTE_X) PTE_V) Syscall.TRAMPOLINE tramp /\
    Syscall.page_at st1 root (Z.lor (Z.lor PTE_R PTE_W) PTE_V) Syscall.TRAPFRAME tf /\
    (forall va, Syscall.uvm_get_phys_addr st1 root va = Ok 0) /\
    (forall x, off_frames [root; a; b] x -> Syscall.mem st1 x = Syscall.mem st x).
Proof.
  intros st tramp tf KL UL st1 root Hk Hu Hnd Rtr Rtf H.
  destruct (sc_create_tree st tramp tf KL UL st1 root Hk Hu Hnd H)
    as (a & b & KL' & UL' & EKL & EUL & Hgr & Hga & Hgb & Hk1 & Hu1 & _ & Lr & La & Lb & Hoff).
  assert (Al : tramp mod PGSIZE = 0 /\ tf mod PGSIZE = 0).
  { unfold Syscall.proc_pgtbl_init in H.
    destruct (Syscall.pmem_alloc st false) as [[s r]|msg|]; cbn [bind] in H; try discriminate.
    destruct (r =? 0); [injection H as _ E; destruct Hgr as (Hnz & _); congruence|].
    cbv zeta in H.
    destruct (Syscall.vm_mappages _ r Syscall.TRAMPOLINE tramp PGSIZE (Z.lor PTE_R PTE_X))
      as [s3|msg|] eqn:Hm1; cbn [bind] in H; try discriminate.
    destruct (Syscall.vm_mappages s3 r Syscall.TRAPFRAME tf PGSIZE (Z.lor PTE_R PTE_W))
      as [s4|msg|] eqn:Hm2; cbn [bind] in H; try discriminate.
    destruct (sc_map_ok_checks _ _ _ _ _ _ Hm1) as (_ & A1 & _).
    destruct (sc_map_ok_checks _ _ _ _ _ _ Hm2) as (_ & A2 & _).
    split; assumption. }
  destruct Al as (Atr & Atf).
  destruct (sc_create_pages (Syscall.mem st1) st1 root a b tramp tf eq_refl Hgr Hga Hgb
              Rtr Atr Rtf Atf Lr La Lb) as (P1 & P2 & Hno).
  exists a, b, KL', UL'.
  split; [exact EKL|]. split; [exact EUL|]. split; [exact Hk1|]. split; [exact Hu1|].
  split; [exact P1|]. split; [exact P2|]. split; [|exact Hoff].
  intros va. rewrite sc_get_phys_spec, Hno. cbn [negb]. rewrite orb_true_r. reflexivity.
Qed.

(** X12 at an example: the address space of the first process on the
    small machine. *)
Lemma syscall_pgtbl_init_tree_witness :
  Syscall.region_inv (Syscall.mem Syscall.create_start)
    (Syscall.kern_region Syscall.create_start) Syscall.create_KL /\
  Syscall.region_inv (Syscall.mem Syscall.create_start)
    (Syscall.user_region Syscall.create_start) Syscall.create_UL /\
  NoDup (Syscall.create_KL ++ Syscall.create_UL) /\
  0 <= 0x80001000 < 2 ^ 64 /\ 0 <= Syscall.create_tf < 2 ^ 64 /\
  Syscall.proc_pgtbl_init Syscall.create_start 0x80001000 Syscall.create_tf
  = Ok (Syscall.create_end, Syscall.create_root) /\
  Syscall.page_at Syscall.create_end Syscall.create_root (Z.lor (Z.lor PTE_R PTE_W) PTE_V)
    Syscall.TRAPFRAME Syscall.create_tf /\
  forall va, Syscall.uvm_get_phys_addr Syscall.create_end Syscall.create_root va = Ok 0.
Proof.
  assert (H1 : Syscall.region_inv (Syscall.mem Syscall.create_start)
                 (Syscall.kern_region Syscall.create_start) Syscall.create_KL).
  { apply region_invb_sound. vm_compute. reflexivity. }
  assert (H2 : Syscall.region_inv (Syscall.mem Syscall.create_start)
                 (Syscall.user_region Syscall.create_start) Syscall.create_UL).
  { apply region_invb_sound. vm_compute. reflexivity. }
  assert (H3 : NoDup (Syscall.create_KL ++ Syscall.create_UL)).
  { apply distinctb_NoDup. vm_compute. reflexivity. }
  assert (H4 : 0 <= 0x80001000 < 2 ^ 64) by lia.
  assert (H5 : 0 <= Syscall.create_tf < 2 ^ 64)
    by (vm_compute; split; [intros E; discriminate E|reflexivity]).
  assert (H6 : Syscall.proc_pgtbl_init Syscall.create_start 0x80001000 Syscall.create_tf
               = Ok (Syscall.create_end, Syscall.create_root)).
  { unfold Syscall.create_end, Syscall.create_root. rewrite <- surjective_pairing.
    apply get_ok_eq. vm_compute. reflexivity. }
  split; [exact H1|]. split; [exact H2|]. split; [exact H3|]. split; [exact H4|].
  split; [exact H5|]. split; [exact H6|].
  destruct (syscall_pgtbl_init_tree Syscall.create_start 0x80001000 Syscall.create_tf
              Syscall.create_KL Syscall.create_UL Syscall.create_end Syscall.create_root
              H1 H2 H3 H4 H5 H6) as (a & b & KL' & UL' & _ & _ & _ & _ & _ & P2 & Hno & _).
  split; [exact P2|exact Hno].
Defined.

(** X13. 系统调用, [proc_pgtbl_init] then [uvm_destroy_pgtbl]: the
    destruction of a freshly created page table returns without a
    panic and gives both regions their free lists back, frame for
    frame and in the same order: the two tables to the kernel region,
    the root to the user region.  The trampoline and the trap frame,
    mapped without PTE_U, are not freed. *)
Theorem syscall_pgtbl_init_destroy : forall st tramp tf KL UL st1 root,
  Syscall.region_inv (Syscall.mem st) (Syscall.kern_region st) KL ->
  Syscall.region_inv (Syscall.mem st) (Syscall.user_region st) UL ->
  NoDup (KL ++ UL) ->
  Syscall.proc_pgtbl_init st tramp tf = Ok (st1, root) ->
  exists st2,
    Syscall.uvm_destroy_pgtbl st1 root = Ok st2 /\
    Syscall.region_inv (Syscall.mem st2) (Syscall.kern_region st2) KL /\
    Syscall.region_inv (Syscall.mem st2) (Syscall.user_region st2) UL.
Proof. exact sc_create_destroy. Qed.

(** X13 at an example: the address space of the first process on the
    small machine, created and destroyed. *)
Lemma syscall_pgtbl_init_destroy_witness :
  Syscall.region_inv (Syscall.mem Syscall.create_start)
    (Syscall.kern_region Syscall.create_start) Syscall.create_KL /\
  Syscall.region_inv (Syscall.mem Syscall.create_start)
    (Syscall.user_region Syscall.create_start) Syscall.create_UL /\
  NoDup (Syscall.create_KL ++ Syscall.create_UL) /\
  Syscall.proc_pgtbl_init Syscall.create_start 0x80001000 Syscall.create_tf
  = Ok (Syscall.create_end, Syscall.create_root) /\
  exists st2,
    Syscall.uvm_destroy_pgtbl Syscall.create_end Syscall.create_root = Ok st2 /\
    Syscall.region_inv (Syscall.mem st2) (Syscall.kern_region st2) Syscall.create_KL /\
    Syscall.region_inv (Syscall.mem st2) (Syscall.user_region st2) Syscall.create_UL.
Proof.
  assert (H1 : Syscall.region_inv (Syscall.mem Syscall.create_start)
                 (Syscall.kern_region Syscall.create_start) Syscall.create_KL).
  { apply region_invb_sound. vm_compute. reflexivity. }
  assert (H2 : Syscall.region_inv (Syscall.mem Syscall.create_start)
                 (Syscall.user_region Syscall.create_start) Syscall.create_UL).
  { apply region_invb_sound. vm_compute. reflexivity. }
  assert (H3 : NoDup (Syscall.create_KL ++ Syscall.create_UL)).
  { apply distinctb_NoDup. vm_compute. reflexivity. }
  assert (H4 : Syscall.proc_pgtbl_init Syscall.create_start 0x80001000 Syscall.create_tf
               = Ok (Syscall.create_end, Syscall.create_root)).
  { unfold Syscall.create_end, Syscall.create_root. rewrite <- surjective_pairing.
    apply get_ok_eq. vm_compute. reflexivity. }
  split; [exact H1|]. split; [exact H2|]. split; [exact H3|]. split; [exact H4|].
  exact (syscall_pgtbl_init_destroy Syscall.create_start 0x80001000 Syscall.create_tf
           Syscall.create_KL Syscall.create_UL Syscall.create_end Syscall.create_root
           H1 H2 H3 H4).
Defined.

(** ** 系统调用: the node pool of mmap.c *)

Section mmap_pool.
Import Mmap.

Lemma upd_same : forall (A : Type) (f : Z -> A) i v, upd f i v i = v.
Proof. intros. unfold upd. rewrite Z.eqb_refl. reflexivity. Qed.

Lemma upd_other : forall (A : Type) (f : Z -> A) i v j, j <> i -> upd f i v j = f j.
Proof.
  intros A f i v j H. unfold upd. destruct (Z.eqb_spec j i); [contradiction|reflexivity].
Qed.

Lemma chain_ext : forall nx nx' l h,
  (forall a, In a l -> nx' a = nx a) -> chain nx h l -> chain nx' h l.
Proof.
  intros nx nx' l. induction l as [|a l IH]; intros h H Hc; [exact Hc|].
  destruct Hc as (Eh & Hc). split; [exact Eh|].
  rewrite (H a) by (left; reflexivity). apply IH; [|exact Hc].
  intros b Hb. apply H. right; exact Hb.
Qed.

Lemma nodes_from_in : forall n i a, In a (nodes_from n i) <-> i <= a < i + Z.of_nat n.
Proof.
  induction n as [|n IH]; intros i a; cbn [nodes_from In].
  - split; [intros []|lia].
  - rewrite IH. split; [intros [<-|H]; lia|intros H].
    destruct (Z.eq_dec i a); [left; assumption|right; lia].
Qed.

Lemma nodes_from_NoDup : forall n i, NoDup (nodes_from n i).
Proof.
  induction n as [|n IH]; intros i; cbn [nodes_from]; constructor; [|apply IH].
  rewrite nodes_from_in. lia.
Qed.

Lemma nodes_from_app : forall n k i,
  nodes_from (n + k) i = nodes_from n i ++ nodes_from k (i + Z.of_nat n).
Proof.
  induction n as [|n IH]; intros k i.
  - cbn [Nat.add nodes_from app]. f_equal. lia.
  - cbn [Nat.add nodes_from app]. rewrite IH. do 3 f_equal. lia.
Qed.

Lemma nodes_from_length : forall n i, length (nodes_from n i) = n.
Proof. induction n as [|n IH]; intros i; cbn [nodes_from length]; [|rewrite IH]; reflexivity. Qed.

(** The links the loop of [mmap_init] writes. *)
Lemma init_loop_spec : forall n p i,
  list_head (mmap_init_loop n p i) = list_head p /\
  (forall j, node_next (mmap_init_loop n p i) j
             = if (i <=? j) && (j <? i + Z.of_nat n) then Some (j + 1) else node_next p j) /\
  (forall j, node_mmap (mmap_init_loop n p i) j
             = if (i <=? j) && (j <? i + Z.of_nat n) then mmap_zero else node_mmap p j).
Proof.
  induction n as [|n IH]; intros p i.
  - cbn [mmap_init_loop]. split; [reflexivity|].
    split; intros j; destruct (Z.leb_spec i j); destruct (Z.ltb_spec j (i + Z.of_nat 0));
      cbn [andb]; try reflexivity; lia.
  - cbn [mmap_init_loop]. cbv zeta.
    destruct (IH (mk_pool (upd (node_mmap p) i mmap_zero) (upd (node_next p) i (Some (i + 1)))
                    (list_head p)) (i + 1)) as (Eh & En & Em).
    split; [exact Eh|].
    split; intros j; [rewrite En|rewrite Em]; cbn [node_next node_mmap]; unfold upd;
      destruct (Z.leb_spec (i + 1) j); destruct (Z.ltb_spec j (i + 1 + Z.of_nat n));
      destruct (Z.leb_spec i j); destruct (Z.ltb_spec j (i + Z.of_nat (S n)));
      destruct (Z.eqb_spec j i); cbn [andb]; try reflexivity; try lia.
    subst j. reflexivity.
Qed.

Lemma chain_nodes : forall nx n i,
  (forall j, i <= j < i + Z.of_nat n -> nx j = Some (j + 1)) ->
  nx (i + Z.of_nat n) = None ->
  chain nx (Some i) (nodes_from (S n) i).
Proof.
  intros nx n. induction n as [|n IH]; intros i H He.
  - cbn [nodes_from chain]. split; [reflexivity|]. rewrite Z.add_0_r in He. exact He.
  - change (nodes_from (S (S n)) i) with (i :: nodes_from (S n) (i + 1)).
    split; [reflexivity|]. rewrite (H i) by lia. apply IH.
    + intros j Hj. apply H. lia.
    + rewrite <- He. f_equal. lia.
Qed.

Lemma sc_pool_init : forall p, pool_inv (mmap_init p) (nodes_from 255 1).
Proof.
  intros p. unfold mmap_init. cbv zeta.
  change (Z.to_nat (N_MMAP - 1)) with 255%nat. change (N_MMAP - 1) with 255.
  destruct (init_loop_spec 255 p 0) as (Eh & En & Em).
  split; [reflexivity|]. cbn [node_next].
  split; [|split].
  - rewrite upd_other by lia. rewrite En. cbn [Z.leb Z.ltb Z.compare andb Z.add Z.of_nat].
    change (0 + 1) with 1.
    apply (chain_nodes _ 254 1).
    + intros j Hj. rewrite upd_other by lia. rewrite En.
      destruct (Z.leb_spec 0 j); destruct (Z.ltb_spec j (0 + Z.of_nat 255));
        cbn [andb]; try reflexivity; lia.
    + change (1 + Z.of_nat 254) with 255. apply upd_same.
  - apply nodes_from_NoDup.
  - apply Forall_forall. intros a Ha. apply nodes_from_in in Ha. unfold N_MMAP. lia.
Qed.

(** [mmap_region_alloc] on a pool in order. *)
Lemma sc_pool_alloc : forall p a fl,
  pool_inv p (a :: fl) ->
  exists p',
    mmap_region_alloc p = Ok (p', Some a) /\
    pool_inv p' fl /\
    node_mmap p' a = mmap_zero /\ node_next p' a = None /\
    (forall j, j <> a -> node_mmap p' j = node_mmap p j).
Proof.
  intros p a fl (Eh & (E0 & Hc) & Hnd & Hr).
  unfold mmap_region_alloc. rewrite Eh, E0.
  eexists. split; [reflexivity|].
  inversion Hnd as [|x l Hn Hnd']; subst.
  inversion Hr as [|x l Ha Hr']; subst.
  split; [|split; [|split]].
  - split; [reflexivity|]. cbn [node_next]. split; [|split; assumption].
    rewrite upd_other by lia. rewrite upd_same.
    apply (chain_ext (node_next p)); [|exact Hc].
    intros b Hb. rewrite Forall_forall in Hr'. pose proof (Hr' b Hb).
    rewrite !upd_other; [reflexivity|lia|intros ->; contradiction].
  - cbn [node_mmap]. apply upd_same.
  - cbn [node_next]. apply upd_same.
  - intros j Hj. cbn [node_mmap]. apply upd_other. exact Hj.
Qed.

Lemma sc_pool_empty : forall p,
  pool_inv p [] ->
  mmap_region_alloc p
  = Panic "mmap_region_alloc: no available mmap region nodes (pool exhausted)".
Proof.
  intros p (Eh & E0 & _). cbn [chain] in E0.
  unfold mmap_region_alloc. rewrite Eh, E0. reflexivity.
Qed.

(** [mmap_region_free] of a node that is not free, on a pool in order. *)
Lemma sc_pool_free : forall p f fl,
  pool_inv p fl -> 0 < f < N_MMAP -> ~ In f fl ->
  exists p',
    mmap_region_free p (Some f) = Ok p' /\
    pool_inv p' (f :: fl) /\
    node_mmap p' f = mmap_zero /\
    (forall j, j <> f -> node_mmap p' j = node_mmap p j).
Proof.
  intros p f fl (Eh & Hc & Hnd & Hr) Hf Hn.
  unfold mmap_region_free.
  assert (E : (f <? 0) || (N_MMAP <=? f) = false).
  { apply orb_false_iff. split; [apply Z.ltb_ge|apply Z.leb_gt]; lia. }
  rewrite E, Eh. eexists. split; [reflexivity|].
  split; [|split].
  - split; [reflexivity|]. cbn [node_next].
    split; [|split; constructor; assumption].
    split; [apply upd_same|].
    rewrite upd_other by lia. rewrite upd_same.
    apply (chain_ext (node_next p)); [|exact Hc].
    intros b Hb. rewrite Forall_forall in Hr. pose proof (Hr b Hb).
    rewrite !upd_other; [reflexivity|intros ->; contradiction|lia].
  - cbn [node_mmap]. apply upd_same.
  - intros j Hj. cbn [node_mmap]. apply upd_other. exact Hj.
Qed.

Lemma sc_alloc_many : forall l1 l2 p,
  pool_inv p (l1 ++ l2) ->
  exists p', alloc_many (length l1) p = Ok (p', map Some l1) /\ pool_inv p' l2.
Proof.
  induction l1 as [|a l1 IH]; intros l2 p H.
  - exists p. split; [reflexivity|exact H].
  - cbn [app] in H. destruct (sc_pool_alloc p a (l1 ++ l2) H) as (p1 & Ea & H1 & _).
    destruct (IH l2 p1 H1) as (p2 & Em & H2).
    exists p2. cbn [length alloc_many map]. rewrite Ea. cbn [bind]. rewrite Em. cbn [bind].
    split; [reflexivity|exact H2].
Qed.

Lemma sc_alloc_many_panics : forall l p,
  pool_inv p l ->
  alloc_many (S (length l)) p
  = Panic "mmap_region_alloc: no available mmap region nodes (pool exhausted)".
Proof.
  induction l as [|a l IH]; intros p H.
  - cbn [length alloc_many]. rewrite (sc_pool_empty p H). reflexivity.
  - destruct (sc_pool_alloc p a l H) as (p1 & Ea & H1 & _).
    change (alloc_many (S (length (a :: l))) p)
      with ('(p1, a) <- mmap_region_alloc p ;;
            '(p2, l) <- alloc_many (S (length l)) p1 ;; Ok (p2, a :: l)).
    rewrite Ea. cbn [bind]. rewrite (IH p1 H1). reflexivity.
Qed.


(** A node freed twice in a row, then allocated twice. *)
Lemma sc_pool_double_free : forall p f fl,
  pool_inv p fl -> 0 < f < N_MMAP -> ~ In f fl ->
  exists p1 p2 p3 p4,
    mmap_region_free p (Some f) = Ok p1 /\
    mmap_region_free p1 (Some f) = Ok p2 /\
    mmap_region_alloc p2 = Ok (p3, Some f) /\
    mmap_region_alloc p3 = Ok (p4, Some f) /\
    mmap_region_alloc p4
    = Panic "mmap_region_alloc: no available mmap region nodes (pool exhausted)".
Proof.
  intros p f fl (Eh & Hc & Hnd & Hr) Hf Hn.
  assert (E : (f <? 0) || (N_MMAP <=? f) = false).
  { apply orb_false_iff. split; [apply Z.ltb_ge|apply Z.leb_gt]; lia. }
  assert (Hf0 : f <> 0) by lia.
  assert (H0f : 0 <> f) by lia.
  unfold mmap_region_free. rewrite E, Eh.
  eexists. eexists. eexists. eexists.
  split; [reflexivity|].
  cbn [list_head node_next node_mmap].
  split; [reflexivity|].
  unfold mmap_region_alloc. cbn [list_head node_next node_mmap].
  rewrite !upd_same.
  split; [reflexivity|].
  cbn [list_head node_next node_mmap].
  rewrite (upd_other _ _ f None 0 H0f). rewrite !upd_same.
  rewrite (upd_other _ _ 0 (Some f) f Hf0). rewrite upd_same.
  split; [reflexivity|].
  cbn [list_head node_next node_mmap].
  rewrite (upd_other _ _ f None 0 H0f). rewrite !upd_same. reflexivity.
Qed.

(** The pool through [uvm_mmap]: the first free node is taken, records
    the region and stays out of the pool. *)
Lemma sc_mmap_pool : forall st p pgtbl heap_top b n perm fl st' p',
  pool_inv p fl -> n <> 0 ->
  uvm_mmap st p pgtbl heap_top b n perm = Ok (st', p') ->
  exists a fl',
    fl = a :: fl' /\ pool_inv p' fl' /\
    node_mmap p' a = mk_mmap b n None /\ node_next p' a = None.
Proof.
  intros st p pgtbl heap_top b n perm fl st' p' Hp Hn H.
  unfold uvm_mmap in H. apply Z.eqb_neq in Hn. rewrite Hn in H.
  destruct (b mod PGSIZE =? 0); cbn [assert bind] in H; [|discriminate].
  destruct (negb (pgtbl =? 0)); cbn [assert bind] in H; [|discriminate].
  cbv zeta in H.
  destruct ((heap_top <=? b)
            && (wrap64 (b + wrap32 (n * PGSIZE)) <? Syscall.TRAPFRAME - PGSIZE));
    cbn [assert bind] in H; [|discriminate].
  destruct fl as [|a fl'].
  { rewrite (sc_pool_empty p Hp) in H. discriminate H. }
  destruct (sc_pool_alloc p a fl' Hp) as (p1 & Ea & (Eh1 & Hc1 & Hnd1 & Hr1) & _ & En1 & _).
  rewrite Ea in H. cbn [bind] in H.
  destruct (uvm_mmap_loop (Z.to_nat n) st pgtbl b 0 (Z.lor perm (Z.lor PTE_U PTE_V)))
    as [st1|msg|]; cbn [bind] in H; try discriminate.
  injection H as <- <-.
  exists a, fl'. split; [reflexivity|].
  split; [repeat split; assumption|].
  split; [apply upd_same|exact En1].
Qed.

(** The pool through [uvm_munmap]: the node taken is given back, no
    merge takes place, and no node that was allocated is touched. *)
Lemma sc_munmap_pool : forall st p pgtbl b n fl st' p',
  pool_inv p fl ->
  uvm_munmap st p pgtbl b n = Ok (st', p') ->
  pool_inv p' fl /\
  (forall j, ~ In j fl -> node_mmap p' j = node_mmap p j /\ node_next p' j = node_next p j
                          \/ j = 0) /\
  (n <> 0 -> exists st1, uvm_munmap_loop (Z.to_nat n) st pgtbl b 0 = Ok st1 /\ st' = st1).
Proof.
  intros st p pgtbl b n fl st' p' Hp H.
  unfold uvm_munmap in H. destruct (Z.eqb_spec n 0) as [->|Hn].
  { injection H as <- <-. split; [exact Hp|]. split; [|intros X; contradiction].
    intros j _. left. split; reflexivity. }
  destruct (b mod PGSIZE =? 0); cbn [assert bind] in H; [|discriminate].
  destruct (negb (pgtbl =? 0)); cbn [assert bind] in H; [|discriminate].
  cbv zeta in H.
  destruct (wrap64 (b + wrap32 (n * PGSIZE)) <=? Syscall.TRAPFRAME - PGSIZE);
    cbn [assert bind] in H; [|discriminate].
  destruct fl as [|a fl'].
  { rewrite (sc_pool_empty p Hp) in H. discriminate H. }
  destruct (sc_pool_alloc p a fl' Hp) as (p1 & Ea & Hp1 & _ & En1 & Hm1).
  rewrite Ea in H. cbn [bind] in H.
  assert (En : next (node_mmap (set_mmap p1 a (mk_mmap b n None)) a) = None).
  { unfold set_mmap. cbn [node_mmap]. rewrite upd_same. reflexivity. }
  rewrite En in H. cbn [bind] in H.
  destruct (uvm_munmap_loop (Z.to_nat n) st pgtbl b 0) as [st1|msg|] eqn:Hl;
    cbn [bind] in H; try discriminate.
  pose proof Hp as (_ & _ & Hnd & Hr).
  inversion Hnd as [|x l Hna _]; subst. inversion Hr as [|x l Ha _]; subst.
  assert (Hp2 : pool_inv (set_mmap p1 a (mk_mmap b n None)) fl').
  { destruct Hp1 as (X1 & X2 & X3 & X4). repeat split; assumption. }
  destruct (sc_pool_free _ a fl' Hp2 Ha Hna) as (p5 & Ef & Hp5 & _ & Hm5).
  rewrite Ef in H. cbn [bind] in H. injection H as <- <-.
  split; [exact Hp5|]. split.
  - intros j Hj. destruct (Z.eq_dec j 0) as [->|Hj0]; [right; reflexivity|left].
    assert (Hja : j <> a) by (intros ->; apply Hj; left; reflexivity).
    split.
    + rewrite (Hm5 j Hja). unfold set_mmap. cbn [node_mmap].
      rewrite upd_other by exact Hja. apply Hm1. exact Hja.
    + unfold mmap_region_free in Ef.
      destruct ((a <? 0) || (N_MMAP <=? a)); [discriminate|].
      destruct Hp2 as (Eh2 & _). rewrite Eh2 in Ef. injection Ef as <-.
      cbn [node_next set_mmap]. rewrite !upd_other by assumption.
      unfold mmap_region_alloc in Ea. destruct Hp as (Eh & (E0 & _) & _).
      rewrite Eh, E0 in Ea. injection Ea as <-. cbn [node_next].
      rewrite !upd_other by assumption. reflexivity.
  - intros _. exists st1. split; reflexivity.
Qed.

End mmap_pool.

(** X14. 系统调用, mmap.c: after [mmap_init], whatever the pool held
    before, the first [n] calls of [mmap_region_alloc] return the nodes
    1, 2, ..., [n] of the array for every [n] up to 255, leaving the
    nodes after them free; the head node 0 is never handed out; and the
    256th call panics. *)
Theorem mmap_pool_capacity : forall p0 n,
  (n <= 255)%nat ->
  (exists p,
     Mmap.alloc_many n (Mmap.mmap_init p0) = Ok (p, map Some (Mmap.nodes_from n 1)) /\
     Mmap.pool_inv p (Mmap.nodes_from (255 - n) (1 + Z.of_nat n))) /\
  Mmap.alloc_many 256 (Mmap.mmap_init p0)
  = Panic "mmap_region_alloc: no available mmap region nodes (pool exhausted)".
Proof.
  intros p0 n Hn. pose proof (sc_pool_init p0) as Hi. split.
  - replace 255%nat with (n + (255 - n))%nat in Hi by lia.
    rewrite nodes_from_app in Hi.
    destruct (sc_alloc_many _ _ _ Hi) as (p & Ea & Hp).
    rewrite nodes_from_length in Ea. exists p. split; [exact Ea|exact Hp].
  - pose proof (sc_alloc_many_panics _ _ Hi) as Hp.
    rewrite nodes_from_length in Hp. exact Hp.
Qed.

(** X14 at an example: three allocations. *)
Lemma mmap_pool_capacity_witness :
  (3 <= 255)%nat /\
  exists p,
    Mmap.alloc_many 3 (Mmap.mmap_init Mmap.pool0) = Ok (p, [Some 1; Some 2; Some 3]).
Proof.
  assert (H : (3 <= 255)%nat) by lia.
  split; [exact H|].
  destruct (mmap_pool_capacity Mmap.pool0 3 H) as ((p & Ea & _) & _).
  exists p. exact Ea.
Defined.

(** X15. 系统调用, mmap.c: on a pool in order, [mmap_region_free] of a
    node that is in the array, is not the head and is not free,
    followed by [mmap_region_alloc], returns that very node, zeroed and
    with a NULL link, and leaves the free nodes as they were (last
    freed, first allocated). *)
Theorem mmap_pool_lifo : forall p f fl,
  Mmap.pool_inv p fl -> 0 < f < Mmap.N_MMAP -> ~ In f fl ->
  exists p1 p2,
    Mmap.mmap_region_free p (Some f) = Ok p1 /\
    Mmap.mmap_region_alloc p1 = Ok (p2, Some f) /\
    Mmap.pool_inv p2 fl /\
    Mmap.node_mmap p2 f = Mmap.mmap_zero /\ Mmap.node_next p2 f = None.
Proof.
  intros p f fl Hp Hf Hn.
  destruct (sc_pool_free p f fl Hp Hf Hn) as (p1 & Ef & Hp1 & _).
  destruct (sc_pool_alloc p1 f fl Hp1) as (p2 & Ea & Hp2 & Em & En & _).
  exists p1, p2. repeat split; try assumption; apply Hp2.
Qed.

(** X15 at an example: node 2 of [pool3] is given back and taken again. *)
Lemma mmap_pool_lifo_witness :
  Mmap.pool_inv Mmap.pool3 (Mmap.nodes_from 252 4) /\
  0 < 2 < Mmap.N_MMAP /\ ~ In 2 (Mmap.nodes_from 252 4) /\
  exists p1 p2,
    Mmap.mmap_region_free Mmap.pool3 (Some 2) = Ok p1 /\
    Mmap.mmap_region_alloc p1 = Ok (p2, Some 2).
Proof.
  assert (H1 : Mmap.pool_inv Mmap.pool3 (Mmap.nodes_from 252 4)).
  { pose proof (sc_pool_init Mmap.pool0) as Hi.
    change 255%nat with (3 + 252)%nat in Hi. rewrite nodes_from_app in Hi.
    destruct (sc_alloc_many _ _ _ Hi) as (p & Ea & Hp).
    unfold Mmap.pool3. change (length (Mmap.nodes_from 3 1)) with 3%nat in Ea.
    rewrite Ea. exact Hp. }
  assert (H2 : 0 < 2 < Mmap.N_MMAP) by (unfold Mmap.N_MMAP; lia).
  assert (H3 : ~ In 2 (Mmap.nodes_from 252 4)).
  { intros X. apply nodes_from_in in X. lia. }
  split; [exact H1|]. split; [exact H2|]. split; [exact H3|].
  destruct (mmap_pool_lifo Mmap.pool3 2 (Mmap.nodes_from 252 4) H1 H2 H3)
    as (p1 & p2 & Ef & Ea & _).
  exists p1, p2. split; [exact Ef|exact Ea].
Defined.

(** X16. 系统调用, mmap.c: [mmap_region_free] does not notice a node
    that is freed twice.  On a pool in order, after two calls in a row
    on the same allocated node, the next two calls of
    [mmap_region_alloc] both return that node, and the third panics:
    the nodes that were free are lost. *)
Theorem mmap_pool_double_free : forall p f fl,
  Mmap.pool_inv p fl -> 0 < f < Mmap.N_MMAP -> ~ In f fl ->
  exists p1 p2 p3 p4,
    Mmap.mmap_region_free p (Some f) = Ok p1 /\
    Mmap.mmap_region_free p1 (Some f) = Ok p2 /\
    Mmap.mmap_region_alloc p2 = Ok (p3, Some f) /\
    Mmap.mmap_region_alloc p3 = Ok (p4, Some f) /\
    Mmap.mmap_region_alloc p4
    = Panic "mmap_region_alloc: no available mmap region nodes (pool exhausted)".
Proof. exact sc_pool_double_free. Qed.

(** X16 at an example: node 2 of [pool3] freed twice. *)
Lemma mmap_pool_double_free_witness :
  Mmap.pool_inv Mmap.pool3 (Mmap.nodes_from 252 4) /\
  0 < 2 < Mmap.N_MMAP /\ ~ In 2 (Mmap.nodes_from 252 4) /\
  exists p1 p2 p3 p4,
    Mmap.mmap_region_free Mmap.pool3 (Some 2) = Ok p1 /\
    Mmap.mmap_region_free p1 (Some 2) = Ok p2 /\
    Mmap.mmap_region_alloc p2 = Ok (p3, Some 2) /\
    Mmap.mmap_region_alloc p3 = Ok (p4, Some 2).
Proof.
  assert (H1 : Mmap.pool_inv Mmap.pool3 (Mmap.nodes_from 252 4)).
  { pose proof (sc_pool_init Mmap.pool0) as Hi.
    change 255%nat with (3 + 252)%nat in Hi. rewrite nodes_from_app in Hi.
    destruct (sc_alloc_many _ _ _ Hi) as (p & Ea & Hp).
    unfold Mmap.pool3. change (length (Mmap.nodes_from 3 1)) with 3%nat in Ea.
    rewrite Ea. exact Hp. }
  assert (H2 : 0 < 2 < Mmap.N_MMAP) by (unfold Mmap.N_MMAP; lia).
  assert (H3 : ~ In 2 (Mmap.nodes_from 252 4)).
  { intros X. apply nodes_from_in in X. lia. }
  split; [exact H1|]. split; [exact H2|]. split; [exact H3|].
  destruct (mmap_pool_double_free Mmap.pool3 2 (Mmap.nodes_from 252 4) H1 H2 H3)
    as (p1 & p2 & p3 & p4 & E1 & E2 & E3 & E4 & _).
  exists p1, p2, p3, p4. repeat split; assumption.
Defined.

(** ** 系统调用: [uvm_mmap] and [uvm_munmap] *)

(** X17. 系统调用, [uvm_mmap] then [uvm_munmap]: [uvm_mmap] takes the
    first free node of the pool, records the region in it and links it
    nowhere, and [uvm_munmap] gives back only the node it took itself.
    So after a region is mapped and unmapped again, the pool has one
    free node less than before, and the node of the region, still
    holding the region, is lost. *)
Theorem syscall_mmap_node_leak :
  forall st p pgtbl heap_top b n perm fl st1 p1 st2 p2,
  Mmap.pool_inv p fl -> n <> 0 ->
  Mmap.uvm_mmap st p pgtbl heap_top b n perm = Ok (st1, p1) ->
  Mmap.uvm_munmap st1 p1 pgtbl b n = Ok (st2, p2) ->
  exists a fl',
    fl = a :: fl' /\ Mmap.pool_inv p1 fl' /\ Mmap.pool_inv p2 fl' /\
    Mmap.node_mmap p2 a = Mmap.mk_mmap b n None.
Proof.
  intros st p pgtbl heap_top b n perm fl st1 p1 st2 p2 Hp Hn Hm Hu.
  destruct (sc_mmap_pool _ _ _ _ _ _ _ _ _ _ Hp Hn Hm) as (a & fl' & -> & Hp1 & Em & _).
  destruct (sc_munmap_pool _ _ _ _ _ _ _ _ Hp1 Hu) as (Hp2 & Hkeep & _).
  exists a, fl'. split; [reflexivity|]. split; [exact Hp1|]. split; [exact Hp2|].
  destruct Hp as (_ & _ & Hnd & Hr).
  inversion Hnd as [|x l Hna _]; subst. inversion Hr as [|x l Ha _]; subst.
  destruct (Hkeep a Hna) as [(E & _)|E]; [|lia].
  rewrite E. exact Em.
Qed.

(** X17 at an example: two pages at 0x4000 on the small machine. *)
Lemma syscall_mmap_node_leak_witness :
  Mmap.pool_inv (Mmap.mmap_init Mmap.pool0) (Mmap.nodes_from 255 1) /\
  2 <> 0 /\
  Mmap.uvm_mmap Syscall.small_state (Mmap.mmap_init Mmap.pool0) Syscall.small_root
    0x2000 0x4000 2 6 = Ok (fst Mmap.mm_mapped, snd Mmap.mm_mapped) /\
  Mmap.uvm_munmap (fst Mmap.mm_mapped) (snd Mmap.mm_mapped) Syscall.small_root 0x4000 2
  = Ok (fst Mmap.mm_unmapped, snd Mmap.mm_unmapped) /\
  exists a fl',
    Mmap.nodes_from 255 1 = a :: fl' /\ Mmap.pool_inv (snd Mmap.mm_unmapped) fl'.
Proof.
  assert (H1 : Mmap.pool_inv (Mmap.mmap_init Mmap.pool0) (Mmap.nodes_from 255 1))
    by apply sc_pool_init.
  assert (H2 : 2 <> 0) by lia.
  assert (H3 : Mmap.uvm_mmap Syscall.small_state (Mmap.mmap_init Mmap.pool0)
                 Syscall.small_root 0x2000 0x4000 2 6
               = Ok (fst Mmap.mm_mapped, snd Mmap.mm_mapped)).
  { rewrite <- surjective_pairing. apply get_ok_eq. vm_compute. reflexivity. }
  assert (H4 : Mmap.uvm_munmap (fst Mmap.mm_mapped) (snd Mmap.mm_mapped) Syscall.small_root
                 0x4000 2 = Ok (fst Mmap.mm_unmapped, snd Mmap.mm_unmapped)).
  { rewrite <- surjective_pairing. apply get_ok_eq. vm_compute. reflexivity. }
  split; [exact H1|]. split; [exact H2|]. split; [exact H3|]. split; [exact H4|].
  destruct (syscall_mmap_node_leak _ _ _ _ _ _ _ _ _ _ _ _ H1 H2 H3 H4)
    as (a & fl' & E & _ & Hp2 & _).
  exists a, fl'. split; [exact E|exact Hp2].
Defined.

(** The page loop of [uvm_munmap] is the loop of [uvm_heap_ungrow] on
    the same pages, as long as the 32-bit products do not wrap. *)
Lemma munmap_loop_eq : forall n st pgtbl b i,
  0 <= b -> 0 <= i -> i + Z.of_nat n <= 2 ^ 20 ->
  b + PGSIZE * (i + Z.of_nat n) < 2 ^ 64 ->
  Mmap.uvm_munmap_loop n st pgtbl b i
  = Syscall.uvm_heap_ungrow_loop n st pgtbl (b + PGSIZE * i) (b + PGSIZE * (i + Z.of_nat n)).
Proof.
  induction n as [|n IH]; intros st pgtbl b i Hb Hi Hn H64; [reflexivity|].
  cbn [Mmap.uvm_munmap_loop Syscall.uvm_heap_ungrow_loop]. cbv zeta.
  assert (E1 : wrap64 (b + wrap32 (i * PGSIZE)) = b + PGSIZE * i).
  { unfold wrap32. rewrite Z.mod_small by (unfold PGSIZE; lia).
    rewrite wrap64_small by (unfold PGSIZE in *; lia). lia. }
  assert (E2 : (b + PGSIZE * i <? b + PGSIZE * (i + Z.of_nat (S n))) = true)
    by (apply Z.ltb_lt; unfold PGSIZE; lia).
  rewrite E1, E2. cbn [negb].
  destruct (Syscall.vm_getpte st pgtbl (b + PGSIZE * i) false) as [[st1 pte]|msg|];
    cbn [bind]; try reflexivity.
  assert (E3 : wrap64 (b + PGSIZE * i + PGSIZE) = b + PGSIZE * (i + 1))
    by (rewrite wrap64_small by (unfold PGSIZE in *; lia); lia).
  rewrite E3.
  replace (b + PGSIZE * (i + Z.of_nat (S n))) with (b + PGSIZE * (i + 1 + Z.of_nat n)) by lia.
  destruct (negb (pte =? 0) && pte_valid (load64 (Syscall.mem st1) pte)).
  - destruct (Syscall.pmem_free st1 (PTE_TO_PA (load64 (Syscall.mem st1) pte)) false)
      as [st2|msg|]; cbn [bind]; try reflexivity.
    apply IH; lia.
  - cbn [bind]. apply IH; lia.
Qed.

(** X18. 系统调用, [uvm_munmap] of fewer than 2^20 pages that end at or
    below [TRAPFRAME - PGSIZE]: on a tree, a user free list and a pool
    in order with a free node, when the frames of the mapped pages of
    the region are distinct non-null frames of the user region that are
    neither free nor page tables, the call completes.  Those frames are
    then on the user free list, the frame of the last page first; the
    pool, the kernel region and every walk are as before; every page of
    the region has no valid leaf any more; pages of the region that
    were not mapped are skipped. *)
Theorem syscall_munmap_frees :
  forall st p root b n N1 N0 KL UL a fl,
  Syscall.tree_inv st root N1 N0 KL ->
  Syscall.region_inv (Syscall.mem st) (Syscall.user_region st) UL ->
  Mmap.pool_inv p (a :: fl) ->
  root <> 0 -> 0 <= b -> b mod PGSIZE = 0 -> 0 < n < 2 ^ 20 ->
  b + n * PGSIZE <= Syscall.TRAPFRAME - PGSIZE ->
  NoDup ((root :: N1 ++ N0 ++ KL) ++ UL
         ++ Syscall.ungrow_frees st root
              (Syscall.range_pages (Z.to_nat n) b (b + n * PGSIZE))) ->
  Forall (fun c => c <> 0 /\
            Syscall.begin (Syscall.user_region st) <= c < Syscall.end_ (Syscall.user_region st))
         (Syscall.ungrow_frees st root
            (Syscall.range_pages (Z.to_nat n) b (b + n * PGSIZE))) ->
  Z.of_nat (length UL)
  + Z.of_nat (length (Syscall.ungrow_frees st root
                        (Syscall.range_pages (Z.to_nat n) b (b + n * PGSIZE)))) < 2 ^ 32 ->
  exists st' p',
    Mmap.uvm_munmap st p root b n = Ok (st', p') /\
    Mmap.pool_inv p' (a :: fl) /\
    Syscall.kern_region st' = Syscall.kern_region st /\
    Syscall.region_inv (Syscall.mem st') (Syscall.user_region st')
      (rev (Syscall.ungrow_frees st root
              (Syscall.range_pages (Z.to_nat n) b (b + n * PGSIZE))) ++ UL) /\
    (forall v, Syscall.lookup st' root v = Syscall.lookup st root v) /\
    (forall va, va mod PGSIZE = 0 -> b <= va < b + n * PGSIZE ->
       Syscall.lookup st root va <> 0 ->
       pte_valid (load64 (Syscall.mem st') (Syscall.lookup st' root va)) = false).
Proof.
  intros st p root b n N1 N0 KL UL a fl Ht Hu Hp Hroot Hb Hal Hn Hend Hnd Hfr Hcnt.
  assert (Hmax : b + n * PGSIZE < 2 ^ 38).
  { unfold Syscall.TRAPFRAME, Syscall.TRAMPOLINE, Syscall.VA_MAX, PGSIZE in *. lia. }
  destruct (ungrow_loop_ok root N1 N0 KL _ st UL _ _ Ht Hu Hnd Hfr Hcnt)
    as (st' & Hloop & Ht' & Hu' & Hk' & Hup' & HL' & HP').
  pose proof (lookup_same root N1 N0 KL st st' Ht Hup') as Hlook.
  assert (Hml : Mmap.uvm_munmap_loop (Z.to_nat n) st root b 0 = Ok st').
  { rewrite munmap_loop_eq by (rewrite ?Z2Nat.id by lia; unfold PGSIZE in *; lia).
    rewrite Z2Nat.id by lia. rewrite Z.mul_0_r, Z.add_0_r, Z.add_0_l.
    rewrite (Z.mul_comm PGSIZE n). exact Hloop. }
  assert (Hm : exists p2, Mmap.uvm_munmap st p root b n = Ok (st', p2)).
  { unfold Mmap.uvm_munmap.
    assert (E0 : (n =? 0) = false) by (apply Z.eqb_neq; lia).
    rewrite E0, Hal. cbn [Z.eqb assert bind].
    assert (E1 : negb (root =? 0) = true) by (apply negb_true_iff, Z.eqb_neq; exact Hroot).
    rewrite E1. cbn [assert bind]. cbv zeta.
    assert (E2 : (wrap64 (b + wrap32 (n * PGSIZE)) <=? Syscall.TRAPFRAME - PGSIZE) = true).
    { apply Z.leb_le. unfold wrap32. rewrite Z.mod_small by (unfold PGSIZE; lia).
      rewrite wrap64_small by (unfold PGSIZE in *; lia). exact Hend. }
    rewrite E2. cbn [assert bind].
    destruct (sc_pool_alloc p a fl Hp) as (p1 & Ea & Hp1 & _).
    rewrite Ea. cbn [bind].
    assert (En : Mmap.next (Mmap.node_mmap (Mmap.set_mmap p1 a (Mmap.mk_mmap b n None)) a)
                 = None).
    { unfold Mmap.set_mmap. cbn [Mmap.node_mmap]. rewrite upd_same. reflexivity. }
    rewrite En. cbn [bind]. rewrite Hml. cbn [bind].
    destruct Hp as (_ & _ & Hndp & Hrp).
    inversion Hndp as [|x l Hna _]; subst. inversion Hrp as [|x l Ha _]; subst.
    assert (Hp2 : Mmap.pool_inv (Mmap.set_mmap p1 a (Mmap.mk_mmap b n None)) fl).
    { destruct Hp1 as (X1 & X2 & X3 & X4). repeat split; assumption. }
    destruct (sc_pool_free _ a fl Hp2 Ha Hna) as (p5 & Ef & _).
    rewrite Ef. cbn [bind]. exists p5. reflexivity. }
  destruct Hm as (p2 & Hm).
  destruct (sc_munmap_pool _ _ _ _ _ _ _ _ Hp Hm) as (Hp2 & _ & _).
  exists st', p2. split; [exact Hm|]. split; [exact Hp2|].
  split; [exact Hk'|]. split; [exact Hu'|]. split; [exact Hlook|].
  intros va Hva Hr Hl. rewrite Hlook. apply HP'; [|exact Hl].
  assert (Ev : va = b + PGSIZE * Z.of_nat (Z.to_nat ((va - b) / PGSIZE))).
  { rewrite Z2Nat.id by (apply Z.div_pos; unfold PGSIZE; lia).
    unfold PGSIZE in *.
    pose proof (Z.div_mod (va - b) 4096 ltac:(lia)).
    assert ((va - b) mod 4096 = 0).
    { rewrite Zminus_mod, Hva, Hal. reflexivity. }
    lia. }
  rewrite Ev. apply range_pages_in; [|exact Hb|rewrite <- Ev; lia|unfold PGSIZE in *; lia].
  apply Nat2Z.inj_lt. rewrite !Z2Nat.id by (try apply Z.div_pos; unfold PGSIZE; lia).
  apply Z.div_lt_upper_bound; unfold PGSIZE in *; lia.
Qed.

(** X18 at an example: the two pages at 0x4000 of [mm_mapped]. *)
Lemma syscall_munmap_frees_witness :
  Syscall.tree_inv (fst Mmap.mm_mapped) Syscall.small_root Syscall.grow_N1 Syscall.grow_N0
    Mmap.mm_KL /\
  Syscall.region_inv (Syscall.mem (fst Mmap.mm_mapped))
    (Syscall.user_region (fst Mmap.mm_mapped)) Mmap.mm_UL /\
  Mmap.pool_inv (snd Mmap.mm_mapped) (2 :: Mmap.nodes_from 253 3) /\
  Syscall.small_root <> 0 /\ 0 <= 0x4000 /\ 0x4000 mod PGSIZE = 0 /\ 0 < 2 < 2 ^ 20 /\
  0x4000 + 2 * PGSIZE <= Syscall.TRAPFRAME - PGSIZE /\
  NoDup ((Syscall.small_root :: Syscall.grow_N1 ++ Syscall.grow_N0 ++ Mmap.mm_KL) ++ Mmap.mm_UL
         ++ Syscall.ungrow_frees (fst Mmap.mm_mapped) Syscall.small_root
              (Syscall.range_pages (Z.to_nat 2) 0x4000 (0x4000 + 2 * PGSIZE))) /\
  Forall (fun c => c <> 0 /\
            Syscall.begin (Syscall.user_region (fst Mmap.mm_mapped)) <= c
              < Syscall.end_ (Syscall.user_region (fst Mmap.mm_mapped)))
         (Syscall.ungrow_frees (fst Mmap.mm_mapped) Syscall.small_root
            (Syscall.range_pages (Z.to_nat 2) 0x4000 (0x4000 + 2 * PGSIZE))) /\
  Z.of_nat (length Mmap.mm_UL)
  + Z.of_nat (length (Syscall.ungrow_frees (fst Mmap.mm_mapped) Syscall.small_root
                        (Syscall.range_pages (Z.to_nat 2) 0x4000 (0x4000 + 2 * PGSIZE))))
    < 2 ^ 32 /\
  exists st' p',
    Mmap.uvm_munmap (fst Mmap.mm_mapped) (snd Mmap.mm_mapped) Syscall.small_root 0x4000 2
    = Ok (st', p') /\
    Mmap.pool_inv p' (2 :: Mmap.nodes_from 253 3).
Proof.
  assert (H1 : Syscall.tree_inv (fst Mmap.mm_mapped) Syscall.small_root Syscall.grow_N1
                 Syscall.grow_N0 Mmap.mm_KL).
  { apply tree_invb_sound. vm_compute. reflexivity. }
  assert (H2 : Syscall.region_inv (Syscall.mem (fst Mmap.mm_mapped))
                 (Syscall.user_region (fst Mmap.mm_mapped)) Mmap.mm_UL).
  { apply region_invb_sound. vm_compute. reflexivity. }
  assert (H3 : Mmap.pool_inv (snd Mmap.mm_mapped) (2 :: Mmap.nodes_from 253 3)).
  { assert (E : Mmap.uvm_mmap Syscall.small_state (Mmap.mmap_init Mmap.pool0)
                  Syscall.small_root 0x2000 0x4000 2 6
                = Ok (fst Mmap.mm_mapped, snd Mmap.mm_mapped)).
    { rewrite <- surjective_pairing. apply get_ok_eq. vm_compute. reflexivity. }
    assert (Hn : 2 <> 0) by lia.
    destruct (sc_mmap_pool _ _ _ _ _ _ _ _ _ _ (sc_pool_init Mmap.pool0) Hn E)
      as (a & fl' & Efl & Hp1 & _).
    change (Mmap.nodes_from 255 1) with (1 :: 2 :: Mmap.nodes_from 253 3) in Efl.
    injection Efl as _ <-. exact Hp1. }
  assert (H4 : Syscall.small_root <> 0) by (vm_compute; intros E; discriminate E).
  assert (H5 : 0 <= 0x4000) by lia.
  assert (H6 : 0x4000 mod PGSIZE = 0) by reflexivity.
  assert (H7 : 0 < 2 < 2 ^ 20) by lia.
  assert (H8 : 0x4000 + 2 * PGSIZE <= Syscall.TRAPFRAME - PGSIZE)
    by (vm_compute; intros E; discriminate E).
  assert (H9 : NoDup ((Syscall.small_root :: Syscall.grow_N1 ++ Syscall.grow_N0 ++ Mmap.mm_KL)
         ++ Mmap.mm_UL
         ++ Syscall.ungrow_frees (fst Mmap.mm_mapped) Syscall.small_root
              (Syscall.range_pages (Z.to_nat 2) 0x4000 (0x4000 + 2 * PGSIZE)))).
  { apply distinctb_NoDup. vm_compute. reflexivity. }
  assert (H10 : Forall (fun c => c <> 0 /\
            Syscall.begin (Syscall.user_region (fst Mmap.mm_mapped)) <= c
              < Syscall.end_ (Syscall.user_region (fst Mmap.mm_mapped)))
         (Syscall.ungrow_frees (fst Mmap.mm_mapped) Syscall.small_root
            (Syscall.range_pages (Z.to_nat 2) 0x4000 (0x4000 + 2 * PGSIZE)))).
  { apply Forall_forall. intros c Hc. vm_compute in Hc.
    destruct Hc as [<-|[<-|[]]]; vm_compute;
      (split; [intros E; discriminate E|split; [intros E; discriminate E|reflexivity]]). }
  assert (H11 : Z.of_nat (length Mmap.mm_UL)
    + Z.of_nat (length (Syscall.ungrow_frees (fst Mmap.mm_mapped) Syscall.small_root
                          (Syscall.range_pages (Z.to_nat 2) 0x4000 (0x4000 + 2 * PGSIZE))))
    < 2 ^ 32) by (vm_compute; reflexivity).
  split; [exact H1|]. split; [exact H2|]. split; [exact H3|]. split; [exact H4|].
  split; [exact H5|]. split; [exact H6|]. split; [exact H7|]. split; [exact H8|].
  split; [exact H9|]. split; [exact H10|]. split; [exact H11|].
  destruct (syscall_munmap_frees (fst Mmap.mm_mapped) (snd Mmap.mm_mapped) Syscall.small_root
              0x4000 2 Syscall.grow_N1 Syscall.grow_N0 Mmap.mm_KL Mmap.mm_UL
              2 (Mmap.nodes_from 253 3) H1 H2 H3 H4 H5 H6 H7 H8 H9 H10 H11)
    as (st' & p' & Hm & Hp' & _).
  exists st', p'. split; [exact Hm|exact Hp'].
Defined.

(** ** 系统调用: what [uvm_copyin] and [uvm_copyout] copy *)

Section syscall_copy_bytes.
Import Syscall.

Lemma sc_copyin_done : forall n st pgtbl d s, uvm_copyin_loop n st pgtbl 0 d s = Ok st.
Proof. intros [|n] st pgtbl d s; reflexivity. Qed.

Lemma sc_copyout_done : forall n st pgtbl d s, uvm_copyout_loop n st pgtbl 0 d s = Ok st.
Proof. intros [|n] st pgtbl d s; reflexivity. Qed.

(** The helper on a page with a user leaf and a non-null frame. *)
Lemma sc_get_phys_hit : forall st pgtbl va,
  pgtbl <> 0 -> va < TRAMPOLINE -> user_leaf st pgtbl va = true ->
  PTE_TO_PA (load64 (mem st) (lookup st pgtbl va)) <> 0 ->
  uvm_get_phys_addr st pgtbl va
  = Ok (PTE_TO_PA (load64 (mem st) (lookup st pgtbl va)) + va mod PGSIZE) /\
  0 < PTE_TO_PA (load64 (mem st) (lookup st pgtbl va)) + va mod PGSIZE < 2 ^ 64.
Proof.
  intros st pgtbl va Hp Hva Hu Hnz.
  set (F := PTE_TO_PA (load64 (mem st) (lookup st pgtbl va))) in *.
  pose proof (PTE_TO_PA_range (load64 (mem st) (lookup st pgtbl va))) as HR.
  pose proof (PTE_TO_PA_aligned (load64 (mem st) (lookup st pgtbl va))) as HA.
  fold F in HR, HA.
  pose proof (Z.mod_pos_bound va PGSIZE ltac:(unfold PGSIZE; lia)) as Ho.
  assert (HF : F + va mod PGSIZE < 2 ^ 64 /\ 0 < F).
  { unfold PGSIZE in *. pose proof (Z.div_mod F 4096 ltac:(lia)).
    assert (F / 4096 < 2 ^ 52) by (apply Z.div_lt_upper_bound; lia).
    lia. }
  split; [|lia].
  rewrite sc_get_phys_spec, Hu.
  assert (E1 : (pgtbl =? 0) = false) by (apply Z.eqb_neq; exact Hp).
  assert (E2 : (TRAMPOLINE <=? va) = false) by (apply Z.leb_gt; exact Hva).
  rewrite E1, E2. cbn [orb negb]. fold F.
  rewrite wrap64_small by lia. reflexivity.
Qed.

Lemma copy_len_all : forall len o, len <= PGSIZE - o ->
  (if len <? PGSIZE - o then len else PGSIZE - o) = len.
Proof. intros len o H. destruct (Z.ltb_spec len (PGSIZE - o)); lia. Qed.

End syscall_copy_bytes.

(** X19. 系统调用, [uvm_copyin] and [uvm_copyout] of bytes that lie
    within one page: [uvm_get_phys_addr] returns the frame plus the
    page offset and the copy adds the page offset again, so the bytes
    are read from (written to) the frame plus twice the page offset of
    the user address, and nowhere else.  The copy is at the user
    address itself only when that address is page-aligned. *)
Theorem syscall_copy_adds_offset_twice :
  (forall st pgtbl dst src len,
     0 < len -> pgtbl <> 0 -> dst <> 0 -> src < Syscall.TRAMPOLINE ->
     Syscall.user_leaf st pgtbl src = true ->
     PTE_TO_PA (load64 (Syscall.mem st) (Syscall.lookup st pgtbl src)) <> 0 ->
     len <= PGSIZE - src mod PGSIZE ->
     Syscall.uvm_copyin st pgtbl dst src len
     = Ok (Syscall.set_mem st
             (memmove (Syscall.mem st) dst
                (wrap64 (PTE_TO_PA (load64 (Syscall.mem st) (Syscall.lookup st pgtbl src))
                         + 2 * (src mod PGSIZE))) len))) /\
  (forall st pgtbl dst src len,
     0 < len -> pgtbl <> 0 -> src <> 0 -> dst < Syscall.TRAMPOLINE ->
     Syscall.user_leaf st pgtbl dst = true ->
     PTE_TO_PA (load64 (Syscall.mem st) (Syscall.lookup st pgtbl dst)) <> 0 ->
     len <= PGSIZE - dst mod PGSIZE ->
     Syscall.uvm_copyout st pgtbl dst src len
     = Ok (Syscall.set_mem st
             (memmove (Syscall.mem st)
                (wrap64 (PTE_TO_PA (load64 (Syscall.mem st) (Syscall.lookup st pgtbl dst))
                         + 2 * (dst mod PGSIZE))) src len))).
Proof.
  split.
  - intros st pgtbl dst src len Hl Hp Hd Hs Hu Hnz Hone.
    destruct (sc_get_phys_hit st pgtbl src Hp Hs Hu Hnz) as (Eg & Hr).
    unfold Syscall.uvm_copyin.
    assert (E1 : (len =? 0) = false) by (apply Z.eqb_neq; lia).
    assert (E2 : (pgtbl =? 0) = false) by (apply Z.eqb_neq; exact Hp).
    assert (E3 : (dst =? 0) = false) by (apply Z.eqb_neq; exact Hd).
    assert (E4 : (Syscall.TRAMPOLINE <=? src) = false) by (apply Z.leb_gt; exact Hs).
    rewrite E1, E2, E3, E4. cbn [orb].
    destruct (Z.to_nat len) as [|n] eqn:En; [lia|].
    cbn [Syscall.uvm_copyin_loop].
    assert (E5 : (0 <? len) = true) by (apply Z.ltb_lt; exact Hl).
    rewrite E5. cbn [negb]. rewrite Eg. cbn [bind].
    set (F := PTE_TO_PA (load64 (Syscall.mem st) (Syscall.lookup st pgtbl src))) in *.
    assert (E6 : (F + src mod PGSIZE =? 0) = false) by (apply Z.eqb_neq; lia).
    rewrite E6. cbn [negb assert bind]. cbv zeta.
    rewrite copy_len_all by exact Hone.
    rewrite Z.sub_diag, sc_copyin_done.
    replace (F + src mod PGSIZE + src mod PGSIZE) with (F + 2 * (src mod PGSIZE)) by lia.
    reflexivity.
  - intros st pgtbl dst src len Hl Hp Hd Hs Hu Hnz Hone.
    destruct (sc_get_phys_hit st pgtbl dst Hp Hs Hu Hnz) as (Eg & Hr).
    unfold Syscall.uvm_copyout.
    assert (E1 : (len =? 0) = false) by (apply Z.eqb_neq; lia).
    assert (E2 : (pgtbl =? 0) = false) by (apply Z.eqb_neq; exact Hp).
    assert (E3 : (src =? 0) = false) by (apply Z.eqb_neq; exact Hd).
    assert (E4 : (Syscall.TRAMPOLINE <=? dst) = false) by (apply Z.leb_gt; exact Hs).
    rewrite E1, E2, E3, E4. cbn [orb].
    destruct (Z.to_nat len) as [|n] eqn:En; [lia|].
    cbn [Syscall.uvm_copyout_loop].
    assert (E5 : (0 <? len) = true) by (apply Z.ltb_lt; exact Hl).
    rewrite E5. cbn [negb]. rewrite Eg. cbn [bind].
    set (F := PTE_TO_PA (load64 (Syscall.mem st) (Syscall.lookup st pgtbl dst))) in *.
    assert (E6 : (F + dst mod PGSIZE =? 0) = false) by (apply Z.eqb_neq; lia).
    rewrite E6. cbn [negb assert bind]. cbv zeta.
    rewrite copy_len_all by exact Hone.
    rewrite Z.sub_diag, sc_copyout_done.
    replace (F + dst mod PGSIZE + dst mod PGSIZE) with (F + 2 * (dst mod PGSIZE)) by lia.
    reflexivity.
Qed.

(** X19 at an example: eight bytes copied out to 0x1800 of the small
    address space land at offset 0x1000 of the data frame, that is in
    the frame after it. *)
Lemma syscall_copy_adds_offset_twice_witness :
  0 < 8 /\ Syscall.small_root <> 0 /\ 0x80400000 <> 0 /\ 0x1800 < Syscall.TRAMPOLINE /\
  Syscall.user_leaf Syscall.small_state Syscall.small_root 0x1800 = true /\
  PTE_TO_PA (load64 (Syscall.mem Syscall.small_state)
               (Syscall.lookup Syscall.small_state Syscall.small_root 0x1800)) <> 0 /\
  8 <= PGSIZE - 0x1800 mod PGSIZE /\
  Syscall.uvm_copyout Syscall.small_state Syscall.small_root 0x1800 0x80400000 8
  = Ok (Syscall.set_mem Syscall.small_state
          (memmove (Syscall.mem Syscall.small_state)
             (wrap64 (PTE_TO_PA (load64 (Syscall.mem Syscall.small_state)
                                   (Syscall.lookup Syscall.small_state Syscall.small_root
                                                   0x1800))
                      + 2 * (0x1800 mod PGSIZE))) 0x80400000 8)).
Proof.
  assert (H1 : 0 < 8) by lia.
  assert (H2 : Syscall.small_root <> 0) by (vm_compute; intros E; discriminate E).
  assert (H3 : 0x80400000 <> 0) by lia.
  assert (H4 : 0x1800 < Syscall.TRAMPOLINE) by (vm_compute; reflexivity).
  assert (H5 : Syscall.user_leaf Syscall.small_state Syscall.small_root 0x1800 = true)
    by (vm_compute; reflexivity).
  assert (H6 : PTE_TO_PA (load64 (Syscall.mem Syscall.small_state)
               (Syscall.lookup Syscall.small_state Syscall.small_root 0x1800)) <> 0)
    by (vm_compute; intros E; discriminate E).
  assert (H7 : 8 <= PGSIZE - 0x1800 mod PGSIZE) by (vm_compute; intros E; discriminate E).
  split; [exact H1|]. split; [exact H2|]. split; [exact H3|]. split; [exact H4|].
  split; [exact H5|]. split; [exact H6|]. split; [exact H7|].
  exact (proj2 syscall_copy_adds_offset_twice Syscall.small_state Syscall.small_root
           0x1800 0x80400000 8 H1 H2 H3 H4 H5 H6 H7).
Defined.

Section syscall_copy_pages.
Import Syscall.

Lemma lookup_page : forall st root va off,
  va mod PGSIZE = 0 -> 0 <= off < PGSIZE ->
  lookup st root (va + off) = lookup st root va.
Proof.
  intros st root va off Hva Hoff. unfold lookup.
  rewrite !(VPN_offset va off) by (try lia; assumption). reflexivity.
Qed.

Lemma phys_page : forall st root va off,
  va mod PGSIZE = 0 -> 0 <= off < PGSIZE ->
  phys st root (va + off) = PTE_TO_PA (load64 (mem st) (lookup st root va)) + off.
Proof.
  intros st root va off Hva Hoff. unfold phys. rewrite lookup_page by assumption.
  f_equal. unfold PGSIZE in *.
  rewrite Z.add_mod, Hva by lia. cbn [Z.add]. rewrite Z.mod_mod by lia.
  apply Z.mod_small. lia.
Qed.

(** A state whose memory agrees with [st] on the tables finds the
    leaves [st] has. *)
Lemma leaf_stable : forall st st1 root N1 N0 KL v,
  tree_inv st root N1 N0 KL ->
  (forall g x, In g (root :: N1 ++ N0) -> g <= x < g + PGSIZE -> mem st1 x = mem st x) ->
  lookup st root v <> 0 ->
  lookup st1 root v = lookup st root v /\
  load64 (mem st1) (lookup st root v) = load64 (mem st) (lookup st root v).
Proof.
  intros st st1 root N1 N0 KL v Ht Hm Hl.
  assert (Hm1 : forall g x, In g (root :: N1) -> g <= x < g + PGSIZE -> mem st1 x = mem st x).
  { intros g x Hg Hx. apply (Hm g); [|exact Hx].
    destruct Hg as [<-|Hg]; [left; reflexivity|right; apply in_or_app; left; exact Hg]. }
  split; [apply (lookup_same root N1 N0 KL st st1 Ht Hm1)|].
  destruct (lookup_tables st root N1 N0 KL v Ht Hl) as (t1 & t0 & _ & Hin0 & _ & _ & _ & _ & El).
  rewrite El. apply load64_frame; [apply VPN_range|].
  intros x Hx. apply (Hm t0); [|exact Hx]. right. apply in_or_app. right; exact Hin0.
Qed.

Lemma user_leaf_lookup : forall st root v, user_leaf st root v = true -> lookup st root v <> 0.
Proof.
  intros st root v H. unfold user_leaf in H.
  apply andb_true_iff in H. destruct H as (H & _).
  apply andb_true_iff in H. destruct H as (H & _).
  apply negb_true_iff, Z.eqb_neq in H. exact H.
Qed.

Section copyin.
Variables (st : state) (root : Z) (N1 N0 KL : list Z) (dst src len : Z).
Hypothesis Ht : tree_inv st root N1 N0 KL.
Hypothesis Hroot : root <> 0.
Hypothesis Hdst : 0 < dst.
Hypothesis Hdlen : dst + len < 2 ^ 64.
Hypothesis Hsrc : 0 <= src.
Hypothesis Hal : src mod PGSIZE = 0.
Hypothesis Hend : src + len <= TRAMPOLINE.
Hypothesis Hmapped : forall v, src <= v < src + len ->
  user_leaf st root v = true /\ PTE_TO_PA (load64 (mem st) (lookup st root v)) <> 0.
Hypothesis Hoff : forall x, dst <= x < dst + len -> off_frames (root :: N1 ++ N0) x.
Hypothesis Hsep : forall x v, dst <= x < dst + len -> src <= v < src + len ->
  x <> phys st root v.

Lemma copyin_loop_ok : forall n k st1,
  0 <= k <= len -> k = len \/ (src + k) mod PGSIZE = 0 ->
  len - k <= Z.of_nat n ->
  (forall x, mem st1 x = if (dst <=? x) && (x <? dst + k)
                         then mem st (phys st root (src + (x - dst))) else mem st x) ->
  exists st',
    uvm_copyin_loop n st1 root (len - k) (dst + k) (src + k) = Ok st' /\
    (forall x, mem st' x = if (dst <=? x) && (x <? dst + len)
                           then mem st (phys st root (src + (x - dst))) else mem st x) /\
    kern_region st' = kern_region st1 /\ user_region st' = user_region st1.
Proof.
  induction n as [|n IH]; intros k st1 Hk Hka Hn Hinv.
  - assert (k = len) by lia. subst k. exists st1.
    split; [reflexivity|]. split; [exact Hinv|split; reflexivity].
  - destruct (Z.eq_dec k len) as [->|Hne].
    { exists st1. rewrite Z.sub_diag, sc_copyin_done.
      split; [reflexivity|]. split; [exact Hinv|split; reflexivity]. }
    destruct Hka as [->|Hka]; [contradiction|].
    assert (Hlt : k < len) by lia.
    cbn [uvm_copyin_loop].
    assert (E0 : (0 <? len - k) = true) by (apply Z.ltb_lt; lia).
    rewrite E0. cbn [negb].
    destruct (Hmapped (src + k) ltac:(lia)) as (Hu & Hnz).
    pose proof (user_leaf_lookup _ _ _ Hu) as Hl.
    assert (Hm : forall g x, In g (root :: N1 ++ N0) -> g <= x < g + PGSIZE ->
              mem st1 x = mem st x).
    { intros g x Hg Hx. rewrite Hinv.
      destruct (Z.leb_spec dst x); destruct (Z.ltb_spec x (dst + k)); cbn [andb];
        try reflexivity.
      exfalso. pose proof (Hoff x ltac:(lia) g Hg). lia. }
    destruct (leaf_stable st st1 root N1 N0 KL (src + k) Ht Hm Hl) as (El1 & Ee1).
    assert (Hu1 : user_leaf st1 root (src + k) = true).
    { unfold user_leaf in *. rewrite El1, Ee1. exact Hu. }
    assert (Hnz1 : PTE_TO_PA (load64 (mem st1) (lookup st1 root (src + k))) <> 0).
    { rewrite El1, Ee1. exact Hnz. }
    assert (Hstr : src + k < TRAMPOLINE) by lia.
    destruct (sc_get_phys_hit st1 root (src + k) Hroot Hstr Hu1 Hnz1) as (Eg & Hr).
    rewrite Eg. cbn [bind]. rewrite El1, Ee1 in *.
    set (F := PTE_TO_PA (load64 (mem st) (lookup st root (src + k)))) in *.
    rewrite Hka in *. rewrite Z.add_0_r in *.
    assert (E6 : (F =? 0) = false) by (apply Z.eqb_neq; lia).
    rewrite E6. cbn [negb assert bind]. cbv zeta.
    rewrite Z.sub_0_r.
    set (c := if len - k <? PGSIZE then len - k else PGSIZE).
    assert (Hc : 0 < c <= len - k /\ c <= PGSIZE /\ (c = len - k \/ c = PGSIZE)).
    { unfold c. destruct (Z.ltb_spec (len - k) PGSIZE); unfold PGSIZE in *; lia. }
    rewrite (Z.add_0_r F). rewrite (wrap64_small F) by lia.
    rewrite (wrap64_small (dst + k + c)) by lia.
    assert (HT : TRAMPOLINE < 2 ^ 64) by (vm_compute; reflexivity).
    rewrite (wrap64_small (src + k + c)) by lia.
    replace (len - k - c) with (len - (k + c)) by lia.
    replace (dst + k + c) with (dst + (k + c)) by lia.
    replace (src + k + c) with (src + (k + c)) by lia.
    destruct (IH (k + c) (set_mem st1 (memmove (mem st1) (dst + k) F c)))
      as (st' & Hloop & Hfin & Hkr & Hur).
    + lia.
    + destruct Hc as (_ & _ & [Hc|Hc]); [left; lia|right].
      rewrite Hc. replace (src + (k + PGSIZE)) with (src + k + 1 * PGSIZE) by lia.
      rewrite Z.mod_add by (unfold PGSIZE; lia). exact Hka.
    + lia.
    + intros x. cbn [set_mem mem]. unfold memmove.
      destruct (Z.leb_spec (dst + k) x); destruct (Z.ltb_spec x (dst + k + c)); cbn [andb].
      * replace ((dst <=? x) && (x <? dst + (k + c))) with true
          by (symmetry; apply andb_true_iff; split; [apply Z.leb_le|apply Z.ltb_lt]; lia).
        replace (src + (x - dst)) with (src + k + (x - (dst + k))) by lia.
        rewrite (phys_page st root (src + k) (x - (dst + k)) Hka) by lia. fold F.
        rewrite Hinv.
        destruct (Z.leb_spec dst (F + (x - (dst + k))));
          destruct (Z.ltb_spec (F + (x - (dst + k))) (dst + k)); cbn [andb]; try reflexivity.
        exfalso.
        apply (Hsep (F + (x - (dst + k))) (src + k + (x - (dst + k)))); [lia|lia|].
        rewrite (phys_page st root (src + k) (x - (dst + k)) Hka) by lia. reflexivity.
      * rewrite Hinv.
        destruct (Z.leb_spec dst x); destruct (Z.ltb_spec x (dst + k));
          destruct (Z.ltb_spec x (dst + (k + c))); cbn [andb]; try reflexivity; lia.
      * rewrite Hinv.
        destruct (Z.leb_spec dst x); destruct (Z.ltb_spec x (dst + k));
          destruct (Z.ltb_spec x (dst + (k + c))); cbn [andb]; try reflexivity; lia.
      * rewrite Hinv.
        destruct (Z.leb_spec dst x); destruct (Z.ltb_spec x (dst + k));
          destruct (Z.ltb_spec x (dst + (k + c))); cbn [andb]; try reflexivity; lia.
    + exists st'. split; [exact Hloop|]. split; [exact Hfin|].
      split; [rewrite Hkr|rewrite Hur]; reflexivity.
Qed.

End copyin.

Section copyout.
Variables (st : state) (root : Z) (N1 N0 KL : list Z) (dst src len : Z).
Hypothesis Ht : tree_inv st root N1 N0 KL.
Hypothesis Hroot : root <> 0.
Hypothesis Hsrc : 0 < src.
Hypothesis Hslen : src + len < 2 ^ 64.
Hypothesis Hdst : 0 <= dst.
Hypothesis Hal : dst mod PGSIZE = 0.
Hypothesis Hend : dst + len <= TRAMPOLINE.
Hypothesis Hmapped : forall v, dst <= v < dst + len ->
  user_leaf st root v = true /\ PTE_TO_PA (load64 (mem st) (lookup st root v)) <> 0.
Hypothesis Hoff : forall v, dst <= v < dst + len ->
  off_frames (root :: N1 ++ N0) (phys st root v).
Hypothesis Hsep : forall x v, src <= x < src + len -> dst <= v < dst + len ->
  x <> phys st root v.
Hypothesis Hinj : forall v v', dst <= v < dst + len -> dst <= v' < dst + len ->
  phys st root v = phys st root v' -> v = v'.

Lemma copyout_loop_ok : forall n k st1,
  0 <= k <= len -> k = len \/ (dst + k) mod PGSIZE = 0 ->
  len - k <= Z.of_nat n ->
  (forall i, 0 <= i < k -> mem st1 (phys st root (dst + i)) = mem st (src + i)) ->
  (forall x, (forall i, 0 <= i < k -> x <> phys st root (dst + i)) -> mem st1 x = mem st x) ->
  exists st',
    uvm_copyout_loop n st1 root (len - k) (dst + k) (src + k) = Ok st' /\
    (forall i, 0 <= i < len -> mem st' (phys st root (dst + i)) = mem st (src + i)) /\
    (forall x, (forall i, 0 <= i < len -> x <> phys st root (dst + i)) ->
       mem st' x = mem st x) /\
    kern_region st' = kern_region st1 /\ user_region st' = user_region st1.
Proof.
  induction n as [|n IH]; intros k st1 Hk Hka Hn Hdone Hrest.
  - assert (k = len) by lia. subst k. exists st1.
    split; [reflexivity|]. split; [exact Hdone|]. split; [exact Hrest|split; reflexivity].
  - destruct (Z.eq_dec k len) as [->|Hne].
    { exists st1. rewrite Z.sub_diag, sc_copyout_done.
      split; [reflexivity|]. split; [exact Hdone|]. split; [exact Hrest|split; reflexivity]. }
    destruct Hka as [->|Hka]; [contradiction|].
    assert (Hlt : k < len) by lia.
    cbn [uvm_copyout_loop].
    assert (E0 : (0 <? len - k) = true) by (apply Z.ltb_lt; lia).
    rewrite E0. cbn [negb].
    destruct (Hmapped (dst + k) ltac:(lia)) as (Hu & Hnz).
    pose proof (user_leaf_lookup _ _ _ Hu) as Hl.
    assert (Hm : forall g x, In g (root :: N1 ++ N0) -> g <= x < g + PGSIZE ->
              mem st1 x = mem st x).
    { intros g x Hg Hx. apply Hrest. intros i Hi E.
      pose proof (Hoff (dst + i) ltac:(lia) g Hg) as Ho. rewrite <- E in Ho. lia. }
    destruct (leaf_stable st st1 root N1 N0 KL (dst + k) Ht Hm Hl) as (El1 & Ee1).
    assert (Hu1 : user_leaf st1 root (dst + k) = true).
    { unfold user_leaf in *. rewrite El1, Ee1. exact Hu. }
    assert (Hnz1 : PTE_TO_PA (load64 (mem st1) (lookup st1 root (dst + k))) <> 0).
    { rewrite El1, Ee1. exact Hnz. }
    assert (Hstr : dst + k < TRAMPOLINE) by lia.
    destruct (sc_get_phys_hit st1 root (dst + k) Hroot Hstr Hu1 Hnz1) as (Eg & Hr).
    rewrite Eg. cbn [bind]. rewrite El1, Ee1 in *.
    set (F := PTE_TO_PA (load64 (mem st) (lookup st root (dst + k)))) in *.
    rewrite Hka in *. rewrite Z.add_0_r in *.
    assert (E6 : (F =? 0) = false) by (apply Z.eqb_neq; lia).
    rewrite E6. cbn [negb assert bind]. cbv zeta.
    rewrite Z.sub_0_r.
    set (c := if len - k <? PGSIZE then len - k else PGSIZE).
    assert (Hc : 0 < c <= len - k /\ c <= PGSIZE /\ (c = len - k \/ c = PGSIZE)).
    { unfold c. destruct (Z.ltb_spec (len - k) PGSIZE); unfold PGSIZE in *; lia. }
    rewrite (Z.add_0_r F). rewrite (wrap64_small F) by lia.
    assert (HT : TRAMPOLINE < 2 ^ 64) by (vm_compute; reflexivity).
    rewrite (wrap64_small (dst + k + c)) by lia.
    rewrite (wrap64_small (src + k + c)) by lia.
    replace (len - k - c) with (len - (k + c)) by lia.
    replace (dst + k + c) with (dst + (k + c)) by lia.
    replace (src + k + c) with (src + (k + c)) by lia.
    assert (HF : forall j, 0 <= j < c -> phys st root (dst + (k + j)) = F + j).
    { intros j Hj. replace (dst + (k + j)) with (dst + k + j) by lia.
      rewrite (phys_page st root (dst + k) j Hka) by lia. reflexivity. }
    destruct (IH (k + c) (set_mem st1 (memmove (mem st1) F (src + k) c)))
      as (st' & Hloop & Hfin1 & Hfin2 & Hkr & Hur).
    + lia.
    + destruct Hc as (_ & _ & [Hc|Hc]); [left; lia|right].
      rewrite Hc. replace (dst + (k + PGSIZE)) with (dst + k + 1 * PGSIZE) by lia.
      rewrite Z.mod_add by (unfold PGSIZE; lia). exact Hka.
    + lia.
    + intros i Hi. cbn [set_mem mem]. unfold memmove.
      destruct (Z_lt_dec i k) as [Hik|Hik].
      * assert (Hout : ~ (F <= phys st root (dst + i) < F + c)).
        { intros Hin.
          assert (E : phys st root (dst + i)
                      = phys st root (dst + (k + (phys st root (dst + i) - F)))).
          { rewrite HF by lia. lia. }
          apply Hinj in E; lia. }
        destruct (Z.leb_spec F (phys st root (dst + i)));
          destruct (Z.ltb_spec (phys st root (dst + i)) (F + c)); cbn [andb];
          try (apply Hdone; lia). lia.
      * replace (dst + i) with (dst + (k + (i - k))) by lia.
        rewrite HF by lia.
        replace ((F <=? F + (i - k)) && (F + (i - k) <? F + c)) with true
          by (symmetry; apply andb_true_iff; split; [apply Z.leb_le|apply Z.ltb_lt]; lia).
        replace (src + k + (F + (i - k) - F)) with (src + i) by lia.
        apply Hrest. intros i' Hi' E. apply (Hsep (src + i) (dst + i')); [lia|lia|exact E].
    + intros x Hx. cbn [set_mem mem]. unfold memmove.
      destruct (Z.leb_spec F x); destruct (Z.ltb_spec x (F + c)); cbn [andb].
      * exfalso. apply (Hx (k + (x - F))); [lia|]. rewrite HF by lia. lia.
      * apply Hrest. intros i Hi. apply Hx. lia.
      * apply Hrest. intros i Hi. apply Hx. lia.
      * apply Hrest. intros i Hi. apply Hx. lia.
    + exists st'. split; [exact Hloop|]. split; [exact Hfin1|]. split; [exact Hfin2|].
      split; [rewrite Hkr|rewrite Hur]; reflexivity.
Qed.

End copyout.
End syscall_copy_pages.

(** X20. 系统调用, [uvm_copyin] from a page-aligned user address: when
    every page of the user buffer has a valid user leaf with a non-null
    frame, and the kernel buffer overlaps neither the page tables nor
    the bytes of the user buffer, the call completes, byte [i] of the
    kernel buffer is then the byte that the user address [src + i]
    names, whatever the number of pages the buffer spans, and nothing
    else has changed. *)
Theorem syscall_copyin_aligned : forall st root N1 N0 KL dst src len,
  Syscall.tree_inv st root N1 N0 KL ->
  root <> 0 -> 0 < dst -> 0 < len -> dst + len < 2 ^ 64 ->
  0 <= src -> src mod PGSIZE = 0 -> src + len <= Syscall.TRAMPOLINE ->
  (forall v, src <= v < src + len ->
     Syscall.user_leaf st root v = true /\
     PTE_TO_PA (load64 (Syscall.mem st) (Syscall.lookup st root v)) <> 0) ->
  (forall x, dst <= x < dst + len -> off_frames (root :: N1 ++ N0) x) ->
  (forall x v, dst <= x < dst + len -> src <= v < src + len -> x <> Syscall.phys st root v) ->
  exists st',
    Syscall.uvm_copyin st root dst src len = Ok st' /\
    (forall i, 0 <= i < len ->
       Syscall.mem st' (dst + i) = Syscall.mem st (Syscall.phys st root (src + i))) /\
    (forall x, x < dst \/ dst + len <= x -> Syscall.mem st' x = Syscall.mem st x) /\
    Syscall.kern_region st' = Syscall.kern_region st /\
    Syscall.user_region st' = Syscall.user_region st.
Proof.
  intros st root N1 N0 KL dst src len Ht Hroot Hdst Hlen Hdlen Hsrc Hal Hend Hmap Hoff Hsep.
  destruct (copyin_loop_ok st root N1 N0 KL dst src len Ht Hroot Hdst Hdlen Hsrc Hend
              Hmap Hoff Hsep (Z.to_nat len) 0 st) as (st' & Hloop & Hfin & Hkr & Hur).
  - lia.
  - right. rewrite Z.add_0_r. exact Hal.
  - lia.
  - intros x. destruct (Z.leb_spec dst x); destruct (Z.ltb_spec x (dst + 0)); cbn [andb];
      try reflexivity; lia.
  - exists st'. split.
    + unfold Syscall.uvm_copyin.
      assert (E1 : (len =? 0) = false) by (apply Z.eqb_neq; lia).
      assert (E2 : (root =? 0) = false) by (apply Z.eqb_neq; exact Hroot).
      assert (E3 : (dst =? 0) = false) by (apply Z.eqb_neq; lia).
      assert (E4 : (Syscall.TRAMPOLINE <=? src) = false) by (apply Z.leb_gt; lia).
      rewrite E1, E2, E3, E4. cbn [orb].
      rewrite Z.sub_0_r, !Z.add_0_r in Hloop. exact Hloop.
    + split; [|split; [|split; assumption]].
      * intros i Hi. rewrite Hfin.
        replace ((dst <=? dst + i) && (dst + i <? dst + len)) with true
          by (symmetry; apply andb_true_iff; split; [apply Z.leb_le|apply Z.ltb_lt]; lia).
        do 3 f_equal. lia.
      * intros x Hx. rewrite Hfin.
        destruct (Z.leb_spec dst x); destruct (Z.ltb_spec x (dst + len)); cbn [andb];
          try reflexivity; lia.
Qed.

(** X21. 系统调用, [uvm_copyout] to a page-aligned user address: when
    every page of the user buffer has a valid user leaf with a non-null
    frame, different user addresses of the buffer name different bytes,
    these bytes lie off the page tables and the kernel buffer does not
    overlap them, the call completes, the byte that the user address
    [dst + i] names is then byte [i] of the kernel buffer, whatever the
    number of pages the buffer spans, and nothing else has changed. *)
Theorem syscall_copyout_aligned : forall st root N1 N0 KL dst src len,
  Syscall.tree_inv st root N1 N0 KL ->
  root <> 0 -> 0 < src -> 0 < len -> src + len < 2 ^ 64 ->
  0 <= dst -> dst mod PGSIZE = 0 -> dst + len <= Syscall.TRAMPOLINE ->
  (forall v, dst <= v < dst + len ->
     Syscall.user_leaf st root v = true /\
     PTE_TO_PA (load64 (Syscall.mem st) (Syscall.lookup st root v)) <> 0) ->
  (forall v, dst <= v < dst + len -> off_frames (root :: N1 ++ N0) (Syscall.phys st root v)) ->
  (forall x v, src <= x < src + len -> dst <= v < dst + len -> x <> Syscall.phys st root v) ->
  (forall v v', dst <= v < dst + len -> dst <= v' < dst + len ->
     Syscall.phys st root v = Syscall.phys st root v' -> v = v') ->
  exists st',
    Syscall.uvm_copyout st root dst src len = Ok st' /\
    (forall i, 0 <= i < len ->
       Syscall.mem st' (Syscall.phys st root (dst + i)) = Syscall.mem st (src + i)) /\
    (forall x, (forall i, 0 <= i < len -> x <> Syscall.phys st root (dst + i)) ->
       Syscall.mem st' x = Syscall.mem st x) /\
    Syscall.kern_region st' = Syscall.kern_region st /\
    Syscall.user_region st' = Syscall.user_region st.
Proof.
  intros st root N1 N0 KL dst src len Ht Hroot Hsrc Hlen Hslen Hdst Hal Hend Hmap Hoff Hsep
         Hinj.
  destruct (copyout_loop_ok st root N1 N0 KL dst src len Ht Hroot Hsrc Hslen Hdst Hend
              Hmap Hoff Hsep Hinj (Z.to_nat len) 0 st) as (st' & Hloop & Hf1 & Hf2 & Hkr & Hur).
  - lia.
  - right. rewrite Z.add_0_r. exact Hal.
  - lia.
  - intros i Hi. lia.
  - intros x _. reflexivity.
  - exists st'. split.
    + unfold Syscall.uvm_copyout.
      assert (E1 : (len =? 0) = false) by (apply Z.eqb_neq; lia).
      assert (E2 : (root =? 0) = false) by (apply Z.eqb_neq; exact Hroot).
      assert (E3 : (src =? 0) = false) by (apply Z.eqb_neq; lia).
      assert (E4 : (Syscall.TRAMPOLINE <=? dst) = false) by (apply Z.leb_gt; lia).
      rewrite E1, E2, E3, E4. cbn [orb].
      rewrite Z.sub_0_r, !Z.add_0_r in Hloop. exact Hloop.
    + split; [exact Hf1|]. split; [exact Hf2|]. split; assumption.
Qed.

(** Every byte of a page with a user leaf. *)
Lemma page_bytes : forall st root page F off v,
  page mod PGSIZE = 0 ->
  Syscall.user_leaf st root page = true ->
  PTE_TO_PA (load64 (Syscall.mem st) (Syscall.lookup st root page)) = F ->
  F <> 0 -> 0 <= off < PGSIZE -> v = page + off ->
  Syscall.user_leaf st root v = true /\
  PTE_TO_PA (load64 (Syscall.mem st) (Syscall.lookup st root v)) <> 0 /\
  Syscall.phys st root v = F + off.
Proof.
  intros st root page F off v Hal Hu HF Hnz Ho ->.
  unfold Syscall.user_leaf in *. rewrite phys_page by assumption.
  rewrite !lookup_page by assumption. rewrite HF.
  split; [exact Hu|]. split; [exact Hnz|reflexivity].
Qed.

(** The two user pages of [grow_end], at 0x1000 and 0x2000, and where
    they lie. *)
Lemma grow_end_pages : forall v, 0x1000 <= v < 0x2800 ->
  Syscall.user_leaf Syscall.grow_end Syscall.small_root v = true /\
  PTE_TO_PA (load64 (Syscall.mem Syscall.grow_end)
               (Syscall.lookup Syscall.grow_end Syscall.small_root v)) <> 0 /\
  (v < 0x2000 -> Syscall.phys Syscall.grow_end Syscall.small_root v = 0x8040F000 + (v - 0x1000)) /\
  (0x2000 <= v -> Syscall.phys Syscall.grow_end Syscall.small_root v = 0x8040D000 + (v - 0x2000)).
Proof.
  assert (A1 : Syscall.user_leaf Syscall.grow_end Syscall.small_root 0x1000 = true)
    by (vm_compute; reflexivity).
  assert (A2 : PTE_TO_PA (load64 (Syscall.mem Syscall.grow_end)
                 (Syscall.lookup Syscall.grow_end Syscall.small_root 0x1000)) = 0x8040F000)
    by (vm_compute; reflexivity).
  assert (B1 : Syscall.user_leaf Syscall.grow_end Syscall.small_root 0x2000 = true)
    by (vm_compute; reflexivity).
  assert (B2 : PTE_TO_PA (load64 (Syscall.mem Syscall.grow_end)
                 (Syscall.lookup Syscall.grow_end Syscall.small_root 0x2000)) = 0x8040D000)
    by (vm_compute; reflexivity).
  assert (M1 : 0x1000 mod PGSIZE = 0) by reflexivity.
  assert (M2 : 0x2000 mod PGSIZE = 0) by reflexivity.
  assert (Z1 : 0x8040F000 <> 0) by lia.
  assert (Z2 : 0x8040D000 <> 0) by lia.
  intros v Hv. destruct (Z_lt_dec v 0x2000) as [Hlt|Hge].
  - assert (Ho : 0 <= v - 0x1000 < PGSIZE) by (unfold PGSIZE; lia).
    assert (Ev : v = 0x1000 + (v - 0x1000)) by lia.
    destruct (page_bytes Syscall.grow_end Syscall.small_root 0x1000 0x8040F000 (v - 0x1000) v
                M1 A1 A2 Z1 Ho Ev) as (H1 & H2 & H3).
    split; [exact H1|]. split; [exact H2|]. split; [intros _; exact H3|intros X; lia].
  - assert (Ho : 0 <= v - 0x2000 < PGSIZE) by (unfold PGSIZE; lia).
    assert (Ev : v = 0x2000 + (v - 0x2000)) by lia.
    destruct (page_bytes Syscall.grow_end Syscall.small_root 0x2000 0x8040D000 (v - 0x2000) v
                M2 B1 B2 Z2 Ho Ev) as (H1 & H2 & H3).
    split; [exact H1|]. split; [exact H2|]. split; [intros X; lia|intros _; exact H3].
Qed.

Lemma grow_end_tables :
  Syscall.small_root :: Syscall.grow_N1 ++ Syscall.grow_N0 = [0x8040E000; 0x80407000; 0x80406000].
Proof. vm_compute. reflexivity. Qed.

(** X20 at an example: a page and a half copied in from 0x1000 of the
    address space [grow_end], whose pages at 0x1000 and 0x2000 lie in
    different frames, to a kernel buffer at 0x80000000. *)
Lemma syscall_copyin_aligned_witness :
  Syscall.tree_inv Syscall.grow_end Syscall.small_root Syscall.grow_N1 Syscall.grow_N0
    Syscall.grow_KL /\
  Syscall.small_root <> 0 /\ 0 < 0x80000000 /\ 0 < 0x1800 /\ 0x80000000 + 0x1800 < 2 ^ 64 /\
  0 <= 0x1000 /\ 0x1000 mod PGSIZE = 0 /\ 0x1000 + 0x1800 <= Syscall.TRAMPOLINE /\
  (forall v, 0x1000 <= v < 0x1000 + 0x1800 ->
     Syscall.user_leaf Syscall.grow_end Syscall.small_root v = true /\
     PTE_TO_PA (load64 (Syscall.mem Syscall.grow_end)
                  (Syscall.lookup Syscall.grow_end Syscall.small_root v)) <> 0) /\
  (forall x, 0x80000000 <= x < 0x80000000 + 0x1800 ->
     off_frames (Syscall.small_root :: Syscall.grow_N1 ++ Syscall.grow_N0) x) /\
  (forall x v, 0x80000000 <= x < 0x80000000 + 0x1800 -> 0x1000 <= v < 0x1000 + 0x1800 ->
     x <> Syscall.phys Syscall.grow_end Syscall.small_root v) /\
  exists st',
    Syscall.uvm_copyin Syscall.grow_end Syscall.small_root 0x80000000 0x1000 0x1800 = Ok st' /\
    (forall i, 0 <= i < 0x1800 ->
       Syscall.mem st' (0x80000000 + i)
       = Syscall.mem Syscall.grow_end
           (Syscall.phys Syscall.grow_end Syscall.small_root (0x1000 + i))).
Proof.
  assert (H1 : Syscall.tree_inv Syscall.grow_end Syscall.small_root Syscall.grow_N1
                 Syscall.grow_N0 Syscall.grow_KL).
  { apply tree_invb_sound. vm_compute. reflexivity. }
  assert (H2 : Syscall.small_root <> 0) by (vm_compute; intros E; discriminate E).
  assert (H3 : 0 < 0x80000000) by lia.
  assert (H4 : 0 < 0x1800) by lia.
  assert (H5 : 0x80000000 + 0x1800 < 2 ^ 64) by lia.
  assert (H6 : 0 <= 0x1000) by lia.
  assert (H7 : 0x1000 mod PGSIZE = 0) by reflexivity.
  assert (H8 : 0x1000 + 0x1800 <= Syscall.TRAMPOLINE) by (vm_compute; intros E; discriminate E).
  assert (H9 : forall v, 0x1000 <= v < 0x1000 + 0x1800 ->
     Syscall.user_leaf Syscall.grow_end Syscall.small_root v = true /\
     PTE_TO_PA (load64 (Syscall.mem Syscall.grow_end)
                  (Syscall.lookup Syscall.grow_end Syscall.small_root v)) <> 0).
  { intros v Hv. destruct (grow_end_pages v ltac:(lia)) as (A & B & _). split; assumption. }
  assert (H10 : forall x, 0x80000000 <= x < 0x80000000 + 0x1800 ->
     off_frames (Syscall.small_root :: Syscall.grow_N1 ++ Syscall.grow_N0) x).
  { intros x Hx g Hg. rewrite grow_end_tables in Hg.
    destruct Hg as [<-|[<-|[<-|[]]]]; unfold PGSIZE; lia. }
  assert (H11 : forall x v, 0x80000000 <= x < 0x80000000 + 0x1800 ->
     0x1000 <= v < 0x1000 + 0x1800 ->
     x <> Syscall.phys Syscall.grow_end Syscall.small_root v).
  { intros x v Hx Hv. destruct (grow_end_pages v ltac:(lia)) as (_ & _ & P1 & P2).
    destruct (Z_lt_dec v 0x2000); [rewrite P1 by lia|rewrite P2 by lia]; lia. }
  split; [exact H1|]. split; [exact H2|]. split; [exact H3|]. split; [exact H4|].
  split; [exact H5|]. split; [exact H6|]. split; [exact H7|]. split; [exact H8|].
  split; [exact H9|]. split; [exact H10|]. split; [exact H11|].
  destruct (syscall_copyin_aligned Syscall.grow_end Syscall.small_root Syscall.grow_N1
              Syscall.grow_N0 Syscall.grow_KL 0x80000000 0x1000 0x1800
              H1 H2 H3 H4 H5 H6 H7 H8 H9 H10 H11) as (st' & Hc & Hb & _).
  exists st'. split; [exact Hc|exact Hb].
Defined.

(** X21 at an example: a page and a half copied out from a kernel
    buffer at 0x80000000 to 0x1000 of the address space [grow_end]. *)
Lemma syscall_copyout_aligned_witness :
  Syscall.tree_inv Syscall.grow_end Syscall.small_root Syscall.grow_N1 Syscall.grow_N0
    Syscall.grow_KL /\
  Syscall.small_root <> 0 /\ 0 < 0x80000000 /\ 0 < 0x1800 /\ 0x80000000 + 0x1800 < 2 ^ 64 /\
  0 <= 0x1000 /\ 0x1000 mod PGSIZE = 0 /\ 0x1000 + 0x1800 <= Syscall.TRAMPOLINE /\
  (forall v, 0x1000 <= v < 0x1000 + 0x1800 ->
     Syscall.user_leaf Syscall.grow_end Syscall.small_root v = true /\
     PTE_TO_PA (load64 (Syscall.mem Syscall.grow_end)
                  (Syscall.lookup Syscall.grow_end Syscall.small_root v)) <> 0) /\
  (forall v, 0x1000 <= v < 0x1000 + 0x1800 ->
     off_frames (Syscall.small_root :: Syscall.grow_N1 ++ Syscall.grow_N0)
                (Syscall.phys Syscall.grow_end Syscall.small_root v)) /\
  (forall x v, 0x80000000 <= x < 0x80000000 + 0x1800 -> 0x1000 <= v < 0x1000 + 0x1800 ->
     x <> Syscall.phys Syscall.grow_end Syscall.small_root v) /\
  (forall v v', 0x1000 <= v < 0x1000 + 0x1800 -> 0x1000 <= v' < 0x1000 + 0x1800 ->
     Syscall.phys Syscall.grow_end Syscall.small_root v
     = Syscall.phys Syscall.grow_end Syscall.small_root v' -> v = v') /\
  exists st',
    Syscall.uvm_copyout Syscall.grow_end Syscall.small_root 0x1000 0x80000000 0x1800 = Ok st' /\
    (forall i, 0 <= i < 0x1800 ->
       Syscall.mem st' (Syscall.phys Syscall.grow_end Syscall.small_root (0x1000 + i))
       = Syscall.mem Syscall.grow_end (0x80000000 + i)).
Proof.
  assert (H1 : Syscall.tree_inv Syscall.grow_end Syscall.small_root Syscall.grow_N1
                 Syscall.grow_N0 Syscall.grow_KL).
  { apply tree_invb_sound. vm_compute. reflexivity. }
  assert (H2 : Syscall.small_root <> 0) by (vm_compute; intros E; discriminate E).
  assert (H3 : 0 < 0x80000000) by lia.
  assert (H4 : 0 < 0x1800) by lia.
  assert (H5 : 0x80000000 + 0x1800 < 2 ^ 64) by lia.
  assert (H6 : 0 <= 0x1000) by lia.
  assert (H7 : 0x1000 mod PGSIZE = 0) by reflexivity.
  assert (H8 : 0x1000 + 0x1800 <= Syscall.TRAMPOLINE) by (vm_compute; intros E; discriminate E).
  assert (H9 : forall v, 0x1000 <= v < 0x1000 + 0x1800 ->
     Syscall.user_leaf Syscall.grow_end Syscall.small_root v = true /\
     PTE_TO_PA (load64 (Syscall.mem Syscall.grow_end)
                  (Syscall.lookup Syscall.grow_end Syscall.small_root v)) <> 0).
  { intros v Hv. destruct (grow_end_pages v ltac:(lia)) as (A & B & _). split; assumption. }
  assert (H10 : forall v, 0x1000 <= v < 0x1000 + 0x1800 ->
     off_frames (Syscall.small_root :: Syscall.grow_N1 ++ Syscall.grow_N0)
                (Syscall.phys Syscall.grow_end Syscall.small_root v)).
  { intros v Hv g Hg. rewrite grow_end_tables in Hg.
    destruct (grow_end_pages v ltac:(lia)) as (_ & _ & P1 & P2).
    destruct (Z_lt_dec v 0x2000); [rewrite P1 by lia|rewrite P2 by lia];
      destruct Hg as [<-|[<-|[<-|[]]]]; unfold PGSIZE; lia. }
  assert (H11 : forall x v, 0x80000000 <= x < 0x80000000 + 0x1800 ->
     0x1000 <= v < 0x1000 + 0x1800 ->
     x <> Syscall.phys Syscall.grow_end Syscall.small_root v).
  { intros x v Hx Hv. destruct (grow_end_pages v ltac:(lia)) as (_ & _ & P1 & P2).
    destruct (Z_lt_dec v 0x2000); [rewrite P1 by lia|rewrite P2 by lia]; lia. }
  assert (H12 : forall v v', 0x1000 <= v < 0x1000 + 0x1800 -> 0x1000 <= v' < 0x1000 + 0x1800 ->
     Syscall.phys Syscall.grow_end Syscall.small_root v
     = Syscall.phys Syscall.grow_end Syscall.small_root v' -> v = v').
  { intros v v' Hv Hv'.
    destruct (grow_end_pages v ltac:(lia)) as (_ & _ & P1 & P2).
    destruct (grow_end_pages v' ltac:(lia)) as (_ & _ & Q1 & Q2).
    destruct (Z_lt_dec v 0x2000); [rewrite P1 by lia|rewrite P2 by lia];
      (destruct (Z_lt_dec v' 0x2000); [rewrite Q1 by lia|rewrite Q2 by lia]); lia. }
  split; [exact H1|]. split; [exact H2|]. split; [exact H3|]. split; [exact H4|].
  split; [exact H5|]. split; [exact H6|]. split; [exact H7|]. split; [exact H8|].
  split; [exact H9|]. split; [exact H10|]. split; [exact H11|]. split; [exact H12|].
  destruct (syscall_copyout_aligned Syscall.grow_end Syscall.small_root Syscall.grow_N1
              Syscall.grow_N0 Syscall.grow_KL 0x1000 0x80000000 0x1800
              H1 H2 H3 H4 H5 H6 H7 H8 H9 H10 H11 H12) as (st' & Hc & Hb & _).
  exists st'. split; [exact Hc|exact Hb].
Defined.


(** ** 系统调用: the kernel buffer of [uvm_copyin] and [uvm_copyin_str] *)

Section syscall_copy_bounds.
Import Syscall.

Lemma store8_other : forall m a v x, x <> a -> store8 m a v x = m x.
Proof. intros m a v x H. unfold store8. destruct (Z.eqb_spec x a); [contradiction|reflexivity]. Qed.

Lemma load8_store8_same : forall m a v, load8 (store8 m a v) a = v mod 256.
Proof.
  intros m a v. unfold load8, store8. rewrite Z.eqb_refl.
  apply Z.mod_mod. lia.
Qed.

(** The byte loop writes [n] bytes at most, from [dst_buf + i] on, and
    stops behind a zero byte it has written. *)
Lemma copy_str_bytes_spec : forall n m d s i m1 found,
  copy_str_bytes n m d s i = (m1, found) ->
  (forall x, x < d + i \/ d + i + Z.of_nat n <= x -> m1 x = m x) /\
  (found = true -> exists j, i <= j < i + Z.of_nat n /\ load8 m1 (d + j) = 0).
Proof.
  induction n as [|n IH]; intros m d s i m1 found H.
  - cbn [copy_str_bytes] in H. injection H as <- <-.
    split; [intros; reflexivity|intros X; discriminate X].
  - cbn [copy_str_bytes] in H. cbv zeta in H.
    destruct (load8 (store8 m (d + i) (load8 m (s + i))) (d + i) =? 0) eqn:Hz.
    + injection H as <- <-. split.
      * intros x Hx. apply store8_other. lia.
      * intros _. exists i. split; [lia|]. apply Z.eqb_eq in Hz. exact Hz.
    + destruct (IH _ _ _ _ _ _ H) as (Hout & Hnul). split.
      * intros x Hx. rewrite Hout by lia. apply store8_other. lia.
      * intros Hf. destruct (Hnul Hf) as (j & Hj & Ej). exists j. split; [lia|exact Ej].
Qed.

(** The loop of [uvm_copyin_str] from [k] bytes on. *)
Lemma copyin_str_loop_spec : forall n st pgtbl dst maxlen k src fnd st' found,
  0 <= k <= maxlen -> 0 <= dst -> dst + maxlen < 2 ^ 64 ->
  uvm_copyin_str_loop n st pgtbl (maxlen - k) (dst + k) src fnd = Ok (st', found) ->
  (forall x, x < dst \/ dst + maxlen <= x -> mem st' x = mem st x) /\
  kern_region st' = kern_region st /\ user_region st' = user_region st /\
  (found = true -> fnd = false ->
   exists j, 0 <= j < maxlen /\ load8 (mem st') (dst + j) = 0).
Proof.
  induction n as [|n IH]; intros st pgtbl dst maxlen k src fnd st' found Hk Hd Hdm H.
  - cbn [uvm_copyin_str_loop] in H. injection H as <- <-.
    split; [intros; reflexivity|]. split; [reflexivity|]. split; [reflexivity|].
    intros -> X. discriminate X.
  - cbn [uvm_copyin_str_loop] in H.
    destruct (negb ((0 <? maxlen - k) && negb fnd)) eqn:Hgo.
    { injection H as <- <-.
      split; [intros; reflexivity|]. split; [reflexivity|]. split; [reflexivity|].
      intros -> X. discriminate X. }
    apply negb_false_iff, andb_true_iff in Hgo. destruct Hgo as (Hrem & Hnf).
    apply Z.ltb_lt in Hrem. apply negb_true_iff in Hnf. subst fnd.
    destruct (uvm_get_phys_addr st pgtbl src) as [pa|msg|]; cbn [bind] in H; try discriminate.
    destruct (negb (pa =? 0)); cbn [assert bind] in H; [|discriminate].
    cbv zeta in H.
    pose proof (Z.mod_pos_bound src PGSIZE ltac:(unfold PGSIZE; lia)) as Ho.
    set (c := if maxlen - k <? PGSIZE - src mod PGSIZE
              then maxlen - k else PGSIZE - src mod PGSIZE) in *.
    assert (Hc : 0 < c <= maxlen - k).
    { unfold c. destruct (Z.ltb_spec (maxlen - k) (PGSIZE - src mod PGSIZE)); lia. }
    clearbody c.
    destruct (copy_str_bytes (Z.to_nat c) (mem st) (dst + k)
                (wrap64 (pa + src mod PGSIZE)) 0) as [m1 f1] eqn:Hb.
    destruct (copy_str_bytes_spec _ _ _ _ _ _ _ Hb) as (Hout & Hnul).
    rewrite Z2Nat.id in Hout, Hnul by lia.
    set (a0 := if f1 then strlen (Z.to_nat c) m1 (dst + k) + 1 else c) in *.
    set (a := if maxlen - k <? a0 then maxlen - k else a0) in *.
    assert (Hm1 : forall x, x < dst \/ dst + maxlen <= x -> m1 x = mem st x).
    { intros x Hx. apply Hout. lia. }
    destruct f1.
    + (* a zero byte was copied: the loop stops *)
      destruct n as [|n]; cbn [uvm_copyin_str_loop] in H.
      * injection H as <- <-. cbn [set_mem mem kern_region user_region].
        split; [exact Hm1|]. split; [reflexivity|]. split; [reflexivity|].
        intros _ _. destruct (Hnul eq_refl) as (j & Hj & Ej).
        exists (k + j). split; [lia|]. rewrite Z.add_assoc. exact Ej.
      * rewrite andb_false_r in H. cbn [negb] in H.
        injection H as <- <-. cbn [set_mem mem kern_region user_region].
        split; [exact Hm1|]. split; [reflexivity|]. split; [reflexivity|].
        intros _ _. destruct (Hnul eq_refl) as (j & Hj & Ej).
        exists (k + j). split; [lia|]. rewrite Z.add_assoc. exact Ej.
    + (* no zero byte in this chunk *)
      assert (Ea : a = c).
      { unfold a, a0. destruct (Z.ltb_spec (maxlen - k) c); lia. }
      rewrite Ea in H.
      rewrite (wrap64_small (dst + k + c)) in H by lia.
      replace (maxlen - k - c) with (maxlen - (k + c)) in H by lia.
      replace (dst + k + c) with (dst + (k + c)) in H by lia.
      assert (Hk2 : 0 <= k + c <= maxlen) by lia.
      destruct (IH _ _ dst maxlen (k + c) _ _ _ _ Hk2 Hd Hdm H) as (Hout' & Hk' & Hu' & Hn').
      cbn [set_mem mem kern_region user_region] in *.
      split; [intros x Hx; rewrite Hout' by exact Hx; apply Hm1; exact Hx|].
      split; [exact Hk'|]. split; [exact Hu'|].
      intros Hf _. apply Hn'; [exact Hf|reflexivity].
Qed.

(** The loop of [uvm_copyin] from [k] bytes on. *)
Lemma copyin_loop_bound : forall n st pgtbl dst len k src st',
  0 <= k <= len -> 0 <= dst -> dst + len < 2 ^ 64 ->
  uvm_copyin_loop n st pgtbl (len - k) (dst + k) src = Ok st' ->
  (forall x, x < dst \/ dst + len <= x -> mem st' x = mem st x) /\
  kern_region st' = kern_region st /\ user_region st' = user_region st.
Proof.
  induction n as [|n IH]; intros st pgtbl dst len k src st' Hk Hd Hdl H.
  - cbn [uvm_copyin_loop] in H. injection H as <-.
    split; [intros; reflexivity|split; reflexivity].
  - cbn [uvm_copyin_loop] in H.
    destruct (0 <? len - k) eqn:Hrem; cbn [negb] in H.
    2:{ injection H as <-. split; [intros; reflexivity|split; reflexivity]. }
    apply Z.ltb_lt in Hrem.
    destruct (uvm_get_phys_addr st pgtbl src) as [pa|msg|]; cbn [bind] in H; try discriminate.
    destruct (negb (pa =? 0)); cbn [assert bind] in H; [|discriminate].
    cbv zeta in H.
    pose proof (Z.mod_pos_bound src PGSIZE ltac:(unfold PGSIZE; lia)) as Ho.
    set (c := if len - k <? PGSIZE - src mod PGSIZE
              then len - k else PGSIZE - src mod PGSIZE) in *.
    assert (Hc : 0 < c <= len - k).
    { unfold c. destruct (Z.ltb_spec (len - k) (PGSIZE - src mod PGSIZE)); lia. }
    clearbody c.
    rewrite (wrap64_small (dst + k + c)) in H by lia.
    replace (len - k - c) with (len - (k + c)) in H by lia.
    replace (dst + k + c) with (dst + (k + c)) in H by lia.
    assert (Hk2 : 0 <= k + c <= len) by lia.
    destruct (IH _ _ dst len (k + c) _ _ Hk2 Hd Hdl H) as (Hout & Hk' & Hu').
    cbn [set_mem mem kern_region user_region] in *.
    split; [|split; assumption].
    intros x Hx. rewrite Hout by exact Hx. apply memmove_other. lia.
Qed.

End syscall_copy_bounds.

(** X22. 系统调用, [uvm_copyin_str]: whatever the page table and the
    user address, a call that returns has written no byte outside the
    [maxlen] bytes of the kernel buffer, has left both region records
    alone, and, when it has passed the guards at its entry, has left a
    zero byte among the [maxlen] bytes of the buffer: the copy stopped
    behind a zero byte of the string, or the last byte of the buffer
    was set to zero. *)
Theorem syscall_copyin_str_bounded : forall st pgtbl dst src maxlen st',
  0 <= dst -> 0 <= maxlen -> dst + maxlen < 2 ^ 64 ->
  Syscall.uvm_copyin_str st pgtbl dst src maxlen = Ok st' ->
  (forall x, x < dst \/ dst + maxlen <= x -> Syscall.mem st' x = Syscall.mem st x) /\
  Syscall.kern_region st' = Syscall.kern_region st /\
  Syscall.user_region st' = Syscall.user_region st /\
  (0 < maxlen -> pgtbl <> 0 -> dst <> 0 -> src < Syscall.TRAMPOLINE ->
   exists j, 0 <= j < maxlen /\ load8 (Syscall.mem st') (dst + j) = 0).
Proof.
  intros st pgtbl dst src maxlen st' Hd Hm Hdm H.
  unfold Syscall.uvm_copyin_str in H.
  destruct ((maxlen =? 0) || (pgtbl =? 0) || (dst =? 0) || (Syscall.TRAMPOLINE <=? src))
    eqn:Hg.
  { injection H as <-. split; [intros; reflexivity|]. split; [reflexivity|].
    split; [reflexivity|]. intros H1 H2 H3 H4. exfalso.
    apply orb_true_iff in Hg. destruct Hg as [Hg|Hg]; [|apply Z.leb_le in Hg; lia].
    apply orb_true_iff in Hg. destruct Hg as [Hg|Hg]; [|apply Z.eqb_eq in Hg; lia].
    apply orb_true_iff in Hg. destruct Hg as [Hg|Hg]; apply Z.eqb_eq in Hg; lia. }
  destruct (Syscall.uvm_copyin_str_loop (Z.to_nat maxlen) st pgtbl maxlen dst src false)
    as [[st1 found]|msg|] eqn:Hl; cbn [bind] in H; try discriminate.
  replace maxlen with (maxlen - 0) in Hl at 2 by lia.
  replace dst with (dst + 0) in Hl at 1 by lia.
  assert (Hk0 : 0 <= 0 <= maxlen) by lia.
  destruct (copyin_str_loop_spec _ _ _ dst maxlen 0 _ _ _ _ Hk0 Hd Hdm Hl)
    as (Hout & Hk & Hu & Hn).
  destruct found; cbn [negb andb] in H.
  - injection H as <-. split; [exact Hout|]. split; [exact Hk|]. split; [exact Hu|].
    intros _ _ _ _. apply Hn; reflexivity.
  - destruct (Z.ltb_spec 0 maxlen) as [Hpos|Hz].
    + injection H as <-. cbn [Syscall.set_mem Syscall.mem Syscall.kern_region
                               Syscall.user_region].
      split; [|split; [exact Hk|split; [exact Hu|]]].
      * intros x Hx. rewrite store8_other by lia. apply Hout. exact Hx.
      * intros _ _ _ _. exists (maxlen - 1). split; [lia|].
        rewrite load8_store8_same. reflexivity.
    + injection H as <-. split; [exact Hout|]. split; [exact Hk|]. split; [exact Hu|].
      intros X. lia.
Qed.

(** X23. 系统调用, [uvm_copyin]: whatever the page table, the user
    address and the mappings, a call that returns has written no byte
    outside the [len] bytes of the kernel buffer and has left both
    region records alone. *)
Theorem syscall_copyin_bounded : forall st pgtbl dst src len st',
  0 <= dst -> 0 <= len -> dst + len < 2 ^ 64 ->
  Syscall.uvm_copyin st pgtbl dst src len = Ok st' ->
  (forall x, x < dst \/ dst + len <= x -> Syscall.mem st' x = Syscall.mem st x) /\
  Syscall.kern_region st' = Syscall.kern_region st /\
  Syscall.user_region st' = Syscall.user_region st.
Proof.
  intros st pgtbl dst src len st' Hd Hlen Hdl H.
  unfold Syscall.uvm_copyin in H.
  destruct ((len =? 0) || (pgtbl =? 0) || (dst =? 0) || (Syscall.TRAMPOLINE <=? src)).
  { injection H as <-. split; [intros; reflexivity|split; reflexivity]. }
  replace len with (len - 0) in H at 2 by lia.
  replace dst with (dst + 0) in H at 1 by lia.
  assert (Hk0 : 0 <= 0 <= len) by lia.
  exact (copyin_loop_bound _ _ _ dst len 0 _ _ Hk0 Hd Hdl H).
Qed.

(** X22 at an example: sixteen bytes at most copied from the data page
    of [small_root], which holds eight marked bytes and then zeros. *)
Lemma syscall_copyin_str_bounded_witness :
  (0 <= 0x80000000 /\ 0 <= 16 /\ 0x80000000 + 16 < 2 ^ 64 /\
   Syscall.uvm_copyin_str Syscall.small_state Syscall.small_root 0x80000000 0x1000 16
   = Ok Syscall.copyin_str_end) /\
  (forall x, x < 0x80000000 \/ 0x80000000 + 16 <= x ->
     Syscall.mem Syscall.copyin_str_end x = Syscall.mem Syscall.small_state x) /\
  Syscall.kern_region Syscall.copyin_str_end = Syscall.kern_region Syscall.small_state /\
  Syscall.user_region Syscall.copyin_str_end = Syscall.user_region Syscall.small_state /\
  (0 < 16 -> Syscall.small_root <> 0 -> 0x80000000 <> 0 -> 0x1000 < Syscall.TRAMPOLINE ->
   exists j, 0 <= j < 16 /\ load8 (Syscall.mem Syscall.copyin_str_end) (0x80000000 + j) = 0).
Proof.
  assert (H1 : 0 <= 0x80000000) by lia.
  assert (H2 : 0 <= 16) by lia.
  assert (H3 : 0x80000000 + 16 < 2 ^ 64) by lia.
  assert (H4 : Syscall.uvm_copyin_str Syscall.small_state Syscall.small_root 0x80000000 0x1000 16
               = Ok Syscall.copyin_str_end).
  { unfold Syscall.copyin_str_end. apply get_ok_eq. vm_compute. reflexivity. }
  split; [exact (conj H1 (conj H2 (conj H3 H4)))|].
  exact (syscall_copyin_str_bounded Syscall.small_state Syscall.small_root 0x80000000 0x1000 16
           Syscall.copyin_str_end H1 H2 H3 H4).
Defined.

(** X23 at an example: sixteen bytes copied from the data page of
    [small_root]. *)
Lemma syscall_copyin_bounded_witness :
  (0 <= 0x80000000 /\ 0 <= 16 /\ 0x80000000 + 16 < 2 ^ 64 /\
   Syscall.uvm_copyin Syscall.small_state Syscall.small_root 0x80000000 0x1000 16
   = Ok Syscall.copyin_end) /\
  (forall x, x < 0x80000000 \/ 0x80000000 + 16 <= x ->
     Syscall.mem Syscall.copyin_end x = Syscall.mem Syscall.small_state x) /\
  Syscall.kern_region Syscall.copyin_end = Syscall.kern_region Syscall.small_state /\
  Syscall.user_region Syscall.copyin_end = Syscall.user_region Syscall.small_state.
Proof.
  assert (H1 : 0 <= 0x80000000) by lia.
  assert (H2 : 0 <= 16) by lia.
  assert (H3 : 0x80000000 + 16 < 2 ^ 64) by lia.
  assert (H4 : Syscall.uvm_copyin Syscall.small_state Syscall.small_root 0x80000000 0x1000 16
               = Ok Syscall.copyin_end).
  { unfold Syscall.copyin_end. apply get_ok_eq. vm_compute. reflexivity. }
  split; [exact (conj H1 (conj H2 (conj H3 H4)))|].
  exact (syscall_copyin_bounded Syscall.small_state Syscall.small_root 0x80000000 0x1000 16
           Syscall.copyin_end H1 H2 H3 H4).
Defined.
